(* ===== verification/_CoqProject ===== *)
-Q . S2P
Prelude.v
Locks.v
GoStrings.v
GoSort.v
NetIP.v
GoURL.v
GoJSON.v
Kube.v
Client.v
Provider.v
IPAM.v
Status.v
Backends.v
Store.v
Render.v
ExternalIPs.v
Engine.v
FilePath.v
Apply.v
IPAttach.v
GoTime.v
Config.v
Metrics.v
Controller.v
Convergence.v
Cache.v
Effects.v
WorkQueue.v
HTTPApi.v
DataplaneAPI.v
HAProxyProvider.v
ControllerMain.v
DataplaneConfig.v
Dataplane.v
Server.v
DataplaneMain.v
StartupLog.v
System.v
Progress.v
Settling.v
Concurrency.v
TestUtils.v
Witnesses.v
LoopWitnesses.v
