(* ===== verification/Prelude.v ===== *)
(** * k8s-lb-controller: a verification library

    k8s-lb-controller gives Kubernetes Services of type LoadBalancer an external IPv4
    address and configures HAProxy to serve them.  The program has two binaries.  The
    _controller_ (src/cmd/main.go) watches Services and EndpointSlices; for each Service
    of its class it puts a finalizer in place, allocates an address from a configured
    pool, discovers the ready backends, hands the desired state to a _provider_, and
    publishes the address in the Service's status.  A provider is a mock, a local HAProxy
    configuration, or a client of the second binary.  The _dataplane_
    (src/cmd/dataplane/main.go) keeps the desired state of all Services in memory,
    renders one HAProxy configuration from it, replaces the active file atomically,
    reloads HAProxy, and attaches the external addresses to a network interface.

    ** Conventions

    A Go function that returns [(T, error)] is a function to [result E T]; the error
    types are sums with one constructor per place an error is made.  State is passed
    explicitly: an operation on a world [W] has type [W -> W * result E T].  Code outside
    the repository (the API server client, HAProxy's commands, the [ip] command, the
    netlink library, controller-runtime's and client-go's constructors, the network
    between the two binaries, the dotenv parser, the Unicode case tables) is a parameter:
    a record of operations or a class, with the documented behaviour the program relies
    on as its laws.  Go's standard library is modelled where the program calls it.  Go
    maps are finite maps ([gmap]), and where the program ranges over one the result is
    shown not to depend on the order.  [int32] ports are [Z]; durations are [Z]
    nanoseconds with [int64] bounds.  Logging is modelled only where a theorem is about
    what is logged.  The operations are modelled as atomic.  For the engine's RWMutex this
    is a theorem: Concurrency.v has the operations step by step, with the calls of the
    lock where the code has them, and shows that interleaved requests have the effect of
    the atomic ones in some order.  The other mutexes (of the providers) are held from
    the first to the last access; the one of the instrumented provider is released before
    the gauge is set, see [track_race].

    ** Files

    - Prelude.v: [result], its monad, error wrapping, the tactics [bool_props] and [dec],
      the hint databases [lb] and [lb_rw], generic list lemmas.
    - Locks.v: programs that share a state under a [sync.RWMutex], their interleavings,
      and what holds of programs that access the state inside the lock only.
    - GoStrings.v, GoSort.v, NetIP.v, FilePath.v, GoTime.v, GoURL.v, GoJSON.v: the parts
      of Go's [strings], [strconv], [unicode/utf8], [sort], [slices], [net/netip],
      [path/filepath], [time], [net/url] and [encoding/json] the program calls, with
      their theory (UTF-8, trimming, IPv4 and IPv6 text, sorting as an interface,
      binary64 fractions of durations, URLs that survive printing and parsing, JSON that
      survives encoding and decoding).
    - Kube.v, Client.v: the Kubernetes objects and the API client: its operations as a
      record, its contract [ClientSpec], and [Fake], an in-memory API server with
      injected faults that meets it.
    - Provider.v: src/internal/provider: the data model, the [Provider] interface with
      its contract [ProviderSpec], and the mock provider ([Mock]).
    - IPAM.v: src/internal/ipam: [ParsePool] and [Allocate].
    - Status.v: src/internal/status.    Backends.v: src/internal/backends.
    - Metrics.v: src/internal/metrics: counters, gauge, the instrumented provider, the
      registration of the collectors.
    - Config.v: src/internal/config.
    - Controller.v: src/internal/controller: [Reconcile] and all it calls, the watch
      filters, the requests an EndpointSlice gives rise to.  Convergence.v: what a second
      reconciliation does.  Cache.v: [Reconcile] with a client that reads from an
      informer cache, as the manager's client does.  Effects.v: what one reconciliation
      may change, and runs in which others change anything.  WorkQueue.v: [Reconcile] in the loop
      that controller-runtime runs around it, with the watches of [SetupWithManager].
    - Store.v, Render.v, ExternalIPs.v, Engine.v, Apply.v, HTTPApi.v:
      src/internal/dataplane, one file of the model per Go file; the engine works against
      the classes [ApplierSpec], [IPManagerSpec] and [EngineFrame], the HTTP handler on
      top of the engine.
    - IPAttach.v: src/internal/dataplane/ipattach: the exec and netlink managers, the one
      that does nothing, which is the default, and the Linux netlink client; all three
      managers are shown to meet [IPManagerSpec], the Linux client to meet what the
      netlink manager needs of it.  The kernel may remove the secondary addresses of a
      subnet with the primary one; the managers meet the contract when it promotes them
      or the managed prefix length is 32, the default ([secondaries_kept]).
    - HAProxyProvider.v: src/internal/provider/haproxy.
    - DataplaneAPI.v: src/internal/provider/dataplaneapi: the HTTP client of the
      dataplane; [Transport] is the contract of the network in between.
    - ControllerMain.v: src/cmd/main.go and src/internal/controller/setup.go: start-up,
      choice of the provider, inspection of the kubeconfig, redaction of URLs, and
      ([Shutdown]) the two threads of the graceful shutdown as a step relation.
    - DataplaneConfig.v: src/internal/dataplane/config.go.
    - Dataplane.v, Server.v: [NewEngine] and src/cmd/dataplane/main.go; the engine, the
      applier and the managers put together on one host, and the server in front of them.
      DataplaneMain.v: the goroutine that serves, the signal and [main] as a step
      relation.
    - StartupLog.v: [main] of src/cmd/main.go with everything it writes.
    - System.v: controller, network and dataplane together.  Progress.v: when a
      reconciliation succeeds.  Settling.v: when the loop of WorkQueue.v comes to rest.
    - Concurrency.v: the engine and the HTTP handler as programs over the lock of
      Locks.v, one thread per request; the tracking of Services in metrics.go.
    - TestUtils.v: src/test/utils, the helpers of the end-to-end tests.
    - Witnesses.v, LoopWitnesses.v: concrete instances of every parameter, and a concrete
      run for every theorem with hypotheses.

    ** What is shown

    - The system end to end: with a started controller, a network that may lose messages
      and a started dataplane that has answered any requests, a reconciliation that
      succeeds has published an address of the pool that no other live managed Service
      publishes, and the dataplane serves the Service with it, on the interface too when
      attachment is enabled (C2).  When nothing fails
      and an address is free, it succeeds for exactly the Services that have TCP ports
      only (C5); what the controller sends is otherwise always valid
      (C22).  A dataplane that was restarted serves exactly the Services
      that have been handed over to it since, if there are any (C21).
    - The controller, for any API server that meets [ClientSpec] and any provider that
      meets [ProviderSpec], with failures at any call: whatever others do to the cluster
      in between, two live managed Services publish the same pool address only when
      somebody else gave one of them an address since it was last reconciled (C1); where
      others leave status and finalizer to the controller ([user_change]), addresses stay
      unique ([reconcile_unique_ips]) and no provider state is orphaned, each held Service
      exists and has the finalizer (C11); the effect of one reconciliation on managed,
      deleted and released Services on all branches (C13, C15, C24); a second
      reconciliation only reads (C20).  [ClientSpec] asks for reads that are current,
      which the client of the manager does not promise.  With a client that reads from a
      cache, addresses stay unique as long as the cache shows the addresses that are
      published (C9), and not otherwise (C39).  Also its metrics ([Reconcile_metrics])
      and the watch filters ([service_predicate_correct], [endpointSlice_requests]).
    - The loop around it, with current reads: in every state that others, who may change
      anything, failing calls and the worker can bring about, a Service that exists and
      has no waiting request is in order, or the filter of the watch has dropped an
      update of it that keeps its generation (C3).  Where others leave status and
      finalizer to the controller and no such update was dropped, an empty queue means
      that the provider holds exactly the live managed Services, each with the address it
      publishes (C6); [nothing_missed] says when none is.  Once the calls work, the
      provider accepts the definitions, and there are enough addresses, one turn per
      request empties the queue (C4).  The loop is an assumption about controller-runtime:
      one worker, requests in a set, changes reported before the next turn, a request that
      failed or asked for a delay put back.  Of the API server it is assumed that a
      changed EndpointSlice gets a new version.
    - Allocation is sound, complete, and stable (C25, C26,
      [Allocate_stable]); pool parsing ([ParsePool_correct]); status publication
      ([update_status_correct]); discovery finds exactly the wanted backends
      (C27), in an order-independent way ([Discover_order_independent]).
    - The dataplane: what [Ensure] and [Delete] do to store, configuration and addresses
      on success and on every error, rollback included (C12, C16), exact restoration
      (C17), an invariant of all reachable states
      (C14), progress ([EngineEnsure_succeeds]); from start-up
      ([startDataplane_correct]) on, a successful call leaves store, active file and
      interface in agreement (C7).  Concurrent requests are served as if
      one after the other (C8), and all are answered
      (C23).  The exit code and the log of the process tell why it ended (C36).
    - The HTTP API: which requests reach the engine and what they do (C18), decoding of
      bodies (C31), which port numbers are accepted (C33), and that the client's payload is
      decoded unchanged (C32).
    - The API provider over a network that may lose messages is the engine up to
      reported errors (C19), and exactly the engine when nothing is
      lost ([api_provider_reliable]); [remote_ensure_serves] follows one call of it down
      to the HAProxy file.
    - The applier: atomic replacement of the active file under any system call failures
      (C10), clean-up after a rejected document ([validate_failure_clean]).
    - Rendering: the exact document (C28) and when there is one
      ([Render_total]), independence of orders ([Render_order_independent]), no injection
      through names or texts (C30, [identifiers_safe]).
    - Providers: the local provider is transactional (C29), the instrumented
      one is transparent ([instrumented_correct]).  [engine_provider_spec], [haproxy_spec],
      [mock_spec], [instrumented_spec] and [api_provider_spec] discharge [ProviderSpec],
      so the controller's theorems apply to each of them.
    - The controller binary: start-up (C34), what it says when it fails (C35),
      kubeconfig inspection ([diagnose_correct]), no credentials in the log ([redactURL_correct]); the shutdown
      is announced at most once ([shutdown_announced_once]) and terminates
      ([shutdown_terminates]).
    - Configuration and text formats: [Load_correct], [LoadConfig_correct],
      [LoadDotEnv_correct], [normalizeConfig_correct], the output of [ip addr show]
      ([parseManagedInterfaceAddrs_show]), [prefixFromIPNet_prefixToIPNet].
    - The test helpers: [UncommentCode] undoes a comment (C37), cert-manager is removed
      and installed as meant ([Uninstall_complete], [Install_waits]) and recognized
      ([CRDs_installed]).
    - Defects: a cache that lags lets two Services have one address
      (C39); a failed reload is not retried
      (C38); identifiers of different Services can collide
      (C40); the managed-services gauge forgets the provider's
      contents on restart, against its help text ([gauge_after_restart]); the path of a
      request is decoded twice ([path_decoded_twice]); the announcement of a shutdown can
      be lost ([shutdown_announcement_lost]); a start-up that stops because of the
      kubeconfig can end without a word (C35, [startup_silent]); [UncommentCode] loses
      the last line break of its target, and everything from a very long line on
      (C37); a status that somebody else clears is not written again, since the filter
      drops the update ([cleared_status_stays]); with a prefix length below 32 the kernel
      may take the addresses of other Services away with one that is deleted
      ([secondary_address_lost]); port numbers above 65535 are accepted (C33).  With more
      than one worker the gauge could
      stay behind the number of Services ([gauge_behind]); controller-runtime's default,
      which the program keeps, is one.

    ** Bounds and fuel

    Recursion is structural except in five files.  The loops over bytes of GoStrings.v
    ([trim_left_go], [trim_right_go], [decode_go], [fields_go], [replace_go]) and over
    the terms of a duration in GoTime.v ([duration_terms]) consume at least one byte per
    step and are given the length of the text as fuel; [trim_left_fuel],
    [trim_right_fuel], [decode_fuel], [fields_fuel], [replace_fuel] and [duration_fuel]
    show that more fuel gives the same result.  So do [quote_fuel] and [unquote_fuel] for
    the strings of GoJSON.v; its scanner has twice the length of the text and one more,
    for a byte is consumed at least at every second call ([scan_fuel]).  The loop of
    [UncommentCode] takes a byte of the target per line ([uncomment_fuel]).  The loops over
    the groups of an IPv6 address in NetIP.v ([zero_run], [string6_go], [parseIPv6_loop])
    run at most eight turns in Go too, one per group.  A run of the
    controller's shutdown has at most ten steps ([shutdown_terminates]); in the dataplane
    process, which may serve for ever, [main] takes at most three (C36).  Programs over a lock
    are finite trees, so every interleaving ends without fuel ([terminates]).

    ** What is not modelled

    The text of log lines beyond what the theorems name (the lines of [Reconcile], of the
    HTTP handlers and of the dataplane's start-up); the texts of errors made by other
    packages; controller-runtime's manager with its watches and its queue, and the
    connections of [net/http]: what the program does around them is modelled, and they
    are parameters or, for the queue, the assumptions above; several workers at once, which
    the program does not ask for; the Prometheus library beyond the names of the
    collectors and the values of counters and gauge; [net/url]'s tolerance for
    comma-separated hosts of database URLs, which no scheme accepted here has; the
    registration of client-go's types in [init].  Not Go code, and so outside the model: the
    manifests, the Helm chart, the container images and the scripts of the repository.
*)
From stdpp Require Export prelude gmap strings list sorting pretty.
From Stdlib Require Export Ascii.

(** ** Results: Go's [(T, error)] return pairs

    Every fallible function of the program returns its value together with an
    error that callers test first; the value is the zero value whenever the
    error is set.  [result] keeps exactly that information. *)
Inductive result (E A : Type) : Type :=
| Ok (a : A)
| Err (e : E).
Global Arguments Ok {E A} _.
Global Arguments Err {E A} _.

#[global] Instance result_ret {E} : MRet (result E) := λ A a, Ok a.
#[global] Instance result_bind {E} : MBind (result E) := λ A B f r,
  match r with Ok a => f a | Err e => Err e end.
#[global] Instance result_fmap {E} : FMap (result E) := λ A B f r,
  match r with Ok a => Ok (f a) | Err e => Err e end.
#[global] Instance result_eq_dec {E A} `{EqDecision E, EqDecision A} :
  EqDecision (result E A).
Proof. solve_decision. Defined.

(** [fmt.Errorf] with a verb for the cause: wrapping maps the error only. *)
Definition wrapE {E E' A} (f : E → E') (r : result E A) : result E' A :=
  match r with Ok a => Ok a | Err e => Err (f e) end.

Definition is_Ok {E A} (r : result E A) : bool :=
  match r with Ok _ => true | Err _ => false end.

(** An early return: [if cond { return err }]. *)
Definition guardE {E} (b : bool) (e : E) : result E () :=
  if b then Ok () else Err e.

(** [for _, x := range l { if err := f(x); err != nil { return err } }] *)
Fixpoint forE {E A} (f : A → result E ()) (l : list A) : result E () :=
  match l with
  | [] => Ok ()
  | x :: l => match f x with Ok _ => forE f l | Err e => Err e end
  end.

Lemma forE_Ok {E A} (f : A → result E ()) l :
  forE f l = Ok () ↔ ∀ x, x ∈ l → f x = Ok ().
Proof.
  induction l as [|x l IH]; simpl; [set_solver|].
  destruct (f x) as [[]|e] eqn:Hx.
  - rewrite IH. set_solver.
  - split; [done|]. intros H. specialize (H x). rewrite Hx in H. set_solver.
Qed.

Lemma forE_Err {E A} (f : A → result E ()) l e :
  forE f l = Err e ↔
  ∃ l1 x l2, l = l1 ++ x :: l2 ∧ f x = Err e ∧ ∀ y, y ∈ l1 → f y = Ok ().
Proof.
  split.
  - induction l as [|x l IH]; simpl; [done|]. destruct (f x) as [[]|e'] eqn:Hx.
    + intros (l1 & y & l2 & -> & Hy & Hl1)%IH. exists (x :: l1), y, l2.
      split_and!; [done..|]. intros z [->|Hz]%elem_of_cons; auto.
    + intros [= ->]. exists [], x, l. split_and!; [done..|set_solver].
  - intros (l1 & x & l2 & -> & Hx & Hl1). induction l1 as [|y l1 IH]; simpl.
    + by rewrite Hx.
    + rewrite Hl1 by set_solver. apply IH. set_solver.
Qed.

(** ** The development's hint databases and tactics *)
Create HintDb lb discriminated.
Create Rewrite HintDb lb_rw.

(** Splits boolean connectives into propositions, both in hypotheses and goal. *)
Ltac bool_props :=
  repeat match goal with
  | H : _ && _ = true |- _ => apply andb_true_iff in H as [? ?]
  | H : _ || _ = false |- _ => apply orb_false_iff in H as [? ?]
  | H : negb _ = true |- _ => apply negb_true_iff in H
  | H : negb _ = false |- _ => apply negb_false_iff in H
  | H : bool_decide _ = true |- _ => apply bool_decide_eq_true in H
  | H : bool_decide _ = false |- _ => apply bool_decide_eq_false in H
  end.

(** Case analysis on one decision among several. *)
Tactic Notation "dec" constr(P) "as" ident(H) :=
  destruct (decide P) as [H|H];
  [rewrite ?(bool_decide_eq_true_2 P H)|rewrite ?(bool_decide_eq_false_2 P H)].

(** ** Generic lemmas on lists *)
Section lists.
Context {A : Type}.
Implicit Types (l : list A) (x : A).

Lemma forallb_spec (f : A → bool) l :
  forallb f l = true ↔ ∀ x, x ∈ l → f x = true.
Proof.
  rewrite forallb_forall. setoid_rewrite list_elem_of_In. done.
Qed.

Lemma existsb_spec (f : A → bool) l :
  existsb f l = true ↔ ∃ x, x ∈ l ∧ f x = true.
Proof.
  rewrite existsb_exists. setoid_rewrite list_elem_of_In. done.
Qed.

Lemma find_first_spec (f : A → bool) l x :
  List.find f l = Some x ↔
  ∃ l1 l2, l = l1 ++ x :: l2 ∧ f x = true ∧ ∀ y, y ∈ l1 → f y = false.
Proof.
  split.
  - induction l as [|y l IH]; simpl; [done|]. destruct (f y) eqn:Hy.
    + intros [= ->]. exists [], l. split_and!; [done..|]. set_solver.
    + intros (l1 & l2 & -> & Hx & Hl)%IH. exists (y :: l1), l2.
      split_and!; [done..|]. intros z [->|Hz]%elem_of_cons; auto.
  - intros (l1 & l2 & -> & Hx & Hl). induction l1 as [|y l1 IH]; simpl.
    + by rewrite Hx.
    + rewrite Hl by set_solver. apply IH. set_solver.
Qed.

Lemma find_none_spec (f : A → bool) l :
  List.find f l = None ↔ ∀ x, x ∈ l → f x = false.
Proof.
  induction l as [|y l IH]; simpl; [set_solver|].
  destruct (f y) eqn:Hy; split.
  - done.
  - intros H. specialize (H y ltac:(set_solver)). congruence.
  - intros H x [->|Hx]%elem_of_cons; [done|]. by apply IH.
  - intros H. apply IH. set_solver.
Qed.
End lists.

#[export] Hint Rewrite @forallb_spec @existsb_spec : lb_rw.
