(* ===== verification/Locks.v ===== *)
(** * Threads and a reader-writer lock

    A thread is a program whose actions on the shared state are single steps, with the
    calls of a [sync.RWMutex] between them.  A configuration interleaves the steps of
    any number of threads in any order.  [disciplined] says that a program touches the
    shared state only while it holds the lock, and only reads it under the read lock;
    for such programs every interleaving is equivalent to running the programs one
    after the other ([linearizable]), no configuration is stuck ([progress]), and every
    run ends ([terminates]). *)
From S2P Require Import Prelude.

(** ** Programs *)
Inductive Prog (S R : Type) : Type :=
| Ret (r : R)
| Act (A : Type) (f : S → S * A) (k : A → Prog S R)
| Lock (k : Prog S R)
| Unlock (k : Prog S R)
| RLock (k : Prog S R)
| RUnlock (k : Prog S R).
Global Arguments Ret {S R} _.
Global Arguments Act {S R} {A} _ _.
Global Arguments Lock {S R} _.
Global Arguments Unlock {S R} _.
Global Arguments RLock {S R} _.
Global Arguments RUnlock {S R} _.

(** What a program does when nothing else runs *)
Fixpoint exec {S R} (p : Prog S R) (s : S) : S * R :=
  match p with
  | Ret r => (s, r)
  | Act f k => exec (k (f s).2) (f s).1
  | Lock k | Unlock k | RLock k | RUnlock k => exec k s
  end.

(** The programs [order] names, one after the other *)
Definition exec_all {S R} (ps : list (Prog S R)) (order : list nat) (s : S) : S :=
  foldl (λ s i, match ps !! i with Some p => (exec p s).1 | None => s end) s order.

(** ** Configurations *)
Record conf (S R : Type) : Type := MkConf {
  shared : S;
  writer : option nat;
  readers : gset nat;
  threads : list (Prog S R);
}.
Global Arguments MkConf {S R} _ _ _ _.
Global Arguments shared {S R} _.
Global Arguments writer {S R} _.
Global Arguments readers {S R} _.
Global Arguments threads {S R} _.

Definition start {S R} (s : S) (ps : list (Prog S R)) : conf S R := MkConf s None ∅ ps.

(** One step of one thread.  An action needs no lock: whether it is protected is the
    discipline of the program. *)
Inductive step {S R} : conf S R → conf S R → Prop :=
| step_act c i A (f : S → S * A) k : threads c !! i = Some (Act f k) →
    step c (MkConf (f (shared c)).1 (writer c) (readers c) (<[i := k (f (shared c)).2]> (threads c)))
| step_lock c i k : threads c !! i = Some (Lock k) → writer c = None → readers c = ∅ →
    step c (MkConf (shared c) (Some i) ∅ (<[i := k]> (threads c)))
| step_unlock c i k : threads c !! i = Some (Unlock k) → writer c = Some i →
    step c (MkConf (shared c) None (readers c) (<[i := k]> (threads c)))
| step_rlock c i k : threads c !! i = Some (RLock k) → writer c = None →
    step c (MkConf (shared c) None ({[i]} ∪ readers c) (<[i := k]> (threads c)))
| step_runlock c i k : threads c !! i = Some (RUnlock k) → i ∈ readers c →
    step c (MkConf (shared c) (writer c) (readers c ∖ {[i]}) (<[i := k]> (threads c))).

(** ** The discipline *)
Inductive mode : Type := Outside | Writing | Reading.

Definition returned {S R} (p : Prog S R) : Prop := match p with Ret _ => True | _ => False end.

Fixpoint disciplined {S R} (m : mode) (p : Prog S R) : Prop :=
  match m, p with
  | Outside, Ret _ => True
  | Outside, Lock k => disciplined Writing k
  | Outside, RLock k => disciplined Reading k
  | Writing, Act f k => ∀ a, disciplined Writing (k a)
  | Writing, Unlock k => returned k
  | Reading, Act f k => (∀ s, (f s).1 = s) ∧ ∀ a, disciplined Reading (k a)
  | Reading, RUnlock k => returned k
  | _, _ => False
  end.

#[export] Instance returned_dec {S R} (p : Prog S R) : Decision (returned p).
Proof. destruct p; cbn; apply _. Defined.

Section locks.
Context {S R : Type}.
Implicit Types (p q : Prog S R) (c : conf S R) (ps : list (Prog S R)).

Lemma reading_exec q s : disciplined Reading q → (exec q s).1 = s.
Proof.
  revert s. induction q as [r|A f k IH|k IH|k IH|k IH|k IH]; intros s Hd; try done; cbn in *.
  - destruct Hd as [Hf Hk]. rewrite IH by done. apply Hf.
  - by destruct k.
Qed.

(** ** Every interleaving is a sequential run *)
Section linear.
Context (ps : list (Prog S R)) (s0 : S).

Notation after order := (exec_all ps order s0).

(** Where a thread is: done at its place in the order, not begun, inside the write
    lock, or inside the read lock with the shared state as it found it *)
Definition thread_ok (order : list nat) c (i : nat) p q : Prop :=
  (∃ n, order !! n = Some i ∧ q = Ret (exec p (after (take n order))).2) ∨
  (i ∉ order ∧ writer c ≠ Some i ∧ i ∉ readers c ∧ q = p) ∨
  (i ∉ order ∧ writer c = Some i ∧ readers c = ∅ ∧ disciplined Writing q ∧ exec q (shared c) = exec p (after order)) ∨
  (i ∉ order ∧ writer c = None ∧ i ∈ readers c ∧ disciplined Reading q ∧ exec q (shared c) = exec p (shared c)).

Definition lock_inv c : Prop :=
  ∃ order, NoDup order ∧ (writer c = None → shared c = after order) ∧
    (∀ i, i ∈ order → (i < length ps)%nat) ∧
    (∀ i, writer c = Some i ∨ i ∈ readers c → (i < length ps)%nat ∧ i ∉ order) ∧
    length (threads c) = length ps ∧
    (∀ i p q, ps !! i = Some p → threads c !! i = Some q → thread_ok order c i p q).

Lemma after_snoc order i p : ps !! i = Some p → after (order ++ [i]) = (exec p (after order)).1.
Proof. intros Hp. unfold exec_all. rewrite foldl_app. cbn. by rewrite Hp. Qed.

Lemma thread_ok_done order i j c c' p q :
  thread_ok order c i p q → i ∈ order → thread_ok (order ++ j) c' i p q.
Proof.
  intros [(n & Hn & ->)|[(? & _)|[(? & _)|(? & _)]]] Hi; [|done..]. left. exists n.
  rewrite lookup_app_l by (by eapply lookup_lt_Some). split; [done|].
  rewrite take_app_le; [done|]. apply lookup_lt_Some in Hn. lia.
Qed.
(** The threads after a step of thread [i] *)
Lemma others_ok order order' c c' i q' :
  length (threads c) = length ps → threads c' = <[i := q']> (threads c) →
  (∀ p, ps !! i = Some p → thread_ok order' c' i p q') →
  (∀ j p q, j ≠ i → ps !! j = Some p → threads c !! j = Some q → thread_ok order c j p q → thread_ok order' c' j p q) →
  (∀ j p q, ps !! j = Some p → threads c !! j = Some q → thread_ok order c j p q) →
  length (threads c') = length ps ∧
  ∀ j p q, ps !! j = Some p → threads c' !! j = Some q → thread_ok order' c' j p q.
Proof.
  intros Hlen Ht Hi Hj Hok. rewrite Ht. split; [by rewrite length_insert|]. intros j p q Hp Hq.
  apply list_lookup_insert_Some in Hq as [(<- & <- & _)|[Hne Hq]]; [by apply Hi|].
  apply (Hj j); [done..|]. by apply Hok.
Qed.

Ltac impossible := exfalso; first [congruence|set_solver].

(** The indices of the order and of the holders after a step of thread [i] *)
Ltac index :=
  match goal with Hord : ∀ i, i ∈ _ → (i < _)%nat, Hhold : ∀ i, _ ∨ _ → _ ∧ _, Hlt : (?i < _)%nat |- _ =>
    let j := fresh "j" in
    intros j ?; destruct (decide (j = i)) as [->|]; cbn in *;
    first [exact Hlt|apply Hord; set_solver|split; [exact Hlt|set_solver]|
           let H1 := fresh in let H2 := fresh in destruct (Hhold j) as [H1 H2]; [set_solver|split; [exact H1|set_solver]]] end.

Lemma step_lock_inv c c' : Forall (disciplined Outside) ps → step c c' → lock_inv c → lock_inv c'.
Proof.
  intros Hd Hst (order & Hnd & Hsh & Hord & Hhold & Hlen & Hok). rewrite Forall_lookup in Hd.
  assert (∀ i q, threads c !! i = Some q → ∃ p, ps !! i = Some p ∧ thread_ok order c i p q) as Hget.
  { intros i q Hq. destruct (lookup_lt_is_Some_2 ps i) as [p Hp]; [rewrite <- Hlen; by eapply lookup_lt_Some|].
    exists p. split; [done|]. by apply Hok. }
  destruct Hst as [c i A f k Hi|c i k Hi Hw Hr|c i k Hi Hw|c i k Hi Hw|c i k Hi Hin];
    destruct (Hget i _ Hi) as (p & Hp & Hcase); pose proof (lookup_lt_Some _ _ _ Hp) as Hlt;
    destruct Hcase as [(n & _ & [=])|[(Ho & Hnw & Hnr & Heq)|[(Ho & Hw' & Hr' & Hq & He)|(Ho & Hw' & Hr' & Hq & He)]]];
    try (pose proof (Hd _ _ Hp) as Hout; rewrite <- Heq in Hout); cbn [disciplined] in *;
    try (exfalso; (assumption || contradiction || congruence)); cbn in *.
  - exists order. split; [done|]. split; [cbn; congruence|]. split; [index|split; [index|]]. apply (others_ok order _ c _ i (k (f (shared c)).2)); try done.
    + intros p' Hp'. assert (p' = p) as -> by congruence. right; right; left. cbn. by split_and!.
    + intros j pj qj Hne _ _ [Hj|[Hj|[(_ & ? & _)|(_ & _ & Hj & _)]]]; [by left|by right; left|impossible|impossible].
  - destruct Hq as [Hf Hk]. exists order. split; [done|]. split; [cbn; rewrite Hf; auto|].
    split; [index|split; [index|]]. apply (others_ok order _ c _ i (k (f (shared c)).2)); try done.
    + intros p' Hp'. assert (p' = p) as -> by congruence. right; right; right. cbn. rewrite Hf in *. split_and!; auto.
    + intros j pj qj Hne _ _ [Hj|[Hj|[(_ & ? & _)|Hj]]]; [by left|by right; left|impossible|].
      right; right; right. cbn. by rewrite Hf.
  - exists order. split; [done|]. split; [done|]. split; [index|split; [index|]]. apply (others_ok order _ c _ i k); try done.
    + intros p' Hp'. assert (p' = p) as -> by congruence. right; right; left. cbn. rewrite <- Heq, <- Hsh by done. by split_and!.
    + intros j pj qj Hne _ _ [Hj|[(? & _ & ? & ?)|[(_ & ? & _)|(_ & _ & Hj & _)]]]; [by left| |impossible|impossible].
      right; left. cbn. split_and!; [done|congruence|set_solver|done].
  - destruct k as [r| | | | |]; try done. cbn in He. exists (order ++ [i]). split.
    { apply NoDup_app. split_and!; [done|set_solver|apply NoDup_singleton]. }
    split; [intros _; cbn; by rewrite (after_snoc _ _ _ Hp), <- He|]. split; [index|split; [index|]]. apply (others_ok order _ c _ i (Ret r)); try done.
    + intros p' Hp'. assert (p' = p) as -> by congruence. left. exists (length order).
      rewrite lookup_app_r, Nat.sub_diag by done. split; [done|]. by rewrite take_app_length, <- He.
    + intros j pj qj Hne _ _ Hj. destruct (decide (j ∈ order)); [by eapply thread_ok_done|].
      destruct Hj as [(n' & Hn & _)|[(? & _ & ? & ?)|[(_ & ? & _)|(_ & _ & ? & _)]]];
        [by apply list_elem_of_lookup_2 in Hn| |impossible|impossible].
      right; left. cbn. split_and!; [set_solver|done|done|done].
  - exists order. split; [done|]. split; [auto|]. split; [index|split; [index|]]. apply (others_ok order _ c _ i k); try done.
    + intros p' Hp'. assert (p' = p) as -> by congruence. right; right; right. cbn. rewrite <- Heq. split_and!; [done|done|set_solver|done|done].
    + intros j pj qj Hne _ _ [Hj|[(? & _ & ? & ?)|[(_ & ? & _)|(? & ? & ? & ? & ?)]]]; [by left| |impossible|].
      * right; left. cbn. split_and!; [done|done|set_solver|done].
      * right; right; right. cbn. split_and!; [done|done|set_solver|done|done].
  - destruct k as [r| | | | |]; try done. cbn in He. exists (order ++ [i]). rewrite (Hsh Hw') in He.
    assert (after (order ++ [i]) = shared c) as Hsame by (rewrite (after_snoc _ _ _ Hp), <- He; cbn; by rewrite Hsh).
    split; [apply NoDup_app; split_and!; [done|set_solver|apply NoDup_singleton]|].
    split; [by intros _|]. split; [index|split; [index|]]. apply (others_ok order _ c _ i (Ret r)); try done.
    + intros p' Hp'. assert (p' = p) as -> by congruence. left. exists (length order).
      rewrite lookup_app_r, Nat.sub_diag by done. split; [done|]. by rewrite take_app_length, <- He.
    + intros j pj qj Hne _ _ Hj. destruct (decide (j ∈ order)); [by eapply thread_ok_done|].
      destruct Hj as [(n' & Hn & _)|[(? & ? & ? & ?)|[(_ & ? & _)|(? & ? & ? & ? & ?)]]];
        [by apply list_elem_of_lookup_2 in Hn| |impossible|].
      * right; left. cbn. split_and!; [set_solver|done|set_solver|done].
      * right; right; right. cbn. split_and!; [set_solver|done|set_solver|done|done].
Qed.
Lemma start_lock_inv : lock_inv (start s0 ps).
Proof.
  exists []. split_and!; [constructor|done|set_solver|cbn; set_solver|done|]. intros i p q Hp Hq. right; left.
  cbn in *. split_and!; [set_solver|done|set_solver|congruence].
Qed.

Lemma reachable_lock_inv c : Forall (disciplined Outside) ps → rtc step (start s0 ps) c → lock_inv c.
Proof.
  intros Hd Hr. pose proof start_lock_inv as Hi. induction Hr as [|c1 c2 c3 Hs _ IH]; [done|].
  eauto using step_lock_inv.
Qed.

(** A thread that holds the lock is inside its section, and can go on by itself. *)
Lemma holder_inside c i :
  lock_inv c → writer c = Some i ∨ i ∈ readers c →
  ∃ q, threads c !! i = Some q ∧
    ((writer c = Some i ∧ disciplined Writing q) ∨ (i ∈ readers c ∧ disciplined Reading q)).
Proof.
  intros (order & _ & _ & _ & Hhold & Hlen & Hok) Hi. destruct (Hhold i Hi) as [Hlt Hno].
  destruct (lookup_lt_is_Some_2 ps i) as [p Hp]; [done|].
  destruct (lookup_lt_is_Some_2 (threads c) i) as [q Hq]; [by rewrite Hlen|]. exists q. split; [done|].
  destruct (Hok i p q Hp Hq) as [(n & Hn & _)|[(_ & ? & ? & _)|[(_ & ? & _ & ? & _)|(_ & _ & ? & ? & _)]]].
  - by apply list_elem_of_lookup_2 in Hn.
  - by destruct Hi.
  - by left.
  - by right.
Qed.

Lemma holder_steps c i : lock_inv c → writer c = Some i ∨ i ∈ readers c → ∃ c', step c c'.
Proof.
  intros Hinv Hi. destruct (holder_inside c i Hinv Hi) as (q & Hq & [[Hw Hd]|[Hr Hd]]); destruct q; try done; eexists;
    first [by eapply step_act|by eapply step_unlock|by eapply step_runlock].
Qed.

(** Programs that have nothing to do *)
Lemma exec_all_returned order rest s :
  (∀ i p, i ∈ rest → ps !! i = Some p → returned p) → exec_all ps (order ++ rest) s = exec_all ps order s.
Proof.
  unfold exec_all. rewrite foldl_app. generalize (foldl (λ s i, match ps !! i with Some p => (exec p s).1 | None => s end) s order).
  induction rest as [|i rest IH]; intros s' Hr; [done|]. cbn. rewrite IH by set_solver.
  destruct (ps !! i) as [p|] eqn:Hp; [|done]. pose proof (Hr i p ltac:(set_solver) Hp). by destruct p.
Qed.

(** *** Linearizability: when every thread has returned, the programs have run one after
    the other in some order, which contains each of them once; the shared state is the
    one of that sequential run, and each thread has returned what its program returns
    at its place. *)
Lemma linearizable c :
  Forall (disciplined Outside) ps → rtc step (start s0 ps) c → Forall returned (threads c) →
  ∃ order, order ≡ₚ seq 0 (length ps) ∧ shared c = after order ∧
    ∀ n i p, order !! n = Some i → ps !! i = Some p → threads c !! i = Some (Ret (exec p (after (take n order))).2).
Proof.
  intros Hd Hr Hall. pose proof (reachable_lock_inv c Hd Hr) as Hinv.
  assert (∀ i, ¬ (writer c = Some i ∨ i ∈ readers c)) as Hfree.
  { intros i Hi. destruct (holder_inside c i Hinv Hi) as (q & Hq & Hin).
    pose proof (Forall_lookup_1 _ _ _ _ Hall Hq). destruct q; try done. naive_solver. }
  destruct Hinv as (order & Hnd & Hsh & Hord & _ & Hlen & Hok).
  set (rest := filter (.∉ order) (seq 0 (length ps))).
  assert (∀ i p, i ∈ rest → ps !! i = Some p → returned p ∧ threads c !! i = Some p) as Hrest.
  { intros i p [Hi _]%list_elem_of_filter Hp.
    destruct (lookup_lt_is_Some_2 (threads c) i) as [q Hq]; [rewrite Hlen; by eapply lookup_lt_Some|].
    pose proof (Forall_lookup_1 _ _ _ _ Hall Hq).
    destruct (Hok i p q Hp Hq) as [(n & Hn & _)|[(_ & _ & _ & ->)|[(_ & ? & _)|(_ & _ & ? & _)]]]; [|done|naive_solver..].
    by apply list_elem_of_lookup_2 in Hn. }
  assert (NoDup (order ++ rest)) as Hnd'.
  { apply NoDup_app. split_and!; [done| |apply NoDup_filter, NoDup_seq]. by intros i Hi [? _]%list_elem_of_filter. }
  exists (order ++ rest). split_and!.
  - apply NoDup_Permutation; [done|apply NoDup_seq|].
    intros i. rewrite elem_of_app. unfold rest. rewrite list_elem_of_filter, elem_of_seq.
    destruct (decide (i ∈ order)) as [Hi|]; [pose proof (Hord i Hi)|]; intuition lia.
  - rewrite exec_all_returned; [|intros; by eapply Hrest]. apply Hsh. destruct (writer c) as [i|] eqn:E; [|done].
    by destruct (Hfree i); left.
  - intros n i p Hn Hp. destruct (decide (i ∈ order)) as [Hi|Hi].
    + destruct (lookup_lt_is_Some_2 (threads c) i) as [q Hq]; [rewrite Hlen; by eapply lookup_lt_Some|]. rewrite Hq. f_equal.
      destruct (Hok i p q Hp Hq) as [(m & Hm & ->)|[(? & _)|[(? & _)|(? & _)]]]; [|done..].
      assert (n = m) as ->.
      { eapply NoDup_lookup; [exact Hnd'|done|]. by apply lookup_app_l_Some. }
      rewrite take_app_le; [done|]. apply lookup_lt_Some in Hm. lia.
    + apply list_elem_of_lookup_2 in Hn as Hin. rewrite elem_of_app in Hin.
      destruct (Hrest i p) as [Hret ->]; [tauto|done|]. by destruct p.
Qed.

(** *** Deadlock freedom: a configuration in which no thread can move has returned from
    every call. *)
Lemma progress c :
  Forall (disciplined Outside) ps → rtc step (start s0 ps) c → (∀ c', ¬ step c c') → Forall returned (threads c).
Proof.
  intros Hd Hr Hstuck. pose proof (reachable_lock_inv c Hd Hr) as Hinv.
  assert (∀ i, ¬ (writer c = Some i ∨ i ∈ readers c)) as Hfree.
  { intros i Hi. destruct (holder_steps c i Hinv Hi) as [c' Hs]. by destruct (Hstuck c'). }
  assert (writer c = None) as Hw by (destruct (writer c) as [i|]; [destruct (Hfree i); by left|done]).
  assert (readers c = ∅) as Hrd by (apply set_eq; intros i; split; [intros ?; destruct (Hfree i); by right|set_solver]).
  destruct Hinv as (order & _ & _ & _ & _ & Hlen & Hok). apply Forall_lookup. intros i q Hq.
  destruct (lookup_lt_is_Some_2 ps i) as [p Hp]; [rewrite <- Hlen; by eapply lookup_lt_Some|].
  destruct (Hok i p q Hp Hq) as [(n & _ & ->)|[(_ & _ & _ & ->)|[(_ & ? & _)|(_ & _ & ? & _)]]]; [done| |naive_solver..].
  pose proof (Forall_lookup_1 _ _ _ _ Hd Hp) as Hout.
  destruct p; try done; exfalso; [eapply (Hstuck _ (step_lock c i p Hq Hw Hrd))|eapply (Hstuck _ (step_rlock c i p Hq Hw))].
Qed.
End linear.

(** ** Every run ends, whatever the schedule and the discipline *)
Definition child (p' p : Prog S R) : Prop :=
  match p with
  | Ret _ => False
  | Act f k => ∃ a, p' = k a
  | Lock k | Unlock k | RLock k | RUnlock k => p' = k
  end.

(** One thread of a list has moved. *)
Definition thread_moved (l' l : list (Prog S R)) : Prop :=
  ∃ i p p', l !! i = Some p ∧ child p' p ∧ l' = <[i := p']> l.

Lemma step_moved c c' : step c c' → thread_moved (threads c') (threads c).
Proof. destruct 1; eexists _, _, _; (split; [eassumption|]); (split; [cbn; by eauto|done]). Qed.

Lemma moved_cons_wf p l : Acc thread_moved l → (∀ l, Acc thread_moved l → ∀ p', child p' p → Acc thread_moved (p' :: l)) → Acc thread_moved (p :: l).
Proof.
  intros Hl Hp. induction Hl as [l Hl IH]. constructor. intros l' ([|i] & q & q' & Hq & Hc & ->); cbn in *.
  - injection Hq as ->. apply Hp; [by constructor|done].
  - apply IH. by exists i, q, q'.
Qed.

Lemma acc_cons p l : Acc thread_moved l → Acc thread_moved (p :: l).
Proof.
  revert l. induction p as [r|A f k IH|k IH|k IH|k IH|k IH]; intros l Hl; (apply moved_cons_wf; [done|]);
    intros l' Hl' p' Hc; cbn in Hc; [done|destruct Hc as [a ->]; by apply IH|subst p'; by apply IH..].
Qed.

Lemma moved_wf l : Acc thread_moved l.
Proof.
  induction l as [|p l IH]; [|by apply acc_cons].
  constructor. by intros l' (i & p & p' & Hp & _).
Qed.

(** *** Termination *)
Lemma terminates c : Acc (flip step) c.
Proof.
  assert (∀ l, Acc thread_moved l → ∀ c, threads c = l → Acc (flip step) c) as H.
  { intros l Hl. induction Hl as [l _ IH]. intros c1 <-. constructor. intros c2 Hs.
    apply (IH (threads c2)); [by apply step_moved|done]. }
  by apply (H (threads c)), eq_refl; apply moved_wf.
Qed.

(** *** A thread that finds the lock free can run its program to the end. *)
Definition after_running (i : nat) p c : conf S R :=
  MkConf (exec p (shared c)).1 None ∅ (<[i := Ret (exec p (shared c)).2]> (threads c)).

Lemma run_inside p c i :
  threads c !! i = Some p →
  (disciplined Writing p ∧ writer c = Some i ∧ readers c = ∅) ∨
  (disciplined Reading p ∧ writer c = None ∧ readers c = {[i]}) → rtc step c (after_running i p c).
Proof.
  unfold after_running. revert c. induction p as [r|A f k IH|k IH|k IH|k IH|k IH]; intros c Hi Hc;
    try (by destruct Hc as [[[] _]|[[] _]]).
  - eapply rtc_l; [by apply step_act|].
    pose proof (IH (f (shared c)).2 (MkConf (f (shared c)).1 (writer c) (readers c) (<[i := k (f (shared c)).2]> (threads c)))) as Hk.
    cbn in Hk. rewrite list_insert_insert_eq in Hk. apply Hk.
    + apply list_lookup_insert_eq. by eapply lookup_lt_Some.
    + destruct Hc as [(Hd & ? & ?)|([_ Hd] & ? & ?)]; [left|right]; by split_and!; [apply Hd|..].
  - destruct Hc as [(Hd & Hw & Hr)|[[] _]]. destruct k as [r| | | | |]; try done. apply rtc_once.
    rewrite <- Hr. by apply step_unlock.
  - destruct Hc as [[[] _]|(Hd & Hw & Hr)]. destruct k as [r| | | | |]; try done. apply rtc_once. cbn.
    rewrite <- Hw. replace (∅ : gset nat) with (readers c ∖ {[i]}) by set_solver. apply step_runlock; set_solver.
Qed.

Lemma run_alone p c i :
  disciplined Outside p → threads c !! i = Some p → writer c = None → readers c = ∅ → rtc step c (after_running i p c).
Proof.
  intros Hd Hi Hw Hr. destruct p as [r| |k| |k|]; try done.
  - unfold after_running. cbn. rewrite list_insert_id by done. rewrite <- Hw, <- Hr. by destruct c.
  - eapply rtc_l; [by apply step_lock|].
    pose proof (run_inside k (MkConf (shared c) (Some i) ∅ (<[i := k]> (threads c))) i) as Hk.
    unfold after_running in Hk. cbn in Hk. rewrite list_insert_insert_eq in Hk. apply Hk; [|by left].
    apply list_lookup_insert_eq. by eapply lookup_lt_Some.
  - eapply rtc_l; [by apply step_rlock|].
    pose proof (run_inside k (MkConf (shared c) None ({[i]} ∪ readers c) (<[i := k]> (threads c))) i) as Hk.
    unfold after_running in Hk. cbn in Hk. rewrite list_insert_insert_eq in Hk. apply Hk; [|right; cbn; set_solver].
    apply list_lookup_insert_eq. by eapply lookup_lt_Some.
Qed.

(** So there is a run in which all threads return. *)
Lemma runs_to_end ps s : Forall (disciplined Outside) ps → ∃ c, rtc step (start s ps) c ∧ Forall returned (threads c).
Proof.
  intros Hd.
  assert (∀ n, ∃ c, rtc step (start s ps) c ∧ writer c = None ∧ readers c = ∅ ∧
    Forall returned (take n (threads c)) ∧ Forall (disciplined Outside) (threads c)) as Hrun.
  { induction n as [|n (c & Hr & Hw & Hrd & Hret & Hdis)]; [by exists (start s ps)|].
    destruct (threads c !! n) as [p|] eqn:Hp.
    - exists (after_running n p c). split_and!; [|done..| |].
      + etrans; [exact Hr|]. apply run_alone; try done. by eapply Forall_lookup_1.
      + cbn. erewrite take_S_r by (apply list_lookup_insert_eq; by eapply lookup_lt_Some).
        rewrite take_insert_ge by done. apply Forall_app. by split; [|constructor].
      + by apply Forall_insert.
    - exists c. split_and!; [done..| |done]. apply lookup_ge_None in Hp. rewrite take_ge in Hret |- * by lia. done. }
  destruct (Hrun (length ps)) as (c & Hr & _ & _ & Hret & _). exists c. split; [done|].
  assert (length (threads c) = length ps) as Hlen.
  { destruct (reachable_lock_inv ps s c Hd Hr) as (_ & _ & _ & _ & _ & Hlen & _). done. }
  by rewrite take_ge in Hret by lia.
Qed.
End locks.
