(* ===== verification/GoStrings.v ===== *)
(** * Go strings

    A Go [string] is an immutable sequence of bytes; the development represents
    it by [string] (a sequence of 8-bit [ascii] characters) and models the parts
    of the [strings], [unicode/utf8] and [strconv] packages the program calls.
    Go's space and case functions are defined on runes, so the UTF-8 decoder
    and encoder are modelled too.  The case tables of the [unicode] package
    for runes above U+007F are the one thing left as a parameter
    ([UnicodeCase]). *)
From S2P Require Import Prelude.
Local Open Scope Z_scope.

Definition bytes (s : string) : list ascii := String.list_ascii_of_string s.
Definition of_bytes (l : list ascii) : string := String.string_of_list_ascii l.

(** The value of a byte, and the byte with a given value. *)
Definition bz (c : ascii) : Z := Z.of_N (N_of_ascii c).
Definition zb (z : Z) : ascii := ascii_of_N (Z.to_N z).

(** ** White space ([unicode.IsSpace] on the bytes of a UTF-8 string)

    One-byte spaces are tab, newline, vertical tab, form feed, carriage return
    and blank.  The two- and three-byte spaces are U+0085, U+00A0, U+1680,
    U+2000 to U+200A, U+2028, U+2029, U+202F, U+205F and U+3000. *)
Definition is_space1 (c : ascii) : bool :=
  ((9 <=? bz c) && (bz c <=? 13)) || (bz c =? 32).

Definition is_space2 (c d : ascii) : bool :=
  (bz c =? 194) && ((bz d =? 133) || (bz d =? 160)).

Definition is_space3 (c d e : ascii) : bool :=
  ((bz c =? 225) && (bz d =? 154) && (bz e =? 128))
  || ((bz c =? 226) && (bz d =? 128) &&
      (((128 <=? bz e) && (bz e <=? 138)) || (bz e =? 168) || (bz e =? 169) || (bz e =? 175)))
  || ((bz c =? 226) && (bz d =? 129) && (bz e =? 159))
  || ((bz c =? 227) && (bz d =? 128) && (bz e =? 128)).

(** How many bytes of the head of a sequence are one space rune (0: none).
    UTF-8 is self-synchronizing, so looking at the bytes agrees with decoding. *)
Definition space_width (l : list ascii) : nat :=
  match l with
  | [] => 0
  | c :: l1 =>
    if is_space1 c then 1 else
    match l1 with
    | [] => 0
    | d :: l2 =>
      if is_space2 c d then 2 else
      match l2 with
      | [] => 0
      | e :: _ => if is_space3 c d e then 3 else 0
      end
    end
  end%nat.

Fixpoint trim_left_go (fuel : nat) (l : list ascii) : list ascii :=
  match fuel with
  | O => l
  | S fuel =>
    match space_width l with
    | O => l
    | n => trim_left_go fuel (drop n l)
    end
  end.

(** [strings.TrimLeftFunc(s, unicode.IsSpace)]: every iteration removes at
    least one byte, so the length is enough fuel. *)
Definition trim_left (l : list ascii) : list ascii := trim_left_go (length l) l.

(** Width of the space rune that ends a sequence, read on the reversed bytes. *)
Definition space_width_rev (l : list ascii) : nat :=
  match l with
  | [] => 0
  | c :: l1 =>
    if is_space1 c then 1 else
    match l1 with
    | [] => 0
    | d :: l2 =>
      if is_space2 d c then 2 else
      match l2 with
      | [] => 0
      | e :: _ => if is_space3 e d c then 3 else 0
      end
    end
  end%nat.

Fixpoint trim_right_go (fuel : nat) (l : list ascii) : list ascii :=
  match fuel with
  | O => l
  | S fuel =>
    match space_width_rev l with
    | O => l
    | n => trim_right_go fuel (drop n l)
    end
  end.

Definition trim_right (l : list ascii) : list ascii :=
  reverse (trim_right_go (length l) (reverse l)).

(** [strings.TrimSpace] *)
Definition TrimSpace (s : string) : string := of_bytes (trim_right (trim_left (bytes s))).

(** ** UTF-8 *)
Definition RuneError : Z := 65533.

Definition in_range (c : ascii) (lo hi : Z) : bool := (lo <=? bz c) && (bz c <=? hi).

(** [utf8.DecodeRune] on a non-empty sequence: the rune and its width. *)
Definition decode_rune (c : ascii) (l : list ascii) : Z * nat :=
  let bad := (RuneError, 1%nat) in
  let b0 := bz c in
  if b0 <? 128 then (b0, 1%nat) else
  if in_range c 194 223 then
    match l with
    | d :: _ => if in_range d 128 191
                then ((b0 - 192) * 64 + (bz d - 128), 2%nat) else bad
    | _ => bad
    end else
  if in_range c 224 239 then
    let lo := if b0 =? 224 then 160 else 128 in
    let hi := if b0 =? 237 then 159 else 191 in
    match l with
    | d :: e :: _ => if in_range d lo hi && in_range e 128 191
                     then ((b0 - 224) * 4096 + (bz d - 128) * 64 + (bz e - 128), 3%nat) else bad
    | _ => bad
    end else
  if in_range c 240 244 then
    let lo := if b0 =? 240 then 144 else 128 in
    let hi := if b0 =? 244 then 143 else 191 in
    match l with
    | d :: e :: f :: _ =>
      if in_range d lo hi && in_range e 128 191 && in_range f 128 191
      then ((b0 - 240) * 262144 + (bz d - 128) * 4096 + (bz e - 128) * 64 + (bz f - 128), 4%nat)
      else bad
    | _ => bad
    end else bad.

Fixpoint decode_go (fuel : nat) (l : list ascii) : list Z :=
  match fuel, l with
  | S fuel, c :: l1 =>
    let '(r, n) := decode_rune c l1 in r :: decode_go fuel (drop n l)
  | _, _ => []
  end.

(** [for _, r := range s]: the runes of a string, an invalid byte read as
    [RuneError].  Every rune consumes at least one byte. *)
Definition runes (s : string) : list Z := decode_go (length (bytes s)) (bytes s).

(** [utf8.AppendRune] *)
Definition encode_rune (r : Z) : list ascii :=
  let three r := [zb (224 + r / 4096); zb (128 + (r / 64) mod 64); zb (128 + r mod 64)] in
  if r <? 0 then three RuneError else
  if r <? 128 then [zb r] else
  if r <? 2048 then [zb (192 + r / 64); zb (128 + r mod 64)] else
  if (55296 <=? r) && (r <=? 57343) then three RuneError else
  if r <? 65536 then three r else
  if r <=? 1114111 then
    [zb (240 + r / 262144); zb (128 + (r / 4096) mod 64); zb (128 + (r / 64) mod 64);
     zb (128 + r mod 64)]
  else three RuneError.

(** ** Case *)

(** [unicode.ToLower] on runes above U+007F is a table of the Unicode standard,
    a parameter here; ASCII runes are written out in [rune_lower]. *)
Class UnicodeCase := { unicode_lower : Z → Z }.

Definition rune_lower `{UnicodeCase} (r : Z) : Z :=
  if (65 <=? r) && (r <=? 90) then r + 32 else
  if r <? 128 then r else unicode_lower r.

(** [strings.ToLower]: the ASCII fast path and [strings.Map] agree with mapping
    every rune and encoding the result. *)
Definition ToLower `{UnicodeCase} (s : string) : string :=
  of_bytes (concat (encode_rune ∘ rune_lower <$> runes s)).

Definition ascii_lower (c : ascii) : ascii :=
  if (65 <=? bz c) && (bz c <=? 90) then zb (bz c + 32) else c.

(** [strings.EqualFold(s, t)] for a constant [t] whose letters have no simple
    folding outside ASCII (the program compares with ["TCP"] only): two bytes
    match when they are equal up to ASCII case. *)
Definition EqualFold (s t : string) : bool :=
  bool_decide (ascii_lower <$> bytes s = ascii_lower <$> bytes t).

(** ** Splitting, trimming and searching *)
Fixpoint split_go (sep : ascii) (cur : list ascii) (l : list ascii) : list (list ascii) :=
  match l with
  | [] => [reverse cur]
  | c :: l => if bool_decide (c = sep) then reverse cur :: split_go sep [] l
              else split_go sep (c :: cur) l
  end.

(** [strings.Split(s, sep)] for a one-byte separator *)
Definition Split (s : string) (sep : ascii) : list string :=
  of_bytes <$> split_go sep [] (bytes s).

Fixpoint drop_while (f : ascii → bool) (l : list ascii) : list ascii :=
  match l with
  | [] => []
  | c :: l' => if f c then drop_while f l' else l
  end.

(** [strings.Trim(s, cutset)] for a one-byte cutset *)
Definition Trim (s : string) (cut : ascii) : string :=
  let f c := bool_decide (c = cut) in
  of_bytes (reverse (drop_while f (reverse (drop_while f (bytes s))))).

Fixpoint fields_go (fuel : nat) (cur : list ascii) (l : list ascii) : list (list ascii) :=
  let flush := match cur with [] => [] | _ => [reverse cur] end in
  match fuel, l with
  | S fuel, c :: l1 =>
    match space_width l with
    | O => fields_go fuel (c :: cur) l1
    | n => flush ++ fields_go fuel [] (drop n l)
    end
  | _, _ => flush
  end.

(** [strings.Fields] *)
Definition Fields (s : string) : list string :=
  of_bytes <$> fields_go (length (bytes s)) [] (bytes s).

Definition HasPrefix (s p : string) : bool := String.prefix p s.

(** [strings.TrimPrefix] *)
Definition TrimPrefix (s p : string) : string :=
  if HasPrefix s p then of_bytes (drop (String.length p) (bytes s)) else s.

(** [strings.ContainsAny] with an ASCII character set *)
Definition ContainsAny (s chars : string) : bool :=
  existsb (λ c, bool_decide (c ∈ bytes chars)) (bytes s).

Fixpoint replace_go (fuel : nat) (old new l : list ascii) : list ascii :=
  match fuel, l with
  | S fuel, c :: l1 =>
    if bool_decide (take (length old) l = old)
    then new ++ replace_go fuel old new (drop (length old) l)
    else c :: replace_go fuel old new l1
  | _, _ => l
  end.

(** [strings.ReplaceAll] for a non-empty [old] *)
Definition ReplaceAll (s old new : string) : string :=
  of_bytes (replace_go (length (bytes s)) (bytes old) (bytes new) (bytes s)).

(** ** Numbers *)
(** [strconv.FormatInt(v, 10)] and the verb [%d] *)
Definition itoa (z : Z) : string := pretty z.

(** The verb [%04d] *)
Definition itoa_pad4 (z : Z) : string :=
  let d := bytes (itoa (Z.abs z)) in
  let sign := if z <? 0 then ["-"%char] else [] in
  of_bytes (sign ++ replicate (4 - length sign - length d) "0"%char ++ d).

Definition digit_val (c : ascii) : option Z :=
  if (48 <=? bz c) && (bz c <=? 57) then Some (bz c - 48) else None.

Fixpoint parse_digits (acc : Z) (l : list ascii) : option Z :=
  match l with
  | [] => Some acc
  | c :: l => d ← digit_val c; parse_digits (acc * 10 + d) l
  end.

(** [strconv.Atoi]: base 10, an optional sign, at least one digit, the value
    in the range of a 64-bit [int]. *)
Definition Atoi (s : string) : option Z :=
  let '(sgn, ds) := match bytes s with
                    | "-"%char :: l => (-1, l)
                    | "+"%char :: l => (1, l)
                    | l => (1, l)
                    end in
  match ds with
  | [] => None
  | _ => v ← parse_digits 0 ds;
         let v := sgn * v in
         if (- 2 ^ 63 <=? v) && (v <? 2 ^ 63) then Some v else None
  end.

(** [strconv.ParseBool] *)
Definition ParseBool (s : string) : option bool :=
  if bool_decide (s ∈ ["1"; "t"; "T"; "TRUE"; "true"; "True"]) then Some true else
  if bool_decide (s ∈ ["0"; "f"; "F"; "FALSE"; "false"; "False"]) then Some false else
  None.

(** ** Lemmas *)
Lemma bytes_of_bytes l : bytes (of_bytes l) = l.
Proof. apply String.list_ascii_of_string_of_list_ascii. Qed.

Lemma of_bytes_bytes s : of_bytes (bytes s) = s.
Proof. apply String.string_of_list_ascii_of_string. Qed.

#[export] Hint Rewrite bytes_of_bytes of_bytes_bytes : lb_rw.

#[global] Instance bytes_inj : Inj (=) (=) bytes.
Proof. intros s t H. rewrite <- (of_bytes_bytes s), H. apply of_bytes_bytes. Qed.

#[global] Instance of_bytes_inj : Inj (=) (=) of_bytes.
Proof. intros s t H. rewrite <- (bytes_of_bytes s), H. apply bytes_of_bytes. Qed.

Lemma bytes_app s t : bytes (s +:+ t) = bytes s ++ bytes t.
Proof. induction s as [|c s IH]; [done|]. change (String c s +:+ t) with (String c (s +:+ t)).
  cbn. f_equal. exact IH.
Qed.

Lemma of_bytes_app l k : of_bytes (l ++ k) = of_bytes l +:+ of_bytes k.
Proof. apply (inj bytes). rewrite bytes_app. by autorewrite with lb_rw. Qed.

Lemma string_app_assoc (s t u : string) : s +:+ t +:+ u = (s +:+ t) +:+ u.
Proof. apply (inj bytes). by rewrite !bytes_app, app_assoc. Qed.

Lemma bytes_nil s : bytes s = [] ↔ s = "".
Proof. by destruct s. Qed.

Lemma bz_bound c : 0 <= bz c < 256.
Proof. unfold bz. pose proof (N_ascii_bounded c). lia. Qed.

Lemma zb_bz c : zb (bz c) = c.
Proof. unfold zb, bz. by rewrite N2Z.id, ascii_N_embedding. Qed.

Lemma bz_zb z : 0 <= z < 256 → bz (zb z) = z.
Proof. intros. unfold zb, bz. rewrite N_ascii_embedding; lia. Qed.

#[global] Instance bz_inj : Inj (=) (=) bz.
Proof. intros c d H. by rewrite <- (zb_bz c), H, zb_bz. Qed.

(** *** Trimming *)
Definition solid (c : ascii) : bool := (33 <=? bz c) && (bz c <=? 126).

Lemma space_width_solid c l : solid c = true → space_width (c :: l) = 0%nat.
Proof.
  unfold solid. intros Hs. simpl.
  assert (is_space1 c = false) as -> by (unfold is_space1; lia).
  destruct l as [|d [|e l]]; [done|..];
    unfold is_space2, is_space3;
    replace (bz c =? 194) with false by lia; simpl; [done|].
  by replace (bz c =? 225) with false by lia; replace (bz c =? 226) with false by lia;
    replace (bz c =? 227) with false by lia.
Qed.

Lemma space_width_rev_solid c l : solid c = true → space_width_rev (c :: l) = 0%nat.
Proof.
  unfold solid. intros Hs. simpl.
  assert (is_space1 c = false) as -> by (unfold is_space1; lia).
  destruct l as [|d [|e l]]; [done|..]; unfold is_space2, is_space3.
  - by replace (bz c =? 133) with false by lia; replace (bz c =? 160) with false by lia;
      rewrite andb_false_r.
  - replace (bz c =? 133) with false by lia. replace (bz c =? 160) with false by lia.
    replace (bz c =? 128) with false by lia. replace (bz c =? 168) with false by lia.
    replace (bz c =? 169) with false by lia. replace (bz c =? 175) with false by lia.
    replace (bz c =? 159) with false by lia. replace (128 <=? bz c) with false by lia.
    by rewrite !andb_false_r.
Qed.

Lemma trim_left_go_stop n l : space_width l = 0%nat → trim_left_go n l = l.
Proof. destruct n; simpl; [done|]. by intros ->. Qed.

Lemma trim_right_go_stop n l : space_width_rev l = 0%nat → trim_right_go n l = l.
Proof. destruct n; simpl; [done|]. by intros ->. Qed.

(** A string whose bytes are all graphic ASCII is not changed by trimming. *)
Lemma TrimSpace_solid s : forallb solid (bytes s) = true → TrimSpace s = s.
Proof.
  rewrite forallb_spec. intros Hs. unfold TrimSpace.
  assert (trim_left (bytes s) = bytes s) as ->.
  { unfold trim_left. apply trim_left_go_stop.
    destruct (bytes s); [done|]. apply space_width_solid, Hs. set_solver. }
  unfold trim_right. rewrite trim_right_go_stop.
  - by rewrite reverse_involutive, of_bytes_bytes.
  - destruct (reverse (bytes s)) as [|c l] eqn:E; [done|].
    apply space_width_rev_solid, Hs. apply elem_of_reverse. rewrite E. set_solver.
Qed.

Lemma space_width_pos l n : space_width l = S n → l ≠ [].
Proof. by destruct l. Qed.

Lemma space_width_rev_pos l n : space_width_rev l = S n → l ≠ [].
Proof. by destruct l. Qed.

Lemma trim_left_go_fixed n l : (length l <= n)%nat → space_width (trim_left_go n l) = 0%nat.
Proof.
  revert l. induction n as [|n IH]; intros l Hl; simpl.
  - destruct l; simpl in *; [done|lia].
  - destruct (space_width l) eqn:E; [done|]. apply IH.
    pose proof (space_width_pos _ _ E). destruct l; [done|].
    rewrite length_drop. simpl in *. lia.
Qed.

Lemma trim_right_go_fixed n l : (length l <= n)%nat → space_width_rev (trim_right_go n l) = 0%nat.
Proof.
  revert l. induction n as [|n IH]; intros l Hl; simpl.
  - destruct l; simpl in *; [done|lia].
  - destruct (space_width_rev l) eqn:E; [done|]. apply IH.
    pose proof (space_width_rev_pos _ _ E). destruct l; [done|].
    rewrite length_drop. simpl in *. lia.
Qed.

Lemma trim_right_go_suffix n l : ∃ k, l = k ++ trim_right_go n l.
Proof.
  revert l. induction n as [|n IH]; intros l; simpl; [by exists []|].
  destruct (space_width_rev l) as [|m]; [by exists []|].
  destruct (IH (drop (S m) l)) as [k Hk]. exists (take (S m) l ++ k).
  rewrite <- app_assoc, <- Hk. by rewrite take_drop.
Qed.

(** Cutting a sequence short creates no space at its head. *)
Lemma space_width_prefix l k : space_width (l ++ k) = 0%nat → space_width l = 0%nat.
Proof.
  destruct l as [|c [|d [|e l]]]; simpl; [done|..];
    destruct (is_space1 c); simpl; try done.
  by destruct (is_space2 c d).
Qed.

Lemma TrimSpace_idemp s : TrimSpace (TrimSpace s) = TrimSpace s.
Proof.
  unfold TrimSpace. autorewrite with lb_rw. f_equal.
  set (l := trim_left (bytes s)).
  assert (space_width l = 0%nat) as Hl by (apply trim_left_go_fixed; lia).
  assert (trim_left (trim_right l) = trim_right l) as ->.
  { apply trim_left_go_stop. unfold trim_right.
    destruct (trim_right_go_suffix (length l) (reverse l)) as [k Hk].
    apply (f_equal reverse) in Hk. rewrite reverse_involutive, reverse_app in Hk.
    eapply space_width_prefix. by rewrite <- Hk. }
  unfold trim_right. rewrite reverse_involutive. f_equal.
  apply trim_right_go_stop, trim_right_go_fixed. by rewrite length_reverse.
Qed.

Lemma TrimSpace_empty : TrimSpace "" = "".
Proof. reflexivity. Qed.

(** *** Splitting *)
Lemma split_go_sep sep cur l1 l2 :
  sep ∉ l1 → split_go sep cur (l1 ++ sep :: l2) = (reverse cur ++ l1) :: split_go sep [] l2.
Proof.
  revert cur. induction l1 as [|c l1 IH]; intros cur Hsep; simpl.
  - by rewrite bool_decide_eq_true_2, app_nil_r.
  - rewrite bool_decide_eq_false_2 by set_solver. rewrite IH by set_solver.
    by rewrite reverse_cons, <- app_assoc.
Qed.

Lemma split_go_last sep cur l :
  sep ∉ l → split_go sep cur l = [reverse cur ++ l].
Proof.
  revert cur. induction l as [|c l IH]; intros cur Hsep; simpl.
  - by rewrite app_nil_r.
  - rewrite bool_decide_eq_false_2 by set_solver. rewrite IH by set_solver.
    by rewrite reverse_cons, <- app_assoc.
Qed.

Lemma Split_sep sep s1 s2 :
  sep ∉ bytes s1 →
  Split (s1 +:+ String sep s2) sep = s1 :: Split s2 sep.
Proof.
  intros H. unfold Split. rewrite bytes_app. change (bytes (String sep s2)) with (sep :: bytes s2).
  rewrite split_go_sep by done. simpl. by rewrite of_bytes_bytes.
Qed.

Lemma Split_last sep s : sep ∉ bytes s → Split s sep = [s].
Proof. intros H. unfold Split. rewrite split_go_last by done. simpl. by rewrite of_bytes_bytes. Qed.

Lemma drop_while_head f c l : f c = false → drop_while f (c :: l) = c :: l.
Proof. simpl. by intros ->. Qed.

Lemma drop_while_suffix f l : ∃ k, l = k ++ drop_while f l ∧ ∀ c, c ∈ k → f c = true.
Proof.
  induction l as [|c l (k & Hk & Hf)]; simpl; [exists []; set_solver|]. destruct (f c) eqn:E.
  - exists (c :: k). split; [by rewrite Hk at 1|]. intros d [->|Hd]%elem_of_cons; auto.
  - exists []. split; [done|]. set_solver.
Qed.

Lemma drop_while_hd f c l k : drop_while f l = c :: k → f c = false.
Proof.
  induction l as [|d l IH]; simpl; [done|]. destruct (f d) eqn:E; [done|]. by intros [= -> _].
Qed.

(** What [strings.Trim] leaves: bytes of the input, with no cut byte at either end. *)
Lemma Trim_spec s cut :
  (∀ c, c ∈ bytes (Trim s cut) → c ∈ bytes s) ∧
  head (bytes (Trim s cut)) ≠ Some cut ∧ last (bytes (Trim s cut)) ≠ Some cut.
Proof.
  unfold Trim. autorewrite with lb_rw. set (f := λ c, bool_decide (c = cut)).
  destruct (drop_while_suffix f (bytes s)) as (k & Hk & _).
  set (m := drop_while f (bytes s)) in *.
  destruct (drop_while_suffix f (reverse m)) as (k' & Hk' & Hf').
  set (r := drop_while f (reverse m)) in *.
  assert (m = reverse r ++ reverse k') as Hm.
  { rewrite <- (reverse_involutive m), Hk', reverse_app. done. }
  split_and!.
  - intros c Hc. rewrite Hk, Hm. set_solver.
  - destruct (reverse r) as [|c l] eqn:Er; [done|]. simpl. intros [= ->].
    assert (f cut = false) as F; [|by unfold f in F; rewrite bool_decide_eq_true_2 in F].
    apply (drop_while_hd f cut (bytes s) (l ++ reverse k')). by fold m.
  - rewrite last_reverse. destruct r as [|c l] eqn:Er; [done|]. simpl. intros [= ->].
    assert (f cut = false) as F; [|by unfold f in F; rewrite bool_decide_eq_true_2 in F].
    by apply (drop_while_hd f cut (reverse m) l).
Qed.

(** *** Decimal printing *)
Definition is_digit (c : ascii) : bool := (48 <=? bz c) && (bz c <=? 57).

Lemma pretty_N_char_digit n : is_digit (pretty_N_char n) = true.
Proof. by destruct n as [|[[[[]|[]|]|[[]|[]|]|]|[[[]|[]|]|[[]|[]|]|]|]]. Qed.

Lemma pretty_N_go_digits n s :
  (∀ c, c ∈ bytes s → is_digit c = true) → ∀ c, c ∈ bytes (pretty_N_go n s) → is_digit c = true.
Proof.
  revert s. induction (N.lt_wf_0 n) as [n _ IH]; intros s Hs.
  destruct (decide (n = 0)%N) as [->|Hn]; [by rewrite pretty_N_go_0|].
  rewrite pretty_N_go_step by lia. apply IH; [by apply N.div_lt; lia|].
  intros c [->|Hc]%elem_of_cons; [apply pretty_N_char_digit|by apply Hs].
Qed.

Lemma itoa_digits z c : c ∈ bytes (itoa z) → c = "-"%char ∨ is_digit c = true.
Proof.
  assert (∀ n c, c ∈ bytes (pretty (N.pos n)) → is_digit c = true) as Hpos.
  { intros n d. unfold pretty, pretty_N. case_decide; [done|]. apply pretty_N_go_digits. set_solver. }
  unfold itoa, pretty, pretty_Z. destruct z as [|p|p].
  - intros [->|[]%not_elem_of_nil]%elem_of_cons. by right.
  - right. by apply (Hpos p).
  - intros [->|Hc]%elem_of_cons; [by left|]. right. by apply (Hpos p).
Qed.

Lemma pretty_N_char_val n : (n < 10)%N → digit_val (pretty_N_char n) = Some (Z.of_N n).
Proof. intros Hn. destruct n as [|[[[[]|[]|]|[[]|[]|]|]|[[[]|[]|]|[[]|[]|]|]|]]; solve [reflexivity|lia]. Qed.

Lemma parse_pretty n s : parse_digits 0 (bytes (pretty_N_go n s)) = parse_digits (Z.of_N n) (bytes s).
Proof.
  revert s. induction (N.lt_wf_0 n) as [n _ IH]; intros s.
  destruct (decide (n = 0)%N) as [->|Hn]; [by rewrite pretty_N_go_0|].
  rewrite pretty_N_go_step by lia. rewrite IH by (apply N.div_lt; lia).
  change (bytes (String ?c s)) with (c :: bytes s). cbn [parse_digits].
  rewrite pretty_N_char_val by (apply N.mod_lt; lia). cbn [mbind option_bind]. f_equal.
  rewrite (N.div_mod n 10) at 3 by lia. lia.
Qed.

(** A positive number starts with a digit other than zero. *)
Lemma pretty_head n s :
  (n ≠ 0)%N → ∃ c l, bytes (pretty_N_go n s) = c :: l ∧ is_digit c = true ∧ c ≠ "0"%char.
Proof.
  revert s. induction (N.lt_wf_0 n) as [n _ IH]; intros s Hn. rewrite pretty_N_go_step by lia.
  destruct (decide (n / 10 = 0)%N) as [E|E].
  - rewrite E, pretty_N_go_0. apply N.div_small_iff in E; [|lia]. rewrite N.mod_small by lia.
    exists (pretty_N_char n), (bytes s). split_and!; [done|apply pretty_N_char_digit|].
    intros Hc. pose proof (pretty_N_char_val n E) as Hv. rewrite Hc in Hv. change (Some 0 = Some (Z.of_N n)) in Hv. injection Hv. lia.
  - apply IH; [apply N.div_lt; lia|done].
Qed.

(** The digits of a number: its own digits, after a minus sign if it is negative *)
Lemma itoa_shape z :
  ∃ c l, bytes (itoa (Z.abs z)) = c :: l ∧ (∀ x, x ∈ c :: l → is_digit x = true) ∧
    (c = "0"%char → l = []) ∧ parse_digits 0 (c :: l) = Some (Z.abs z) ∧
    bytes (itoa z) = (if z <? 0 then ["-"%char] else []) ++ c :: l.
Proof.
  assert (∀ p, ∃ c l, bytes (pretty (N.pos p)) = c :: l ∧ (∀ x, x ∈ c :: l → is_digit x = true) ∧
    c ≠ "0"%char ∧ parse_digits 0 (c :: l) = Some (Z.pos p)) as Hpos.
  { intros p. unfold pretty, pretty_N. case_decide; [done|].
    destruct (pretty_head (N.pos p) "" ltac:(done)) as (c & l & E & Hd & Hc).
    exists c, l. split_and!; [done| |done|].
    - rewrite <- E. apply pretty_N_go_digits. set_solver.
    - rewrite <- E, parse_pretty. done. }
  destruct z as [|p|p].
  - exists "0"%char, []. split_and!; try done. set_solver.
  - destruct (Hpos p) as (c & l & E & Hd & Hc & Hp). by exists c, l.
  - destruct (Hpos p) as (c & l & E & Hd & Hc & Hp). exists c, l. split_and!; try done.
    change (bytes (itoa (Z.neg p))) with ("-"%char :: bytes (pretty (N.pos p))). by rewrite E.
Qed.

(** Printing an [int] and parsing it again gives it back. *)
Lemma Atoi_itoa_range z : Atoi (itoa z) = if (- 2 ^ 63 <=? z) && (z <? 2 ^ 63) then Some z else None.
Proof.
  destruct (itoa_shape z) as (c & l & _ & Hd & _ & Hp & E). unfold Atoi. rewrite E.
  specialize (Hd c ltac:(by left)).
  assert (∀ s, (let '(sgn, ds) := (s, c :: l) in
    match ds with [] => None | _ => v ← parse_digits 0 ds;
      let v := sgn * v in if (- 2 ^ 63 <=? v) && (v <? 2 ^ 63) then Some v else None end)
    = if (- 2 ^ 63 <=? s * Z.abs z) && (s * Z.abs z <? 2 ^ 63) then Some (s * Z.abs z) else None) as Hs.
  { intros s. cbn [mbind option_bind]. by rewrite Hp. }
  destruct (z <? 0) eqn:Ez; cbn [app].
  - rewrite Hs. replace (-1 * Z.abs z) with z by lia. done.
  - replace (match c :: l with "-"%char :: l => (-1, l) | "+"%char :: l => (1, l) | l => (1, l) end) with (1, c :: l)
      by (destruct c as [[] [] [] [] [] [] [] []]; first [reflexivity|discriminate Hd]).
    rewrite Hs. replace (1 * Z.abs z) with z by lia. done.
Qed.

Lemma Atoi_itoa z : - 2 ^ 63 <= z < 2 ^ 63 → Atoi (itoa z) = Some z.
Proof. intros Hz. rewrite Atoi_itoa_range. destruct (_ && _) eqn:E; [done|]. lia. Qed.

(** *** The fuel of the loops over bytes is enough: more of it changes nothing. *)
Lemma space_width_shorter l k : space_width l = S k → (length (drop (S k) l) < length l)%nat.
Proof. intros H. destruct l as [|c l]; [done|]. rewrite length_drop. cbn [length]. lia. Qed.

Lemma space_width_rev_shorter l k : space_width_rev l = S k → (length (drop (S k) l) < length l)%nat.
Proof. intros H. destruct l as [|c l]; [done|]. rewrite length_drop. cbn [length]. lia. Qed.

Lemma trim_left_fuel n m l :
  (length l <= n)%nat → (length l <= m)%nat → trim_left_go n l = trim_left_go m l.
Proof.
  revert m l. induction n as [|n IH]; intros [|m] l Hn Hm; cbn [trim_left_go]; try done.
  1,2: destruct l; [done|cbn in *; lia].
  destruct (space_width l) as [|k] eqn:E; [done|]. apply space_width_shorter in E. apply IH; lia.
Qed.

Lemma trim_right_fuel n m l :
  (length l <= n)%nat → (length l <= m)%nat → trim_right_go n l = trim_right_go m l.
Proof.
  revert m l. induction n as [|n IH]; intros [|m] l Hn Hm; cbn [trim_right_go]; try done.
  1,2: destruct l; [done|cbn in *; lia].
  destruct (space_width_rev l) as [|k] eqn:E; [done|]. apply space_width_rev_shorter in E. apply IH; lia.
Qed.

Lemma decode_rune_width c l : (1 <= (decode_rune c l).2)%nat.
Proof.
  unfold decode_rune. repeat match goal with
  | |- context [if ?b then _ else _] => destruct b
  | |- context [match ?l with [] => _ | _ => _ end] => destruct l
  end; cbn; lia.
Qed.

Lemma decode_fuel n m l :
  (length l <= n)%nat → (length l <= m)%nat → decode_go n l = decode_go m l.
Proof.
  revert m l. induction n as [|n IH]; intros [|m] [|c l] Hn Hm; try done; try (cbn in *; lia).
  cbn [decode_go]. pose proof (decode_rune_width c l) as Hw. destruct (decode_rune c l) as [r k]. f_equal.
  apply IH; rewrite length_drop; cbn in *; lia.
Qed.

Lemma fields_fuel n m cur l :
  (length l <= n)%nat → (length l <= m)%nat → fields_go n cur l = fields_go m cur l.
Proof.
  revert m cur l. induction n as [|n IH]; intros [|m] cur [|c l] Hn Hm; try done; try (cbn in *; lia).
  cbn [fields_go]. destruct (space_width (c :: l)) as [|k] eqn:E.
  - apply IH; cbn in *; lia.
  - apply space_width_shorter in E. f_equal. apply IH; cbn [length] in *; lia.
Qed.

Lemma replace_fuel n m old new l :
  old ≠ [] → (length l <= n)%nat → (length l <= m)%nat → replace_go n old new l = replace_go m old new l.
Proof.
  intros Hold. revert m l. induction n as [|n IH]; intros [|m] [|c l] Hn Hm; try done; try (cbn in *; lia).
  cbn [replace_go]. destruct old as [|o old]; [done|]. case_bool_decide; f_equal; apply IH;
    rewrite ?length_drop; cbn in *; lia.
Qed.
