(* ===== verification/GoSort.v ===== *)
(** * Sorting with a [less] function

    [sort.Slice] and [slices.SortFunc] promise a sorted permutation of their
    argument when the comparison is a strict weak order, and nothing about the
    relative order of elements that compare equal (the algorithm is not stable).
    The runtime's pattern-defeating quicksort leaves a slice that is already
    sorted untouched.  [GoSort] is that behaviour as an interface: the components are defined and
    verified against it, and [insertion_sort], which is what the Go runtime runs
    on short slices, discharges it. *)
From S2P Require Import Prelude.
Local Open Scope Z_scope.

(** A strict total order on a key type *)
Class StrictTotal {K : Type} (lt : K → K → bool) : Prop := {
  st_irrefl : ∀ a, lt a a = false;
  st_trans : ∀ a b c, lt a b = true → lt b c = true → lt a c = true;
  st_tri : ∀ a b, lt a b = false → lt b a = false → a = b;
}.

(** A strict weak order: "not greater" is a transitive and total relation. *)
Class StrictWeak {A : Type} (less : A → A → bool) : Prop := {
  sw_asym : ∀ a b, less a b = true → less b a = false;
  sw_ntrans : ∀ a b c, less b a = false → less c b = false → less c a = false;
}.

(** [ngt less a b]: [b] is not less than [a], so [a] may stand before [b]. *)
Definition ngt {A} (less : A → A → bool) (a b : A) : Prop := less b a = false.

#[export] Instance ngt_trans {A} (less : A → A → bool) `{!StrictWeak less} :
  Transitive (ngt less).
Proof. intros a b c. apply sw_ntrans. Qed.

#[export] Instance ngt_total {A} (less : A → A → bool) `{!StrictWeak less} :
  Total (ngt less).
Proof.
  intros a b. unfold ngt. destruct (less b a) eqn:E; [right|by left].
  by apply sw_asym.
Qed.

Lemma strict_total_weak {K} (lt : K → K → bool) : StrictTotal lt → StrictWeak lt.
Proof.
  intros Hst. split.
  - intros a b Hab. destruct (lt b a) eqn:Hba; [|done].
    by rewrite <- (st_irrefl (lt:=lt) a), (st_trans (lt:=lt) a b a).
  - intros a b c Hba Hcb. destruct (lt c a) eqn:Hca; [|done].
    destruct (lt b c) eqn:Hbc.
    + by rewrite <- Hba, (st_trans (lt:=lt) b c a).
    + by rewrite (st_tri (lt:=lt) b c), Hca in Hba by done.
Qed.

#[export] Instance Z_ltb_total : StrictTotal Z.ltb.
Proof. split; intros; lia. Qed.

#[export] Instance string_ltb_total : StrictTotal String.ltb.
Proof.
  assert (∀ a b, String.ltb a b = negb (String.leb b a)) as E.
  { intros a b. unfold String.ltb, String.leb. rewrite (String.compare_antisym a b).
    by destruct (String.compare b a). }
  split; intros; rewrite ?E in *; bool_props.
  - apply negb_false_iff. by destruct (String.leb_total a a).
  - apply negb_true_iff. destruct (String.leb c a) eqn:Hca; [|done].
    assert (String.le c b) as Hcb; [|unfold String.le in Hcb; by rewrite H0 in Hcb].
    trans a; [by apply Is_true_true|]. unfold String.le.
    destruct (String.leb_total a b) as [->|Hba]; [done|congruence].
  - by apply String.leb_antisym.
Qed.

(** ** Lexicographic comparisons

    The comparison functions of the program compare one field, and look at the
    next field when the first ones are equal. *)
Definition lex {A K} `{EqDecision K} (f : A → K) (lt : K → K → bool)
    (rest : A → A → bool) (a b : A) : bool :=
  if bool_decide (f a = f b) then rest a b else lt (f a) (f b).

Definition by_key {A K} (f : A → K) (lt : K → K → bool) (a b : A) : bool := lt (f a) (f b).

#[export] Instance by_key_weak {A K} (f : A → K) lt `{!StrictTotal lt} :
  StrictWeak (by_key f lt).
Proof.
  pose proof (strict_total_weak lt _) as [??].
  split; unfold by_key; intros; eauto.
Qed.

#[export] Instance lex_weak {A K} `{EqDecision K} (f : A → K) lt rest
    `{!StrictTotal lt, !StrictWeak rest} : StrictWeak (lex f lt rest).
Proof.
  pose proof (strict_total_weak lt _) as Hw.
  split; unfold lex.
  - intros a b. repeat case_bool_decide; try congruence; [apply sw_asym|].
    apply Hw.
  - intros a b c.
    assert (∀ x y, x ≠ y → lt x y = false → lt y x = true) as Hlt.
    { intros x y Hne Hxy. destruct (lt y x) eqn:E; [done|].
      destruct Hne. by apply (st_tri (lt:=lt)). }
    destruct (decide (f b = f a)) as [E1|N1], (decide (f c = f b)) as [E2|N2].
    + rewrite !bool_decide_eq_true_2 by congruence. apply sw_ntrans.
    + rewrite !(bool_decide_eq_false_2 (f c = _)) by congruence. by rewrite E1.
    + rewrite !(bool_decide_eq_false_2 (_ = f a)) by congruence. by rewrite E2.
    + rewrite !(bool_decide_eq_false_2 (_ = f b)), (bool_decide_eq_false_2 (f b = _))
        by done. intros Hba Hcb.
      assert (lt (f a) (f c) = true) as Hac.
      { apply (st_trans (lt:=lt) _ (f b)); by apply Hlt. }
      rewrite bool_decide_eq_false_2; [by apply Hw|].
      intros E. by rewrite E, st_irrefl in Hac.
Qed.

Lemma by_key_tie {A K} (f : A → K) lt `{!StrictTotal lt} a b :
  ngt (by_key f lt) a b → ngt (by_key f lt) b a → f a = f b.
Proof. unfold ngt, by_key. intros. by apply (st_tri (lt:=lt)). Qed.

Lemma lex_tie {A K} `{EqDecision K} (f : A → K) lt rest `{!StrictTotal lt} a b :
  ngt (lex f lt rest) a b → ngt (lex f lt rest) b a →
  f a = f b ∧ ngt rest a b ∧ ngt rest b a.
Proof.
  unfold ngt, lex. repeat case_bool_decide; try congruence; [done|].
  intros ??. destruct H. by apply (st_tri (lt:=lt)).
Qed.

(** ** The interface *)
Class GoSort := {
  sort_slice : ∀ {A : Type}, (A → A → bool) → list A → list A;
  sort_slice_perm : ∀ {A} (less : A → A → bool) l, sort_slice less l ≡ₚ l;
  sort_slice_sorted : ∀ {A} (less : A → A → bool) l,
    StrictWeak less → Sorted (ngt less) (sort_slice less l);
  sort_slice_fixed : ∀ {A} (less : A → A → bool) l,
    Sorted (ngt less) l → sort_slice less l = l;
}.

Section sort_facts.
Context `{GoSort} {A : Type} (less : A → A → bool).
Context `{!StrictWeak less}.

Lemma sort_slice_ssorted l : StronglySorted (ngt less) (sort_slice less l).
Proof. apply Sorted_StronglySorted; [apply _|]. by apply sort_slice_sorted. Qed.

(** When elements that compare equal are equal, the result does not depend on
    the algorithm, nor on the order of the input. *)
Lemma sort_slice_unique l k :
  (∀ a b, a ∈ l → b ∈ l → ngt less a b → ngt less b a → a = b) →
  Sorted (ngt less) k → k ≡ₚ l → sort_slice less l = k.
Proof.
  intros Htie Hk Hp. apply (Sorted_unique_strong (ngt less)); [..|done|].
  - intros a b Ha Hb. rewrite sort_slice_perm in Ha. rewrite Hp in Hb. by apply Htie.
  - by apply sort_slice_sorted.
  - by rewrite sort_slice_perm, Hp.
Qed.

Lemma sort_slice_perm_eq l k :
  (∀ a b, a ∈ l → b ∈ l → ngt less a b → ngt less b a → a = b) →
  k ≡ₚ l → sort_slice less k = sort_slice less l.
Proof.
  intros Htie Hp. symmetry. apply sort_slice_unique; [done|by apply sort_slice_sorted|].
  by rewrite sort_slice_perm.
Qed.

Lemma sort_slice_idemp l : sort_slice less (sort_slice less l) = sort_slice less l.
Proof. by apply sort_slice_fixed, sort_slice_sorted. Qed.
End sort_facts.

Lemma sort_slice_elem `{GoSort} {A} (less : A → A → bool) l x :
  x ∈ sort_slice less l ↔ x ∈ l.
Proof. by rewrite sort_slice_perm. Qed.

Lemma sort_slice_nil `{GoSort} {A} (less : A → A → bool) : sort_slice less [] = [].
Proof. apply Permutation_nil. symmetry. apply sort_slice_perm. Qed.

Lemma sort_slice_length `{GoSort} {A} (less : A → A → bool) l :
  length (sort_slice less l) = length l.
Proof. by rewrite sort_slice_perm. Qed.

(** ** Insertion sort *)
Fixpoint insert_sorted {A} (less : A → A → bool) (x : A) (l : list A) : list A :=
  match l with
  | [] => [x]
  | y :: l' => if less y x then y :: insert_sorted less x l' else x :: l
  end.

Definition insertion_sort {A} (less : A → A → bool) (l : list A) : list A :=
  foldr (insert_sorted less) [] l.

Lemma insert_sorted_perm {A} (less : A → A → bool) x l : insert_sorted less x l ≡ₚ x :: l.
Proof.
  induction l as [|y l IH]; simpl; [done|]. destruct (less y x); [|done].
  rewrite IH. apply Permutation_swap.
Qed.

Lemma insertion_sort_perm {A} (less : A → A → bool) l : insertion_sort less l ≡ₚ l.
Proof. induction l as [|x l IH]; simpl; [done|]. by rewrite insert_sorted_perm, IH. Qed.

Lemma insert_sorted_sorted {A} (less : A → A → bool) `{!StrictWeak less} x l :
  Sorted (ngt less) l → Sorted (ngt less) (insert_sorted less x l).
Proof.
  induction 1 as [|y l Hs IH Hhd]; simpl; [by repeat constructor|].
  destruct (less y x) eqn:E.
  - constructor; [done|]. destruct l as [|z l]; simpl; [|destruct (less z x)];
      constructor; unfold ngt; first [by apply sw_asym | by inv Hhd].
  - constructor; [by constructor|]. by constructor.
Qed.

Lemma insertion_sort_sorted {A} (less : A → A → bool) l :
  StrictWeak less → Sorted (ngt less) (insertion_sort less l).
Proof.
  intros Hw. induction l as [|x l IH]; simpl; [constructor|].
  by apply insert_sorted_sorted.
Qed.

Lemma insertion_sort_fixed {A} (less : A → A → bool) l :
  Sorted (ngt less) l → insertion_sort less l = l.
Proof.
  induction 1 as [|x l Hs IH Hhd]; simpl; [done|]. rewrite IH.
  destruct Hhd as [|y l Hy]; simpl; [done|]. unfold ngt in Hy. by rewrite Hy.
Qed.

(** Not declared as an instance: every definition and theorem stays abstract in
    the sorting algorithm, and concrete runs name this one. *)
Definition insertion_gosort : GoSort := {|
  sort_slice := @insertion_sort;
  sort_slice_perm := @insertion_sort_perm;
  sort_slice_sorted := @insertion_sort_sorted;
  sort_slice_fixed := @insertion_sort_fixed;
|}.
