(* ===== verification/NetIP.v ===== *)
(** * IP addresses

    The parts of Go's [net/netip] the program uses: [Addr] with its parser,
    printer and order, and [Prefix] with its parser.  The parser is the full one
    (IPv4, IPv6, embedded IPv4 and zones), because the program tells "not an
    address" from "not an IPv4 address".  The printer and the parser are proved
    inverse to each other on IPv4, in both directions: an IPv4 address has
    exactly one accepted spelling. *)
From S2P Require Import Prelude GoStrings GoSort.
Local Open Scope Z_scope.

(** [netip.Addr]: the zero [Addr], an IPv4 address (32 bits), or an IPv6 address
    (128 bits) with its zone. *)
Inductive Addr : Type :=
| AddrZero
| Addr4 (a : Z)
| Addr6 (a : Z) (zone : string).

#[global] Instance Addr_eq_dec : EqDecision Addr.
Proof. solve_decision. Defined.

#[global] Instance Addr_countable : Countable Addr.
Proof.
  refine (inj_countable'
    (λ a, match a with
          | AddrZero => inl ()
          | Addr4 z => inr (inl z)
          | Addr6 z s => inr (inr (z, s))
          end)
    (λ x, match x with
          | inl _ => AddrZero
          | inr (inl z) => Addr4 z
          | inr (inr (z, s)) => Addr6 z s
          end) _).
  by intros [].
Defined.

Definition Is4 (a : Addr) : bool := match a with Addr4 _ => true | _ => false end.
Definition Is6 (a : Addr) : bool := match a with Addr6 _ _ => true | _ => false end.
Definition IsValid (a : Addr) : bool := match a with AddrZero => false | _ => true end.

(** The integers of an [Addr] are unsigned machine words. *)
Definition addr_wf (a : Addr) : Prop :=
  match a with
  | AddrZero => True
  | Addr4 z => 0 <= z < 2 ^ 32
  | Addr6 z _ => 0 <= z < 2 ^ 128
  end.

(** ** Order: [Addr.Compare] compares the bit length, the value, the zone *)
Definition addr_bitlen (a : Addr) : Z :=
  match a with AddrZero => 0 | Addr4 _ => 32 | Addr6 _ _ => 128 end.
Definition addr_val (a : Addr) : Z :=
  match a with AddrZero => 0 | Addr4 z => z | Addr6 z _ => z end.
Definition addr_zone (a : Addr) : string :=
  match a with Addr6 _ s => s | _ => "" end.

(** [left.Compare(right) < 0] *)
Definition addr_less : Addr → Addr → bool :=
  lex addr_bitlen Z.ltb (lex addr_val Z.ltb (by_key addr_zone String.ltb)).

(** ** Printing *)
Definition digit (z : Z) : ascii := zb (48 + z).

(** [appendDecimal] *)
Definition dec_octet (x : Z) : list ascii :=
  (if 100 <=? x then [digit (x / 100)] else []) ++
  (if 10 <=? x then [digit ((x / 10) mod 10)] else []) ++
  [digit (x mod 10)].

(** Byte [i] of a word, counted from the low end *)
Definition octet (a : Z) (i : Z) : Z := Z.land (Z.shiftr a (8 * i)) 255.

Definition dot : ascii := "."%char.
Definition colon : ascii := ":"%char.

Definition string4 (a : Z) : list ascii :=
  dec_octet (octet a 3) ++ dot :: dec_octet (octet a 2) ++ dot ::
  dec_octet (octet a 1) ++ dot :: dec_octet (octet a 0).

Definition hex_digit (z : Z) : ascii := if z <? 10 then zb (48 + z) else zb (87 + z).

(** [appendHex]: no leading zeros *)
Definition hex_group (x : Z) : list ascii :=
  (if 4096 <=? x then [hex_digit (x / 4096)] else []) ++
  (if 256 <=? x then [hex_digit ((x / 256) mod 16)] else []) ++
  (if 16 <=? x then [hex_digit ((x / 16) mod 16)] else []) ++
  [hex_digit (x mod 16)].

Definition group6 (a : Z) (i : nat) : Z := (a / 2 ^ (16 * (7 - Z.of_nat i))) mod 65536.

Fixpoint zero_run (fuel : nat) (a : Z) (j : nat) : nat :=
  match fuel with
  | O => j
  | S fuel => if bool_decide (j < 8)%nat && (group6 a j =? 0)
              then zero_run fuel a (S j) else j
  end.

(** The first longest run of at least two zero groups, [(255, 255)] if none *)
Definition longest_zero_run (a : Z) : nat * nat :=
  foldl (λ '(zs, ze) i,
    let j := zero_run 8 a i in
    if bool_decide (2 <= j - i ∧ ze - zs < j - i)%nat then (i, j) else (zs, ze))
    (255, 255)%nat (seq 0 8).

Fixpoint string6_go (fuel : nat) (a : Z) (zs ze i : nat) : list ascii :=
  match fuel with
  | O => []
  | S fuel =>
    if bool_decide (8 <= i)%nat then [] else
    if bool_decide (i = zs) then
      colon :: colon ::
      (if bool_decide (8 <= ze)%nat then []
       else hex_group (group6 a ze) ++ string6_go fuel a zs ze (S ze))
    else (if bool_decide (0 < i)%nat then [colon] else []) ++
         hex_group (group6 a i) ++ string6_go fuel a zs ze (S i)
  end.

Definition string6 (a : Z) (zone : string) : list ascii :=
  let body :=
    if a / 2 ^ 32 =? 65535 then bytes "::ffff:" ++ string4 (a mod 2 ^ 32)
    else let '(zs, ze) := longest_zero_run a in string6_go 8 a zs ze 0 in
  body ++ (if bool_decide (zone = "") then [] else "%"%char :: bytes zone).

(** [Addr.String] *)
Definition AddrString (a : Addr) : string :=
  match a with
  | AddrZero => "invalid IP"
  | Addr4 z => of_bytes (string4 z)
  | Addr6 z zone => of_bytes (string6 z zone)
  end.

(** ** Parsing *)
(** [parseIPv4Fields]: [prev] is the byte before the current one, [val] and
    [digLen] the value and the number of digits of the current octet, [fields]
    the octets already complete. *)
Fixpoint parseIPv4Fields (prev : option ascii) (val : Z) (digLen : nat)
    (fields : list Z) (l : list ascii) : option (list Z) :=
  match l with
  | [] => if bool_decide (length fields < 3)%nat then None else Some (fields ++ [val])
  | c :: l' =>
    match digit_val c with
    | Some d =>
      if bool_decide (digLen = 1%nat ∧ val = 0) then None else
      let val := val * 10 + d in
      if 255 <? val then None
      else parseIPv4Fields (Some c) val (S digLen) fields l'
    | None =>
      if bool_decide (c = dot) then
        if bool_decide (prev = None ∨ l' = [] ∨ prev = Some dot) then None else
        if bool_decide (length fields = 3)%nat then None
        else parseIPv4Fields (Some c) 0 0 (fields ++ [val]) l'
      else None
    end
  end.

Definition bytes_val (l : list Z) : Z := foldl (λ acc b, acc * 256 + b) 0 l.

Definition parseIPv4 (l : list ascii) : option Addr :=
  fs ← parseIPv4Fields None 0 0 [] l; Some (Addr4 (bytes_val fs)).

Definition hex_val (c : ascii) : option Z :=
  if in_range c 48 57 then Some (bz c - 48) else
  if in_range c 97 102 then Some (bz c - 87) else
  if in_range c 65 70 then Some (bz c - 55) else None.

Fixpoint hex_field (off : nat) (acc : Z) (l : list ascii) : option (nat * Z * list ascii) :=
  match l with
  | [] => Some (off, acc, [])
  | c :: l' =>
    match hex_val c with
    | None => Some (off, acc, l)
    | Some d =>
      let acc := acc * 16 + d in
      if bool_decide (3 < off)%nat then None else
      if 65535 <? acc then None else hex_field (S off) acc l'
    end
  end.

(** The loop of [parseIPv6]: the bytes read so far, the position of the ellipsis
    and the unread text.  Each turn adds two bytes, so eight turns are enough. *)
Fixpoint parseIPv6_loop (fuel : nat) (ip : list Z) (ell : option nat) (s : list ascii) :
    option (list Z * option nat * list ascii) :=
  match fuel with
  | O => Some (ip, ell, s)
  | S fuel =>
    '(off, acc, rest) ← hex_field 0 0 s;
    if bool_decide (off = 0)%nat then None else
    if bool_decide (head rest = Some dot) then
      if bool_decide (ell = None ∧ length ip ≠ 12%nat) then None else
      if bool_decide (16 < length ip + 4)%nat then None else
      f ← parseIPv4Fields None 0 0 [] s; Some (ip ++ f, ell, [])
    else
      let ip := ip ++ [acc / 256; acc mod 256] in
      match rest with
      | [] => Some (ip, ell, [])
      | c :: rest1 =>
        if bool_decide (c ≠ colon) then None else
        match rest1 with
        | [] => None
        | d :: rest2 =>
          if bool_decide (d = colon) then
            match ell with
            | Some _ => None
            | None =>
              match rest2 with
              | [] => Some (ip, Some (length ip), [])
              | _ => parseIPv6_loop fuel ip (Some (length ip)) rest2
              end
            end
          else parseIPv6_loop fuel ip ell rest1
        end
      end
  end.

Definition parseIPv6_body (s : list ascii) : option Z :=
  let start := match s with
               | c :: d :: s' => if bool_decide (c = colon ∧ d = colon) then (Some 0%nat, s')
                                 else (None, s)
               | _ => (None, s)
               end in
  match start with
  | (Some _, []) => Some 0
  | (ell, s) =>
    '(ip, ell, rest) ← parseIPv6_loop 8 [] ell s;
    match rest with
    | _ :: _ => None
    | [] =>
      let i := length ip in
      if bool_decide (i < 16)%nat then
        match ell with
        | None => None
        | Some e => Some (bytes_val (take e ip ++ replicate (16 - i) 0 ++ drop e ip))
        end
      else match ell with
           | Some _ => None
           | None => Some (bytes_val ip)
           end
    end
  end.

Fixpoint cut_zone (l : list ascii) : list ascii * option (list ascii) :=
  match l with
  | [] => ([], None)
  | c :: l' => if bool_decide (c = "%"%char) then ([], Some l')
               else let '(a, z) := cut_zone l' in (c :: a, z)
  end.

Definition parseIPv6 (l : list ascii) : option Addr :=
  match cut_zone l with
  | (_, Some []) => None
  | (s, z) => a ← parseIPv6_body s; Some (Addr6 a (of_bytes (default [] z)))
  end.

(** The first of ['.'], [':'] and ['%'] decides which parser runs. *)
Fixpoint addr_kind (l : list ascii) : option ascii :=
  match l with
  | [] => None
  | c :: l' => if bool_decide (c = dot ∨ c = colon ∨ c = "%"%char) then Some c
               else addr_kind l'
  end.

(** [netip.ParseAddr]; [None] is an error. *)
Definition ParseAddr (s : string) : option Addr :=
  match addr_kind (bytes s) with
  | Some c => if bool_decide (c = dot) then parseIPv4 (bytes s) else
              if bool_decide (c = colon) then parseIPv6 (bytes s) else None
  | None => None
  end.

(** ** Prefixes *)
Record Prefix : Type := MkPrefix { PrefixAddr : Addr; PrefixBits : Z }.

#[global] Instance Prefix_eq_dec : EqDecision Prefix.
Proof. solve_decision. Defined.

#[global] Instance Prefix_countable : Countable Prefix.
Proof.
  refine (inj_countable' (λ p, (PrefixAddr p, PrefixBits p))
    (λ x, MkPrefix x.1 x.2) _). by intros [].
Defined.

(** [netip.PrefixFrom]: an out-of-range length makes an invalid prefix whose
    [Bits] is -1. *)
Definition PrefixFrom (a : Addr) (bits : Z) : Prefix :=
  if (0 <=? bits) && (bits <=? addr_bitlen a) && IsValid a
  then MkPrefix a bits else MkPrefix a (-1).

Fixpoint last_index (c : ascii) (l : list ascii) : option nat :=
  match l with
  | [] => None
  | d :: l' => match last_index c l' with
               | Some i => Some (S i)
               | None => if bool_decide (c = d) then Some 0%nat else None
               end
  end.

(** [netip.ParsePrefix] *)
Definition ParsePrefix (s : string) : option Prefix :=
  i ← last_index "/"%char (bytes s);
  ip ← ParseAddr (of_bytes (take i (bytes s)));
  if Is6 ip && negb (bool_decide (addr_zone ip = "")) then None else
  let bitsStr := drop (S i) (bytes s) in
  let lead := match bitsStr with
              | c :: _ :: _ => (bz c <? 49) || (57 <? bz c)
              | _ => false
              end in
  if lead then None else
  bits ← Atoi (of_bytes bitsStr);
  let maxBits := if Is6 ip then 128 else 32 in
  if (bits <? 0) || (maxBits <? bits) then None else Some (PrefixFrom ip bits).

(** ** Order facts *)
#[export] Instance addr_less_weak : StrictWeak addr_less.
Proof. unfold addr_less. apply _. Qed.

Lemma addr_less_tie a b : ngt addr_less a b → ngt addr_less b a → a = b.
Proof.
  unfold addr_less. intros H1 H2.
  destruct (lex_tie _ _ _ _ _ H1 H2) as (Hb & H3 & H4).
  destruct (lex_tie _ _ _ _ _ H3 H4) as (Hv & H5 & H6).
  pose proof (by_key_tie _ _ _ _ H5 H6) as Hz.
  by destruct a, b; simplify_eq/=.
Qed.

(** ** Octets *)
Lemma octet_div a i : 0 <= i → octet a i = (a / 2 ^ (8 * i)) mod 256.
Proof.
  intros. unfold octet. change 255 with (Z.ones 8).
  by rewrite Z.land_ones, Z.shiftr_div_pow2 by lia.
Qed.

Lemma octet_bound a i : 0 <= i → 0 <= octet a i < 256.
Proof. intros. rewrite octet_div by done. apply Z.mod_pos_bound. lia. Qed.

Definition is_octet (z : Z) : Prop := 0 <= z < 256.

(** The four octets of an address are the bytes it was built from. *)
Lemma bytes_val_octets o3 o2 o1 o0 :
  is_octet o3 → is_octet o2 → is_octet o1 → is_octet o0 →
  let a := bytes_val [o3; o2; o1; o0] in
  0 <= a < 2 ^ 32 ∧ octet a 3 = o3 ∧ octet a 2 = o2 ∧ octet a 1 = o1 ∧ octet a 0 = o0.
Proof.
  unfold is_octet. intros H3 H2 H1 H0. cbn -[octet].
  rewrite !octet_div by lia.
  change (2 ^ (8 * 3)) with 16777216. change (2 ^ (8 * 2)) with 65536.
  change (2 ^ (8 * 1)) with 256. change (2 ^ (8 * 0)) with 1.
  change (2 ^ 32) with 4294967296.
  repeat split; (Z.to_euclidean_division_equations; lia).
Qed.

Lemma octets_bytes_val a :
  0 <= a < 2 ^ 32 → bytes_val [octet a 3; octet a 2; octet a 1; octet a 0] = a.
Proof.
  intros Ha. change (2 ^ 32) with 4294967296 in Ha. rewrite !octet_div by lia.
  change (2 ^ (8 * 3)) with 16777216. change (2 ^ (8 * 2)) with 65536.
  change (2 ^ (8 * 1)) with 256. change (2 ^ (8 * 0)) with 1.
  cbn. Z.to_euclidean_division_equations; lia.
Qed.

(** *** Digits *)
Lemma digit_val_digit d : 0 <= d < 10 → digit_val (digit d) = Some d.
Proof.
  intros. unfold digit_val, digit. rewrite bz_zb by lia.
  replace (48 <=? 48 + d) with true by lia. replace (48 + d <=? 57) with true by lia.
  simpl. f_equal. lia.
Qed.

Lemma digit_val_inv c d : digit_val c = Some d → c = digit d ∧ 0 <= d < 10.
Proof.
  unfold digit_val, digit. destruct (_ && _) eqn:E; [|done]. intros [= <-].
  split; [|lia]. rewrite <- (zb_bz c) at 1. f_equal. lia.
Qed.

Lemma digit_val_dot : digit_val dot = None.
Proof. reflexivity. Qed.

Lemma dec_octet_digit d : 0 <= d < 10 → dec_octet d = [digit d].
Proof.
  intros. unfold dec_octet. replace (100 <=? d) with false by lia.
  replace (10 <=? d) with false by lia. simpl. by rewrite Z.mod_small.
Qed.

Lemma dec_octet_snoc v d :
  0 < v → 0 <= d < 10 → v * 10 + d < 256 →
  dec_octet (v * 10 + d) = dec_octet v ++ [digit d].
Proof.
  intros Hv Hd Hb. unfold dec_octet.
  replace (v * 10 + d) with (d + v * 10) by lia.
  replace ((d + v * 10) mod 10) with d by (Z.to_euclidean_division_equations; lia).
  replace ((d + v * 10) / 10) with v by (Z.to_euclidean_division_equations; lia).
  replace ((d + v * 10) / 100) with (v / 10) by (Z.to_euclidean_division_equations; lia).
  replace (10 <=? d + v * 10) with true by lia. replace (100 <=? v) with false by lia.
  replace (100 <=? d + v * 10) with (10 <=? v) by lia. simpl.
  destruct (10 <=? v) eqn:E; simpl; [|done].
  do 2 f_equal. f_equal. symmetry. apply Z.mod_small. Z.to_euclidean_division_equations; lia.
Qed.

Lemma dec_octet_nonnil v : dec_octet v ≠ [].
Proof. unfold dec_octet. by intros [_ [_ ?]%app_eq_nil]%app_eq_nil. Qed.

(** ** Parsing what was printed *)

(** Reading the digits of one octet, from any position of the text *)
Lemma parse_octet prev fields o l :
  is_octet o →
  ∃ c n, parseIPv4Fields prev 0 0 fields (dec_octet o ++ l) =
         parseIPv4Fields (Some c) o n fields l ∧ c ≠ dot.
Proof.
  unfold is_octet. intros Ho.
  assert (∀ d, 0 <= d < 10 → digit d ≠ dot) as Hdot.
  { intros d Hd E. pose proof (digit_val_digit d Hd) as Hv. by rewrite E in Hv. }
  assert (∀ prev v n l d, 0 < v → 0 <= d < 10 → v * 10 + d < 256 →
    parseIPv4Fields prev v n fields (digit d :: l) =
    parseIPv4Fields (Some (digit d)) (v * 10 + d) (S n) fields l) as Hstep.
  { intros prev' v n l' d Hv Hd Hb. cbn [parseIPv4Fields]. rewrite digit_val_digit by done.
    rewrite bool_decide_eq_false_2 by lia. by replace (255 <? v * 10 + d) with false by lia. }
  assert (∀ prev l d, 0 <= d < 10 →
    parseIPv4Fields prev 0 0 fields (digit d :: l) =
    parseIPv4Fields (Some (digit d)) d 1 fields l) as Hfirst.
  { intros prev' l' d Hd. cbn [parseIPv4Fields]. rewrite digit_val_digit by done.
    rewrite bool_decide_eq_false_2 by lia. cbv zeta. rewrite Z.mul_0_l, Z.add_0_l.
    by replace (255 <? d) with false by lia. }
  destruct (decide (o < 10)).
  { rewrite dec_octet_digit by lia. simpl app. rewrite Hfirst by lia. eauto with lia. }
  assert (o = o / 10 * 10 + o mod 10 ∧ 0 <= o mod 10 < 10 ∧ 0 < o / 10 ∧ o / 10 < 26) as (E & ?)
    by (Z.to_euclidean_division_equations; lia).
  set (v := o / 10) in *. set (d := o mod 10) in *. clearbody v d. subst o.
  rewrite dec_octet_snoc, <- app_assoc by lia.
  destruct (decide (v < 10)).
  { rewrite dec_octet_digit by lia. simpl app. rewrite Hfirst, Hstep by lia.
    eexists _, _. split; [done|]. apply Hdot. lia. }
  assert (v = v / 10 * 10 + v mod 10 ∧ 0 <= v mod 10 < 10 ∧ 0 < v / 10 ∧ v / 10 < 3) as (E & ?)
    by (Z.to_euclidean_division_equations; lia).
  set (w := v / 10) in *. set (e := v mod 10) in *. clearbody w e. subst v.
  rewrite dec_octet_snoc, <- app_assoc, (dec_octet_digit w) by lia. simpl app.
  rewrite Hfirst, !Hstep by lia. eexists _, _. split; [done|]. apply Hdot. lia.
Qed.

Lemma parse_dot c v n fields l :
  c ≠ dot → l ≠ [] → length fields ≠ 3%nat →
  parseIPv4Fields (Some c) v n fields (dot :: l) =
  parseIPv4Fields (Some dot) 0 0 (fields ++ [v]) l.
Proof.
  intros Hc Hl Hf. cbn [parseIPv4Fields]. rewrite digit_val_dot.
  rewrite bool_decide_eq_true_2 by done. rewrite bool_decide_eq_false_2 by naive_solver.
  by rewrite bool_decide_eq_false_2.
Qed.

Lemma parseIPv4_string4 a : 0 <= a < 2 ^ 32 → parseIPv4 (string4 a) = Some (Addr4 a).
Proof.
  intros Ha. unfold parseIPv4, string4.
  assert (∀ i, 0 <= i → is_octet (octet a i)) as Ho by (intros; by apply octet_bound).
  destruct (parse_octet None [] (octet a 3)
    (dot :: dec_octet (octet a 2) ++ dot :: dec_octet (octet a 1) ++ dot :: dec_octet (octet a 0)))
    as (c3 & n3 & -> & Hc3); [by apply Ho|].
  rewrite parse_dot; [|done|by intros [? ?]%app_eq_nil|done].
  destruct (parse_octet (Some dot) [octet a 3] (octet a 2)
    (dot :: dec_octet (octet a 1) ++ dot :: dec_octet (octet a 0)))
    as (c2 & n2 & E2 & Hc2); [by apply Ho|].
  simpl app at 1. rewrite E2. rewrite parse_dot; [|done|by intros [? ?]%app_eq_nil|done].
  destruct (parse_octet (Some dot) [octet a 3; octet a 2] (octet a 1)
    (dot :: dec_octet (octet a 0))) as (c1 & n1 & E1 & Hc1); [by apply Ho|].
  simpl app at 1. rewrite E1. rewrite parse_dot; [|done|apply dec_octet_nonnil|done].
  destruct (parse_octet (Some dot) [octet a 3; octet a 2; octet a 1] (octet a 0) [])
    as (c0 & n0 & E0 & Hc0); [by apply Ho|].
  rewrite app_nil_r in E0. simpl app. rewrite E0.
  cbn [parseIPv4Fields]. rewrite bool_decide_eq_false_2 by (simpl; lia).
  simpl app. cbn [mbind option_bind]. by rewrite octets_bytes_val.
Qed.

(** ** Printing what was parsed *)
Definition dotted_prefix (fields : list Z) : list ascii :=
  concat ((λ o, dec_octet o ++ [dot]) <$> fields).

(** The state of the scan: [cur] is the text of the octet being read. *)
Definition scan_inv (cur : list ascii) (prev : option ascii) (val : Z) (n : nat)
    (fields : list Z) (l : list ascii) : Prop :=
  (cur = [] ∧ val = 0 ∧ n = 0%nat ∧ (prev = None ∨ prev = Some dot) ∧ (fields = [] ∨ l ≠ []))
  ∨ (cur = dec_octet val ∧ is_octet val ∧ n = length cur).

Lemma scan_inv_digit cur prev val n fields l c d :
  scan_inv cur prev val n fields (c :: l) →
  digit_val c = Some d → ¬ (n = 1%nat ∧ val = 0) → val * 10 + d <= 255 →
  scan_inv (cur ++ [c]) (Some c) (val * 10 + d) (S n) fields l.
Proof.
  intros Hinv (-> & Hd)%digit_val_inv Hz Hb. right.
  destruct Hinv as [(-> & -> & -> & _ & _)|(-> & Ho & ->)].
  - rewrite Z.mul_0_l, Z.add_0_l, dec_octet_digit by done. by unfold is_octet; split_and!; try lia.
  - assert (0 < val).
    { unfold is_octet in Ho. destruct (decide (val = 0)) as [->|]; [|lia]. by destruct Hz. }
    unfold is_octet in *. rewrite dec_octet_snoc, length_app by lia. simpl. split_and!; [done|lia..].
Qed.

Lemma parse_fields_print l : ∀ cur prev val n fields fs,
  scan_inv cur prev val n fields l → Forall is_octet fields → (length fields <= 3)%nat →
  parseIPv4Fields prev val n fields l = Some fs →
  ∃ fields' v, fs = fields' ++ [v] ∧ length fields' = 3%nat ∧ Forall is_octet fs ∧
    dotted_prefix fields ++ cur ++ l = dotted_prefix fields' ++ dec_octet v.
Proof.
  induction l as [|c l IH]; intros cur prev val n fields fs Hinv Hf Hlen; cbn [parseIPv4Fields].
  - case_bool_decide as Hl; [done|]. intros [= <-]. exists fields, val.
    destruct Hinv as [(_ & _ & _ & _ & [->|?])|(-> & Ho & _)]; [simpl in Hl; lia|done|].
    split_and!; [done|lia|by apply Forall_app; auto|by rewrite app_nil_r].
  - destruct (digit_val c) as [d|] eqn:Hd.
    + case_bool_decide as Hz; [done|]. destruct (255 <? _) eqn:Hb; [done|]. intros Hp.
      apply (IH (cur ++ [c])) in Hp; [by rewrite <- app_assoc in Hp| |done..].
      eapply scan_inv_digit; [done..|lia].
    + case_bool_decide as Hc; [subst c|done]. case_bool_decide as Hprev; [done|].
      case_bool_decide as H3; [done|]. intros Hp.
      destruct Hinv as [(_ & _ & _ & Hprev' & _)|(-> & Ho & _)]; [naive_solver|].
      apply (IH []) in Hp as (fields' & v & -> & ? & ? & E).
      * exists fields', v. split_and!; [done..|]. rewrite <- E.
        unfold dotted_prefix. rewrite fmap_app, concat_app. simpl. by rewrite app_nil_r, <- !app_assoc.
      * left. split_and!; [done..|by right|right; naive_solver].
      * by apply Forall_app; auto.
      * rewrite length_app. simpl. lia.
Qed.

Lemma parseIPv4_inv l a :
  parseIPv4 l = Some a → ∃ z, a = Addr4 z ∧ 0 <= z < 2 ^ 32 ∧ string4 z = l.
Proof.
  unfold parseIPv4. destruct (parseIPv4Fields _ _ _ _ _) as [fs|] eqn:E; [|done].
  cbn. intros [= <-]. apply (parse_fields_print _ []) in E as (fields' & v & -> & H3 & Hoct & Hp).
  - destruct fields' as [|o3 [|o2 [|o1 [|]]]]; simpl in H3; try lia. clear H3.
    simpl in Hoct.
    rewrite !Forall_cons in Hoct. destruct Hoct as (? & ? & ? & ? & _).
    destruct (bytes_val_octets o3 o2 o1 v) as (Hb & E3 & E2 & E1 & E0); [done..|].
    eexists. split; [done|]. split; [exact Hb|]. unfold string4.
    change ([o3; o2; o1] ++ [v]) with [o3; o2; o1; v]. rewrite E3, E2, E1, E0.
    unfold dotted_prefix in Hp. simpl in Hp. by rewrite app_nil_r, <- !app_assoc in Hp.
  - left. naive_solver.
  - constructor.
  - simpl. lia.
Qed.

(** *** Which parser runs *)
Lemma addr_kind_digits l k :
  (∀ c, c ∈ l → is_Some (digit_val c)) → addr_kind (l ++ k) = addr_kind k.
Proof.
  induction l as [|c l IH]; intros Hd; simpl; [done|].
  rewrite bool_decide_eq_false_2; [apply IH; set_solver|].
  destruct (Hd c) as [d Hc]; [set_solver|]. intros Hcc.
  assert (digit_val c = None) by (destruct Hcc as [->|[->| ->]]; reflexivity). congruence.
Qed.

Lemma dec_octet_digits o c : is_octet o → c ∈ dec_octet o → is_Some (digit_val c).
Proof.
  unfold is_octet. intros Ho Hc. unfold dec_octet in Hc.
  assert (∃ d, 0 <= d < 10 ∧ c = digit d) as (d & Hd & ->).
  { rewrite !elem_of_app in Hc. destruct Hc as [Hc|[Hc|Hc]].
    - destruct (100 <=? o); [|by apply not_elem_of_nil in Hc]. apply list_elem_of_singleton in Hc.
      exists (o / 100). split; [Z.to_euclidean_division_equations; lia|done].
    - destruct (10 <=? o); [|by apply not_elem_of_nil in Hc]. apply list_elem_of_singleton in Hc.
      eexists. split; [|done]. apply Z.mod_pos_bound; lia.
    - apply list_elem_of_singleton in Hc. eexists. split; [|done]. apply Z.mod_pos_bound; lia. }
  rewrite digit_val_digit by done. eauto.
Qed.

Lemma addr_kind_string4 a : 0 <= a < 2 ^ 32 → addr_kind (string4 a) = Some dot.
Proof.
  intros Ha. unfold string4. rewrite addr_kind_digits; [done|].
  intros c Hc. eapply dec_octet_digits; [|done]. apply octet_bound. lia.
Qed.

(** The printed form of an IPv4 address parses to that address. *)
Lemma ParseAddr_AddrString a : Is4 a = true → addr_wf a → ParseAddr (AddrString a) = Some a.
Proof.
  destruct a as [|z|]; [done| |done]. cbn [Is4 addr_wf AddrString]. intros _ Hz. unfold ParseAddr.
  rewrite bytes_of_bytes, addr_kind_string4, bool_decide_eq_true_2 by done.
  by apply parseIPv4_string4.
Qed.

(** Whatever parses to an IPv4 address is the printed form of that address. *)
Lemma AddrString_ParseAddr s a :
  ParseAddr s = Some a → Is4 a = true → AddrString a = s ∧ addr_wf a.
Proof.
  unfold ParseAddr. destruct (addr_kind (bytes s)) as [c|]; [|done].
  case_bool_decide; [|case_bool_decide; [|done]].
  - intros (z & -> & Hz & E)%parseIPv4_inv _. cbn [addr_wf AddrString]. split; [|done].
    by rewrite E, of_bytes_bytes.
  - unfold parseIPv6. destruct (cut_zone (bytes s)) as [l z].
    destruct z as [[|? ?]|]; [done|..]; cbn;
      destruct (parseIPv6_body l); intros; by simplify_eq/=.
Qed.

Lemma AddrString_inj a b :
  Is4 a = true → Is4 b = true → addr_wf a → addr_wf b → AddrString a = AddrString b → a = b.
Proof.
  intros Ha Hb Wa Wb E. apply (f_equal ParseAddr) in E.
  rewrite !ParseAddr_AddrString in E by done. by injection E.
Qed.

(** A printed IPv4 address consists of digits and dots. *)
Lemma AddrString_chars a c :
  Is4 a = true → c ∈ bytes (AddrString a) → c = dot ∨ ∃ d, c = digit d ∧ 0 <= d < 10.
Proof.
  destruct a as [|z|]; [done| |done]. unfold AddrString. intros _ Hc.
  rewrite bytes_of_bytes in Hc. unfold string4 in Hc. rewrite !elem_of_app, !elem_of_cons in Hc.
  rewrite !elem_of_app, !elem_of_cons, elem_of_app, elem_of_cons in Hc.
  assert (∀ i, 0 <= i → c ∈ dec_octet (octet z i) → ∃ d, c = digit d ∧ 0 <= d < 10) as Ho.
  { intros i Hi Hd. apply dec_octet_digits in Hd as [d Hd]; [|by apply octet_bound].
    apply digit_val_inv in Hd. eauto. }
  destruct Hc as [?|[?|[?|[?|[?|[?|?]]]]]];
    first [by left | right; eapply Ho; [|eassumption]; lia].
Qed.

(** Printed IPv4 addresses contain no white space at either end. *)
Lemma TrimSpace_AddrString a : Is4 a = true → TrimSpace (AddrString a) = AddrString a.
Proof.
  intros H4. apply TrimSpace_solid, forallb_spec. intros c Hc.
  apply AddrString_chars in Hc as [->|(d & -> & Hd)]; [done| |done].
  unfold solid, digit. rewrite bz_zb by lia. lia.
Qed.

Lemma AddrString_nonempty a : Is4 a = true → addr_wf a → AddrString a ≠ "".
Proof. intros H W E. pose proof (ParseAddr_AddrString a H W) as P. by rewrite E in P. Qed.

#[global] Arguments string4 : simpl never.
#[global] Arguments parseIPv4 : simpl never.
#[global] Arguments parseIPv6 : simpl never.
#[global] Arguments ParseAddr : simpl never.
#[global] Arguments AddrString : simpl never.
#[global] Arguments TrimSpace : simpl never.
