(* ===== verification/GoURL.v ===== *)
(** * URLs (Go's [net/url])

    Percent-encoding of the components, the parts of a URL, its text and the
    parser, as in Go 1.26.  A URL whose host is not a zoned IP literal is proved to
    survive being printed and parsed again. *)
From S2P Require Import Prelude GoStrings NetIP.
Local Open Scope Z_scope.

(** ** Percent-encoding *)
Inductive encoding : Type := encodePath | encodeUserPassword | encodeHost | encodeFragment.

Definition is_alnum (c : ascii) : bool := in_range c 97 122 || in_range c 65 90 || in_range c 48 57.

Definition one_of (c : ascii) (s : string) : bool := bool_decide (c ∈ bytes s).

(** [shouldEscape]; byte 34 is the double quote. *)
Definition shouldEscape (c : ascii) (mode : encoding) : bool :=
  if is_alnum c then false else
  if (match mode with encodeHost => true | _ => false end) &&
     (one_of c "!$&'()*+,;=:[]<>" || bool_decide (c = zb 34)) then false else
  if one_of c "-_.~" then false else
  if one_of c "$&+,/:;=?@" then
    match mode with
    | encodePath => bool_decide (c = "?"%char)
    | encodeUserPassword => one_of c "@/?:"
    | encodeFragment => false
    | encodeHost => true
    end
  else match mode with
       | encodeFragment => negb (one_of c "!()*")
       | _ => true
       end.

Definition upperhex (d : Z) : ascii := if d <? 10 then zb (48 + d) else zb (55 + d).

Definition unhex (c : ascii) : option Z :=
  if in_range c 48 57 then Some (bz c - 48) else
  if in_range c 97 102 then Some (bz c - 87) else
  if in_range c 65 70 then Some (bz c - 55) else None.

Definition escape_byte (mode : encoding) (c : ascii) : list ascii :=
  if shouldEscape c mode then ["%"%char; upperhex (bz c / 16); upperhex (bz c mod 16)] else [c].

(** [escape] *)
Definition escape (s : string) (mode : encoding) : string := of_bytes (bytes s ≫= escape_byte mode).

Fixpoint unescape_go (l : list ascii) : option (list ascii) :=
  match l with
  | [] => Some []
  | c :: l1 =>
    if bool_decide (c = "%"%char) then
      match l1 with
      | h :: (d :: l2) =>
        x ← unhex h; y ← unhex d; r ← unescape_go l2; Some (zb (16 * x + y) :: r)
      | _ => None
      end
    else r ← unescape_go l1; Some (c :: r)
  end.

(** [unescape] in the modes without restrictions: [url.PathUnescape] *)
Definition PathUnescape (s : string) : option string := of_bytes <$> unescape_go (bytes s).

(** [validEncoded] *)
Definition validEncoded (s : string) (mode : encoding) : bool :=
  forallb (λ c, one_of c "!$&'()*+,;=:@[]%" || negb (shouldEscape c mode)) (bytes s).

(** ** The parts of a URL *)

Record Userinfo : Type := MkUser { username : string; password : option string }.

(** [Userinfo.String] *)
Definition UserString (u : Userinfo) : string :=
  escape (username u) encodeUserPassword +:+
  match password u with Some p => ":" +:+ escape p encodeUserPassword | None => "" end.

(** [url.URL] *)
Record URL : Type := MkURL {
  urlScheme : string;
  urlOpaque : string;
  urlUser : option Userinfo;
  urlHost : string;
  urlPath : string;
  urlRawPath : string;
  urlOmitHost : bool;
  urlForceQuery : bool;
  urlRawQuery : string;
  urlFragment : string;
  urlRawFragment : string;
}.

#[global] Instance Userinfo_eq_dec : EqDecision Userinfo.
Proof. solve_decision. Defined.

(** [URL.IsAbs] *)
Definition IsAbs (u : URL) : bool := bool_decide (urlScheme u ≠ "").

(** An encoded hint is used when it is a valid encoding of the decoded text. *)
Definition escaped_by_hint (raw decoded : string) (mode : encoding) : option string :=
  if bool_decide (raw ≠ "") && validEncoded raw mode && bool_decide (PathUnescape raw = Some decoded)
  then Some raw else None.

(** [URL.EscapedPath] *)
Definition EscapedPath (u : URL) : string :=
  match escaped_by_hint (urlRawPath u) (urlPath u) encodePath with
  | Some raw => raw
  | None => if bool_decide (urlPath u = "*") then "*" else escape (urlPath u) encodePath
  end.

(** [URL.EscapedFragment] *)
Definition EscapedFragment (u : URL) : string :=
  default (escape (urlFragment u) encodeFragment)
    (escaped_by_hint (urlRawFragment u) (urlFragment u) encodeFragment).

(** The first path segment, up to the first slash *)
Definition first_segment (path : string) : string := default "" (head (Split path "/"%char)).

(** The scheme and the authority *)
Definition url_prefix (u : URL) : string :=
  (if bool_decide (urlScheme u = "") then "" else urlScheme u +:+ ":") +:+
  if bool_decide (urlScheme u = "") && bool_decide (urlHost u = "") && bool_decide (urlUser u = None) then "" else
  if urlOmitHost u && bool_decide (urlHost u = "") && bool_decide (urlUser u = None) then "" else
  (if bool_decide (urlHost u = "") && bool_decide (urlPath u = "") && bool_decide (urlUser u = None)
   then "" else "//") +:+
  match urlUser u with Some ui => UserString ui +:+ "@" | None => "" end +:+
  (if bool_decide (urlHost u = "") then "" else escape (urlHost u) encodeHost).

(** [URL.String] *)
Definition URLString (u : URL) : string :=
  (if bool_decide (urlOpaque u ≠ "")
   then (if bool_decide (urlScheme u = "") then "" else urlScheme u +:+ ":") +:+ urlOpaque u
   else
     let path := EscapedPath u in
     let prefix := url_prefix u in
     let prefix := if bool_decide (path ≠ "") && negb (HasPrefix path "/") && bool_decide (urlHost u ≠ "")
                   then prefix +:+ "/" else prefix in
     let prefix := if bool_decide (prefix = "") && one_of ":"%char (first_segment path)
                   then "./" else prefix in
     prefix +:+ path) +:+
  (if urlForceQuery u || bool_decide (urlRawQuery u ≠ "") then "?" +:+ urlRawQuery u else "") +:+
  (if bool_decide (urlFragment u ≠ "") then "#" +:+ EscapedFragment u else "").

(** ** Parsing *)

(** [strings.Cut]: the text before the first [c], and the text after it if there is
    one *)
Fixpoint cut (c : ascii) (l : list ascii) : list ascii * option (list ascii) :=
  match l with
  | [] => ([], None)
  | x :: l => if bool_decide (x = c) then ([], Some l)
              else let '(before, after) := cut c l in (x :: before, after)
  end.

(** The text before the last [c] if there is one, and the text after it *)
Definition last_cut (c : ascii) (l : list ascii) : option (list ascii) * list ascii :=
  let '(after, before) := cut c (reverse l) in (reverse <$> before, reverse after).

(** [stringContainsCTLByte] *)
Definition is_ctl (c : ascii) : bool := (bz c <? 32) || (bz c =? 127).

(** [getScheme]: [None] is an error, [Some None] no scheme *)
Fixpoint getScheme_go (first : bool) (l : list ascii) : option (option (list ascii * list ascii)) :=
  match l with
  | [] => Some None
  | c :: l =>
    let next := (λ o, option_map (λ '(s, rest), (c :: s, rest)) o) <$> getScheme_go false l in
    if in_range c 97 122 || in_range c 65 90 then next else
    if in_range c 48 57 || one_of c "+-." then (if first then Some None else next) else
    if bool_decide (c = ":"%char) then (if first then None else Some (Some ([], l)))
    else Some None
  end.

(** [validOptionalPort] *)
Definition validOptionalPort (l : list ascii) : bool :=
  match l with
  | [] => true
  | c :: l => bool_decide (c = ":"%char) && forallb is_digit l
  end.

(** One escape in a host: of a percent sign or a byte above ASCII; in a zone also of
    a byte that needs no escape, and of a space *)
Definition host_escape_ok (zone : bool) (v : Z) : bool :=
  if zone then (v =? 37) || (v =? 32) || negb (shouldEscape (zb v) encodeHost)
  else (128 <=? v) || (v =? 37).

(** [unescape] in the modes [encodeHost] and [encodeZone] *)
Fixpoint unescape_host (zone : bool) (l : list ascii) : option (list ascii) :=
  match l with
  | [] => Some []
  | c :: l1 =>
    if bool_decide (c = "%"%char) then
      match l1 with
      | h :: (d :: l2) =>
        x ← unhex h; y ← unhex d;
        if host_escape_ok zone (16 * x + y)
        then r ← unescape_host zone l2; Some (zb (16 * x + y) :: r) else None
      | _ => None
      end
    else if (bz c <? 128) && shouldEscape c encodeHost then None
    else r ← unescape_host zone l1; Some (c :: r)
  end.

(** The text before the first ["%25"], and the text from it on *)
Fixpoint zone_cut (l : list ascii) : list ascii * list ascii :=
  match l with
  | [] => ([], [])
  | c :: l1 => if bool_decide (take 3 l = bytes "%25") then ([], l)
               else let '(host, zone) := zone_cut l1 in (c :: host, zone)
  end.

(** The name between the brackets of an IP literal *)
Definition parse_literal (hostname : list ascii) : option (list ascii) :=
  let '(hostPart, zonePart) := zone_cut hostname in
  h ← unescape_host false hostPart;
  z ← unescape_host true zonePart;
  addr ← ParseAddr (of_bytes (h ++ z));
  if Is4 addr then None else Some (h ++ z).

(** [parseHost]; the exception Go makes for several ports in the postgres schemes is
    left out. *)
Definition parseHost (host : list ascii) : option (list ascii) :=
  match last_cut "["%char host with
  | (Some (_ :: _), _) => None
  | (Some [], rest) =>
    match last_cut "]"%char rest with
    | (None, _) => None
    | (Some hostname, colonPort) =>
      if negb (validOptionalPort colonPort) then None else
      port ← unescape_host false colonPort;
      name ← parse_literal hostname;
      Some ("["%char :: name ++ "]"%char :: port)
    end
  | (None, _) =>
    match cut ":"%char host with
    | (_, Some port) => if forallb is_digit port then unescape_host false host else None
    | (_, None) => unescape_host false host
    end
  end.

(** [validUserinfo] *)
Definition validUserinfo (l : list ascii) : bool := forallb (λ c, is_alnum c || one_of c "-._:~!$&'()*+,;=%@") l.

Definition parse_user (userinfo : list ascii) : option Userinfo :=
  if negb (validUserinfo userinfo) then None else
  match cut ":"%char userinfo with
  | (user, None) => u ← unescape_go user; Some (MkUser (of_bytes u) None)
  | (user, Some pass) => u ← unescape_go user; p ← unescape_go pass; Some (MkUser (of_bytes u) (Some (of_bytes p)))
  end.

(** [parseAuthority] *)
Definition parseAuthority (authority : list ascii) : option (option Userinfo * list ascii) :=
  match last_cut "@"%char authority with
  | (None, host) => h ← parseHost host; Some (None, h)
  | (Some userinfo, host) => h ← parseHost host; u ← parse_user userinfo; Some (Some u, h)
  end.

(** The hint of an encoding that is not the default one *)
Definition raw_hint (raw decoded : string) (mode : encoding) : string :=
  if bool_decide (escape decoded mode = raw) then "" else raw.

(** The query: a single trailing question mark is kept as a flag. *)
Definition parse_query (rest : list ascii) : list ascii * bool * list ascii :=
  match cut "?"%char rest with
  | (before, None) => (before, false, [])
  | (before, Some []) => (before, true, [])
  | (before, Some query) => (before, false, query)
  end.

Definition starts_with (p l : list ascii) : bool := bool_decide (take (length p) l = p).

(** The authority and the path that follow the scheme; [None] for no authority *)
Definition split_authority (rest : list ascii) : list ascii * list ascii :=
  match cut "/"%char (drop 2 rest) with
  | (authority, None) => (authority, [])
  | (authority, Some path) => (authority, "/"%char :: path)
  end.

(** [parse] *)
Definition parse (viaRequest : bool) (rawURL : list ascii) : option URL :=
  if existsb is_ctl rawURL then None else
  if bool_decide (rawURL = []) && viaRequest then None else
  if bool_decide (rawURL = ["*"%char]) then Some (MkURL "" "" None "" "*" "" false false "" "" "") else
  sch ← getScheme_go true rawURL;
  let '(scheme, rest) := match sch with Some (s, rest) => (of_bytes (ascii_lower <$> s), rest) | None => ("", rawURL) end in
  let '(rest, force, query) := parse_query rest in
  let has_scheme := bool_decide (scheme ≠ "") in
  if negb (starts_with ["/"%char] rest) && has_scheme
  then Some (MkURL scheme (of_bytes rest) None "" "" "" false force (of_bytes query) "" "") else
  if negb (starts_with ["/"%char] rest) && viaRequest then None else
  if negb (starts_with ["/"%char] rest) && one_of ":"%char (first_segment (of_bytes rest)) then None else
  let with_authority := (has_scheme || (negb viaRequest && negb (starts_with (bytes "///") rest))) &&
                        starts_with (bytes "//") rest in
  let omit := negb with_authority && has_scheme && starts_with ["/"%char] rest in
  let '(authority, path) := if with_authority then split_authority rest else ([], rest) in
  auth ← (if with_authority then parseAuthority authority else Some (None, []));
  p ← unescape_go path;
  Some (MkURL scheme "" auth.1 (of_bytes auth.2) (of_bytes p) (raw_hint (of_bytes path) (of_bytes p) encodePath)
          omit force (of_bytes query) "" "").

(** [url.Parse] *)
Definition url_Parse (rawURL : string) : option URL :=
  let '(u, frag) := cut "#"%char (bytes rawURL) in
  url ← parse false u;
  match frag with
  | None | Some [] => Some url
  | Some f =>
    d ← unescape_go f;
    Some (MkURL (urlScheme url) (urlOpaque url) (urlUser url) (urlHost url) (urlPath url) (urlRawPath url)
            (urlOmitHost url) (urlForceQuery url) (urlRawQuery url) (of_bytes d)
            (raw_hint (of_bytes f) (of_bytes d) encodeFragment))
  end.

(** [url.ParseRequestURI] *)
Definition ParseRequestURI (rawURL : string) : option URL := parse true (bytes rawURL).

(** [URL.RequestURI] *)
Definition RequestURI (u : URL) : string :=
  (if bool_decide (urlOpaque u = "")
   then (if bool_decide (EscapedPath u = "") then "/" else EscapedPath u)
   else if HasPrefix (urlOpaque u) "//" then urlScheme u +:+ ":" +:+ urlOpaque u else urlOpaque u) +:+
  (if urlForceQuery u || bool_decide (urlRawQuery u ≠ "") then "?" +:+ urlRawQuery u else "").

(** ** Facts *)
Lemma unhex_upperhex d : 0 <= d < 16 → unhex (upperhex d) = Some d.
Proof.
  intros Hd. assert (forallb (λ n, bool_decide (unhex (upperhex (Z.of_nat n)) = Some (Z.of_nat n))) (seq 0 16) = true)
    as Hall by (vm_compute; reflexivity).
  rewrite forallb_spec in Hall. specialize (Hall (Z.to_nat d)). rewrite elem_of_seq in Hall.
  specialize (Hall ltac:(lia)). bool_props. by rewrite Z2Nat.id in Hall by lia.
Qed.

Lemma shouldEscape_percent mode : shouldEscape "%"%char mode = true.
Proof. by destruct mode; vm_compute. Qed.

Lemma unescape_byte mode c l :
  unescape_go (escape_byte mode c ++ l) = r ← unescape_go l; Some (c :: r).
Proof.
  unfold escape_byte. destruct (shouldEscape c mode) eqn:E; cbn [app unescape_go].
  - rewrite bool_decide_eq_true_2 by done. pose proof (bz_bound c).
    rewrite !unhex_upperhex by (Z.div_mod_to_equations; lia). cbn [mbind option_bind].
    replace (zb (16 * (bz c / 16) + bz c mod 16)) with c; [done|].
    rewrite <- (zb_bz c) at 1. f_equal. Z.div_mod_to_equations. lia.
  - rewrite bool_decide_eq_false_2; [done|]. intros ->. by rewrite shouldEscape_percent in E.
Qed.

(** Decoding is a left inverse of encoding, in every mode. *)
Lemma PathUnescape_escape s mode : PathUnescape (escape s mode) = Some s.
Proof.
  unfold PathUnescape, escape. rewrite bytes_of_bytes.
  assert (∀ l, unescape_go (l ≫= escape_byte mode) = Some l) as ->; [|by rewrite <- (of_bytes_bytes s) at 2].
  induction l as [|c l IH]; [done|]. cbn [mbind list_bind]. by rewrite unescape_byte, IH.
Qed.

(** A text without percent signs is its own decoding. *)
Lemma PathUnescape_plain s : "%"%char ∉ bytes s → PathUnescape s = Some s.
Proof.
  intros Hs. unfold PathUnescape.
  assert (unescape_go (bytes s) = Some (bytes s)) as ->; [|cbn; by rewrite of_bytes_bytes].
  induction (bytes s) as [|c l IH]; [done|]. cbn [unescape_go]. apply not_elem_of_cons in Hs as [Hc Hl].
  rewrite bool_decide_eq_false_2 by auto. by rewrite IH.
Qed.

(** ** Printing and parsing again *)
Lemma cut_sep c a b : c ∉ a → cut c (a ++ c :: b) = (a, Some b).
Proof.
  induction a as [|x a IH]; intros Hc; cbn [app cut]; [by rewrite bool_decide_eq_true_2|].
  apply not_elem_of_cons in Hc as [Hx Hc]. rewrite bool_decide_eq_false_2 by congruence. by rewrite IH.
Qed.

Lemma cut_none c l : c ∉ l → cut c l = (l, None).
Proof.
  induction l as [|x l IH]; intros Hc; cbn [cut]; [done|].
  apply not_elem_of_cons in Hc as [Hx Hc]. rewrite bool_decide_eq_false_2 by congruence. by rewrite IH.
Qed.

Lemma cut_inv c l a o :
  cut c l = (a, o) → c ∉ a ∧ match o with Some b => l = a ++ c :: b | None => l = a end.
Proof.
  revert a. induction l as [|x l IH]; intros a; cbn [cut].
  { intros [= <- <-]. split; [apply not_elem_of_nil|done]. }
  case_bool_decide as Hx; [subst x; intros [= <- <-]; split; [apply not_elem_of_nil|done]|].
  destruct (cut c l) as [a' o']. intros [= <- <-]. destruct (IH _ eq_refl) as [Hc Ho].
  split; [by apply not_elem_of_cons|]. destruct o'; by rewrite Ho.
Qed.

Lemma last_cut_sep c a b : c ∉ b → last_cut c (a ++ c :: b) = (Some a, b).
Proof.
  intros Hc. unfold last_cut. rewrite reverse_app, reverse_cons, <- app_assoc. cbn [app].
  rewrite cut_sep by by rewrite elem_of_reverse. cbn. by rewrite !reverse_involutive.
Qed.

Lemma last_cut_none c l : c ∉ l → last_cut c l = (None, l).
Proof.
  intros Hc. unfold last_cut. rewrite cut_none by by rewrite elem_of_reverse. cbn. by rewrite reverse_involutive.
Qed.

Lemma last_cut_inv c l o b :
  last_cut c l = (o, b) → c ∉ b ∧ match o with Some a => l = a ++ c :: b | None => l = b end.
Proof.
  unfold last_cut. destruct (cut c (reverse l)) as [a' o'] eqn:E. apply cut_inv in E as [Hc Ho].
  intros [= <- <-]. rewrite elem_of_reverse. split; [done|].
  rewrite <- (reverse_involutive l). destruct o'; cbn; rewrite Ho; [|done].
  by rewrite reverse_app, reverse_cons, <- app_assoc.
Qed.

(** Bytes an encoded host may hold, decoded *)
Definition host_byte (c : ascii) : Prop := 128 <= bz c ∨ c = "%"%char ∨ shouldEscape c encodeHost = false.

Lemma unescape_host_cons zone c l :
  c ≠ "%"%char → unescape_host zone (c :: l) =
    if (bz c <? 128) && shouldEscape c encodeHost then None else r ← unescape_host zone l; Some (c :: r).
Proof. intros Hc. cbn [unescape_host]. by rewrite bool_decide_eq_false_2. Qed.

(** Induction along the escapes of a text *)
Lemma unescape_host_ind zone (P : list ascii → list ascii → Prop) :
  P [] [] →
  (∀ h d l r x y, unhex h = Some x → unhex d = Some y → host_escape_ok zone (16 * x + y) = true →
    unescape_host zone l = Some r → P l r → P ("%"%char :: h :: d :: l) (zb (16 * x + y) :: r)) →
  (∀ c l r, c ≠ "%"%char → (bz c <? 128) && shouldEscape c encodeHost = false →
    unescape_host zone l = Some r → P l r → P (c :: l) (c :: r)) →
  ∀ l r, unescape_host zone l = Some r → P l r.
Proof.
  intros Hnil Hesc Hraw l. induction l as [l IH] using (induction_ltof1 _ (@length ascii)). unfold ltof in IH.
  intros r. destruct l as [|c l]; [by intros [= <-]|]. destruct (decide (c = "%"%char)) as [->|Hc].
  - cbn [unescape_host]. rewrite bool_decide_eq_true_2 by done. destruct l as [|h [|d l]]; [done..|].
    destruct (unhex h) as [x|] eqn:Hx; [|done]. cbn [mbind option_bind].
    destruct (unhex d) as [y|] eqn:Hy; [|done]. cbn [mbind option_bind].
    destruct (host_escape_ok zone (16 * x + y)) eqn:Hok; [|done].
    destruct (unescape_host zone l) as [r'|] eqn:Hl; [|done]. cbn [mbind option_bind]. intros [= <-].
    apply Hesc; auto. apply IH; [cbn; lia|done].
  - rewrite unescape_host_cons by done. destruct ((bz c <? 128) && _) eqn:Hok; [done|].
    destruct (unescape_host zone l) as [r'|] eqn:Hl; [|done]. cbn [mbind option_bind]. intros [= <-].
    apply Hraw; auto.
Qed.

Lemma unhex_range h x : unhex h = Some x → 0 <= x < 16.
Proof.
  unfold unhex, in_range. pose proof (bz_bound h).
  repeat match goal with |- context [if ?b then _ else _] => destruct b eqn:? end; intros [= <-]; bool_props; lia.
Qed.

(** What decoding a host gives, and where its plain bytes come from *)
Lemma unescape_host_out l r :
  unescape_host false l = Some r → Forall host_byte r ∧ ∀ c, c ∈ r → bz c < 128 → c ≠ "%"%char → c ∈ l.
Proof.
  revert l r. apply (unescape_host_ind false (λ l r, Forall host_byte r ∧ ∀ c, c ∈ r → bz c < 128 → c ≠ "%"%char → c ∈ l)).
  - split; [done|]. by intros c ?%not_elem_of_nil.
  - intros h d l' r' x y Hx Hy Hok _ [IH1 IH2]. apply unhex_range in Hx, Hy.
    unfold host_escape_ok in Hok. assert (host_byte (zb (16 * x + y))) as Hb.
    { apply orb_true_iff in Hok as [Hok|Hok]; [left; rewrite bz_zb; lia|].
      right. left. by assert (16 * x + y = 37) as -> by lia. }
    split; [by constructor|]. intros c [->|Hc]%elem_of_cons Hlow Hp; [|set_solver].
    apply orb_true_iff in Hok as [Hok|Hok]; [rewrite bz_zb in Hlow; lia|].
    destruct Hp. by assert (16 * x + y = 37) as -> by lia.
  - intros c l' r' Hp Hok _ [IH1 IH2]. split; [|set_solver]. constructor; [|done].
    apply andb_false_iff in Hok as [Hok|Hok]; [left; lia|by right; right].
Qed.

(** The encoding of one byte of a host is decoded again. *)
Lemma unescape_host_byte c l :
  host_byte c → unescape_host false (escape_byte encodeHost c ++ l) = r ← unescape_host false l; Some (c :: r).
Proof.
  intros Hc. unfold escape_byte. pose proof (bz_bound c). destruct (shouldEscape c encodeHost) eqn:E; cbn [app].
  - cbn [unescape_host]. rewrite bool_decide_eq_true_2 by done.
    rewrite !unhex_upperhex by (Z.div_mod_to_equations; lia). cbn [mbind option_bind].
    replace (16 * (bz c / 16) + bz c mod 16) with (bz c) by (Z.div_mod_to_equations; lia). rewrite zb_bz.
    assert (host_escape_ok false (bz c) = true) as ->; [|done]. unfold host_escape_ok.
    destruct Hc as [Hc|[->|Hc]]; [|done|congruence]. apply orb_true_iff. left. lia.
  - rewrite unescape_host_cons by (intros ->; by rewrite shouldEscape_percent in E). by rewrite E, andb_false_r.
Qed.

Lemma unescape_host_escape r : Forall host_byte r → unescape_host false (r ≫= escape_byte encodeHost) = Some r.
Proof.
  induction 1 as [|c r Hc _ IH]; [done|]. cbn [mbind list_bind]. by rewrite unescape_host_byte, IH.
Qed.

(** A byte that is neither a percent sign nor a hex digit separates what is decoded. *)
Lemma unescape_host_sep x a b r :
  x ≠ "%"%char → unhex x = None → unescape_host false (a ++ x :: b) = Some r →
  ∃ ra rb, unescape_host false a = Some ra ∧ unescape_host false b = Some rb ∧ r = ra ++ x :: rb.
Proof.
  intros Hx Hh. revert r. induction a as [a IH] using (induction_ltof1 _ (@length ascii)). unfold ltof in IH.
  intros r. destruct a as [|c a]; cbn [app].
  { rewrite unescape_host_cons by done. destruct (_ && _); [done|].
    destruct (unescape_host false b) as [rb|]; [|done]. intros [= <-]. by exists [], rb. }
  destruct (decide (c = "%"%char)) as [->|Hc].
  - cbn [unescape_host]. rewrite bool_decide_eq_true_2 by done.
    destruct a as [|h [|d a]]; cbn [app].
    + destruct b; [done|]. by rewrite Hh.
    + destruct (unhex h); [|done]. cbn [mbind option_bind]. by rewrite Hh.
    + destruct (unhex h) as [u|]; [|done]. cbn [mbind option_bind].
      destruct (unhex d) as [v|]; [|done]. cbn [mbind option_bind].
      destruct (host_escape_ok false (16 * u + v)); [|done].
      destruct (unescape_host false (a ++ x :: b)) as [r'|] eqn:Hl; [|done]. cbn [mbind option_bind]. intros [= <-].
      destruct (IH a ltac:(cbn; lia) _ Hl) as (ra & rb & -> & -> & ->). by eexists _, rb.
  - rewrite !unescape_host_cons by done. destruct (_ && _); [done|].
    destruct (unescape_host false (a ++ x :: b)) as [r'|] eqn:Hl; [|done]. cbn [mbind option_bind]. intros [= <-].
    destruct (IH a ltac:(cbn; lia) _ Hl) as (ra & rb & -> & -> & ->). by eexists _, rb.
Qed.

Lemma host_digit c : is_digit c = true → shouldEscape c encodeHost = false ∧ c ≠ "%"%char.
Proof. destruct c as [[] [] [] [] [] [] [] []]; first [discriminate|done]. Qed.

Lemma unescape_host_digits l : forallb is_digit l = true → unescape_host false l = Some l.
Proof.
  induction l as [|c l IH]; [done|]. cbn [forallb]. intros [Hc Hl]%andb_true_iff.
  apply host_digit in Hc as [Hc Hp]. rewrite unescape_host_cons by done.
  by rewrite Hc, andb_false_r, (IH Hl).
Qed.

Lemma bytes_escape s mode : bytes (escape s mode) = bytes s ≫= escape_byte mode.
Proof. unfold escape. apply bytes_of_bytes. Qed.

Lemma upperhex_alnum d : 0 <= d < 16 → is_alnum (upperhex d) = true.
Proof.
  intros Hd. assert (forallb (λ n, is_alnum (upperhex (Z.of_nat n))) (seq 0 16) = true)
    as Hall by (vm_compute; reflexivity).
  rewrite forallb_spec in Hall. specialize (Hall (Z.to_nat d)). rewrite elem_of_seq in Hall.
  specialize (Hall ltac:(lia)). by rewrite Z2Nat.id in Hall by lia.
Qed.

(** The bytes of an encoding *)
Lemma escape_bytes mode r x :
  x ∈ (r ≫= escape_byte mode) → x = "%"%char ∨ is_alnum x = true ∨ x ∈ r ∧ shouldEscape x mode = false.
Proof.
  intros (c & Hx & Hc)%list_elem_of_bind. unfold escape_byte in Hx. pose proof (bz_bound c).
  destruct (shouldEscape c mode) eqn:E.
  - repeat (apply elem_of_cons in Hx as [->|Hx]); [by left|right; left; apply upperhex_alnum..|by apply not_elem_of_nil in Hx];
      Z.div_mod_to_equations; lia.
  - apply list_elem_of_singleton in Hx as ->. auto.
Qed.

Lemma escape_no_byte mode r x :
  x ≠ "%"%char → is_alnum x = false → x ∉ r ∨ shouldEscape x mode = true → x ∉ (r ≫= escape_byte mode).
Proof. intros Hp Ha Hr Hx. apply escape_bytes in Hx. destruct Hx as [?|[?|[? ?]]]; destruct Hr; congruence. Qed.

Lemma escape_digits mode l : forallb is_digit l = true → l ≫= escape_byte mode = l.
Proof.
  induction l as [|c l IH]; [done|]. cbn [forallb]. intros [Hc Hl]%andb_true_iff. cbn [mbind list_bind].
  assert (escape_byte mode c = [c]) as ->; [|by rewrite <- (IH Hl) at 2].
  unfold escape_byte. assert (shouldEscape c mode = false) as ->; [|done].
  unfold shouldEscape. assert (is_alnum c = true) as ->; [|done].
  unfold is_alnum, in_range. unfold is_digit in Hc. bool_props. lia.
Qed.

(** A host without percent signs has no zone, and neither has its encoding. *)
Lemma zone_cut_escape r :
  "%"%char ∉ r → Forall host_byte r →
  zone_cut (r ≫= escape_byte encodeHost) = (r ≫= escape_byte encodeHost, []).
Proof.
  intros Hp Hr. induction Hr as [|c r Hc Hr IH]; [done|]. apply not_elem_of_cons in Hp as [Hpc Hp].
  specialize (IH Hp). cbn [mbind list_bind]. unfold escape_byte at 1 3. pose proof (bz_bound c).
  destruct (shouldEscape c encodeHost) eqn:E; cbn [app zone_cut].
  - destruct Hc as [Hc|[->|Hc]]; [|done|congruence].
    assert (∀ k, take 3 ("%"%char :: upperhex (bz c / 16) :: upperhex (bz c mod 16) :: k) ≠ bytes "%25") as Hno.
    { intros k [= Hh _]. apply (f_equal unhex) in Hh. rewrite unhex_upperhex in Hh by (Z.div_mod_to_equations; lia).
      change (Some (bz c / 16) = Some 2) in Hh. injection Hh. Z.div_mod_to_equations. lia. }
    rewrite bool_decide_eq_false_2 by apply Hno.
    assert (∀ d, 0 <= d < 16 → upperhex d ≠ "%"%char) as Hu.
    { intros d Hd Eq. apply upperhex_alnum in Hd. by rewrite Eq in Hd. }
    assert (∀ d k, 0 <= d < 16 → take 3 (upperhex d :: k) ≠ bytes "%25") as Hno'.
    { intros d k Hd [= Eq _]. by apply (Hu d). }
    rewrite !bool_decide_eq_false_2 by (apply Hno'; Z.div_mod_to_equations; lia). by rewrite IH.
  - rewrite bool_decide_eq_false_2 by (intros [= Eq _]; congruence). by rewrite IH.
Qed.

Lemma parse_literal_escape hostname name :
  parse_literal hostname = Some name → "%"%char ∉ name →
  Forall host_byte name ∧ (∀ c, c ∈ name → bz c < 128 → c ∈ hostname) ∧
  parse_literal (name ≫= escape_byte encodeHost) = Some name.
Proof.
  unfold parse_literal. destruct (zone_cut hostname) as [hp zp] eqn:Ez.
  assert (hostname = hp ++ zp ∧ (zp = [] ∨ ∃ k, zp = bytes "%25" ++ k)) as [-> Hz].
  { clear -Ez. revert hp Ez. induction hostname as [|c l IH]; intros hp; cbn [zone_cut]; [intros [= <- <-]; auto|].
    case_bool_decide as Ht.
    - intros [= <- <-]. split; [done|]. right. exists (drop 3 (c :: l)). rewrite <- Ht. by rewrite take_drop.
    - destruct (zone_cut l) as [h z]. intros [= <- <-]. destruct (IH h eq_refl) as [-> Hz]. auto. }
  cbn [mbind option_bind]. destruct (unescape_host false hp) as [h|] eqn:Hh; [|done]. cbn [mbind option_bind].
  destruct (unescape_host true zp) as [z|] eqn:Hzp; [|done]. cbn [mbind option_bind].
  destruct (ParseAddr _) as [addr|] eqn:Ha; [|done]. cbn [mbind option_bind].
  destruct (Is4 addr) eqn:H4; [done|]. intros [= <-] Hp.
  assert (z = []) as ->.
  { destruct Hz as [->|[k ->]]; [by injection Hzp|]. exfalso. revert Hzp Hp.
    cbn -[unescape_host]. cbn [unescape_host]. rewrite bool_decide_eq_true_2 by done. cbn -[unescape_host].
    destruct (unescape_host true k); [|done]. intros [= <-] Hp. apply Hp, elem_of_app. right. by left. }
  rewrite app_nil_r in *. destruct (unescape_host_out _ _ Hh) as [Hb Hin].
  split_and!; [done|intros c Hc Hl; apply elem_of_app; left; apply Hin; [done..|congruence]|].
  rewrite zone_cut_escape by done. rewrite unescape_host_escape by done. cbn [mbind option_bind unescape_host].
  rewrite app_nil_r, Ha. cbn [mbind option_bind]. by rewrite H4.
Qed.

Lemma escape_app mode l k : (l ++ k) ≫= escape_byte mode = (l ≫= escape_byte mode) ++ (k ≫= escape_byte mode).
Proof. apply bind_app. Qed.

(** A host that was parsed is parsed from its encoding again, unless it is a literal
    with a zone. *)
Lemma parseHost_escape raw h :
  parseHost raw = Some h → "%"%char ∉ h → parseHost (h ≫= escape_byte encodeHost) = Some h.
Proof.
  unfold parseHost. destruct (last_cut "["%char raw) as [[[|c a]|] rest] eqn:E; [|done|].
  - apply last_cut_inv in E as [Hb ->]. destruct (last_cut "]"%char rest) as [[hostname|] port] eqn:E2; [|done].
    apply last_cut_inv in E2 as [Hb2 ->]. destruct (validOptionalPort port) eqn:Hport; [|done]. cbn [negb].
    assert (port ≫= escape_byte encodeHost = port ∧ unescape_host false port = Some port) as [Ep Up].
    { destruct port as [|c port]; [done|]. cbn [validOptionalPort] in Hport. apply andb_true_iff in Hport as [Hc Hd].
      apply bool_decide_eq_true in Hc as ->. cbn [mbind list_bind]. rewrite (escape_digits _ _ Hd).
      rewrite unescape_host_cons by done. by rewrite (unescape_host_digits _ Hd). }
    rewrite Up. cbn [mbind option_bind]. destruct (parse_literal hostname) as [name|] eqn:Hn; [|done].
    cbn [mbind option_bind]. intros [= <-] Hp.
    assert ("%"%char ∉ name) as Hpn by set_solver.
    destruct (parse_literal_escape _ _ Hn Hpn) as (Hbytes & Hin & Hlit).
    replace (("["%char :: name ++ "]"%char :: port) ≫= escape_byte encodeHost) with
      ([] ++ "["%char :: (name ≫= escape_byte encodeHost) ++ "]"%char :: port).
    2:{ change ("["%char :: ?x) with (["["%char] ++ x). change ("]"%char :: port) with (["]"%char] ++ port).
        rewrite !escape_app, Ep. done. }
    rewrite last_cut_sep.
    2:{ apply not_elem_of_app. split; [|set_solver]. apply escape_no_byte; [done..|]. left. intros Hc.
        apply Hin in Hc; [|done]. set_solver. }
    rewrite last_cut_sep by done. rewrite Hport. cbn [negb]. rewrite Up. cbn [mbind option_bind]. by rewrite Hlit.
  - apply last_cut_inv in E as [Hb ->]. intros Hh Hp.
    assert (unescape_host false rest = Some h) as Hu.
    { destruct (cut ":"%char rest) as [? [port|]]; [|done]. by destruct (forallb is_digit port). }
    destruct (unescape_host_out _ _ Hu) as [Hbytes Hin].
    rewrite last_cut_none. 2:{ apply escape_no_byte; [done..|]. left. intros Hc. by apply Hin in Hc. }
    assert (match cut ":"%char (h ≫= escape_byte encodeHost) with (_, Some port) => forallb is_digit port | (_, None) => true end = true) as Hc.
    { destruct (cut ":"%char rest) as [a [port|]] eqn:Ec; apply cut_inv in Ec as [Hca ->].
      - destruct (forallb is_digit port) eqn:Hd; [|done].
        apply unescape_host_sep in Hh as (ra & rb & Ha & Hpt & ->); [|done..].
        rewrite unescape_host_digits in Hpt by done. injection Hpt as <-.
        change (":"%char :: port) with ([":"%char] ++ port). rewrite !escape_app, (escape_digits _ _ Hd).
        change ([":"%char] ≫= escape_byte encodeHost) with [":"%char]. cbn [app]. rewrite cut_sep; [done|].
        apply escape_no_byte; [done..|]. left. intros Hin'. by apply (unescape_host_out _ _ Ha) in Hin'.
      - rewrite cut_none; [done|]. apply escape_no_byte; [done..|]. left. intros Hin'. by apply Hin in Hin'. }
    destruct (cut ":"%char (h ≫= escape_byte encodeHost)) as [? [port|]]; [rewrite Hc|]; by apply unescape_host_escape.
Qed.

(** An absolute URL with an authority, as the parser makes it *)
Record url_ok (u : URL) : Prop := {
  ok_scheme : urlScheme u ∈ ["http"; "https"];
  ok_opaque : urlOpaque u = "";
  ok_host : urlHost u ≠ "";
  ok_parse_host : parseHost (bytes (escape (urlHost u) encodeHost)) = Some (bytes (urlHost u));
  ok_path : urlPath u = "" ∨ HasPrefix (urlPath u) "/" = true;
  ok_raw_path : urlRawPath u = "" ∨ HasPrefix (urlRawPath u) "/" = true;
  ok_raw_root : urlPath u ∈ [""; "/"] → urlRawPath u = "";
  ok_query : existsb is_ctl (bytes (urlRawQuery u)) = false ∧ "#"%char ∉ bytes (urlRawQuery u);
}.

(** The bytes that are special somewhere in a URL *)
Definition url_special (c : ascii) : Prop := c ∈ bytes "#?" ∨ is_ctl c = true.

Lemma special_escape c : url_special c → c ≠ "%"%char ∧ is_alnum c = false.
Proof.
  intros [Hc|Hc]; [repeat (apply elem_of_cons in Hc as [->|Hc]; [done|]); by apply not_elem_of_nil in Hc|].
  destruct c as [[] [] [] [] [] [] [] []]; first [discriminate|done].
Qed.

Lemma special_should_escape c : url_special c →
  shouldEscape c encodePath = true ∧ shouldEscape c encodeHost = true ∧ shouldEscape c encodeUserPassword = true.
Proof.
  intros [Hc|Hc]; [repeat (apply elem_of_cons in Hc as [->|Hc]; [done|]); by apply not_elem_of_nil in Hc|].
  destruct c as [[] [] [] [] [] [] [] []]; first [discriminate|done].
Qed.

Lemma HasPrefix_slash s : HasPrefix s "/" = true ↔ ∃ l, bytes s = "/"%char :: l.
Proof.
  unfold HasPrefix. destruct s as [|c s]; [split; [done|by intros [? ?]]|]. cbn [String.prefix].
  destruct (ascii_dec "/" c) as [<-|Hc]; [|split; [done|intros [l [= E]]; congruence]].
  split; [by eexists|by destruct s].
Qed.

Lemma escaped_by_hint_inv raw decoded mode r :
  escaped_by_hint raw decoded mode = Some r →
  r = raw ∧ raw ≠ "" ∧ validEncoded raw mode = true ∧ unescape_go (bytes raw) = Some (bytes decoded).
Proof.
  unfold escaped_by_hint. destruct (_ && _) eqn:Hc; [|done]. intros [= <-]. bool_props. split_and!; [done..|].
  unfold PathUnescape in *. destruct (unescape_go (bytes raw)) as [l|]; [|done].
  match goal with H : _ <$> Some l = _ |- _ => injection H as <- end. by rewrite bytes_of_bytes.
Qed.

(** The printed path: it decodes to the path, has no special byte, and starts with a
    slash if it is not empty. *)
Lemma EscapedPath_spec u :
  (urlPath u = "" ∨ HasPrefix (urlPath u) "/" = true) → (urlRawPath u = "" ∨ HasPrefix (urlRawPath u) "/" = true) →
  unescape_go (bytes (EscapedPath u)) = Some (bytes (urlPath u)) ∧
  (∀ c, c ∈ bytes (EscapedPath u) → ¬ url_special c) ∧
  (EscapedPath u = "" ∧ urlPath u = "" ∨ HasPrefix (EscapedPath u) "/" = true) ∧
  (escape (urlPath u) encodePath = EscapedPath u ∨
   escaped_by_hint (EscapedPath u) (urlPath u) encodePath = Some (EscapedPath u)).
Proof.
  intros Hp Hr. unfold EscapedPath. destruct (escaped_by_hint _ _ _) as [raw|] eqn:Eh.
  - destruct (escaped_by_hint_inv _ _ _ _ Eh) as (-> & Hne & Hv & Hu). split_and!; [done|..].
    + intros c Hc Hs. unfold validEncoded in *.
      rewrite forallb_spec in Hv. specialize (Hv c Hc). apply orb_true_iff in Hv as [H2|H2].
      * revert H2 Hs. clear. destruct c as [[] [] [] [] [] [] [] []]; intros H2;
          first [discriminate H2|intros [Hs|Hs]; [|discriminate Hs]; vm_compute in Hs; set_solver].
      * apply special_should_escape in Hs as [Hs _]. by rewrite Hs in H2.
    + right. by destruct Hr as [Hr|Hr].
    + by right.
  - rewrite bool_decide_eq_false_2; [|intros E; rewrite E in Hp; by destruct Hp]. split_and!.
    + pose proof (PathUnescape_escape (urlPath u) encodePath) as Hu. unfold PathUnescape in Hu.
      destruct (unescape_go _) as [l|]; [|done]. injection Hu as Hu. by rewrite <- Hu, bytes_of_bytes.
    + intros c Hc Hs. rewrite bytes_escape in Hc. revert Hc. apply escape_no_byte.
      1,2: by apply special_escape in Hs as [? ?]. right. by apply special_should_escape in Hs as [? _].
    + destruct Hp as [->|Hp]; [by left|]. right. rewrite HasPrefix_slash, bytes_escape in *.
      destruct Hp as [l ->]. by eexists.
    + by left.
Qed.

Definition user_part (u : URL) : list ascii :=
  match urlUser u with Some ui => bytes (UserString ui) ++ ["@"%char] | None => [] end.

Definition query_part (u : URL) : list ascii :=
  if urlForceQuery u || bool_decide (urlRawQuery u ≠ "") then "?"%char :: bytes (urlRawQuery u) else [].

Definition fragment_part (u : URL) : list ascii :=
  if bool_decide (urlFragment u ≠ "") then "#"%char :: bytes (EscapedFragment u) else [].

Definition host_part (u : URL) : list ascii := bytes (escape (urlHost u) encodeHost).

(** The text of such a URL *)
Lemma URLString_bytes u :
  url_ok u → bytes (URLString u) =
    bytes (urlScheme u) ++ ":"%char :: "/"%char :: "/"%char :: user_part u ++ host_part u ++ bytes (EscapedPath u) ++
    query_part u ++ fragment_part u.
Proof.
  intros Hu. destruct (EscapedPath_spec u (ok_path _ Hu) (ok_raw_path _ Hu)) as (_ & _ & Hp & _).
  unfold URLString, url_prefix. rewrite (ok_opaque _ Hu).
  assert (urlScheme u ≠ "") as Hs by (intros E; pose proof (ok_scheme _ Hu) as Hs; rewrite E in Hs; set_solver).
  pose proof (ok_host _ Hu) as Hh.
  rewrite (bool_decide_eq_false_2 (urlScheme u = "")), (bool_decide_eq_false_2 (urlHost u = "")) by done.
  rewrite !andb_false_r. cbn [andb]. 
  replace (bool_decide (EscapedPath u ≠ "") && negb (HasPrefix (EscapedPath u) "/")) with false
    by (destruct Hp as [[-> _]| ->]; [done|by rewrite andb_false_r]). cbn [andb].
  rewrite (bool_decide_eq_false_2 (_ = "")) by (intros E; apply (f_equal bytes) in E; rewrite !bytes_app in E; by destruct (bytes (urlScheme u))).
  cbn [andb]. rewrite bool_decide_eq_false_2 by tauto.
  unfold user_part, query_part, fragment_part, host_part. rewrite !bytes_app. 
  destruct (urlUser u); destruct (_ || _); case_bool_decide; rewrite ?bytes_app, <- ?app_assoc; done.
Qed.

Lemma user_bytes ui c :
  c ∈ bytes (UserString ui) → c = ":"%char ∨ c = "%"%char ∨ is_alnum c = true ∨ shouldEscape c encodeUserPassword = false.
Proof.
  unfold UserString. rewrite bytes_app, elem_of_app, bytes_escape.
  intros [Hc|Hc]; [apply escape_bytes in Hc; tauto|]. destruct (password ui); [|by apply not_elem_of_nil in Hc].
  rewrite bytes_app, elem_of_app, bytes_escape in Hc. destruct Hc as [Hc|Hc]; [|apply escape_bytes in Hc; tauto].
  left. by apply list_elem_of_singleton in Hc.
Qed.

Lemma unescape_go_escape s mode : unescape_go (bytes (escape s mode)) = Some (bytes s).
Proof.
  pose proof (PathUnescape_escape s mode) as Hu. unfold PathUnescape in Hu.
  destruct (unescape_go _) as [l|]; [|done]. injection Hu as <-. by rewrite bytes_of_bytes.
Qed.

Lemma parse_user_string ui : parse_user (bytes (UserString ui)) = Some ui.
Proof.
  unfold parse_user.
  assert (validUserinfo (bytes (UserString ui)) = true) as ->.
  { apply forallb_spec. intros c Hc. apply user_bytes in Hc.
    destruct Hc as [->|[->|[->|Hc]]]; [done..|]. revert Hc.
    destruct c as [[] [] [] [] [] [] [] []]; first [done|discriminate]. }
  assert (∀ s, ":"%char ∉ bytes (escape s encodeUserPassword)) as Hn.
  { intros s. rewrite bytes_escape. apply escape_no_byte; [done..|by right]. }
  unfold UserString. rewrite bytes_app. destruct ui as [name [pass|]]; cbn [negb username password].
  - rewrite bytes_app. change (bytes ":" ++ ?x) with (":"%char :: x). rewrite cut_sep by apply Hn.
    rewrite !unescape_go_escape. cbn [mbind option_bind]. by rewrite !of_bytes_bytes.
  - change (bytes "") with (@nil ascii). rewrite app_nil_r, cut_none by apply Hn.
    rewrite unescape_go_escape. cbn [mbind option_bind]. by rewrite of_bytes_bytes.
Qed.

(** The authority is read back. *)
Lemma parseAuthority_string u :
  url_ok u → parseAuthority (user_part u ++ host_part u) = Some (urlUser u, bytes (urlHost u)).
Proof.
  intros Hu. assert ("@"%char ∉ host_part u) as Hh.
  { unfold host_part. rewrite bytes_escape. apply escape_no_byte; [done..|by right]. }
  unfold parseAuthority, user_part. destruct (urlUser u) as [ui|].
  - rewrite <- app_assoc. cbn [app]. rewrite last_cut_sep by done. unfold host_part. rewrite (ok_parse_host _ Hu).
    cbn [mbind option_bind]. by rewrite parse_user_string.
  - cbn [app]. rewrite last_cut_none by done. unfold host_part. by rewrite (ok_parse_host _ Hu).
Qed.

(** No special byte, and no slash, in the authority *)
Lemma authority_bytes u c : c ∈ user_part u ++ host_part u → ¬ url_special c ∧ c ≠ "/"%char.
Proof.
  intros [Hc|Hc]%elem_of_app.
  - unfold user_part in Hc. destruct (urlUser u) as [ui|]; [|by apply not_elem_of_nil in Hc].
    apply elem_of_app in Hc as [Hc|Hc].
    2:{ apply list_elem_of_singleton in Hc as ->. split; [|done]. intros [Hs|Hs]; [set_solver|done]. }
    apply user_bytes in Hc as [->|[->|[Hc|Hc]]].
    + split; [|done]. intros [Hs|Hs]; [set_solver|done].
    + split; [|done]. intros [Hs|Hs]; [set_solver|done].
    + split; [intros Hs; apply special_escape in Hs as [_ Hs]; congruence|by intros ->].
    + split; [intros Hs; apply special_should_escape in Hs as (_ & _ & Hs); congruence|by intros ->].
  - unfold host_part in Hc. rewrite bytes_escape in Hc.
    split; [intros Hs|intros ->]; revert Hc; apply escape_no_byte; try done; try by right.
    1,2: by apply special_escape in Hs as [? ?]. right. by apply special_should_escape in Hs as (_ & ? & _).
Qed.

Lemma getScheme_http s rest : s ∈ ["http"; "https"] →
  getScheme_go true (bytes s ++ ":"%char :: rest) = Some (Some (bytes s, rest)).
Proof. intros Hs. repeat (apply elem_of_cons in Hs as [->|Hs]; [done|]). by apply not_elem_of_nil in Hs. Qed.

Lemma parse_query_part u rest :
  "?"%char ∉ rest → ∃ force, parse_query (rest ++ query_part u) = (rest, force, bytes (urlRawQuery u)).
Proof.
  intros Hr. unfold parse_query, query_part. destruct (_ || _) eqn:E.
  - rewrite cut_sep by done. destruct (bytes (urlRawQuery u)); by eexists.
  - bool_props. assert (urlRawQuery u = "") as -> by by apply dec_stable.
    rewrite app_nil_r, cut_none by done. by eexists.
Qed.

Lemma split_authority_path a p :
  "/"%char ∉ a → (p = [] ∨ ∃ l, p = "/"%char :: l) → split_authority ("/"%char :: "/"%char :: a ++ p) = (a, p).
Proof.
  intros Ha Hp. unfold split_authority. cbn [drop]. rewrite drop_0. destruct Hp as [->|[l ->]].
  - rewrite app_nil_r. by rewrite cut_none.
  - by rewrite cut_sep.
Qed.

Lemma parse_text u :
  url_ok u → ∃ force,
  parse false (bytes (urlScheme u) ++ ":"%char :: "/"%char :: "/"%char :: (user_part u ++ host_part u) ++
    bytes (EscapedPath u) ++ query_part u) =
  Some (MkURL (urlScheme u) "" (urlUser u) (urlHost u) (urlPath u)
          (raw_hint (EscapedPath u) (urlPath u) encodePath) false force (urlRawQuery u) "" "").
Proof.
  intros Hu. destruct (EscapedPath_spec u (ok_path _ Hu) (ok_raw_path _ Hu)) as (Hun & Hsp & Hp & _).
  pose proof (parseAuthority_string u Hu) as Hauth. pose proof (authority_bytes u) as Hab.
  set (a := user_part u ++ host_part u) in *.
  assert ("/"%char ∉ a) as Has by (intros Hc; by apply Hab in Hc as [_ ?]).
  assert (bytes (EscapedPath u) = [] ∨ ∃ l, bytes (EscapedPath u) = "/"%char :: l) as Hp'.
  { destruct Hp as [[-> _]|Hp]; [by left|right; by apply HasPrefix_slash]. }
  destruct (parse_query_part u ("/"%char :: "/"%char :: a ++ bytes (EscapedPath u))) as [force Hq].
  { apply not_elem_of_cons; split; [done|]. apply not_elem_of_cons; split; [done|].
    apply not_elem_of_app; split; [intros Hc; apply Hab in Hc as [Hc _]|intros Hc; apply Hsp in Hc]; apply Hc; left; set_solver. }
  exists force. unfold parse.
  assert (existsb is_ctl (bytes (urlScheme u) ++ ":"%char :: "/"%char :: "/"%char :: a ++ bytes (EscapedPath u) ++ query_part u) = false) as ->.
  { apply not_true_iff_false. rewrite existsb_spec. intros (c & Hc & Hctl).
    apply elem_of_app in Hc as [Hc|Hc].
    { pose proof (ok_scheme _ Hu) as Hs. repeat (apply elem_of_cons in Hs as [Hs|Hs]; [rewrite Hs in Hc;
        repeat (apply elem_of_cons in Hc as [->|Hc]; [done|]); by apply not_elem_of_nil in Hc|]). by apply not_elem_of_nil in Hs. }
    repeat (apply elem_of_cons in Hc as [->|Hc]; [done|]).
    apply elem_of_app in Hc as [Hc|Hc]; [apply Hab in Hc as [Hc _]; apply Hc; by right|].
    apply elem_of_app in Hc as [Hc|Hc]; [apply Hsp in Hc; apply Hc; by right|].
    destruct (ok_query _ Hu) as [Hq1 _]. unfold query_part in Hc. destruct (_ || _); [|by apply not_elem_of_nil in Hc].
    apply elem_of_cons in Hc as [->|Hc]; [done|]. apply not_true_iff_false in Hq1. apply Hq1, existsb_spec. by exists c. }
  pose proof (ok_scheme _ Hu) as Hs.
  assert (urlScheme u ≠ "") as Hne by (intros E; rewrite E in Hs; set_solver).
  rewrite (bool_decide_eq_false_2 (_ = [])) by (destruct (bytes (urlScheme u)); discriminate). cbn [andb].
  rewrite (bool_decide_eq_false_2 (_ = ["*"%char])).
  2:{ destruct (bytes (urlScheme u)) as [|x [|y l]] eqn:Eb; discriminate. }
  rewrite getScheme_http by done. cbn [mbind option_bind].
  assert (of_bytes (ascii_lower <$> bytes (urlScheme u)) = urlScheme u) as ->.
  { repeat (apply elem_of_cons in Hs as [->|Hs]; [done|]). by apply not_elem_of_nil in Hs. }
  rewrite app_assoc, app_comm_cons, app_comm_cons, Hq.
  rewrite (bool_decide_eq_true_2 (urlScheme u ≠ "")) by done. cbn [orb].
  assert (∀ l, starts_with ["/"%char] ("/"%char :: l) = true) as -> by done.
  assert (∀ l, starts_with (bytes "//") ("/"%char :: "/"%char :: l) = true) as -> by done. cbn [negb andb].
  rewrite split_authority_path by done. rewrite Hauth, Hun. cbn [mbind option_bind fst snd].
  by rewrite !of_bytes_bytes.
Qed.

(** Printing a URL and parsing the text keeps everything that matters: the scheme, the
    user, the host, the path with its encoding, and the query. *)
Lemma url_roundtrip u :
  url_ok u → ∃ u', url_Parse (URLString u) = Some u' ∧ url_ok u' ∧
    urlScheme u' = urlScheme u ∧ urlUser u' = urlUser u ∧ urlHost u' = urlHost u ∧ urlPath u' = urlPath u ∧
    EscapedPath u' = EscapedPath u ∧ urlRawQuery u' = urlRawQuery u.
Proof.
  intros Hu. destruct (parse_text u Hu) as [force Hparse].
  destruct (EscapedPath_spec u (ok_path _ Hu) (ok_raw_path _ Hu)) as (Hun & Hsp & Hp & He).
  assert (∀ f rf, let u' := MkURL (urlScheme u) "" (urlUser u) (urlHost u) (urlPath u)
    (raw_hint (EscapedPath u) (urlPath u) encodePath) false force (urlRawQuery u) f rf in
    url_ok u' ∧ EscapedPath u' = EscapedPath u) as Hok.
  { intros f rf. cbn zeta. split.
    - pose proof (ok_raw_root _ Hu) as Hroot. destruct Hu. split; try done; cbn [urlRawPath urlPath]; unfold raw_hint.
      + case_bool_decide; [by left|]. destruct Hp as [[-> _]|Hp]; [by left|by right].
      + intros Hr. rewrite bool_decide_eq_true_2; [done|]. unfold EscapedPath, escaped_by_hint. rewrite (Hroot Hr).
        rewrite (bool_decide_eq_false_2 ("" ≠ "")) by tauto. cbn [andb].
        repeat (apply elem_of_cons in Hr as [->|Hr]; [done|]). by apply not_elem_of_nil in Hr.
    - unfold EscapedPath at 1. cbn [urlRawPath urlPath]. unfold raw_hint. case_bool_decide as Hd.
      + unfold escaped_by_hint. rewrite (bool_decide_eq_false_2 ("" ≠ "")) by tauto. cbn [andb].
        case_bool_decide as Hstar; [|done].
        destruct (ok_path _ Hu) as [E|E]; by rewrite Hstar in E.
      + destruct He as [?|He]; [done|]. by rewrite He. }
  unfold url_Parse. rewrite URLString_bytes by done.
  set (text := bytes (urlScheme u) ++ ":"%char :: "/"%char :: "/"%char :: (user_part u ++ host_part u) ++
    bytes (EscapedPath u) ++ query_part u) in *.
  assert ("#"%char ∉ text) as Hh.
  { unfold text. intros Hc. apply elem_of_app in Hc as [Hc|Hc].
    { pose proof (ok_scheme _ Hu) as Hs. repeat (apply elem_of_cons in Hs as [Hs|Hs]; [rewrite Hs in Hc; vm_compute in Hc; set_solver|]).
      by apply not_elem_of_nil in Hs. }
    repeat (apply elem_of_cons in Hc as [Hc|Hc]; [done|]).
    apply elem_of_app in Hc as [Hc|Hc]; [apply authority_bytes in Hc as [Hc _]; apply Hc; left; set_solver|].
    apply elem_of_app in Hc as [Hc|Hc]; [apply Hsp in Hc; apply Hc; left; set_solver|].
    destruct (ok_query _ Hu) as [_ Hq]. unfold query_part in Hc. destruct (_ || _); [|by apply not_elem_of_nil in Hc].
    apply elem_of_cons in Hc as [Hc|Hc]; done. }
  assert (∃ o, cut "#"%char (text ++ fragment_part u) = (text, o) ∧
    (o = None ∨ o = Some (bytes (EscapedFragment u)))) as (o & Hcut & Ho).
  { unfold fragment_part. case_bool_decide.
    - rewrite cut_sep by done. eexists; split; [done|by right].
    - rewrite app_nil_r, cut_none by done. eexists; split; [done|by left]. }
  replace (bytes (urlScheme u) ++ ":"%char :: "/"%char :: "/"%char :: user_part u ++ host_part u ++
    bytes (EscapedPath u) ++ query_part u ++ fragment_part u) with (text ++ fragment_part u)
    by (unfold text; rewrite <- !app_assoc; cbn [app]; by rewrite <- !app_assoc).
  rewrite Hcut, Hparse. cbn [mbind option_bind].
  assert (∃ d, unescape_go (bytes (EscapedFragment u)) = Some d) as [d Hd].
  { unfold EscapedFragment. destruct (escaped_by_hint (urlRawFragment u) _ _) as [raw|] eqn:Eh; cbn [from_option].
    - apply escaped_by_hint_inv in Eh as (-> & _ & _ & Hf). exact (ex_intro _ _ Hf).
    - eexists. apply unescape_go_escape. }
  destruct Ho as [->| ->]; [|destruct (bytes (EscapedFragment u)) as [|c l] eqn:Ef].
  1,2: eexists; split; [reflexivity|]; destruct (Hok "" ""); split_and!; done.
  rewrite Hd. cbn [mbind option_bind]. eexists; split; [reflexivity|]. cbn [urlScheme urlOpaque urlUser urlHost urlPath urlRawPath urlOmitHost urlForceQuery urlRawQuery].
  destruct (Hok (of_bytes d) (raw_hint (of_bytes (c :: l)) (of_bytes d) encodeFragment)). split_and!; done.
Qed.

Lemma getScheme_rest first l s rest : getScheme_go first l = Some (Some (s, rest)) → ∀ c, c ∈ rest → c ∈ l.
Proof.
  revert first s. induction l as [|x l IH]; intros first s; cbn [getScheme_go]; [done|].
  assert (∀ o, (λ o, option_map (λ '(s, rest), (x :: s, rest)) o) <$> getScheme_go false l = Some o →
    o = Some (s, rest) → ∀ c, c ∈ rest → c ∈ x :: l) as Hnext.
  { intros o. destruct (getScheme_go false l) as [[[s' rest']|]|] eqn:E; [|by intros [= <-]|done].
    intros [= <-] [= <- <-] c Hc. right. by eapply IH. }
  destruct (_ || _); [intros E; by eapply Hnext|].
  destruct (_ || _); [destruct first; [done|]; intros E; by eapply Hnext|].
  case_bool_decide; [|done]. destruct first; [done|]. intros [= <- <-] c Hc. by right.
Qed.

Lemma parse_query_inv rest before force query :
  parse_query rest = (before, force, query) → ∀ c, c ∈ query → c ∈ rest.
Proof.
  unfold parse_query. destruct (cut "?"%char rest) as [b [[|q a]|]] eqn:E; apply cut_inv in E as [_ ->];
    intros [= <- <- <-] c Hc; set_solver.
Qed.

Lemma slash_path path p :
  unescape_go path = Some p → (path = [] ∨ ∃ l, path = "/"%char :: l) →
  (of_bytes p = "" ∨ HasPrefix (of_bytes p) "/" = true) ∧
  (raw_hint (of_bytes path) (of_bytes p) encodePath = "" ∨
   HasPrefix (raw_hint (of_bytes path) (of_bytes p) encodePath) "/" = true) ∧
  (of_bytes p ∈ [""; "/"] → raw_hint (of_bytes path) (of_bytes p) encodePath = "").
Proof.
  intros Hu [->|[l ->]].
  { injection Hu as <-. split_and!; [by left..|done]. }
  cbn [unescape_go] in Hu. rewrite bool_decide_eq_false_2 in Hu by done.
  destruct (unescape_go l) as [r|] eqn:Hl; [|done]. injection Hu as <-. split_and!.
  - right. apply HasPrefix_slash. rewrite bytes_of_bytes. by eexists.
  - unfold raw_hint. case_bool_decide; [by left|]. right. apply HasPrefix_slash. rewrite bytes_of_bytes. by eexists.
  - intros Hroot. assert (r = []) as ->.
    { repeat (apply elem_of_cons in Hroot as [Hroot|Hroot]); [done| |by apply not_elem_of_nil in Hroot].
      apply (f_equal bytes) in Hroot. rewrite bytes_of_bytes in Hroot. by injection Hroot. }
    destruct l as [|c l]; [done|]. exfalso. cbn [unescape_go] in Hl. case_bool_decide.
    + destruct l as [|h [|d l]]; [done..|]. destruct (unhex h); [|done]. cbn [mbind option_bind] in Hl.
      destruct (unhex d); [|done]. cbn [mbind option_bind] in Hl. by destruct (unescape_go l).
    + by destruct (unescape_go l).
Qed.

Lemma split_authority_inv rest a p : split_authority rest = (a, p) → p = [] ∨ ∃ l, p = "/"%char :: l.
Proof. unfold split_authority. destruct (cut _ _) as [? [?|]]; intros [= _ <-]; [right; by eexists|by left]. Qed.

Lemma parseAuthority_inv a user h :
  parseAuthority a = Some (user, h) → "%"%char ∉ h → parseHost (h ≫= escape_byte encodeHost) = Some h.
Proof.
  unfold parseAuthority. destruct (last_cut _ _) as [[ui|] host]; destruct (parseHost host) as [h'|] eqn:E; try done;
    cbn [mbind option_bind].
  - destruct (parse_user ui); [|done]. intros [= _ <-]. by eapply parseHost_escape.
  - intros [= _ <-]. by eapply parseHost_escape.
Qed.

Lemma parse_ok raw u :
  parse false raw = Some u → "#"%char ∉ raw →
  urlScheme u ∈ ["http"; "https"] → urlHost u ≠ "" → "%"%char ∉ bytes (urlHost u) → url_ok u.
Proof.
  unfold parse. destruct (existsb is_ctl raw) eqn:Hctl; [done|]. rewrite andb_false_r.
  case_bool_decide; [by intros [= <-] _ _ ?|].
  destruct (getScheme_go true raw) as [sch|] eqn:Hsch; [|done]. cbn [mbind option_bind].
  assert (∃ scheme rest, (match sch with Some (s, rest) => (of_bytes (ascii_lower <$> s), rest) | None => ("", raw) end) =
    (scheme, rest) ∧ ∀ c, c ∈ rest → c ∈ raw) as (scheme & rest & -> & Hrest).
  { destruct sch as [[s rest]|]; eexists _, _; (split; [reflexivity|]); [by eapply getScheme_rest|done]. }
  destruct (parse_query rest) as [[before force] query] eqn:Hq.
  destruct (negb _ && bool_decide _); [by intros [= <-] _ _ ?|]. rewrite andb_false_r. destruct (negb _ && one_of _ _); [done|].
  set (wa := (_ || _) && _). intros Hu Hh.
  assert (existsb is_ctl query = false ∧ "#"%char ∉ query) as Hquery.
  { split; [|intros Hc; apply (parse_query_inv _ _ _ _ Hq) in Hc; auto].
    apply not_true_iff_false. rewrite existsb_spec. intros (c & Hc & Hx). apply (parse_query_inv _ _ _ _ Hq), Hrest in Hc.
    apply not_true_iff_false in Hctl. apply Hctl, existsb_spec. by exists c. }
  destruct wa.
  - destruct (split_authority before) as [a path] eqn:Hsplit. apply split_authority_inv in Hsplit.
    destruct (parseAuthority a) as [[user host]|] eqn:Ha; [|done]. cbn [mbind option_bind] in Hu.
    destruct (unescape_go path) as [p|] eqn:Hp; [|done]. injection Hu as <-. cbn [urlScheme urlHost fst snd].
    intros Hs Hne Hpc. destruct (slash_path _ _ Hp Hsplit) as (? & ? & ?).
    split; cbn [urlScheme urlOpaque urlHost urlPath urlRawPath urlRawQuery]; try done.
    + rewrite bytes_escape, bytes_of_bytes in *. by eapply parseAuthority_inv.
    + by rewrite bytes_of_bytes.
  - cbn [mbind option_bind] in Hu. destruct (unescape_go before); [|done]. injection Hu as <-. by intros _ ?.
Qed.

(** What the parser accepts as an absolute HTTP URL *)
Lemma url_Parse_ok s u :
  url_Parse s = Some u → urlScheme u ∈ ["http"; "https"] → urlHost u ≠ "" → "%"%char ∉ bytes (urlHost u) → url_ok u.
Proof.
  unfold url_Parse. destruct (cut "#"%char (bytes s)) as [raw frag] eqn:E. apply cut_inv in E as [Hh _].
  destruct (parse false raw) as [u0|] eqn:Hp; [|done]. cbn [mbind option_bind]. intros Hu Hs Hne Hpc.
  assert (url_ok u0 ∧ (u = u0 ∨ ∃ f rf, u = MkURL (urlScheme u0) (urlOpaque u0) (urlUser u0) (urlHost u0) (urlPath u0)
    (urlRawPath u0) (urlOmitHost u0) (urlForceQuery u0) (urlRawQuery u0) f rf)) as [Hok [->|(f & rf & ->)]].
  { destruct frag as [[|c f]|]; [| |].
    1,3: injection Hu as <-; split; [by eapply parse_ok|by left].
    destruct (unescape_go (c :: f)); [|done]. cbn [mbind option_bind] in Hu. injection Hu as <-.
    split; [by eapply parse_ok|right; by eexists _, _]. }
  - done.
  - by destruct Hok.
Qed.

Lemma parse_opaque raw u : parse false raw = Some u → urlHost u ≠ "" → urlOpaque u = "".
Proof.
  unfold parse. destruct (existsb is_ctl raw); [done|]. rewrite andb_false_r. case_bool_decide; [by intros [= <-] ?|].
  destruct (getScheme_go true raw) as [sch|]; [|done]. cbn [mbind option_bind].
  destruct (match sch with Some _ => _ | None => _ end) as [scheme rest].
  destruct (parse_query rest) as [[before force] query].
  destruct (negb _ && bool_decide _); [by intros [= <-] ?|]. rewrite andb_false_r. destruct (negb _ && one_of _ _); [done|].
  match goal with |- context [if ?b then split_authority _ else _] => destruct b end.
  - destruct (split_authority before) as [a path]. destruct (parseAuthority a); [|done]. cbn [mbind option_bind].
    destruct (unescape_go path); [|done]. by intros [= <-].
  - cbn [mbind option_bind]. destruct (unescape_go before); [|done]. by intros [= <-].
Qed.

Lemma url_Parse_opaque s u : url_Parse s = Some u → urlHost u ≠ "" → urlOpaque u = "".
Proof.
  unfold url_Parse. destruct (cut "#"%char (bytes s)) as [raw frag].
  destruct (parse false raw) as [u0|] eqn:Hp; [|done]. cbn [mbind option_bind]. pose proof (parse_opaque _ _ Hp) as Hop.
  intros Hu. assert (urlOpaque u = urlOpaque u0 ∧ urlHost u = urlHost u0) as [-> ->]; [|done].
  destruct frag as [[|c f]|]; [by injection Hu as <-| |by injection Hu as <-].
  destruct (unescape_go (c :: f)); [|done]. by injection Hu as <-.
Qed.
