(* ===== verification/GoJSON.v ===== *)
(** * JSON (Go's [encoding/json])

    The encoder with HTML escaping, the scanner that finds one value at the start of
    a text, and the decoding of a value into Go's strings, [int32]s, slices and
    structs.  As in Go, decoding has two phases: the scanner checks the syntax of a
    whole value first, and only then is the value stored. *)
From S2P Require Import Prelude GoStrings.
Local Open Scope Z_scope.

(** A value; a number is its literal, strings and keys are the decoded bytes. *)
Inductive json : Type :=
| JNull
| JBool (b : bool)
| JNum (lit : list ascii)
| JStr (s : list ascii)
| JArr (l : list json)
| JObj (l : list (list ascii * json)).

Definition dquote : ascii := zb 34.
Definition backslash : ascii := zb 92.

(** ** Encoding *)
Definition lowerhex (d : Z) : ascii := if d <? 10 then zb (48 + d) else zb (87 + d).

Definition u_escape (r : Z) : list ascii :=
  [backslash; "u"%char; lowerhex (r / 4096); lowerhex (r / 256 mod 16); lowerhex (r / 16 mod 16); lowerhex (r mod 16)].

(** [htmlSafeSet], on bytes below 128 *)
Definition html_safe (c : ascii) : bool :=
  (32 <=? bz c) && negb (bool_decide (c ∈ [dquote; backslash; "<"%char; ">"%char; "&"%char])).

Definition quote_ascii (c : ascii) : list ascii :=
  if html_safe c then [c] else
  if bool_decide (c = dquote) || bool_decide (c = backslash) then [backslash; c] else
  if bz c =? 8 then [backslash; "b"%char] else
  if bz c =? 12 then [backslash; "f"%char] else
  if bz c =? 10 then [backslash; "n"%char] else
  if bz c =? 13 then [backslash; "r"%char] else
  if bz c =? 9 then [backslash; "t"%char] else
  u_escape (bz c).

(** [appendString] without the quotes: an invalid byte becomes U+FFFD; U+2028 and
    U+2029 are escaped. *)
Fixpoint quote_go (fuel : nat) (l : list ascii) : list ascii :=
  match fuel, l with
  | S fuel, c :: l1 =>
    if bz c <? 128 then quote_ascii c ++ quote_go fuel l1 else
    let '(r, n) := decode_rune c l1 in
    (if (r =? RuneError) && bool_decide (n = 1%nat) then u_escape RuneError else
     if (r =? 8232) || (r =? 8233) then u_escape r else take n l) ++ quote_go fuel (drop n l)
  | _, _ => []
  end.

Definition quote (s : list ascii) : list ascii := dquote :: quote_go (length s) s ++ [dquote].

(** The parts with commas between them *)
Fixpoint commas (l : list (list ascii)) : list ascii :=
  match l with
  | [] => []
  | [x] => x
  | x :: l => x ++ ","%char :: commas l
  end.

Fixpoint encode (v : json) : list ascii :=
  match v with
  | JNull => bytes "null"
  | JBool true => bytes "true"
  | JBool false => bytes "false"
  | JNum lit => lit
  | JStr s => quote s
  | JArr l => "["%char :: commas (map encode l) ++ ["]"%char]
  | JObj l => "{"%char :: commas (map (λ kv, quote (kv.1) ++ ":"%char :: encode (kv.2)) l) ++ ["}"%char]
  end.

(** ** Scanning *)

(** A value and the rest of the text, a syntax error, or a text that ended too
    early. *)
Inductive parsed (A : Type) : Type :=
| POk (a : A) (rest : list ascii)
| PBad
| PShort.
Global Arguments POk {A} _ _.
Global Arguments PBad {A}.
Global Arguments PShort {A}.

Definition pmap {A B} (f : A → B) (p : parsed A) : parsed B :=
  match p with POk a rest => POk (f a) rest | PBad => PBad | PShort => PShort end.

Definition pbind {A B} (p : parsed A) (f : A → list ascii → parsed B) : parsed B :=
  match p with POk a rest => f a rest | PBad => PBad | PShort => PShort end.

Definition is_ws (c : ascii) : bool := bool_decide (c ∈ [" "%char; zb 9; zb 10; zb 13]).
Definition skip_ws (l : list ascii) : list ascii := drop_while is_ws l.

Definition is_hex (c : ascii) : bool := in_range c 48 57 || in_range c 97 102 || in_range c 65 70.

(** The scanner's states inside a string: plain, after a backslash, and with hex
    digits of [\u] still to read (this one and [n] more) *)
Inductive str_state : Type := InString | InEsc | InU (n : nat).

Fixpoint scan_string (st : str_state) (l : list ascii) : parsed (list ascii) :=
  match l with
  | [] => PShort
  | c :: l1 =>
    match st with
    | InString =>
      if bool_decide (c = dquote) then POk [] l1 else
      if bool_decide (c = backslash) then pmap (cons c) (scan_string InEsc l1) else
      if bz c <? 32 then PBad else pmap (cons c) (scan_string InString l1)
    | InEsc =>
      if bool_decide (c ∈ [dquote; backslash; "/"%char; "b"%char; "f"%char; "n"%char; "r"%char; "t"%char])
      then pmap (cons c) (scan_string InString l1) else
      if bool_decide (c = "u"%char) then pmap (cons c) (scan_string (InU 3) l1) else PBad
    | InU n =>
      if is_hex c then pmap (cons c) (scan_string (match n with O => InString | S n => InU n end) l1)
      else PBad
    end
  end.

Definition hexval (c : ascii) : Z :=
  if in_range c 48 57 then bz c - 48 else if in_range c 97 102 then bz c - 87 else bz c - 55.

(** [getu4] *)
Definition getu4 (l : list ascii) : option Z :=
  match l with
  | b :: u :: h1 :: h2 :: h3 :: h4 :: _ =>
    if bool_decide (b = backslash) && bool_decide (u = "u"%char) && forallb is_hex [h1; h2; h3; h4]
    then Some (((hexval h1 * 16 + hexval h2) * 16 + hexval h3) * 16 + hexval h4) else None
  | _ => None
  end.

(** [utf16.DecodeRune] *)
Definition utf16_pair (r1 r2 : Z) : option Z :=
  if (55296 <=? r1) && (r1 <? 56320) && (56320 <=? r2) && (r2 <? 57344)
  then Some ((r1 - 55296) * 1024 + (r2 - 56320) + 65536) else None.

Definition unescape_simple (c : ascii) : ascii :=
  if bool_decide (c = "b"%char) then zb 8 else
  if bool_decide (c = "f"%char) then zb 12 else
  if bool_decide (c = "n"%char) then zb 10 else
  if bool_decide (c = "r"%char) then zb 13 else
  if bool_decide (c = "t"%char) then zb 9 else c.

(** [unquote] on a scanned string: escapes are decoded, an unpaired surrogate and
    an invalid byte become U+FFFD.  Each step consumes at least one byte. *)
Fixpoint unquote_go (fuel : nat) (l : list ascii) : list ascii :=
  match fuel, l with
  | S fuel, c :: l1 =>
    if bool_decide (c = backslash) then
      match getu4 l with
      | Some r =>
        if (55296 <=? r) && (r <? 57344) then
          match getu4 (drop 6 l) ≫= utf16_pair r with
          | Some r' => encode_rune r' ++ unquote_go fuel (drop 12 l)
          | None => encode_rune RuneError ++ unquote_go fuel (drop 6 l)
          end
        else encode_rune r ++ unquote_go fuel (drop 6 l)
      | None =>
        match l1 with
        | e :: l2 => unescape_simple e :: unquote_go fuel l2
        | [] => []
        end
      end
    else
      if bz c <? 128 then c :: unquote_go fuel l1 else
      let '(r, n) := decode_rune c l1 in encode_rune r ++ unquote_go fuel (drop n l)
  | _, _ => []
  end.

Definition unquote (l : list ascii) : list ascii := unquote_go (length l) l.

Fixpoint digits (l : list ascii) : list ascii * list ascii :=
  match l with
  | c :: l1 => if is_digit c then let '(d, rest) := digits l1 in (c :: d, rest) else ([], l)
  | [] => ([], [])
  end.

(** At least one digit *)
Definition digits1 (l : list ascii) : parsed (list ascii) :=
  match l with
  | [] => PShort
  | c :: _ => if is_digit c then let '(d, rest) := digits l in POk d rest else PBad
  end.

Definition num_int (l : list ascii) : parsed (list ascii) :=
  match l with
  | c :: rest => if bool_decide (c = "0"%char) then POk [c] rest else digits1 l
  | [] => PShort
  end.

Definition num_frac (l : list ascii) : parsed (list ascii) :=
  match l with
  | c :: l1 => if bool_decide (c = "."%char) then pmap (cons c) (digits1 l1) else POk [] l
  | [] => POk [] l
  end.

Definition num_exp (l : list ascii) : parsed (list ascii) :=
  match l with
  | e :: l1 =>
    if bool_decide (e ∈ ["e"%char; "E"%char]) then
      match l1 with
      | s :: l2 => if bool_decide (s ∈ ["+"%char; "-"%char]) then pmap (λ d, e :: s :: d) (digits1 l2)
                   else pmap (cons e) (digits1 l1)
      | [] => PShort
      end
    else POk [] l
  | [] => POk [] l
  end.

Definition num_sign (l : list ascii) : list ascii * list ascii :=
  match l with
  | c :: l1 => if bool_decide (c = "-"%char) then ([c], l1) else ([], l)
  | [] => ([], [])
  end.

Definition scan_number (l : list ascii) : parsed (list ascii) :=
  let '(sign, l) := num_sign l in
  pbind (num_int l) (λ i l, pbind (num_frac l) (λ f l, pbind (num_exp l) (λ e l,
    POk (sign ++ i ++ f ++ e) l))).

(** The rest of one of the words [true], [false] and [null] *)
Fixpoint scan_word (w l : list ascii) : parsed () :=
  match w, l with
  | [], _ => POk () l
  | _, [] => PShort
  | x :: w, c :: l => if bool_decide (c = x) then scan_word w l else PBad
  end.

Definition maxNestingDepth : Z := 10000.

(** A value that is neither an object nor an array *)
Definition scan_scalar (c : ascii) (l1 : list ascii) : parsed json :=
  if bool_decide (c = dquote) then pmap (λ raw, JStr (unquote raw)) (scan_string InString l1) else
  if bool_decide (c = "t"%char) then pmap (λ _, JBool true) (scan_word (bytes "rue") l1) else
  if bool_decide (c = "f"%char) then pmap (λ _, JBool false) (scan_word (bytes "alse") l1) else
  if bool_decide (c = "n"%char) then pmap (λ _, JNull) (scan_word (bytes "ull") l1) else
  if bool_decide (c = "-"%char) || is_digit c then pmap JNum (scan_number (c :: l1)) else PBad.

(** The byte [x], after space *)
Definition expect (x : ascii) (l : list ascii) : parsed () :=
  match skip_ws l with
  | [] => PShort
  | c :: l1 => if bool_decide (c = x) then POk () l1 else PBad
  end.

(** What follows an element: the closing byte ([true]) or a comma *)
Definition closing (x : ascii) (l : list ascii) : parsed bool :=
  match skip_ws l with
  | [] => PShort
  | c :: l1 => if bool_decide (c = x) then POk true l1 else
               if bool_decide (c = ","%char) then POk false l1 else PBad
  end.

(** One value at the start of the text, at nesting [depth].  Every two turns consume
    at least one byte. *)
Fixpoint scan_value (fuel : nat) (depth : Z) (l : list ascii) {struct fuel} : parsed json :=
  match fuel with
  | O => PBad
  | S fuel =>
    match skip_ws l with
    | [] => PShort
    | c :: l1 =>
      if bool_decide (c = "{"%char) then
        if maxNestingDepth <? depth + 1 then PBad else
        match expect "}"%char l1 with
        | POk _ l2 => POk (JObj []) l2
        | _ => pmap JObj (scan_members fuel (depth + 1) l1)
        end
      else if bool_decide (c = "["%char) then
        if maxNestingDepth <? depth + 1 then PBad else
        match expect "]"%char l1 with
        | POk _ l2 => POk (JArr []) l2
        | _ => pmap JArr (scan_elements fuel (depth + 1) l1)
        end
      else scan_scalar c l1
    end
  end
with scan_members (fuel : nat) (depth : Z) (l : list ascii) {struct fuel} : parsed (list (list ascii * json)) :=
  match fuel with
  | O => PBad
  | S fuel =>
    pbind (expect dquote l) (λ _ l1,
    pbind (scan_string InString l1) (λ key l2,
    pbind (expect ":"%char l2) (λ _ l3,
    pbind (scan_value fuel depth l3) (λ v l4,
    pbind (closing "}"%char l4) (λ stop l5,
      if (stop : bool) then POk [(unquote key, v)] l5
      else pmap (cons (unquote key, v)) (scan_members fuel depth l5))))))
  end
with scan_elements (fuel : nat) (depth : Z) (l : list ascii) {struct fuel} : parsed (list json) :=
  match fuel with
  | O => PBad
  | S fuel =>
    pbind (scan_value fuel depth l) (λ v l1,
    pbind (closing "]"%char l1) (λ stop l2,
      if (stop : bool) then POk [v] l2 else pmap (cons v) (scan_elements fuel depth l2)))
  end.

(** The first value of a text *)
Definition scan (l : list ascii) : parsed json := scan_value (2 * length l + 1) 0 l.

(** [json.Unmarshal]'s first phase: one value and nothing else but space *)
Definition check_valid (l : list ascii) : option json :=
  match scan l with
  | POk v rest => match skip_ws rest with [] => Some v | _ => None end
  | _ => None
  end.

(** ** Storing *)

(** A slice that is decoded into: the elements of its backing array, those past
    [sl_len] left over from an earlier value of the same key; the array reads as
    zero past [sl_mem]. *)
Record Slice (A : Type) : Type := MkSlice { sl_mem : list A; sl_len : nat }.
Global Arguments MkSlice {A} _ _.
Global Arguments sl_mem {A} _.
Global Arguments sl_len {A} _.

Definition slice_nil {A} : Slice A := MkSlice [] 0.
Definition slice_elems {A} (s : Slice A) : list A := take (sl_len s) (sl_mem s).

(** A value is stored over the old content of the place; [None] is an error.  *)
Definition storeString (v : json) (old : string) : option string :=
  match v with
  | JStr s => Some (of_bytes s)
  | JNull => Some old
  | _ => None
  end.

(** [strconv.ParseInt] and [OverflowInt] *)
Definition storeInt32 (v : json) (old : Z) : option Z :=
  match v with
  | JNum lit => n ← Atoi (of_bytes lit); if (- 2 ^ 31 <=? n) && (n <? 2 ^ 31) then Some n else None
  | JNull => Some old
  | _ => None
  end.

(** A [*bool] *)
Definition storeBoolPtr (v : json) (old : option bool) : option (option bool) :=
  match v with
  | JBool b => Some (Some b)
  | JNull => Some None
  | _ => None
  end.

Section store.
Context {A : Type}.

(** The elements of an array over the backing array [mem] *)
Fixpoint store_elems (store : json → A → option A) (zero : A) (vs : list json) (mem : list A) : option (list A) :=
  match vs with
  | [] => Some mem
  | v :: vs =>
    x ← store v (default zero (head mem));
    rest ← store_elems store zero vs (tail mem);
    Some (x :: rest)
  end.

Definition storeSlice (store : json → A → option A) (zero : A) (v : json) (old : Slice A) : option (Slice A) :=
  match v with
  | JArr [] => Some slice_nil
  | JArr vs => mem ← store_elems store zero vs (sl_mem old); Some (MkSlice mem (length vs))
  | JNull => Some slice_nil
  | _ => None
  end.
End store.

(** The rune with the least code point that folds to the same as [r]; the long s and
    the Kelvin sign are the only runes that fold to ASCII, and the others never match
    an ASCII name. *)
Definition foldRune (r : Z) : Z :=
  if (97 <=? r) && (r <=? 122) then r - 32 else
  if r =? 383 then 83 else
  if r =? 8490 then 75 else r.

(** [foldName] *)
Definition foldName (s : string) : list Z := foldRune <$> runes s.

(** A struct: its fields with the way to store into each. *)
Definition fields_of (A : Type) : Type := list (string * (json → A → option A)).

(** The field of a key: the exact name, or else the name up to folding *)
Definition field_of {A} (fields : fields_of A) (key : string) : option (json → A → option A) :=
  match List.find (λ f, bool_decide (f.1 = key)) fields with
  | Some f => Some f.2
  | None => snd <$> List.find (λ f, bool_decide (foldName f.1 = foldName key)) fields
  end.

(** One member of an object; [strict] is [DisallowUnknownFields]. *)
Definition store_member {A} (strict : bool) (fields : fields_of A) (kv : list ascii * json) (a : A) : option A :=
  match field_of fields (of_bytes (kv.1)) with
  | Some store => store (kv.2) a
  | None => if strict then None else Some a
  end.

Fixpoint store_members {A} (strict : bool) (fields : fields_of A) (kvs : list (list ascii * json)) (a : A) : option A :=
  match kvs with
  | [] => Some a
  | kv :: kvs => a ← store_member strict fields kv a; store_members strict fields kvs a
  end.

Definition storeStruct {A} (strict : bool) (fields : fields_of A) (v : json) (old : A) : option A :=
  match v with
  | JObj kvs => store_members strict fields kvs old
  | JNull => Some old
  | _ => None
  end.

(** ** Fuel: the length of a text is enough to quote and unquote it *)
Lemma quote_fuel n m l : (length l <= n)%nat → (length l <= m)%nat → quote_go n l = quote_go m l.
Proof.
  revert m l. induction n as [|n IH]; intros [|m] [|c l] Hn Hm; try done; try (cbn in *; lia).
  cbn [quote_go length] in *. destruct (bz c <? 128); [by rewrite (IH m l) by lia|].
  pose proof (decode_rune_width c l) as Hw. destruct (decode_rune c l) as [r k]. cbn [snd] in Hw.
  rewrite (IH m); [done|rewrite length_drop; cbn [length]; lia..].
Qed.

Lemma unquote_fuel n m l : (length l <= n)%nat → (length l <= m)%nat → unquote_go n l = unquote_go m l.
Proof.
  revert m l. induction n as [|n IH]; intros [|m] [|c l] Hn Hm; try done; try (cbn in *; lia).
  assert (∀ k, (1 <= k)%nat → unquote_go n (drop k (c :: l)) = unquote_go m (drop k (c :: l))) as Hd.
  { intros k Hk. apply IH; rewrite length_drop; cbn [length] in *; lia. }
  cbn [unquote_go]. case_bool_decide.
  - destruct (getu4 _) as [r|]; [|destruct l as [|e l2]; [done|f_equal; apply (Hd 2%nat); lia]].
    destruct (_ && _); [destruct (_ ≫= _)|]; by rewrite Hd by lia.
  - destruct (bz c <? 128); [f_equal; apply (Hd 1%nat); lia|].
    pose proof (decode_rune_width c l) as Hw. destruct (decode_rune c l) as [r k]. by rewrite Hd.
Qed.

(** ** Strings: what was quoted is read back *)

(** The text with every invalid byte replaced by U+FFFD; valid UTF-8 is unchanged. *)
Definition utf8_clean_go (fuel : nat) (l : list ascii) : list ascii := concat (encode_rune <$> decode_go fuel l).
Definition utf8_clean (l : list ascii) : list ascii := utf8_clean_go (length l) l.

Definition valid_utf8 (s : string) : bool := bool_decide (utf8_clean (bytes s) = bytes s).

Lemma utf8_clean_cons fuel c l1 :
  utf8_clean_go (S fuel) (c :: l1) =
  let '(r, n) := decode_rune c l1 in encode_rune r ++ utf8_clean_go fuel (drop n (c :: l1)).
Proof. unfold utf8_clean_go. cbn [decode_go]. by destruct (decode_rune c l1) as [r n]. Qed.

(** A rune that was not an error depends on its own bytes only, all above 127. *)
Lemma decode_rune_local c l r n k :
  128 <= bz c → decode_rune c l = (r, n) → (r, n) ≠ (RuneError, 1%nat) →
  ∃ d, take n (c :: l) = c :: d ∧ n = S (length d) ∧ decode_rune c (d ++ k) = (r, n) ∧ ∀ x, x ∈ c :: d → 128 <= bz x.
Proof.
  intros Hc. unfold decode_rune, in_range.
  destruct (bz c <? 128) eqn:E; [lia|]. clear E.
  repeat match goal with
  | |- (if ?b then _ else _) = _ → _ => destruct b eqn:?
  | |- (match ?l with [] => _ | _ => _ end) = _ → _ => destruct l
  end; intros [= <- <-] Hne; try done.
  1: exists [a]. 2: exists [a; a0]. 3: exists [a; a0; a1].
  all: cbn [take app]; repeat match goal with H : ?b = true |- context [if ?b then _ else _] => rewrite H end;
    split_and!; [done..|].
  all: intros x Hx; repeat (apply elem_of_cons in Hx as [->|Hx]); try (apply not_elem_of_nil in Hx as []);
    bool_props; repeat match goal with H : context [if ?b then _ else _] |- _ => destruct b end; lia.
Qed.

Lemma unquote_simple e fuel k :
  e ≠ "u"%char → unquote_go (S fuel) (backslash :: e :: k) = unescape_simple e :: unquote_go fuel k.
Proof.
  intros He. cbn [unquote_go]. rewrite bool_decide_eq_true_2 by done.
  assert (getu4 (backslash :: e :: k) = None) as ->; [|done].
  destruct k as [|h1 [|h2 [|h3 [|h4 k]]]]; try done. cbn [getu4].
  by rewrite (bool_decide_eq_false_2 (e = _)), andb_false_r.
Qed.

Lemma quote_ascii_unquote c fuel k :
  bz c < 128 → unquote_go (S fuel) (quote_ascii c ++ k) = c :: unquote_go fuel k.
Proof.
  intros Hc. destruct c as [[] [] [] [] [] [] [] []];
    solve [exfalso; revert Hc; vm_compute; discriminate | reflexivity | by apply unquote_simple].
Qed.

Lemma pmap_app_cons (x : ascii) l p : pmap (app (x :: l)) p = pmap (cons x) (pmap (app l) p).
Proof. by destruct p. Qed.

Lemma pmap_app_nil (p : parsed (list ascii)) : pmap (app []) p = p.
Proof. by destruct p. Qed.

Lemma pmap_app (l k : list ascii) p : pmap (app l) (pmap (app k) p) = pmap (app (l ++ k)) p.
Proof. destruct p; cbn; by rewrite ?app_assoc. Qed.

Lemma quote_ascii_scan c k :
  bz c < 128 → scan_string InString (quote_ascii c ++ k) = pmap (app (quote_ascii c)) (scan_string InString k).
Proof.
  intros Hc. destruct c as [[] [] [] [] [] [] [] []];
    first [exfalso; revert Hc; vm_compute; discriminate |
      match goal with |- context [quote_ascii ?c] =>
        let q := eval vm_compute in (quote_ascii c) in change (quote_ascii c) with q end;
      rewrite !pmap_app_cons, pmap_app_nil; reflexivity].
Qed.

(** Bytes above 127 are passed on. *)
Lemma scan_string_high l k :
  (∀ c, c ∈ l → 128 <= bz c) → scan_string InString (l ++ k) = pmap (app l) (scan_string InString k).
Proof.
  induction l as [|c l IH]; intros Hl; [by rewrite pmap_app_nil|]. rewrite pmap_app_cons, <- IH by set_solver.
  specialize (Hl c ltac:(by left)). cbn [app scan_string].
  rewrite !bool_decide_eq_false_2 by (intros ->; revert Hl; vm_compute; congruence).
  destruct (bz c <? 32) eqn:E; [lia|done].
Qed.

(** The escapes written by the encoder above ASCII *)
Lemma u_escape_unquote r fuel k :
  r ∈ [RuneError; 8232; 8233] → unquote_go (S fuel) (u_escape r ++ k) = encode_rune r ++ unquote_go fuel k.
Proof. intros Hr. repeat (apply elem_of_cons in Hr as [->|Hr]; [reflexivity|]). by apply not_elem_of_nil in Hr. Qed.

Lemma u_escape_scan r k :
  r ∈ [RuneError; 8232; 8233] →
  scan_string InString (u_escape r ++ k) = pmap (app (u_escape r)) (scan_string InString k).
Proof.
  intros Hr. repeat (apply elem_of_cons in Hr as [->|Hr]; [match goal with |- context [u_escape ?c] =>
        let q := eval vm_compute in (u_escape c) in change (u_escape c) with q end;
    rewrite !pmap_app_cons, pmap_app_nil; reflexivity|]). by apply not_elem_of_nil in Hr.
Qed.

(** What [quote_go] writes for one rune above ASCII: the escape of the rune, or its
    own bytes. *)
Lemma quote_rune c l r n :
  128 <= bz c → decode_rune c l = (r, n) →
  let q := if (r =? RuneError) && bool_decide (n = 1%nat) then u_escape RuneError else
           if (r =? 8232) || (r =? 8233) then u_escape r else take n (c :: l) in
  q ≠ [] ∧ (∀ k, scan_string InString (q ++ k) = pmap (app q) (scan_string InString k)) ∧
  ∀ fuel k, unquote_go (S fuel) (q ++ k) = encode_rune r ++ unquote_go fuel k.
Proof.
  intros Hc Hd q. unfold q. clear q.
  destruct ((r =? RuneError) && bool_decide (n = 1%nat)) eqn:Er.
  { bool_props. assert (r = RuneError) as -> by lia.
    split_and!; [done|intros; apply u_escape_scan; set_solver|intros; apply u_escape_unquote; set_solver]. }
  destruct ((r =? 8232) || (r =? 8233)) eqn:E2.
  { assert (r ∈ [RuneError; 8232; 8233]) as Hr.
    { apply orb_true_iff in E2 as [E2|E2]; apply Z.eqb_eq in E2 as ->; set_solver. }
    split_and!; [done|intros; by apply u_escape_scan|intros; by apply u_escape_unquote]. }
  assert ((r, n) ≠ (RuneError, 1%nat)) as Hne by (intros [= -> ->]; done).
  pose proof (λ k, decode_rune_local _ _ _ _ k Hc Hd Hne) as Hloc.
  destruct (Hloc []) as (d & Ed & -> & _ & Hhigh). rewrite Ed. split_and!; [done|..].
  - intros k. by apply scan_string_high.
  - intros fuel k. destruct (Hloc k) as (d' & Ed' & _ & Hk & _). rewrite Ed in Ed'. injection Ed' as <-.
    cbn [app unquote_go]. rewrite bool_decide_eq_false_2 by (intros ->; revert Hc; vm_compute; congruence).
    destruct (bz c <? 128) eqn:E; [lia|]. rewrite Hk. f_equal. f_equal.
    by rewrite app_comm_cons, (drop_app_length' (c :: d)).
Qed.

Lemma quote_go_scan fuel l k :
  scan_string InString (quote_go fuel l ++ k) = pmap (app (quote_go fuel l)) (scan_string InString k).
Proof.
  revert l. induction fuel as [|fuel IH]; intros l; [by rewrite pmap_app_nil|].
  destruct l as [|c l]; [by rewrite pmap_app_nil|]. cbn [quote_go]. destruct (bz c <? 128) eqn:E.
  - rewrite <- app_assoc, quote_ascii_scan, IH by lia. apply pmap_app.
  - destruct (decode_rune c l) as [r n] eqn:Hd. apply quote_rune in Hd as (_ & Hs & _); [|lia].
    rewrite <- app_assoc, Hs, IH. apply pmap_app.
Qed.

Lemma quote_ascii_nonempty c : quote_ascii c ≠ [].
Proof. unfold quote_ascii. by repeat case_match. Qed.

Lemma quote_go_unquote n fuel l :
  (length (quote_go n l) <= fuel)%nat → unquote_go fuel (quote_go n l) = utf8_clean_go n l.
Proof.
  revert fuel l. induction n as [|n IH]; intros fuel l Hf; [by destruct fuel|].
  destruct l as [|c l]; [by destruct fuel|]. rewrite utf8_clean_cons. cbn [quote_go] in *.
  destruct (bz c <? 128) eqn:E.
  - pose proof (quote_ascii_nonempty c) as Hq. rewrite length_app in Hf.
    destruct fuel as [|fuel]; [destruct (quote_ascii c); [done|cbn in Hf; lia]|].
    rewrite quote_ascii_unquote by lia. unfold decode_rune. rewrite E. cbn [drop].
    pose proof (bz_bound c). unfold encode_rune. destruct (bz c <? 0) eqn:E0; [lia|]. rewrite E, zb_bz.
    cbn [app]. f_equal. rewrite drop_0. apply IH. destruct (quote_ascii c); [done|cbn in Hf; lia].
  - destruct (decode_rune c l) as [r k] eqn:Hd. apply quote_rune in Hd as (Hq & _ & Hu); [|lia].
    rewrite length_app in Hf. match type of Hq with ?q ≠ [] => set (w := q) in * end.
    destruct fuel as [|fuel]; [destruct w; [done|cbn in Hf; lia]|].
    rewrite Hu. f_equal. apply IH. destruct w; [done|cbn in Hf; lia].
Qed.

(** Scanning a quoted string gives the text back, cleaned. *)
Lemma quote_roundtrip s k :
  scan_string InString (quote_go (length s) s ++ dquote :: k) = POk (quote_go (length s) s) k ∧
  unquote (quote_go (length s) s) = utf8_clean s.
Proof.
  split; [|by apply quote_go_unquote]. rewrite quote_go_scan. cbn [scan_string].
  rewrite bool_decide_eq_true_2 by done. cbn. by rewrite app_nil_r.
Qed.

(** ** Termination: the fuel of the scanner is enough *)

(** What is left is no longer than [l]. *)
Definition shrinks {A} (p : parsed A) (l : list ascii) : Prop :=
  match p with POk _ rest => (length rest <= length l)%nat | _ => True end.

Lemma shrinks_pmap {A B} (f : A → B) p l : shrinks p l → shrinks (pmap f p) l.
Proof. by destruct p. Qed.

Lemma shrinks_pbind {A B} (p : parsed A) (f : A → list ascii → parsed B) l :
  shrinks p l → (∀ a rest, (length rest <= length l)%nat → shrinks (f a rest) l) → shrinks (pbind p f) l.
Proof. destruct p; simpl; auto. Qed.

Lemma shrinks_weaken {A} (p : parsed A) l k : shrinks p l → (length l <= length k)%nat → shrinks p k.
Proof. destruct p; simpl; lia. Qed.

Lemma skip_ws_length l : (length (skip_ws l) <= length l)%nat.
Proof.
  unfold skip_ws. destruct (drop_while_suffix is_ws l) as (k & E & _).
  rewrite E at 2. rewrite length_app. lia.
Qed.

Lemma skip_ws_cons l c k : skip_ws l = c :: k → (length k < length l)%nat.
Proof. intros E. pose proof (skip_ws_length l) as Hl. rewrite E in Hl. cbn in Hl. lia. Qed.

Lemma scan_string_shrinks st l : shrinks (scan_string st l) l.
Proof.
  revert st. induction l as [|c l IH]; intros st; cbn [scan_string]; [done|].
  assert (∀ st, shrinks (pmap (cons c) (scan_string st l)) (c :: l)) as Hn.
  { intros st'. apply shrinks_pmap. eapply shrinks_weaken; [apply IH|]. cbn; lia. }
  destruct st; repeat case_match; simpl; auto; apply Hn.
Qed.

Lemma digits_length l : (length (digits l).2 <= length l)%nat.
Proof.
  induction l as [|c l IH]; cbn [digits]; [cbn; lia|]. destruct (is_digit c); [|cbn; lia].
  destruct (digits l). cbn in *. lia.
Qed.

Lemma digits1_shrinks l : shrinks (digits1 l) l.
Proof.
  destruct l as [|c l]; [done|]. unfold digits1. destruct (is_digit c); [|done].
  pose proof (digits_length (c :: l)) as Hd. by destruct (digits (c :: l)).
Qed.

Lemma num_frac_shrinks l : shrinks (num_frac l) l.
Proof.
  destruct l as [|c l]; [simpl; lia|]. cbn [num_frac]. case_bool_decide; [|simpl; lia].
  apply shrinks_pmap. eapply shrinks_weaken; [apply digits1_shrinks|]. cbn; lia.
Qed.

Lemma num_exp_shrinks l : shrinks (num_exp l) l.
Proof.
  destruct l as [|c [|s l]]; cbn [num_exp]; repeat case_bool_decide; try (simpl; lia); apply shrinks_pmap;
    (eapply shrinks_weaken; [apply digits1_shrinks|]); cbn; lia.
Qed.

Lemma num_int_shrinks l : shrinks (num_int l) l.
Proof. destruct l as [|c l]; [done|]. cbn [num_int]. case_bool_decide; [cbn; lia|]. apply digits1_shrinks. Qed.

Lemma scan_number_shrinks l : shrinks (scan_number l) l.
Proof.
  unfold scan_number. assert (length (num_sign l).2 <= length l)%nat as Hs.
  { destruct l; cbn [num_sign]; [simpl; lia|]. case_bool_decide; cbn; lia. }
  destruct (num_sign l) as [sign k]. simpl in Hs.
  apply shrinks_pbind; [eapply shrinks_weaken; [apply num_int_shrinks|done]|]. intros i k1 H1.
  apply shrinks_pbind; [eapply shrinks_weaken; [apply num_frac_shrinks|done]|]. intros f k2 H2.
  apply shrinks_pbind; [eapply shrinks_weaken; [apply num_exp_shrinks|done]|]. done.
Qed.

Lemma scan_word_shrinks w l : shrinks (scan_word w l) l.
Proof.
  revert l. induction w as [|x w IH]; intros [|c l]; cbn [scan_word]; try (simpl; lia).
  case_bool_decide; [|done]. eapply shrinks_weaken; [apply IH|]. cbn; lia.
Qed.

Lemma scan_scalar_shrinks c l : shrinks (scan_scalar c l) (c :: l).
Proof.
  unfold scan_scalar. repeat case_match; try done; apply shrinks_pmap;
    (eapply shrinks_weaken; [first [apply scan_string_shrinks|apply scan_word_shrinks|apply scan_number_shrinks]|]);
    cbn; lia.
Qed.

Lemma expect_length x l u rest : expect x l = POk u rest → (length rest < length l)%nat.
Proof.
  unfold expect. destruct (skip_ws l) as [|c k] eqn:E; [done|]. case_bool_decide; [|done].
  intros [= _ <-]. by eapply skip_ws_cons.
Qed.

Lemma closing_length x l b rest : closing x l = POk b rest → (length rest < length l)%nat.
Proof.
  unfold closing. destruct (skip_ws l) as [|c k] eqn:E; [done|]. apply skip_ws_cons in E.
  repeat case_bool_decide; naive_solver.
Qed.

(** Every function of the scanner consumes a prefix of its text. *)
Lemma scan_shrinks fuel :
  (∀ d l, shrinks (scan_value fuel d l) l) ∧
  (∀ d l, shrinks (scan_members fuel d l) l) ∧
  (∀ d l, shrinks (scan_elements fuel d l) l).
Proof.
  induction fuel as [|fuel (IHv & IHm & IHe)]; [done|]. split_and!; intros d l.
  - cbn [scan_value]. destruct (skip_ws l) as [|c k] eqn:E; [done|].
    pose proof (skip_ws_length l) as Hl. rewrite E in Hl. cbn [length] in Hl. apply skip_ws_cons in E.
    repeat case_match; try done;
      try (apply expect_length in H1 || apply expect_length in H2; simpl; lia);
      try (apply shrinks_pmap; (eapply shrinks_weaken; [first [apply IHm|apply IHe]|lia])).
    eapply shrinks_weaken; [apply scan_scalar_shrinks|done].
  - cbn [scan_members]. destruct (expect dquote l) as [? l1| |] eqn:E1; [|done..]. apply expect_length in E1.
    cbn [pbind]. pose proof (scan_string_shrinks InString l1) as E2.
    destruct (scan_string InString l1) as [key l2| |]; [|done..]. cbn [pbind shrinks] in *.
    destruct (expect ":"%char l2) as [? l3| |] eqn:E3; [|done..]. apply expect_length in E3. cbn [pbind].
    specialize (IHv d l3). destruct (scan_value fuel d l3) as [v l4| |]; [|done..]. cbn [pbind shrinks] in *.
    destruct (closing "}"%char l4) as [[] l5| |] eqn:E5; [..|done|done]; apply closing_length in E5; cbn [pbind].
    + simpl. lia.
    + apply shrinks_pmap. eapply shrinks_weaken; [apply IHm|lia].
  - cbn [scan_elements]. specialize (IHv d l). destruct (scan_value fuel d l) as [v l1| |]; [|done..].
    cbn [pbind shrinks] in *. destruct (closing "]"%char l1) as [[] l2| |] eqn:E2; [..|done|done];
      apply closing_length in E2; cbn [pbind].
    + simpl. lia.
    + apply shrinks_pmap. eapply shrinks_weaken; [apply IHe|lia].
Qed.

(** Enough fuel: more of it changes nothing. *)
Lemma scan_fuel n m :
  (∀ d l, (2 * length l + 1 <= n)%nat → (2 * length l + 1 <= m)%nat → scan_value n d l = scan_value m d l) ∧
  (∀ d l, (2 * length l + 1 <= n)%nat → (2 * length l + 1 <= m)%nat → scan_members n d l = scan_members m d l) ∧
  (∀ d l, (2 * length l + 2 <= n)%nat → (2 * length l + 2 <= m)%nat → scan_elements n d l = scan_elements m d l).
Proof.
  revert m. induction n as [|n IH]; intros m; [split_and!; intros; lia|].
  destruct m as [|m]; [split_and!; intros; lia|]. specialize (IH m) as (IHv & IHm & IHe).
  split_and!; intros d l Hn Hm.
  - cbn [scan_value]. destruct (skip_ws l) as [|c k] eqn:E; [done|]. apply skip_ws_cons in E.
    by rewrite IHm, IHe by lia.
  - cbn [scan_members]. destruct (expect dquote l) as [? l1| |] eqn:E1; [|done..]. apply expect_length in E1.
    cbn [pbind]. pose proof (scan_string_shrinks InString l1) as E2.
    destruct (scan_string InString l1) as [key l2| |]; [|done..]. cbn [pbind shrinks] in *.
    destruct (expect ":"%char l2) as [? l3| |] eqn:E3; [|done..]. apply expect_length in E3. cbn [pbind].
    rewrite IHv by lia. pose proof (proj1 (scan_shrinks m) d l3) as E4.
    destruct (scan_value m d l3) as [v l4| |]; [|done..]. cbn [pbind shrinks] in *.
    destruct (closing "}"%char l4) as [[] l5| |] eqn:E5; [done| |done..]. apply closing_length in E5.
    cbn [pbind]. by rewrite IHm by lia.
  - cbn [scan_elements]. rewrite IHv by lia. pose proof (proj1 (scan_shrinks m) d l) as E1.
    destruct (scan_value m d l) as [v l1| |]; [|done..]. cbn [pbind shrinks] in *.
    destruct (closing "]"%char l1) as [[] l2| |] eqn:E2; [done| |done..]. apply closing_length in E2.
    cbn [pbind]. by rewrite IHe by lia.
Qed.

(** ** Values: what was encoded is read back *)
Section json_ind.
Variable P : json → Prop.
Hypothesis Hnull : P JNull.
Hypothesis Hbool : ∀ b, P (JBool b).
Hypothesis Hnum : ∀ lit, P (JNum lit).
Hypothesis Hstr : ∀ s, P (JStr s).
Hypothesis Harr : ∀ l, Forall P l → P (JArr l).
Hypothesis Hobj : ∀ l, Forall (λ kv, P (kv.2)) l → P (JObj l).

(** Induction through the lists of arrays and objects *)
Fixpoint json_nested_ind (v : json) : P v :=
  match v with
  | JNull => Hnull
  | JBool b => Hbool b
  | JNum lit => Hnum lit
  | JStr s => Hstr s
  | JArr l => Harr l ((fix go l := match l return Forall P l with
                       | [] => Forall_nil_2 P
                       | v :: l => Forall_cons_2 P v l (json_nested_ind v) (go l)
                       end) l)
  | JObj l => Hobj l ((fix go l := match l return Forall (λ kv, P (kv.2)) l with
                       | [] => Forall_nil_2 (λ kv, P (kv.2))
                       | kv :: l => Forall_cons_2 (λ kv, P (kv.2)) kv l (json_nested_ind (kv.2)) (go l)
                       end) l)
  end.
End json_ind.

(** The value a text stands for once its strings are cleaned *)
Fixpoint json_clean (v : json) : json :=
  match v with
  | JStr s => JStr (utf8_clean s)
  | JArr l => JArr (map json_clean l)
  | JObj l => JObj (map (λ kv, (utf8_clean (kv.1), json_clean (kv.2))) l)
  | _ => v
  end.

(** The numbers are integers. *)
Fixpoint json_ints (v : json) : Prop :=
  match v with
  | JNum lit => ∃ z, lit = bytes (itoa z)
  | JArr l => Forall id (map json_ints l)
  | JObj l => Forall id (map (λ kv, json_ints (kv.2)) l)
  | _ => True
  end.

(** [v] has at most [d] levels of nesting. *)
Fixpoint json_within (d : Z) (v : json) : Prop :=
  match v with
  | JArr l => 1 <= d ∧ Forall id (map (json_within (d - 1)) l)
  | JObj l => 1 <= d ∧ Forall id (map (λ kv, json_within (d - 1) (kv.2)) l)
  | _ => True
  end.

(** What follows cannot continue a number. *)
Definition ends_number (rest : list ascii) : Prop :=
  match rest with
  | [] => True
  | c :: _ => is_digit c = false ∧ c ∉ ["."%char; "e"%char; "E"%char]
  end.

Lemma digits_app l rest :
  (∀ c, c ∈ l → is_digit c = true) → ends_number rest → digits (l ++ rest) = (l, rest).
Proof.
  intros Hl Hr. induction l as [|c l IH]; cbn [app digits].
  - destruct rest as [|c rest]; [done|]. destruct Hr as [Hc _]. cbn [digits]. by rewrite Hc.
  - rewrite Hl by by left. rewrite IH by (intros; apply Hl; by right). done.
Qed.

Lemma num_tail {A} rest (f : list ascii → list ascii → A) :
  ends_number rest → pbind (num_frac rest) (λ x l, pbind (num_exp l) (λ y l, POk (f x y) l)) = POk (f [] []) rest.
Proof.
  destruct rest as [|c rest]; [done|]. intros [Hd Hc]. cbn [num_frac].
  rewrite bool_decide_eq_false_2 by set_solver. cbn [pbind num_exp]. by rewrite bool_decide_eq_false_2 by set_solver.
Qed.

Lemma num_int_digits c l rest :
  (∀ x, x ∈ c :: l → is_digit x = true) → (c = "0"%char → l = []) → ends_number rest →
  num_int (c :: l ++ rest) = POk (c :: l) rest.
Proof.
  intros Hl H0 Hr. cbn [num_int]. case_bool_decide as Hc; [by rewrite (H0 Hc)|].
  pose proof (digits_app (c :: l) rest Hl Hr) as Hd. unfold digits1. rewrite (Hl c) by by left.
  cbn [app] in Hd. by rewrite Hd.
Qed.

Lemma scan_number_itoa z rest :
  ends_number rest → scan_number (bytes (itoa z) ++ rest) = POk (bytes (itoa z)) rest.
Proof.
  intros Hr. destruct (itoa_shape z) as (c & l & _ & Hd & H0 & _ & ->). unfold scan_number.
  assert (num_sign (((if z <? 0 then ["-"%char] else []) ++ c :: l) ++ rest) =
    (if z <? 0 then ["-"%char] else [], c :: l ++ rest)) as ->.
  { destruct (z <? 0); [done|]. cbn [app num_sign]. rewrite bool_decide_eq_false_2; [done|].
    intros ->. specialize (Hd "-"%char ltac:(by left)). discriminate Hd. }
  rewrite num_int_digits by done. cbn [pbind]. 
  rewrite (num_tail rest (λ f e, _ ++ (c :: l) ++ f ++ e)) by done. by rewrite !app_nil_r.
Qed.

Lemma scan_scalar_itoa z rest :
  ends_number rest →
  match bytes (itoa z) ++ rest with
  | [] => False
  | c :: l => is_ws c = false ∧ c ≠ "{"%char ∧ c ≠ "["%char ∧ scan_scalar c l = POk (JNum (bytes (itoa z))) rest
  end.
Proof.
  intros Hr. pose proof (scan_number_itoa z rest Hr) as Hs.
  destruct (bytes (itoa z) ++ rest) as [|c l] eqn:E.
  { destruct (itoa_shape z) as (c & l & _ & _ & _ & _ & Eq). rewrite Eq in E. by destruct (z <? 0). }
  assert (c = "-"%char ∨ is_digit c = true) as Hc.
  { apply (itoa_digits z). destruct (itoa_shape z) as (c' & l' & _ & _ & _ & _ & Eq). rewrite Eq in E |- *.
    destruct (z <? 0); injection E as -> _; set_solver. }
  unfold scan_scalar. rewrite Hs. destruct c as [[] [] [] [] [] [] [] []];
    first [split_and!; [reflexivity|congruence|congruence|reflexivity]|destruct Hc as [Hc|Hc]; discriminate Hc].
Qed.

Lemma skip_ws_head c l : is_ws c = false → skip_ws (c :: l) = c :: l.
Proof. apply drop_while_head. Qed.

Lemma scan_value_step fuel d c l :
  is_ws c = false → c ≠ "{"%char → c ≠ "["%char → scan_value (S fuel) d (c :: l) = scan_scalar c l.
Proof. intros Hw H1 H2. cbn [scan_value]. rewrite skip_ws_head by done. by rewrite !bool_decide_eq_false_2. Qed.

(** What scanning one encoded value gives *)
Definition reads_back (v : json) : Prop :=
  ∀ fuel d rest, json_ints v → json_within (maxNestingDepth - d) v →
    (match v with JNum _ => ends_number rest | _ => True end) →
    (2 * length (encode v ++ rest) + 1 <= fuel)%nat →
    scan_value fuel d (encode v ++ rest) = POk (json_clean v) rest.

Lemma commas_cons x l : commas (x :: l) = x ++ match l with [] => [] | _ => ","%char :: commas l end.
Proof. destruct l; [by rewrite app_nil_r|done]. Qed.

Lemma expect_head x l : is_ws x = false → expect x (x :: l) = POk () l.
Proof. intros Hx. unfold expect. rewrite skip_ws_head by done. by rewrite bool_decide_eq_true_2. Qed.

Lemma expect_other x c l : is_ws c = false → c ≠ x → expect x (c :: l) = PBad.
Proof. intros Hc Hx. unfold expect. rewrite skip_ws_head by done. by rewrite bool_decide_eq_false_2. Qed.

Lemma encode_head v rest :
  json_ints v → ends_number rest →
  ∃ c l, encode v ++ rest = c :: l ∧ is_ws c = false ∧ c ≠ "]"%char.
Proof.
  intros Hv Hr. destruct v as [|[]|lit|s|l|l]; try (eexists _, _; split_and!; [reflexivity|done|done]).
  destruct Hv as [z ->]. pose proof (scan_scalar_itoa z rest Hr) as Hs. cbn [encode].
  destruct (bytes (itoa z) ++ rest) as [|c l] eqn:E; [done|]. destruct Hs as (Hw & _ & _ & Hs).
  exists c, l. split_and!; [done..|]. intros ->. done.
Qed.

Lemma ends_number_sep c l : c ∈ [","%char; "]"%char; "}"%char] → ends_number (c :: l).
Proof. intros Hc. repeat (apply elem_of_cons in Hc as [->|Hc]; [split; [done|set_solver]|]). by apply not_elem_of_nil in Hc. Qed.

Lemma reads_back_any v fuel d rest :
  reads_back v → json_ints v → json_within (maxNestingDepth - d) v → ends_number rest →
  (2 * length (encode v ++ rest) + 1 <= fuel)%nat → scan_value fuel d (encode v ++ rest) = POk (json_clean v) rest.
Proof. intros Hv Hi Hd Hr Hf. apply Hv; [done..| |done]. by destruct v. Qed.

Lemma scan_elements_encode l v fuel d rest :
  Forall reads_back (v :: l) → Forall id (map json_ints (v :: l)) →
  Forall id (map (json_within (maxNestingDepth - d)) (v :: l)) →
  (2 * length (commas (map encode (v :: l)) ++ "]"%char :: rest) + 2 <= fuel)%nat →
  scan_elements fuel d (commas (map encode (v :: l)) ++ "]"%char :: rest) = POk (map json_clean (v :: l)) rest.
Proof.
  revert v fuel. induction l as [|w l IH]; intros v fuel Hb Hi Hd Hf;
    (destruct fuel as [|fuel]; [lia|]); cbn [map] in *;
    apply Forall_cons in Hb as [Hb Hbl], Hi as [Hi Hil], Hd as [Hd Hdl]; cbn [scan_elements].
  - cbn [commas] in *. rewrite reads_back_any by first [done|lia|apply ends_number_sep; set_solver].
    by cbn.
  - rewrite commas_cons in *. rewrite <- !app_assoc in *. cbn [app] in *.
    rewrite reads_back_any by first [done|lia|apply ends_number_sep; set_solver]. cbn [pbind].
    unfold closing. rewrite skip_ws_head by done.
    rewrite bool_decide_eq_false_2, bool_decide_eq_true_2 by done. cbn [pbind].
    specialize (IH w fuel Hbl Hil Hdl). cbn [map] in IH. rewrite IH; [done|].
    rewrite length_app in Hf. cbn [length] in Hf. lia.
Qed.

Definition encode_member (kv : list ascii * json) : list ascii := quote (kv.1) ++ ":"%char :: encode (kv.2).
Definition clean_member (kv : list ascii * json) : list ascii * json := (utf8_clean (kv.1), json_clean (kv.2)).

Lemma scan_member_head kv fuel d rest :
  scan_members (S fuel) d (encode_member kv ++ rest) =
  pbind (scan_value fuel d (encode (kv.2) ++ rest)) (λ v l4,
  pbind (closing "}"%char l4) (λ stop l5,
    if (stop : bool) then POk [(utf8_clean (kv.1), v)] l5
    else pmap (cons (utf8_clean (kv.1), v)) (scan_members fuel d l5))).
Proof.
  unfold encode_member, quote. rewrite <- app_assoc. cbn [app scan_members]. rewrite expect_head by done.
  cbn [pbind]. rewrite <- app_assoc. cbn [app]. destruct (quote_roundtrip (kv.1) (":"%char :: encode (kv.2) ++ rest)) as [-> Hu].
  cbn [pbind]. rewrite expect_head by done. cbn [pbind]. by rewrite Hu.
Qed.

Lemma scan_members_encode l kv fuel d rest :
  Forall (λ kv, reads_back (kv.2)) (kv :: l) → Forall id (map (λ kv, json_ints (kv.2)) (kv :: l)) →
  Forall id (map (λ kv, json_within (maxNestingDepth - d) (kv.2)) (kv :: l)) →
  (2 * length (commas (map encode_member (kv :: l)) ++ "}"%char :: rest) + 1 <= fuel)%nat →
  scan_members fuel d (commas (map encode_member (kv :: l)) ++ "}"%char :: rest) =
    POk (map clean_member (kv :: l)) rest.
Proof.
  revert kv fuel. induction l as [|kw l IH]; intros kv fuel Hb Hi Hd Hf;
    (destruct fuel as [|fuel]; [lia|]); cbn [map] in *;
    apply Forall_cons in Hb as [Hb Hbl], Hi as [Hi Hil], Hd as [Hd Hdl].
  - cbn [commas] in *. rewrite scan_member_head. unfold encode_member in Hf.
    rewrite <- app_assoc, length_app in Hf. unfold quote in Hf. cbn [app length] in Hf.
    rewrite reads_back_any by first [done|lia|apply ends_number_sep; set_solver]. by cbn.
  - rewrite commas_cons in *. rewrite <- !app_assoc in *. cbn [app] in *.
    rewrite scan_member_head. unfold encode_member at 1 in Hf.
    rewrite <- app_assoc, length_app in Hf. unfold quote in Hf. cbn [app length] in Hf.
    rewrite reads_back_any by first [done|lia|apply ends_number_sep; set_solver]. cbn [pbind].
    unfold closing. rewrite skip_ws_head by done.
    rewrite bool_decide_eq_false_2, bool_decide_eq_true_2 by done. cbn [pbind].
    specialize (IH kw fuel Hbl Hil Hdl). cbn [map] in IH. rewrite IH; [done|].
    clear -Hf. rewrite !length_app in Hf. cbn [length] in Hf. lia.
Qed.

(** Opening an object or an array that is not empty *)
Lemma scan_value_obj fuel d c l :
  is_ws c = false → c ≠ "}"%char → d + 1 <= maxNestingDepth →
  scan_value (S fuel) d ("{"%char :: c :: l) = pmap JObj (scan_members fuel (d + 1) (c :: l)).
Proof.
  intros Hw Hc Hd. cbn [scan_value]. rewrite skip_ws_head by done. rewrite bool_decide_eq_true_2 by done.
  rewrite expect_other by done. destruct (_ <? d + 1) eqn:E; [lia|done].
Qed.

Lemma scan_value_arr fuel d c l :
  is_ws c = false → c ≠ "]"%char → d + 1 <= maxNestingDepth →
  scan_value (S fuel) d ("["%char :: c :: l) = pmap JArr (scan_elements fuel (d + 1) (c :: l)).
Proof.
  intros Hw Hc Hd. cbn [scan_value]. rewrite skip_ws_head by done.
  rewrite bool_decide_eq_false_2, bool_decide_eq_true_2 by done.
  rewrite expect_other by done. destruct (_ <? d + 1) eqn:E; [lia|done].
Qed.

Lemma reads_back_all v : reads_back v.
Proof.
  induction v as [|[]|lit|s|l IH|l IH] using json_nested_ind; intros fuel d rest Hi Hd Hr Hf;
    (destruct fuel as [|fuel]; [lia|]).
  1-3: cbn [encode bytes String.list_ascii_of_string app]; by rewrite scan_value_step.
  - destruct Hi as [z ->]. pose proof (scan_scalar_itoa z rest Hr) as Hs. cbn [encode].
    destruct (bytes (itoa z) ++ rest) as [|c l]; [done|]. destruct Hs as (Hw & H1 & H2 & Hs).
    by rewrite scan_value_step.
  - cbn [encode]. unfold quote. cbn [app]. rewrite scan_value_step by done. rewrite <- app_assoc. cbn [app].
    unfold scan_scalar. rewrite bool_decide_eq_true_2 by done. destruct (quote_roundtrip s rest) as [-> Hu].
    cbn [pmap]. by rewrite Hu.
  - destruct Hd as [Hd Hdl]. cbn [encode app] in *. rewrite <- app_assoc in *. cbn [app] in *.
    destruct l as [|v l]; cbn [map].
    + cbn [scan_value]. rewrite skip_ws_head by done. destruct (_ <? d + 1) eqn:E; [lia|done].
    + replace (maxNestingDepth - d - 1) with (maxNestingDepth - (d + 1)) in Hdl by lia.
      assert (∃ c k, commas (map encode (v :: l)) ++ "]"%char :: rest = c :: k ∧ is_ws c = false ∧ c ≠ "]"%char)
        as (c & k & E & Hw & Hc).
      { cbn [map] in *. rewrite commas_cons, <- app_assoc. apply Forall_cons in Hi as [Hi _].
        apply encode_head; [done|]. destruct (map encode l); apply ends_number_sep; set_solver. }
      cbn [map] in E. rewrite E, scan_value_arr by (try done; lia). rewrite <- E.
      pose proof (scan_elements_encode l v fuel (d + 1) rest IH Hi Hdl) as Hs. cbn [map] in Hs.
      rewrite Hs; [done|]. cbn [map length] in Hf. lia.
  - destruct Hd as [Hd Hdl]. cbn [encode app] in *. rewrite <- app_assoc in *. cbn [app] in *.
    change (λ kv, quote kv.1 ++ ":"%char :: encode kv.2) with encode_member in *.
    destruct l as [|kv l]; cbn [map].
    + cbn [scan_value]. rewrite skip_ws_head by done. destruct (_ <? d + 1) eqn:E; [lia|done].
    + replace (maxNestingDepth - d - 1) with (maxNestingDepth - (d + 1)) in Hdl by lia.
      assert (∃ k, commas (map encode_member (kv :: l)) ++ "}"%char :: rest = dquote :: k) as (k & E).
      { cbn [map]. rewrite commas_cons. eexists. reflexivity. }
      cbn [map] in E. rewrite E, scan_value_obj by (try done; lia). rewrite <- E.
      pose proof (scan_members_encode l kv fuel (d + 1) rest IH Hi Hdl) as Hs. cbn [map] in Hs.
      rewrite Hs; [done|]. cbn [map length] in Hf. lia.
Qed.

(** Encoding a value and scanning it gives the value back, its strings cleaned, and
    leaves what follows it. *)
Lemma scan_encode v rest :
  json_ints v → json_within maxNestingDepth v → (match v with JNum _ => ends_number rest | _ => True end) →
  scan (encode v ++ rest) = POk (json_clean v) rest.
Proof.
  intros Hi Hd Hr. apply reads_back_all; [done| |done|done].
  by rewrite Z.sub_0_r.
Qed.

Lemma check_valid_encode v rest :
  json_ints v → json_within maxNestingDepth v → (match v with JNum _ => ends_number rest | _ => True end) →
  skip_ws rest = [] → check_valid (encode v ++ rest) = Some (json_clean v).
Proof. intros Hi Hd Hr Hw. unfold check_valid. rewrite scan_encode by done. by rewrite Hw. Qed.
