(* ===== verification/Kube.v ===== *)
(** * Kubernetes objects

    The fields of the [corev1.Service] and [discoveryv1.EndpointSlice] objects
    that the controller reads or writes.  A pointer field is an [option], an
    [int32] a [Z], a label map a finite map. *)
From S2P Require Import Prelude.
Local Open Scope Z_scope.

Record NamespacedName : Type := MkNN { nnNamespace : string; nnName : string }.

#[global] Instance NamespacedName_eq_dec : EqDecision NamespacedName.
Proof. solve_decision. Defined.
#[global] Instance NamespacedName_countable : Countable NamespacedName.
Proof.
  refine (inj_countable' (λ n, (nnNamespace n, nnName n)) (λ x, MkNN x.1 x.2) _).
  by intros [].
Defined.

(** [intstr.IntOrString] *)
Inductive IntstrType : Type := IntstrInt | IntstrString.
Record IntOrString : Type := MkIntOrString {
  iosType : IntstrType; iosIntVal : Z; iosStrVal : string }.

Record LoadBalancerIngress : Type := MkIngress { ingIP : string; ingHostname : string }.

(** [corev1.ServicePort] *)
Record KServicePort : Type := MkKServicePort {
  kpName : string;
  kpProtocol : string;
  kpPort : Z;
  kpTargetPort : IntOrString;
}.

(** [corev1.Service]: metadata, spec and status *)
Record KService : Type := MkKService {
  ksNamespace : string;
  ksName : string;
  ksGeneration : Z;
  ksDeletionTimestamp : option Z;
  ksFinalizers : list string;
  ksType : string;
  ksLoadBalancerClass : option string;
  ksPorts : list KServicePort;
  ksIngress : list LoadBalancerIngress;
}.

(** [discoveryv1.EndpointPort], [Endpoint] and [EndpointSlice] *)
Record EndpointPort : Type := MkEndpointPort {
  epName : option string;
  epProtocol : option string;
  epPort : option Z;
}.

Record Endpoint : Type := MkEndpoint {
  endpAddresses : list string;
  endpReady : option bool;
}.

Record EndpointSlice : Type := MkEndpointSlice {
  esNamespace : string;
  esResourceVersion : string;
  esLabels : gmap string string;
  esPorts : list EndpointPort;
  esEndpoints : list Endpoint;
}.

#[global] Instance IntstrType_eq_dec : EqDecision IntstrType.
Proof. solve_decision. Defined.
#[global] Instance IntOrString_eq_dec : EqDecision IntOrString.
Proof. solve_decision. Defined.
#[global] Instance LoadBalancerIngress_eq_dec : EqDecision LoadBalancerIngress.
Proof. solve_decision. Defined.
#[global] Instance KServicePort_eq_dec : EqDecision KServicePort.
Proof. solve_decision. Defined.
#[global] Instance KService_eq_dec : EqDecision KService.
Proof. solve_decision. Defined.

(** Constants of the Kubernetes API *)
Definition ServiceTypeLoadBalancer : string := "LoadBalancer".
Definition ProtocolTCP : string := "TCP".
Definition LabelServiceName : string := "kubernetes.io/service-name".

(** Reading an absent key of a Go map gives the zero value. *)
Definition label (es : EndpointSlice) (k : string) : string := default "" (esLabels es !! k).

(** Record update for the two fields the controller writes *)
Definition set_ingress (s : KService) (ing : list LoadBalancerIngress) : KService :=
  MkKService (ksNamespace s) (ksName s) (ksGeneration s) (ksDeletionTimestamp s)
    (ksFinalizers s) (ksType s) (ksLoadBalancerClass s) (ksPorts s) ing.

Definition set_finalizers (s : KService) (fin : list string) : KService :=
  MkKService (ksNamespace s) (ksName s) (ksGeneration s) (ksDeletionTimestamp s)
    fin (ksType s) (ksLoadBalancerClass s) (ksPorts s) (ksIngress s).
