(* ===== verification/Client.v ===== *)
(** * The Kubernetes API client

    controller-runtime's client is a third-party package: its operations are the
    fields of a record, and [ClientSpec] states the documented API server
    behaviour the controller relies on.  [Fake] is an in-memory API server with
    an injectable list of faults that meets the contract; it is the instance
    concrete runs use. *)
From S2P Require Import Prelude Kube.
Local Open Scope Z_scope.

Definition objectKey (s : KService) : NamespacedName := MkNN (ksNamespace s) (ksName s).

(** The client acts on a world [W] (the cluster) and fails with errors [E]. *)
Record Client (W E : Type) : Type := MkClient {
  (** [client.Get] of a Service *)
  cl_get : NamespacedName → W → W * result E KService;
  (** [client.List] of all Services *)
  cl_list_services : W → W * result E (list KService);
  (** [client.List] of EndpointSlices with [InNamespace] and [MatchingLabels] *)
  cl_list_slices : string → gmap string string → W → W * result E (list EndpointSlice);
  (** [client.Patch(obj, MergeFrom(original))] of a modified Service; the object
      is overwritten by the server's response *)
  cl_patch : KService → KService → W → W * result E KService;
  (** [client.Status().Update]; the response overwrites the object *)
  cl_status_update : KService → W → W * result E KService;
  (** [apierrors.IsNotFound] *)
  cl_not_found : E → bool;
}.
Global Arguments MkClient {W E} _ _ _ _ _ _.
Global Arguments cl_get {W E} _ _ _.
Global Arguments cl_list_services {W E} _ _.
Global Arguments cl_list_slices {W E} _ _ _ _.
Global Arguments cl_patch {W E} _ _ _ _.
Global Arguments cl_status_update {W E} _ _ _.
Global Arguments cl_not_found {W E} _ _.

(** What the server stores after a merge patch that replaces the finalizers: an
    object that is being deleted goes away with its last finalizer. *)
Definition store_finalizers (m : gmap NamespacedName KService) (k : NamespacedName)
    (stored : KService) (fin : list string) : gmap NamespacedName KService :=
  if bool_decide (ksDeletionTimestamp stored ≠ None ∧ fin = []) then delete k m
  else <[k := set_finalizers stored fin]> m.

(** An EndpointSlice the selection of a list call asks for *)
Definition slice_selected (ns : string) (sel : gmap string string) (es : EndpointSlice) : bool :=
  bool_decide (esNamespace es = ns) && bool_decide (sel ⊆ esLabels es).

(** The contract.  Reads are consistent with the cluster and do not change it;
    a write that succeeds has its documented effect on the stored object; a
    write that fails had its effect or none. *)
Class ClientSpec {W E} (C : Client W E) : Type := {
  cs_services : W → gmap NamespacedName KService;
  cs_keys : ∀ w k s, cs_services w !! k = Some s → objectKey s = k;
  cs_get_ok : ∀ k w w' s, cl_get C k w = (w', Ok s) →
    cs_services w' = cs_services w ∧ cs_services w !! k = Some s;
  cs_get_err : ∀ k w w' e, cl_get C k w = (w', Err e) → cs_services w' = cs_services w;
  cs_get_missing : ∀ k w w' e, cl_get C k w = (w', Err e) → cl_not_found C e = true →
    cs_services w !! k = None;
  cs_list : ∀ w w' res, cl_list_services C w = (w', res) → cs_services w' = cs_services w;
  cs_list_ok : ∀ w w' l s, cl_list_services C w = (w', Ok l) →
    s ∈ l ↔ cs_services w !! objectKey s = Some s;
  cs_slices : ∀ ns ls w w' res, cl_list_slices C ns ls w = (w', res) →
    cs_services w' = cs_services w;
  cs_slices_of : W → list EndpointSlice;
  cs_slices_ok : ∀ ns ls w w' l, cl_list_slices C ns ls w = (w', Ok l) →
    l ≡ₚ List.filter (slice_selected ns ls) (cs_slices_of w);
  cs_get_slices : ∀ k w, cs_slices_of (cl_get C k w).1 = cs_slices_of w;
  cs_list_slices : ∀ w, cs_slices_of (cl_list_services C w).1 = cs_slices_of w;
  cs_patch_slices : ∀ orig s w, cs_slices_of (cl_patch C orig s w).1 = cs_slices_of w;
  cs_slices_slices : ∀ ns ls w, cs_slices_of (cl_list_slices C ns ls w).1 = cs_slices_of w;
  cs_status_slices : ∀ s w, cs_slices_of (cl_status_update C s w).1 = cs_slices_of w;
  cs_patch_ok : ∀ orig s w w' s', cl_patch C orig s w = (w', Ok s') →
    ∃ stored, cs_services w !! objectKey s = Some stored ∧
      s' = set_finalizers stored (ksFinalizers s) ∧
      cs_services w' = store_finalizers (cs_services w) (objectKey s) stored (ksFinalizers s);
  cs_patch_err : ∀ orig s w w' e, cl_patch C orig s w = (w', Err e) →
    cs_services w' = cs_services w ∨
    ∃ stored, cs_services w !! objectKey s = Some stored ∧
      cs_services w' = store_finalizers (cs_services w) (objectKey s) stored (ksFinalizers s);
  cs_status_ok : ∀ s w w' s', cl_status_update C s w = (w', Ok s') →
    ∃ stored, cs_services w !! objectKey s = Some stored ∧
      s' = set_ingress stored (ksIngress s) ∧
      cs_services w' = <[objectKey s := set_ingress stored (ksIngress s)]> (cs_services w);
  cs_status_err : ∀ s w w' e, cl_status_update C s w = (w', Err e) →
    cs_services w' = cs_services w ∨
    ∃ stored, cs_services w !! objectKey s = Some stored ∧
      cs_services w' = <[objectKey s := set_ingress stored (ksIngress s)]> (cs_services w);
}.

(** ** An in-memory API server *)
Module Fake.

Inductive ApiError : Type := NotFound | Fault (code : Z).

(** [faults] decides, call by call, whether the call fails; when it is used up
    every call succeeds. *)
Record Cluster : Type := MkCluster {
  services : gmap NamespacedName KService;
  slices : list EndpointSlice;
  faults : list (option Z);
}.

(** Objects are stored under their own key. *)
Definition view (w : Cluster) : gmap NamespacedName KService :=
  filter (λ ks, objectKey ks.2 = ks.1) (services w).

Definition cluster_of (l : list KService) (es : list EndpointSlice) (fs : list (option Z)) : Cluster :=
  MkCluster (list_to_map ((λ s, (objectKey s, s)) <$> l)) es fs.

Definition next_fault (w : Cluster) : Cluster * option Z :=
  match faults w with
  | [] => (w, None)
  | f :: fs => (MkCluster (services w) (slices w) fs, f)
  end.

(** Runs a call: the next fault decides whether it reaches the store. *)
Definition call {A} (f : Cluster → Cluster * result ApiError A) (w : Cluster) :
    Cluster * result ApiError A :=
  match next_fault w with
  | (w, Some code) => (w, Err (Fault code))
  | (w, None) => f w
  end.

Definition get (k : NamespacedName) : Cluster → Cluster * result ApiError KService :=
  call (λ w, (w, match view w !! k with Some s => Ok s | None => Err NotFound end)).

Definition list_services : Cluster → Cluster * result ApiError (list KService) :=
  call (λ w, (w, Ok (snd <$> map_to_list (view w)))).

Definition list_slices (ns : string) (sel : gmap string string) :
    Cluster → Cluster * result ApiError (list EndpointSlice) :=
  call (λ w, (w, Ok (List.filter (slice_selected ns sel) (slices w)))).

Definition write (s : KService)
    (f : gmap NamespacedName KService → KService → gmap NamespacedName KService)
    (resp : KService → KService) : Cluster → Cluster * result ApiError KService :=
  call (λ w,
    match view w !! objectKey s with
    | None => (w, Err NotFound)
    | Some stored => (MkCluster (f (view w) stored) (slices w) (faults w), Ok (resp stored))
    end).

Definition patch (orig s : KService) : Cluster → Cluster * result ApiError KService :=
  write s (λ m stored, store_finalizers m (objectKey s) stored (ksFinalizers s))
    (λ stored, set_finalizers stored (ksFinalizers s)).

Definition status_update (s : KService) : Cluster → Cluster * result ApiError KService :=
  write s (λ m stored, <[objectKey s := set_ingress stored (ksIngress s)]> m)
    (λ stored, set_ingress stored (ksIngress s)).

Definition client : Client Cluster ApiError :=
  MkClient get list_services list_slices patch status_update
    (λ e, match e with NotFound => true | Fault _ => false end).

(** *** The fake meets the contract *)
Lemma view_key w k s : view w !! k = Some s → objectKey s = k.
Proof. unfold view. by intros [_ ?]%map_lookup_filter_Some. Qed.

Lemma view_id m sl fs :
  (∀ k s, m !! k = Some s → objectKey s = k) → view (MkCluster m sl fs) = m.
Proof. intros H. apply map_filter_id. intros k s Hk. by apply H. Qed.

Lemma next_fault_view w w' f : next_fault w = (w', f) → view w' = view w.
Proof. unfold next_fault. destruct (faults w); by intros [= <- _]. Qed.

Lemma call_inv {A} (f : Cluster → Cluster * result ApiError A) w w' res :
  call f w = (w', res) →
  (∃ code, res = Err (Fault code) ∧ view w' = view w) ∨ (∃ w0, view w0 = view w ∧ f w0 = (w', res)).
Proof.
  unfold call. destruct (next_fault w) as [w0 [code|]] eqn:Hn; apply next_fault_view in Hn.
  - intros [= <- <-]. left. eauto.
  - intros H. right. eauto.
Qed.

Lemma call_read {A} (g : Cluster → result ApiError A) w w' res :
  call (λ w, (w, g w)) w = (w', res) → view w' = view w.
Proof. by intros [(? & _ & ?)|(w0 & <- & [= <- _])]%call_inv. Qed.

Lemma write_inv s f resp w w' res :
  write s f resp w = (w', res) →
  (∀ m stored k x, (∀ k x, m !! k = Some x → objectKey x = k) → objectKey stored = objectKey s →
     f m stored !! k = Some x → objectKey x = k) →
  (∃ stored, view w !! objectKey s = Some stored ∧ res = Ok (resp stored) ∧
     view w' = f (view w) stored) ∨
  (∃ e, res = Err e ∧ view w' = view w).
Proof.
  intros [(code & -> & Hv)|(w0 & Hv & Hw)]%call_inv Hf; [by right; eauto|].
  rewrite <- Hv. destruct (view w0 !! objectKey s) as [stored|] eqn:Hs.
  - injection Hw as <- <-. left. exists stored. split_and!; [done..|]. apply view_id.
    intros k x. apply Hf; [apply view_key|]. by apply (view_key w0).
  - injection Hw as <- <-. right. eauto.
Qed.

Lemma patch_inv orig s w w' res :
  patch orig s w = (w', res) →
  (∃ stored, view w !! objectKey s = Some stored ∧ res = Ok (set_finalizers stored (ksFinalizers s)) ∧
     view w' = store_finalizers (view w) (objectKey s) stored (ksFinalizers s)) ∨
  (∃ e, res = Err e ∧ view w' = view w).
Proof.
  intros H. apply write_inv in H; [done|]. intros m stored k x Hm Hk.
  unfold store_finalizers. case_bool_decide.
  - intros [_ ?]%lookup_delete_Some. by apply Hm.
  - intros [[<- <-]|[_ ?]]%lookup_insert_Some; [done|by apply Hm].
Qed.

Lemma status_update_inv s w w' res :
  status_update s w = (w', res) →
  (∃ stored, view w !! objectKey s = Some stored ∧ res = Ok (set_ingress stored (ksIngress s)) ∧
     view w' = <[objectKey s := set_ingress stored (ksIngress s)]> (view w)) ∨
  (∃ e, res = Err e ∧ view w' = view w).
Proof.
  intros H. apply write_inv in H; [done|]. intros m stored k x Hm Hk.
  intros [[<- <-]|[_ ?]]%lookup_insert_Some; [done|by apply Hm].
Qed.

#[export] Instance fake_spec : ClientSpec client.
Proof.
  refine {| cs_services := view; cs_slices_of := slices |}; simpl.
  - apply view_key.
  - intros k w w' s [(? & ? & _)|(w0 & <- & H)]%call_inv; [done|].
    destruct (view w0 !! k) eqn:Hk; simplify_eq. done.
  - intros k w w' e. apply call_read.
  - intros k w w' e [(? & [= ->] & _)|(w0 & <- & H)]%call_inv; [done|].
    destruct (view w0 !! k); [done|]. done.
  - intros w w' res. apply call_read.
  - intros w w' l s [(? & ? & _)|(w0 & <- & [= <- <-])]%call_inv; [done|].
    rewrite list_elem_of_fmap. split.
    + intros ([k x] & -> & Hx). apply elem_of_map_to_list in Hx. simpl.
      by rewrite (view_key _ _ _ Hx).
    + intros H. exists (objectKey s, s). split; [done|]. by apply elem_of_map_to_list.
  - intros ns ls w w' res. apply call_read.
  - intros ns ls w w' l. unfold list_slices, call, next_fault.
    destruct (faults w) as [|[f|] fs]; by intros [= _ <-].
  - intros k w. unfold get, call, next_fault. by destruct (faults w) as [|[f|] fs].
  - intros w. unfold list_services, call, next_fault. by destruct (faults w) as [|[f|] fs].
  - intros orig s w. unfold patch, write, call, next_fault.
    destruct (faults w) as [|[f|] fs]; [| |]; try done; by destruct (view _ !! _).
  - intros ns ls w. unfold list_slices, call, next_fault. by destruct (faults w) as [|[f|] fs].
  - intros s w. unfold status_update, write, call, next_fault.
    destruct (faults w) as [|[f|] fs]; [| |]; try done; by destruct (view _ !! _).
  - intros orig s w w' s' [(st & ? & [= ->] & ?)|(e & ? & ?)]%patch_inv; [|done]. eauto.
  - intros orig s w w' e [(st & ? & ? & ?)|(e' & ? & ?)]%patch_inv; [done|]. by left.
  - intros s w w' s' [(st & ? & [= ->] & ?)|(e & ? & ?)]%status_update_inv; [|done]. eauto.
  - intros s w w' e [(st & ? & ? & ?)|(e' & ? & ?)]%status_update_inv; [done|]. by left.
Defined.
End Fake.
