(* ===== verification/Provider.v ===== *)
(** * The provider model and interface (internal/provider)

    The controller hands the desired state of one Service to a [Provider].  This
    file has the exchanged data, the interface with the contract every
    implementation in the program discharges ([ProviderSpec]), and the in-memory
    [MockProvider]. *)
From S2P Require Import Prelude GoStrings GoSort.
Local Open Scope Z_scope.

(** ** provider.go *)
Record ServiceRef : Type := MkRef { refNamespace : string; refName : string }.

Record BackendEndpoint : Type := MkBackend { beAddress : string; bePort : Z }.

Record ServicePort : Type := MkPort {
  portName : string;
  portProtocol : string;
  portPort : Z;
  portTargetPort : string;
  portBackends : list BackendEndpoint;
}.

Record Service : Type := MkService {
  svcNamespace : string;
  svcName : string;
  svcLoadBalancerClass : string;
  svcExternalIP : string;
  svcPorts : list ServicePort;
}.

#[global] Instance ServiceRef_eq_dec : EqDecision ServiceRef.
Proof. solve_decision. Defined.
#[global] Instance ServiceRef_countable : Countable ServiceRef.
Proof.
  refine (inj_countable' (λ r, (refNamespace r, refName r)) (λ x, MkRef x.1 x.2) _).
  by intros [].
Defined.
#[global] Instance BackendEndpoint_eq_dec : EqDecision BackendEndpoint.
Proof. solve_decision. Defined.
#[global] Instance ServicePort_eq_dec : EqDecision ServicePort.
Proof. solve_decision. Defined.
#[global] Instance Service_eq_dec : EqDecision Service.
Proof. solve_decision. Defined.

(** [ServiceRef.String] *)
Definition RefString (r : ServiceRef) : string := refNamespace r +:+ "/" +:+ refName r.

(** [Service.Ref] *)
Definition Ref (s : Service) : ServiceRef := MkRef (svcNamespace s) (svcName s).

(** [slices.EqualFunc] *)
Fixpoint EqualFunc {A} (eq : A → A → bool) (l k : list A) : bool :=
  match l, k with
  | [], [] => true
  | x :: l, y :: k => eq x y && EqualFunc eq l k
  | _, _ => false
  end.

(** [ServicePort.Equal] *)
Definition PortEqual (p other : ServicePort) : bool :=
  bool_decide (portName p = portName other) &&
  bool_decide (portProtocol p = portProtocol other) &&
  bool_decide (portPort p = portPort other) &&
  bool_decide (portTargetPort p = portTargetPort other) &&
  EqualFunc (λ a b, bool_decide (a = b)) (portBackends p) (portBackends other).

(** [Service.Equal] *)
Definition ServiceEqual (s other : Service) : bool :=
  if bool_decide (svcNamespace s ≠ svcNamespace other) ||
     bool_decide (svcName s ≠ svcName other) ||
     bool_decide (svcLoadBalancerClass s ≠ svcLoadBalancerClass other) ||
     bool_decide (svcExternalIP s ≠ svcExternalIP other) ||
     bool_decide (length (svcPorts s) ≠ length (svcPorts other))
  then false
  else EqualFunc PortEqual (svcPorts s) (svcPorts other).

(** [ServicePort.DeepCopy] and [Service.DeepCopy]: values are immutable here, so a
    detached copy is the value rebuilt field by field. *)
Definition PortDeepCopy (p : ServicePort) : ServicePort :=
  MkPort (portName p) (portProtocol p) (portPort p) (portTargetPort p) (portBackends p).

Definition DeepCopy (s : Service) : Service :=
  MkService (svcNamespace s) (svcName s) (svcLoadBalancerClass s) (svcExternalIP s)
    (PortDeepCopy <$> svcPorts s).

Lemma PortDeepCopy_id p : PortDeepCopy p = p.
Proof. by destruct p. Qed.

Lemma DeepCopy_id s : DeepCopy s = s.
Proof.
  destruct s as [? ? ? ? ps]. unfold DeepCopy. simpl. f_equal.
  induction ps as [|p ps IH]; [done|]. cbn [fmap list_fmap]. by rewrite PortDeepCopy_id, IH.
Qed.
#[export] Hint Rewrite DeepCopy_id PortDeepCopy_id : lb_rw.

Lemma EqualFunc_spec {A} (eq : A → A → bool) l k :
  (∀ x y, eq x y = true ↔ x = y) → EqualFunc eq l k = true ↔ l = k.
Proof.
  intros Heq. revert k. induction l as [|x l IH]; intros [|y k]; simpl; [done..|].
  rewrite andb_true_iff, Heq, IH. naive_solver.
Qed.

Lemma PortEqual_spec p q : PortEqual p q = true ↔ p = q.
Proof.
  unfold PortEqual. rewrite !andb_true_iff, !bool_decide_eq_true, EqualFunc_spec.
  - destruct p, q; naive_solver.
  - intros. apply bool_decide_eq_true.
Qed.

(** [Equal] decides equality of the models. *)
Lemma ServiceEqual_spec s t : ServiceEqual s t = true ↔ s = t.
Proof.
  unfold ServiceEqual. destruct (_ || _) eqn:E.
  - split; [done|]. intros ->. by rewrite !bool_decide_eq_false_2 in E by auto.
  - rewrite EqualFunc_spec by apply PortEqual_spec.
    rewrite !orb_false_iff, !bool_decide_eq_false in E. destruct s, t; simpl in *.
    split; [|by intros [= ]]. intros ->. destruct E as ((((? & ?) & ?) & ?) & _).
    f_equal; by apply dec_stable.
Qed.

(** ** The [Provider] interface

    An implementation acts on a world [W] (its own memory, a file system, a
    remote host) and reports whether it changed anything. *)
Record Provider (W E : Type) : Type := MkProvider {
  Ensure : Service → W → W * result E bool;
  Delete : ServiceRef → W → W * result E bool;
}.
Global Arguments MkProvider {W E} _ _.
Global Arguments Ensure {W E} _ _ _.
Global Arguments Delete {W E} _ _ _.

(** What the controller relies on.  [pv_state] is the desired state the provider
    holds; [pv_norm] the canonical form it stores.  Success puts exactly the
    requested entry in place; after an error the operation took place entirely
    or not at all; other Services are never disturbed. *)
Class ProviderSpec {W E} (P : Provider W E) : Type := {
  pv_state : W → gmap ServiceRef Service;
  pv_norm : Service → Service;
  pv_norm_ref : ∀ s, Ref (pv_norm s) = Ref s;
  pv_ensure_ok : ∀ s w w' b, Ensure P s w = (w', Ok b) →
    pv_state w' = <[Ref s := pv_norm s]> (pv_state w);
  pv_ensure_err : ∀ s w w' e, Ensure P s w = (w', Err e) →
    pv_state w' = pv_state w ∨ pv_state w' = <[Ref s := pv_norm s]> (pv_state w);
  pv_delete_ok : ∀ r w w' b, Delete P r w = (w', Ok b) →
    pv_state w' = delete r (pv_state w);
  pv_delete_err : ∀ r w w' e, Delete P r w = (w', Err e) →
    pv_state w' = pv_state w ∨ pv_state w' = delete r (pv_state w);
}.

Section provider_facts.
Context {W E} (P : Provider W E) `{!ProviderSpec P}.

(** Whatever an operation returns, it touches the entry of its own Service only. *)
Lemma ensure_frame s w w' res r :
  Ensure P s w = (w', res) → r ≠ Ref s → pv_state w' !! r = pv_state w !! r.
Proof.
  intros H Hr. destruct res.
  - by rewrite (pv_ensure_ok _ _ _ _ H), lookup_insert_ne.
  - destruct (pv_ensure_err _ _ _ _ H) as [->| ->]; [done|]. by rewrite lookup_insert_ne.
Qed.

Lemma delete_frame r' w w' res r :
  Delete P r' w = (w', res) → r ≠ r' → pv_state w' !! r = pv_state w !! r.
Proof.
  intros H Hr. destruct res.
  - by rewrite (pv_delete_ok _ _ _ _ H), lookup_delete_ne.
  - destruct (pv_delete_err _ _ _ _ H) as [->| ->]; [done|]. by rewrite lookup_delete_ne.
Qed.
End provider_facts.

(** ** mock_provider.go *)
Module Mock.

Definition NewMockProvider : gmap ServiceRef Service := ∅.

Definition ensure (service : Service) (services : gmap ServiceRef Service) :
    gmap ServiceRef Service * result Empty_set bool :=
  let keep := match services !! Ref service with
              | Some current => ServiceEqual current service
              | None => false
              end in
  if keep then (services, Ok false)
  else (<[Ref service := DeepCopy service]> services, Ok true).

Definition delete_ref (ref : ServiceRef) (services : gmap ServiceRef Service) :
    gmap ServiceRef Service * result Empty_set bool :=
  match services !! ref with
  | None => (services, Ok false)
  | Some _ => (delete ref services, Ok true)
  end.

Definition Get (ref : ServiceRef) (services : gmap ServiceRef Service) : option Service :=
  DeepCopy <$> services !! ref.

(** [sort.Slice] by namespace, then name *)
Definition ref_less : Service → Service → bool :=
  lex svcNamespace String.ltb (by_key svcName String.ltb).

Definition List `{GoSort} (services : gmap ServiceRef Service) : list Service :=
  sort_slice ref_less (DeepCopy ∘ snd <$> map_to_list services).

Definition Snapshot (services : gmap ServiceRef Service) : gmap ServiceRef Service :=
  DeepCopy <$> services.

Definition provider : Provider (gmap ServiceRef Service) Empty_set :=
  MkProvider ensure delete_ref.

(** The mock provider meets the contract; moreover its [changed] result is
    exact: it is [true] precisely when the stored state changed. *)
Lemma ensure_result s m :
  ensure s m = (<[Ref s := s]> m, Ok (bool_decide (m !! Ref s ≠ Some s))).
Proof.
  unfold ensure. rewrite DeepCopy_id. destruct (m !! Ref s) as [c|] eqn:Hc.
  - destruct (ServiceEqual c s) eqn:He.
    + apply ServiceEqual_spec in He as ->. rewrite bool_decide_eq_false_2 by tauto.
      by rewrite insert_id.
    + rewrite bool_decide_eq_true_2; [done|]. intros [= ->].
      by rewrite (proj2 (ServiceEqual_spec s s) eq_refl) in He.
  - by rewrite bool_decide_eq_true_2.
Qed.

Lemma delete_result r m :
  delete_ref r m = (delete r m, Ok (bool_decide (m !! r ≠ None))).
Proof.
  unfold delete_ref. destruct (m !! r) as [c|] eqn:Hc.
  - by rewrite bool_decide_eq_true_2.
  - rewrite bool_decide_eq_false_2 by tauto. by rewrite delete_id.
Qed.

#[export] Instance mock_spec : ProviderSpec provider.
Proof.
  refine {| pv_state := id; pv_norm := id |}; simpl.
  - done.
  - intros s w w' b. rewrite ensure_result. by intros [= <- _].
  - intros s w w' [].
  - intros r w w' b. rewrite delete_result. by intros [= <- _].
  - intros r w w' [].
Defined.
End Mock.
