(* ===== verification/IPAM.v ===== *)
(** * IP address management (internal/ipam)

    [ParsePool] reads the configured pool; an [Allocator] chooses the external
    address of one Service given all Services of the cluster. *)
From S2P Require Import Prelude GoStrings GoSort NetIP Kube.
Local Open Scope Z_scope.

(** ** pool.go *)
Inductive PoolError : Type :=
| ErrNotIP (index : Z) (candidate : string)
| ErrNotIPv4 (index : Z) (candidate : string)
| ErrDuplicate (candidate : string)
| ErrPoolNoAddress.

(** The loop of [ParsePool]: [seen] is the set of addresses already in the pool. *)
Fixpoint ParsePool_loop (index : Z) (parts : list string) (seen : gset Addr)
    (pool : list Addr) : result PoolError (list Addr) :=
  match parts with
  | [] => Ok pool
  | part :: parts =>
    let candidate := TrimSpace part in
    if bool_decide (candidate = "") then ParsePool_loop (index + 1) parts seen pool else
    match ParseAddr candidate with
    | None => Err (ErrNotIP (index + 1) candidate)
    | Some addr =>
      if negb (Is4 addr) then Err (ErrNotIPv4 (index + 1) candidate) else
      if bool_decide (addr ∈ seen) then Err (ErrDuplicate candidate) else
      ParsePool_loop (index + 1) parts ({[addr]} ∪ seen) (pool ++ [addr])
    end
  end.

Definition ParsePool (raw : string) : result PoolError (list Addr) :=
  pool ← ParsePool_loop 0 (Split raw ","%char) ∅ [];
  if bool_decide (pool = []) then Err ErrPoolNoAddress else Ok pool.

Definition Contains (pool : list Addr) (addr : Addr) : bool := bool_decide (addr ∈ pool).

(** ** allocator.go *)
Inductive AllocError : Type :=
| ErrServiceNil
| ErrPoolEmpty
| ErrNoFreeIP.

Record Allocation : Type := MkAllocation { allocIP : Addr; allocReused : bool }.

(** [ServiceMatcher] is a function that may be nil. *)
Record Allocator : Type := MkAllocator {
  alPool : list Addr;
  alMatches : option (KService → bool);
}.

Definition NewAllocator (pool : list Addr) (matches : option (KService → bool)) : Allocator :=
  MkAllocator pool matches.

Definition serviceKey (service : option KService) : NamespacedName :=
  match service with
  | None => MkNN "" ""
  | Some s => MkNN (ksNamespace s) (ksName s)
  end.

(** The address an ingress entry publishes, when it is an IPv4 address *)
Definition ingressIPv4 (ing : LoadBalancerIngress) : option Addr :=
  if bool_decide (ingIP ing = "") then None else
  match ParseAddr (ingIP ing) with
  | Some addr => if Is4 addr then Some addr else None
  | None => None
  end.

Definition collect_ingress (a : Allocator) (key : NamespacedName)
    (used : gmap Addr NamespacedName) (ing : LoadBalancerIngress) : gmap Addr NamespacedName :=
  match ingressIPv4 ing with
  | Some addr => if Contains (alPool a) addr then <[addr := key]> used else used
  | None => used
  end.

(** [a.matches != nil && !a.matches(service)] skips the Service. *)
Definition allocMatches (a : Allocator) (service : KService) : bool :=
  match alMatches a with Some m => m service | None => true end.

Definition collect_service (a : Allocator) (current : option KService)
    (used : gmap Addr NamespacedName) (service : KService) : gmap Addr NamespacedName :=
  if bool_decide (ksDeletionTimestamp service ≠ None) then used else
  if bool_decide (serviceKey (Some service) = serviceKey current) then used else
  if negb (allocMatches a service) then used else
  foldl (collect_ingress a (serviceKey (Some service))) used (ksIngress service).

Definition collectUsedIPs (a : Allocator) (current : option KService)
    (services : list KService) : gmap Addr NamespacedName :=
  foldl (collect_service a current) ∅ services.

Definition assignedIPFromStatus (service : option KService) : option Addr :=
  match service with
  | None => None
  | Some s => head (omap ingressIPv4 (ksIngress s))
  end.

Definition Allocate (a : Allocator) (current : option KService) (services : list KService) :
    result AllocError Allocation :=
  match current with
  | None => Err ErrServiceNil
  | Some _ =>
    if bool_decide (alPool a = []) then Err ErrPoolEmpty else
    let usedIPs := collectUsedIPs a current services in
    let fresh :=
      match List.find (λ c, bool_decide (usedIPs !! c = None)) (alPool a) with
      | Some candidate => Ok (MkAllocation candidate false)
      | None => Err ErrNoFreeIP
      end in
    match assignedIPFromStatus current with
    | Some currentIP =>
      if Contains (alPool a) currentIP && bool_decide (usedIPs !! currentIP = None)
      then Ok (MkAllocation currentIP true)
      else fresh
    | None => fresh
    end
  end.

(** ** What the pool parser accepts *)

(** The candidates of a raw pool: its comma-separated parts, trimmed, without
    the blank ones *)
Definition pool_candidates (raw : string) : list string :=
  filter (λ c, c ≠ "") (TrimSpace <$> Split raw ","%char).

Definition ipv4_wf (a : Addr) : Prop := Is4 a = true ∧ addr_wf a.

Definition pool_spec (old new : list Addr) (parts : list string) : Prop :=
  NoDup new ∧ (∀ a, a ∈ new → a ∉ old) ∧ Forall ipv4_wf new ∧
  AddrString <$> new = filter (λ c, c ≠ "") (TrimSpace <$> parts).

Lemma ParsePool_loop_sound index parts pool res :
  ParsePool_loop index parts (list_to_set pool) pool = Ok res →
  ∃ new, res = pool ++ new ∧ pool_spec pool new parts.
Proof.
  revert index pool. induction parts as [|part parts IH]; intros index pool; simpl.
  { intros [= <-]. exists []. rewrite app_nil_r. unfold pool_spec.
    split_and!; [done|constructor|set_solver|constructor|done]. }
  case_bool_decide as Hc.
  { intros (new & -> & Hnew)%IH. exists new. split; [done|]. unfold pool_spec.
    cbn [fmap list_fmap]. by rewrite filter_cons_False by auto. }
  destruct (ParseAddr (TrimSpace part)) as [addr|] eqn:Hp; [|done].
  destruct (Is4 addr) eqn:H4; simpl; [|done].
  case_bool_decide as Hseen; [done|]. rewrite elem_of_list_to_set in Hseen.
  replace ({[addr]} ∪ list_to_set pool) with (list_to_set (pool ++ [addr]) : gset Addr) by set_solver.
  intros (new & -> & Hnd & Hdis & Hwf & E)%IH.
  destruct (AddrString_ParseAddr _ _ Hp H4) as [Hs Haddr].
  exists (addr :: new). rewrite <- app_assoc. split; [done|]. unfold pool_spec. split_and!.
  - constructor; [|done]. intros Hin%Hdis. set_solver.
  - intros a [->|Ha]%elem_of_cons; [done|]. specialize (Hdis a Ha). set_solver.
  - by constructor.
  - cbn [fmap list_fmap]. rewrite filter_cons_True by done. by rewrite <- E, Hs.
Qed.

Lemma ParsePool_loop_complete index parts pool new :
  pool_spec pool new parts →
  ParsePool_loop index parts (list_to_set pool) pool = Ok (pool ++ new).
Proof.
  unfold pool_spec. revert index pool new.
  induction parts as [|part parts IH]; intros index pool new (Hnd & Hdis & Hwf & E); simpl.
  { destruct new; [|done]. by rewrite app_nil_r. }
  cbn [fmap list_fmap] in E. case_bool_decide as Hc.
  { rewrite filter_cons_False in E by auto. by apply IH. }
  rewrite filter_cons_True in E by done. destruct new as [|n new]; [done|].
  cbn [fmap list_fmap] in E. injection E as E1 E2.
  apply Forall_cons in Hwf as [[Hn4 Hnw] Hwf]. apply NoDup_cons in Hnd as [Hn Hnd].
  rewrite <- E1, ParseAddr_AddrString by done. rewrite Hn4. simpl.
  rewrite bool_decide_eq_false_2 by (rewrite elem_of_list_to_set; apply Hdis; set_solver).
  replace ({[n]} ∪ list_to_set pool) with (list_to_set (pool ++ [n]) : gset Addr) by set_solver.
  rewrite (IH _ (pool ++ [n]) new); [by rewrite <- app_assoc|].
  split_and!; [done| |done|done]. intros a Ha. specialize (Hdis a). set_solver.
Qed.

(** [ParsePool] succeeds exactly on the raw strings whose non-blank parts
    are the printed forms of one or more distinct IPv4 addresses, and then it
    returns those addresses in the order they are written. *)
Theorem ParsePool_correct raw pool :
  ParsePool raw = Ok pool ↔
  pool ≠ [] ∧ NoDup pool ∧ Forall ipv4_wf pool ∧ AddrString <$> pool = pool_candidates raw.
Proof.
  unfold ParsePool. change (∅ : gset Addr) with (list_to_set [] : gset Addr). split.
  - destruct (ParsePool_loop _ _ _ _) as [p|e] eqn:Hl; cbn; [|done].
    apply ParsePool_loop_sound in Hl as (new & -> & Hnd & _ & Hwf & E). simpl.
    case_bool_decide; [done|]. by intros [= <-].
  - intros (Hne & Hnd & Hwf & E). rewrite (ParsePool_loop_complete _ _ [] pool).
    + cbn. by rewrite bool_decide_eq_false_2.
    + split_and!; [done|set_solver|done|done].
Qed.

(** ** What the allocator promises *)

(** A Service publishes an address when one of its status ingress entries is that
    IPv4 address. *)
Definition publishes (s : KService) (addr : Addr) : Prop :=
  ∃ ing, ing ∈ ksIngress s ∧ ingressIPv4 ing = Some addr.

(** The Services an allocation has to respect: live, selected by the matcher, and
    not the Service being allocated for *)
Definition competes (a : Allocator) (current s : KService) : Prop :=
  ksDeletionTimestamp s = None ∧
  serviceKey (Some s) ≠ serviceKey (Some current) ∧
  allocMatches a s = true.

Definition in_use (a : Allocator) (current : KService) (services : list KService) (addr : Addr) : Prop :=
  ∃ s, s ∈ services ∧ competes a current s ∧ publishes s addr.

Lemma ingressIPv4_wf ing addr : ingressIPv4 ing = Some addr → ipv4_wf addr ∧ ingIP ing = AddrString addr.
Proof.
  unfold ingressIPv4. case_bool_decide; [done|].
  destruct (ParseAddr (ingIP ing)) as [b|] eqn:Hp; [|done].
  destruct (Is4 b) eqn:H4; [|done]. intros [= ->].
  destruct (AddrString_ParseAddr _ _ Hp H4). by repeat split.
Qed.

Lemma ingressIPv4_string addr host : ipv4_wf addr → ingressIPv4 (MkIngress (AddrString addr) host) = Some addr.
Proof.
  intros [H4 Hwf]. unfold ingressIPv4. cbn [ingIP].
  rewrite bool_decide_eq_false_2 by (by apply AddrString_nonempty).
  by rewrite ParseAddr_AddrString, H4 by done.
Qed.

Lemma collect_ingress_spec a key ings used addr :
  is_Some (foldl (collect_ingress a key) used ings !! addr) ↔
  is_Some (used !! addr) ∨ (addr ∈ alPool a ∧ ∃ ing, ing ∈ ings ∧ ingressIPv4 ing = Some addr).
Proof.
  revert used. induction ings as [|ing ings IH]; intros used; simpl; [set_solver|].
  rewrite IH. unfold collect_ingress, Contains. destruct (ingressIPv4 ing) as [b|] eqn:Hb.
  - case_bool_decide as Hin.
    + rewrite lookup_insert_is_Some'. set_solver.
    + set_solver.
  - set_solver.
Qed.

Lemma collect_service_spec a cur s used addr :
  is_Some (collect_service a (Some cur) used s !! addr) ↔
  is_Some (used !! addr) ∨ (addr ∈ alPool a ∧ competes a cur s ∧ publishes s addr).
Proof.
  unfold collect_service, competes, publishes.
  case_bool_decide as Hd; [tauto|]. case_bool_decide as Hk; [tauto|].
  assert (ksDeletionTimestamp s = None) as Hnone.
  { destruct (ksDeletionTimestamp s); [by destruct Hd|done]. }
  destruct (allocMatches a s) eqn:Hm; cbn [negb]; [|intuition congruence].
  rewrite collect_ingress_spec. tauto.
Qed.

(** [collectUsedIPs] records exactly the pool addresses in use by competitors. *)
Lemma collectUsedIPs_spec a cur services addr :
  is_Some (collectUsedIPs a (Some cur) services !! addr) ↔
  addr ∈ alPool a ∧ in_use a cur services addr.
Proof.
  unfold collectUsedIPs, in_use.
  assert (∀ used, is_Some (foldl (collect_service a (Some cur)) used services !! addr) ↔
    is_Some (used !! addr) ∨
    (addr ∈ alPool a ∧ ∃ s, s ∈ services ∧ competes a cur s ∧ publishes s addr)) as H.
  { induction services as [|s services IH]; intros used; simpl; [set_solver|].
    rewrite IH, collect_service_spec. setoid_rewrite elem_of_cons. split.
    - intros [[?|(?&?&?)]|(?&s'&?&?&?)]; eauto 10.
    - intros [?|(?&s'&[->|?]&?&?)]; eauto 10. }
  rewrite H, lookup_empty, is_Some_alt. tauto.
Qed.

Lemma used_None_spec a cur services addr :
  addr ∈ alPool a →
  collectUsedIPs a (Some cur) services !! addr = None ↔ ¬ in_use a cur services addr.
Proof.
  intros Hin. rewrite eq_None_not_Some, collectUsedIPs_spec. tauto.
Qed.

Definition free_candidate (a : Allocator) (cur : KService) (services : list KService) (c : Addr) : bool :=
  bool_decide (collectUsedIPs a (Some cur) services !! c = None).

(** The two ways an allocation succeeds: the published address is kept, or the
    first free candidate is taken. *)
Lemma Allocate_cases a cur services alloc :
  Allocate a (Some cur) services = Ok alloc →
  (allocReused alloc = true ∧ assignedIPFromStatus (Some cur) = Some (allocIP alloc) ∧
   allocIP alloc ∈ alPool a ∧ ¬ in_use a cur services (allocIP alloc)) ∨
  (allocReused alloc = false ∧
   List.find (free_candidate a cur services) (alPool a) = Some (allocIP alloc)).
Proof.
  unfold Allocate. case_bool_decide; [done|]. fold (free_candidate a cur services).
  destruct (assignedIPFromStatus _) as [ip|].
  - destruct (Contains _ ip && _) eqn:Hr.
    + intros [= <-]. left. bool_props. unfold Contains in *. bool_props.
      rewrite used_None_spec in * by done. done.
    + destruct (List.find _ _); [|done]. intros [= <-]. by right.
  - destruct (List.find _ _); [|done]. intros [= <-]. by right.
Qed.

Lemma Allocate_free a cur services alloc :
  Allocate a (Some cur) services = Ok alloc →
  allocIP alloc ∈ alPool a ∧ ¬ in_use a cur services (allocIP alloc).
Proof.
  intros [(_ & _ & Hin & Hfree)|[_ Hf]]%Allocate_cases; [done|].
  apply find_first_spec in Hf as (l1 & l2 & Hp & Hc & _). unfold free_candidate in Hc. bool_props.
  assert (allocIP alloc ∈ alPool a) by (rewrite Hp; set_solver).
  by rewrite used_None_spec in Hc by done.
Qed.

(** C25. A successful allocation is an address of the pool that no other live
    managed Service publishes in its status. *)
Theorem Allocate_sound a cur services alloc :
  Allocate a (Some cur) services = Ok alloc →
  allocIP alloc ∈ alPool a ∧ ¬ in_use a cur services (allocIP alloc).
Proof. apply Allocate_free. Qed.

Lemma Allocate_keeps a cur services ip :
  assignedIPFromStatus (Some cur) = Some ip → ip ∈ alPool a → ¬ in_use a cur services ip →
  Allocate a (Some cur) services = Ok (MkAllocation ip true).
Proof.
  intros Hip Hin Hfree. unfold Allocate.
  rewrite bool_decide_eq_false_2 by (by intros E; rewrite E in Hin; apply not_elem_of_nil in Hin).
  rewrite Hip. unfold Contains.
  rewrite !bool_decide_eq_true_2; [done|by apply used_None_spec|done].
Qed.

(** Allocation is stable: a Service keeps the address its status already
    publishes whenever that address is in the pool and not in use by another. *)
Theorem Allocate_stable a cur services ip :
  assignedIPFromStatus (Some cur) = Some ip → ip ∈ alPool a → ¬ in_use a cur services ip →
  Allocate a (Some cur) services = Ok (MkAllocation ip true).
Proof. apply Allocate_keeps. Qed.

Lemma Allocate_errors a cur services e :
  Allocate a (Some cur) services = Err e → (e = ErrPoolEmpty ∧ alPool a = []) ∨ e = ErrNoFreeIP.
Proof.
  unfold Allocate. case_bool_decide; [intros [= <-]; by left|]. intros He. right. revert He.
  destruct (List.find _ _), (assignedIPFromStatus _); try destruct (_ && _); by intros [= <-].
Qed.

(** A Service that cannot keep an address gets the first free one of the pool. *)
Lemma Allocate_first_free a cur services alloc :
  Allocate a (Some cur) services = Ok alloc → allocReused alloc = false →
  ∃ l1 l2, alPool a = l1 ++ allocIP alloc :: l2 ∧ ∀ c, c ∈ l1 → in_use a cur services c.
Proof.
  intros [(? & _)|[_ Hf]]%Allocate_cases; [congruence|]. intros _.
  apply find_first_spec in Hf as (l1 & l2 & Hp & _ & Hl1). exists l1, l2. split; [done|].
  intros d Hd. specialize (Hl1 d Hd). unfold free_candidate in Hl1. bool_props.
  apply not_eq_None_Some in Hl1. by apply collectUsedIPs_spec in Hl1 as [_ ?].
Qed.

(** C26. [ErrNoFreeIP] is returned exactly when the pool is exhausted: it is not
    empty and every one of its addresses is in use by another live managed
    Service. *)
Theorem Allocate_exhausted a cur services :
  Allocate a (Some cur) services = Err ErrNoFreeIP ↔
  alPool a ≠ [] ∧ ∀ ip, ip ∈ alPool a → in_use a cur services ip.
Proof.
  unfold Allocate. case_bool_decide as Hp; [naive_solver|].
  assert (List.find (λ c, bool_decide (collectUsedIPs a (Some cur) services !! c = None)) (alPool a)
    = None ↔ ∀ ip, ip ∈ alPool a → in_use a cur services ip) as Hfind.
  { rewrite find_none_spec. split; intros H ip Hin; specialize (H ip Hin).
    - bool_props. apply not_eq_None_Some, collectUsedIPs_spec in H. tauto.
    - apply bool_decide_eq_false. intros ?%used_None_spec; done. }
  split.
  - destruct (List.find _ _) as [c|];
      destruct (assignedIPFromStatus _) as [ip|]; try destruct (Contains _ ip && _); try done;
      intros _; split; [done|by apply Hfind|done|by apply Hfind].
  - intros [_ Hall]. rewrite (proj2 Hfind Hall).
    destruct (assignedIPFromStatus _) as [ip|]; [|done].
    destruct (Contains _ ip && _) eqn:Hr; [|done]. bool_props. unfold Contains in *. bool_props.
    exfalso. eapply used_None_spec; eauto.
Qed.
