(* ===== verification/Status.v ===== *)
(** * Service status (internal/status)

    Building, comparing and writing the load-balancer ingress of a Service. *)
From S2P Require Import Prelude GoStrings GoSort NetIP Kube Client IPAM.
Local Open Scope Z_scope.

Definition DesiredLoadBalancerIngress (assignedIP : string) : list LoadBalancerIngress :=
  [MkIngress assignedIP ""].

(** The first ingress entry with a non-blank IP, trimmed *)
Fixpoint firstIngressIP (ingresses : list LoadBalancerIngress) : option string :=
  match ingresses with
  | [] => None
  | ingress :: rest =>
    let ip := TrimSpace (ingIP ingress) in
    if bool_decide (ip ≠ "") then Some ip else firstIngressIP rest
  end.

Definition LoadBalancerIngressEqual (current desired : list LoadBalancerIngress) : bool :=
  match firstIngressIP desired with
  | None => bool_decide (length current = 0%nat)
  | Some desiredIP =>
    match current with
    | [c] => bool_decide (TrimSpace (ingIP c) = desiredIP)
    | _ => false
    end
  end.

Definition NeedsLoadBalancerIngressUpdate (service : option KService)
    (desired : list LoadBalancerIngress) : bool :=
  match service with
  | None => true
  | Some s => negb (LoadBalancerIngressEqual (ksIngress s) desired)
  end.

Definition HasLoadBalancerIngressIPInPool (service : option KService) (pool : list Addr) : bool :=
  match service with
  | None => false
  | Some s =>
    existsb (λ ingress,
      let ip := TrimSpace (ingIP ingress) in
      if bool_decide (ip = "") then false else
      match ParseAddr ip with
      | Some addr => Is4 addr && bool_decide (addr ∈ pool)
      | None => false
      end) (ksIngress s)
  end.

(** Errors of this package: a nil Service, or the client's error *)
Inductive StatusError (E : Type) : Type :=
| StatusServiceNil
| StatusUpdateFailed (e : E).
Global Arguments StatusServiceNil {E}.
Global Arguments StatusUpdateFailed {E} _.

Section update.
Context {W E : Type} (C : Client W E).

(** Writes the status only when the desired ingress differs.  The Service is an
    in-out argument: on success its status becomes the one the server stored. *)
Definition UpdateServiceLoadBalancerStatus (service : option KService)
    (desired : list LoadBalancerIngress) (w : W) :
    W * option KService * result (StatusError E) bool :=
  match service with
  | None => (w, None, Err StatusServiceNil)
  | Some s =>
    if negb (NeedsLoadBalancerIngressUpdate (Some s) desired) then (w, Some s, Ok false) else
    let updated := set_ingress s desired in
    match cl_status_update C updated w with
    | (w, Err e) => (w, Some s, Err (StatusUpdateFailed e))
    | (w, Ok updated) => (w, Some (set_ingress s (ksIngress updated)), Ok true)
    end
  end.
End update.

(** ** Facts *)
Lemma firstIngressIP_desired ip :
  TrimSpace ip = ip → ip ≠ "" → firstIngressIP (DesiredLoadBalancerIngress ip) = Some ip.
Proof. intros Ht Hne. simpl. rewrite Ht. by rewrite bool_decide_eq_true_2. Qed.

(** The comparison of the desired status with the current one: no update is
    needed exactly when the current ingress is one entry with that address. *)
Lemma ingress_equal_desired current addr :
  ipv4_wf addr →
  LoadBalancerIngressEqual current (DesiredLoadBalancerIngress (AddrString addr)) = true ↔
  ∃ c, current = [c] ∧ TrimSpace (ingIP c) = AddrString addr.
Proof.
  intros [H4 Hwf]. unfold LoadBalancerIngressEqual.
  rewrite firstIngressIP_desired by (auto using TrimSpace_AddrString, AddrString_nonempty).
  destruct current as [|c [|d l]]; [naive_solver| |naive_solver].
  rewrite bool_decide_eq_true. naive_solver.
Qed.

Lemma ingress_equal_nil current : LoadBalancerIngressEqual current [] = true ↔ current = [].
Proof.
  unfold LoadBalancerIngressEqual. cbn. rewrite bool_decide_eq_true.
  by destruct current.
Qed.

Section update_facts.
Context {W E : Type} (C : Client W E) `{!ClientSpec C}.

(** Publishing an allocated address is correct on both branches: when
    [UpdateServiceLoadBalancerStatus] succeeds, the in-memory Service has exactly
    one ingress entry and it reads as the address; the stored object is untouched
    if no write was needed, and otherwise has exactly the desired ingress. *)
Theorem update_status_correct s addr w w' s' b stored :
  ipv4_wf addr → cs_services w !! objectKey s = Some stored →
  UpdateServiceLoadBalancerStatus C (Some s) (DesiredLoadBalancerIngress (AddrString addr)) w
    = (w', s', Ok b) →
  ∃ s1 c, s' = Some s1 ∧ ksIngress s1 = [c] ∧ TrimSpace (ingIP c) = AddrString addr ∧
    cs_services w' =
      if b then <[objectKey s := set_ingress stored (DesiredLoadBalancerIngress (AddrString addr))]>
                  (cs_services w)
      else cs_services w.
Proof.
  intros Hwf Hst. unfold UpdateServiceLoadBalancerStatus, NeedsLoadBalancerIngressUpdate.
  rewrite negb_involutive. destruct (LoadBalancerIngressEqual _ _) eqn:Heq.
  - apply ingress_equal_desired in Heq as (c & Hc & Hip); [|done].
    intros [= <- <- <-]. eauto 10.
  - destruct (cl_status_update C _ w) as [w1 [u|e]] eqn:Hup; [|done]. intros [= <- <- <-].
    apply cs_status_ok in Hup as (st & Hst' & -> & Hw). unfold objectKey in *. simpl in *.
    assert (st = stored) as -> by congruence.
    eexists _, (MkIngress (AddrString addr) ""). split_and!; [done..| |done].
    by apply TrimSpace_AddrString; destruct Hwf.
Qed.

(** Clearing the status of a Service that has none writes nothing. *)
Lemma update_status_clear_noop s w :
  ksIngress s = [] → UpdateServiceLoadBalancerStatus C (Some s) [] w = (w, Some s, Ok false).
Proof.
  intros H. unfold UpdateServiceLoadBalancerStatus, NeedsLoadBalancerIngressUpdate.
  by rewrite H.
Qed.

(** Whatever the outcome, the cluster is unchanged or has the desired ingress on
    the one object addressed. *)
Lemma update_status_frame s desired w w' s' res :
  UpdateServiceLoadBalancerStatus C (Some s) desired w = (w', s', res) →
  cs_services w' = cs_services w ∨
  ∃ stored, cs_services w !! objectKey s = Some stored ∧
    cs_services w' = <[objectKey s := set_ingress stored desired]> (cs_services w).
Proof.
  unfold UpdateServiceLoadBalancerStatus. destruct (negb _); [intros [= <- _ _]; by left|].
  destruct (cl_status_update C _ w) as [w1 [u|e]] eqn:Hup; intros [= <- _ _].
  - apply cs_status_ok in Hup as (st & ? & -> & ?). right. eauto.
  - apply cs_status_err in Hup as [?|(st & ? & ?)]; [by left|right; eauto].
Qed.
End update_facts.

(** Ownership of a published address: [HasLoadBalancerIngressIPInPool] holds exactly
    when some trimmed ingress entry is the printed form of a pool address. *)
Lemma HasIngressInPool_spec s pool :
  Forall ipv4_wf pool →
  HasLoadBalancerIngressIPInPool (Some s) pool = true ↔
  ∃ ing addr, ing ∈ ksIngress s ∧ addr ∈ pool ∧ TrimSpace (ingIP ing) = AddrString addr.
Proof.
  intros Hpool. unfold HasLoadBalancerIngressIPInPool. rewrite existsb_spec.
  rewrite Forall_forall in Hpool. split.
  - intros (ing & Hin & H). case_bool_decide; [done|].
    destruct (ParseAddr _) as [addr|] eqn:Hp; [|done]. bool_props.
    exists ing, addr. destruct (AddrString_ParseAddr _ _ Hp) as [? _]; done.
  - intros (ing & addr & Hin & Hpl & E). exists ing. split; [done|].
    destruct (Hpool addr Hpl) as [H4 Hwf]. rewrite E.
    rewrite bool_decide_eq_false_2 by (by apply AddrString_nonempty).
    rewrite ParseAddr_AddrString, H4 by done. simpl. by apply bool_decide_eq_true.
Qed.
