(* ===== verification/Backends.v ===== *)
(** * Backend discovery (internal/backends)

    [Discover] turns the EndpointSlices of a Service into one sorted list of
    distinct IPv4 backends per Service port. *)
From S2P Require Import Prelude GoStrings GoSort NetIP Kube Provider IPAM.
Local Open Scope Z_scope.

Record ServicePortBackends : Type := MkSPB {
  spbName : string;
  spbProtocol : string;
  spbPort : Z;
  spbTargetPort : IntOrString;
  spbBackends : list BackendEndpoint;
}.

Definition normalizeServiceProtocol (protocol : string) : string :=
  if bool_decide (protocol = "") then ProtocolTCP else protocol.

Definition normalizeEndpointSliceProtocol (protocol : option string) : string :=
  match protocol with
  | None => ProtocolTCP
  | Some p => if bool_decide (p = "") then ProtocolTCP else p
  end.

Definition valueOrEmpty (value : option string) : string :=
  match value with None => "" | Some v => TrimSpace v end.

(** The name and number an endpoint port must have, the name taking precedence *)
Definition servicePortTargetPort (servicePort : KServicePort) : string * Z :=
  let tp := kpTargetPort servicePort in
  match iosType tp with
  | IntstrString =>
    if bool_decide (TrimSpace (iosStrVal tp) ≠ "") then (TrimSpace (iosStrVal tp), 0)
    else ("", kpPort servicePort)
  | IntstrInt =>
    if 0 <? iosIntVal tp then ("", iosIntVal tp) else ("", kpPort servicePort)
  end.

Definition endpointReady (endpoint : Endpoint) : bool :=
  match endpReady endpoint with None => true | Some r => r end.

Definition normalizeIPv4Address (address : string) : option string :=
  match ParseAddr (TrimSpace address) with
  | Some a => if Is4 a then Some (AddrString a) else None
  | None => None
  end.

Definition int32ToString (value : Z) : string := itoa value.

Definition endpointSliceBelongsToService (service : option KService) (es : EndpointSlice) : bool :=
  match service with
  | None => false
  | Some s =>
    if bool_decide (esNamespace es ≠ ksNamespace s) then false
    else bool_decide (label es LabelServiceName = ksName s)
  end.

Definition endpointSlicePortMatchesServicePort (servicePort : KServicePort) (esp : EndpointPort) : bool :=
  match epPort esp with
  | None => false
  | Some port =>
    if port <=? 0 then false else
    if bool_decide (normalizeServiceProtocol (kpProtocol servicePort)
                    ≠ normalizeEndpointSliceProtocol (epProtocol esp)) then false else
    let endpointPortName := TrimSpace (valueOrEmpty (epName esp)) in
    if bool_decide (kpName servicePort ≠ "") && bool_decide (endpointPortName = kpName servicePort)
    then true else
    let '(targetPortName, targetPortNumber) := servicePortTargetPort servicePort in
    if bool_decide (targetPortName ≠ "") then bool_decide (endpointPortName = targetPortName)
    else port =? targetPortNumber
  end.

(** ** The four nested loops of [Discover]; the state is the [seen] set of keys and
    the backends collected so far. *)
Definition discovery : Type := gset string * list BackendEndpoint.

Definition backendKey (b : BackendEndpoint) : string :=
  beAddress b +:+ ":" +:+ int32ToString (bePort b).

Definition add_address (port : Z) (st : discovery) (address : string) : discovery :=
  match normalizeIPv4Address address with
  | None => st
  | Some normalizedAddress =>
    let backend := MkBackend normalizedAddress port in
    let key := backendKey backend in
    if bool_decide (key ∈ st.1) then st else ({[key]} ∪ st.1, st.2 ++ [backend])
  end.

Definition add_endpoint (port : Z) (st : discovery) (endpoint : Endpoint) : discovery :=
  if negb (endpointReady endpoint) then st
  else foldl (add_address port) st (endpAddresses endpoint).

Definition add_port (servicePort : KServicePort) (endpoints : list Endpoint)
    (st : discovery) (esp : EndpointPort) : discovery :=
  if negb (endpointSlicePortMatchesServicePort servicePort esp) then st else
  match epPort esp with
  | Some port => foldl (add_endpoint port) st endpoints
  | None => st
  end.

Definition add_slice (service : KService) (servicePort : KServicePort)
    (st : discovery) (es : EndpointSlice) : discovery :=
  if negb (endpointSliceBelongsToService (Some service) es) then st
  else foldl (add_port servicePort (esEndpoints es)) st (esPorts es).

(** The comparison of the final [sort.Slice]: by address, then by port *)
Definition backend_less : BackendEndpoint → BackendEndpoint → bool :=
  lex beAddress String.ltb (by_key bePort Z.ltb).

Section discover.
Context `{GoSort}.

Definition discover_port (service : KService) (endpointSlices : list EndpointSlice)
    (servicePort : KServicePort) : ServicePortBackends :=
  let '(_, found) := foldl (add_slice service servicePort) (∅, []) endpointSlices in
  MkSPB (kpName servicePort) (normalizeServiceProtocol (kpProtocol servicePort))
    (kpPort servicePort) (kpTargetPort servicePort) (sort_slice backend_less found).

Definition Discover (service : option KService) (endpointSlices : list EndpointSlice) :
    list ServicePortBackends :=
  match service with
  | None => []
  | Some s => discover_port s endpointSlices <$> ksPorts s
  end.
End discover.

(** ** Specification *)

(** A backend is wanted for a Service port when a slice of the Service has a
    matching port and a ready endpoint with that address. *)
Definition wanted (service : KService) (servicePort : KServicePort)
    (slices : list EndpointSlice) (b : BackendEndpoint) : Prop :=
  ∃ es esp ep address,
    es ∈ slices ∧ endpointSliceBelongsToService (Some service) es = true ∧
    esp ∈ esPorts es ∧ endpointSlicePortMatchesServicePort servicePort esp = true ∧
    epPort esp = Some (bePort b) ∧
    ep ∈ esEndpoints es ∧ endpointReady ep = true ∧
    address ∈ endpAddresses ep ∧ normalizeIPv4Address address = Some (beAddress b).

Lemma normalizeIPv4Address_spec address out :
  normalizeIPv4Address address = Some out ↔
  out = TrimSpace address ∧ ∃ a, ipv4_wf a ∧ AddrString a = out.
Proof.
  unfold normalizeIPv4Address. split.
  - destruct (ParseAddr _) as [a|] eqn:Hp; [|done]. destruct (Is4 a) eqn:H4; [|done].
    intros [= <-]. destruct (AddrString_ParseAddr _ _ Hp H4) as [-> Hwf].
    split; [done|]. exists a. by apply AddrString_ParseAddr in Hp as [-> _].
  - intros (-> & a & [H4 Hwf] & E). rewrite <- E, ParseAddr_AddrString, H4 by done. by rewrite E.
Qed.

Lemma matches_port_pos sp esp :
  endpointSlicePortMatchesServicePort sp esp = true → ∃ p, epPort esp = Some p ∧ 0 < p.
Proof.
  unfold endpointSlicePortMatchesServicePort. destruct (epPort esp) as [p|]; [|done].
  destruct (p <=? 0) eqn:Hp; [done|]. intros _. exists p. split; [done|lia].
Qed.

(** *** The key separates backends *)
Lemma colon_not_in_address a : ipv4_wf a → ":"%char ∉ bytes (AddrString a).
Proof.
  intros [H4 _] [?|(d & E & Hd)]%AddrString_chars; [done| |done].
  apply (f_equal bz) in E. unfold digit in E. rewrite bz_zb in E by lia.
  change (bz ":"%char) with 58 in E. lia.
Qed.

Lemma app_sep_inj (l1 l2 k1 k2 : list ascii) c :
  c ∉ l1 → c ∉ l2 → l1 ++ c :: k1 = l2 ++ c :: k2 → l1 = l2 ∧ k1 = k2.
Proof.
  revert l2. induction l1 as [|x l1 IH]; intros [|y l2] H1 H2 E.
  - by injection E as ->.
  - injection E as -> E. by destruct H2; left.
  - injection E as -> E. by destruct H1; left.
  - injection E as -> E. apply IH in E as [-> ->]; [done|set_solver..].
Qed.

Lemma backendKey_inj b1 b2 a1 a2 :
  ipv4_wf a1 → ipv4_wf a2 → beAddress b1 = AddrString a1 → beAddress b2 = AddrString a2 →
  backendKey b1 = backendKey b2 → b1 = b2.
Proof.
  intros H1 H2 E1 E2 Hk. unfold backendKey, int32ToString, itoa in Hk.
  apply (f_equal bytes) in Hk. rewrite !bytes_app in Hk.
  apply app_sep_inj in Hk as [Ha Hp].
  - apply (inj bytes) in Ha, Hp. apply (inj pretty) in Hp.
    destruct b1, b2; simpl in *; congruence.
  - rewrite E1. by apply colon_not_in_address.
  - rewrite E2. by apply colon_not_in_address.
Qed.

(** *** The nested loops collect the wanted backends, each once *)
Definition add_backend (st : discovery) (b : BackendEndpoint) : discovery :=
  if bool_decide (backendKey b ∈ st.1) then st
  else ({[backendKey b]} ∪ st.1, st.2 ++ [b]).

Definition port_candidates (servicePort : KServicePort) (es : EndpointSlice) (esp : EndpointPort) :
    list BackendEndpoint :=
  if endpointSlicePortMatchesServicePort servicePort esp then
    match epPort esp with
    | Some p =>
      ep ← esEndpoints es;
      if endpointReady ep then (λ a, MkBackend a p) <$> omap normalizeIPv4Address (endpAddresses ep)
      else []
    | None => []
    end
  else [].

Definition candidates (service : KService) (servicePort : KServicePort) (slices : list EndpointSlice) :
    list BackendEndpoint :=
  es ← slices;
  if endpointSliceBelongsToService (Some service) es
  then mbind (port_candidates servicePort es) (esPorts es) else [].

Lemma foldl_flat {A B S : Type} (f : S → A → S) (g : S → B → S) (h : B → list A) l st :
  (∀ st b, g st b = foldl f st (h b)) → foldl g st l = foldl f st (mbind h l).
Proof.
  intros Hg. revert st. induction l as [|b l IH]; intros st; [done|].
  cbn. by rewrite foldl_app, IH, Hg.
Qed.

Lemma discover_fold service sp slices st :
  foldl (add_slice service sp) st slices = foldl add_backend st (candidates service sp slices).
Proof.
  apply foldl_flat. clear st. intros st es. unfold add_slice.
  destruct (endpointSliceBelongsToService _ es); [|done]. simpl.
  apply foldl_flat. clear st. intros st esp. unfold add_port, port_candidates.
  destruct (endpointSlicePortMatchesServicePort _ _); [|done]. simpl.
  destruct (epPort esp) as [p|]; [|done].
  apply foldl_flat. clear st. intros st ep. unfold add_endpoint.
  destruct (endpointReady ep); [|done]. simpl.
  revert st. induction (endpAddresses ep) as [|a l IH]; intros st; [done|].
  cbn [foldl omap list_omap]. unfold add_address at 2.
  destruct (normalizeIPv4Address a); [|by apply IH]. cbn. by rewrite IH.
Qed.

Lemma candidates_wanted service sp slices b :
  b ∈ candidates service sp slices ↔ wanted service sp slices b.
Proof.
  unfold candidates, wanted, port_candidates. rewrite list_elem_of_bind. split.
  - intros (es & Hb & Hes). destruct (endpointSliceBelongsToService _ es) eqn:Hbel; [|by apply not_elem_of_nil in Hb].
    apply list_elem_of_bind in Hb as (esp & Hb & Hesp).
    destruct (endpointSlicePortMatchesServicePort _ _) eqn:Hm; [|by apply not_elem_of_nil in Hb].
    destruct (epPort esp) as [p|] eqn:Hp; [|by apply not_elem_of_nil in Hb].
    apply list_elem_of_bind in Hb as (ep & Hb & Hep).
    destruct (endpointReady ep) eqn:Hr; [|by apply not_elem_of_nil in Hb].
    apply list_elem_of_fmap in Hb as (a & -> & Ha). apply list_elem_of_omap in Ha as (addr & Haddr & Hn).
    by exists es, esp, ep, addr.
  - intros (es & esp & ep & addr & Hes & Hbel & Hesp & Hm & Hp & Hep & Hr & Haddr & Hn).
    exists es. split; [|done]. rewrite Hbel. apply list_elem_of_bind. exists esp. split; [|done].
    rewrite Hm, Hp. apply list_elem_of_bind. exists ep. split; [|done]. rewrite Hr.
    apply list_elem_of_fmap. exists (beAddress b). split; [by destruct b|].
    apply list_elem_of_omap. eauto.
Qed.

Definition ipv4_backend (b : BackendEndpoint) : Prop := ∃ a, ipv4_wf a ∧ beAddress b = AddrString a.

Lemma wanted_ipv4 service sp slices b : wanted service sp slices b → ipv4_backend b ∧ 0 < bePort b.
Proof.
  intros (es & esp & ep & addr & _ & _ & _ & Hm & Hp & _ & _ & _ & Hn).
  apply normalizeIPv4Address_spec in Hn as (_ & a & Ha & E). split; [by exists a|].
  apply matches_port_pos in Hm as (p & Hp' & ?). congruence.
Qed.

(** Folding [add_backend] removes duplicates and keeps everything else. *)
Lemma add_backend_fold l st :
  (∀ b, b ∈ l → ipv4_backend b) → (∀ b, b ∈ st.2 → ipv4_backend b) →
  (∀ k, k ∈ st.1 ↔ ∃ b, b ∈ st.2 ∧ backendKey b = k) → NoDup st.2 →
  let st' := foldl add_backend st l in
  NoDup st'.2 ∧ ∀ b, b ∈ st'.2 ↔ b ∈ st.2 ∨ b ∈ l.
Proof.
  revert st. induction l as [|x l IH]; intros st Hl Hst Hk Hnd; simpl; [set_solver|].
  unfold add_backend at 2 4. case_bool_decide as Hin.
  - destruct (IH st) as [H1 H2]; [set_solver|done..|]. split; [done|].
    intros b. rewrite H2, elem_of_cons. split; [tauto|]. intros [?|[->|?]]; [tauto| |tauto].
    left. apply Hk in Hin as (b' & Hb' & E).
    destruct (Hst b' Hb') as (a1 & ? & ?), (Hl x) as (a2 & ? & ?); [set_solver|].
    by rewrite <- (backendKey_inj b' x a1 a2).
  - destruct (IH ({[backendKey x]} ∪ st.1, st.2 ++ [x])) as [H1 H2]; simpl.
    + set_solver.
    + intros b [?|Hb%list_elem_of_singleton]%elem_of_app; [auto|]. subst b. apply Hl. set_solver.
    + intros k. rewrite elem_of_union, elem_of_singleton, Hk. set_solver.
    + apply NoDup_app. split_and!; [done| |by apply NoDup_singleton].
      intros b Hb Hbx%list_elem_of_singleton. subst b. apply Hin, Hk. eauto.
    + split; [done|]. intros b. rewrite H2. set_solver.
Qed.

#[export] Instance backend_less_weak : StrictWeak backend_less.
Proof. unfold backend_less. apply _. Qed.

Lemma backend_less_tie a b : ngt backend_less a b → ngt backend_less b a → a = b.
Proof.
  unfold backend_less. intros H1 H2. destruct (lex_tie _ _ _ _ _ H1 H2) as (Ha & H3 & H4).
  pose proof (by_key_tie _ _ _ _ H3 H4). destruct a, b; simpl in *; congruence.
Qed.

Section discover_facts.
Context `{GoSort}.

Lemma discover_port_spec service sp slices :
  let r := discover_port service slices sp in
  spbName r = kpName sp ∧ spbPort r = kpPort sp ∧ spbTargetPort r = kpTargetPort sp ∧
  spbProtocol r = normalizeServiceProtocol (kpProtocol sp) ∧
  NoDup (spbBackends r) ∧ Sorted (ngt backend_less) (spbBackends r) ∧
  ∀ b, b ∈ spbBackends r ↔ wanted service sp slices b.
Proof.
  unfold discover_port. rewrite discover_fold.
  destruct (foldl _ _ _) as [seen found] eqn:E. simpl.
  destruct (add_backend_fold (candidates service sp slices) (∅, [])) as [Hnd Hel]; simpl.
  - intros b Hb%candidates_wanted. by apply wanted_ipv4 in Hb as [? _].
  - set_solver.
  - set_solver.
  - constructor.
  - rewrite E in Hnd, Hel. simpl in *. split_and!; [done..| | |].
    + by rewrite sort_slice_perm.
    + apply sort_slice_sorted. apply _.
    + intros b. rewrite sort_slice_elem, Hel, candidates_wanted. set_solver.
Qed.

(** C27. [Discover] returns one entry per Service port, in the Service's order; the
    backends of an entry are strictly sorted and are exactly the ready IPv4
    endpoints, at the matching endpoint ports, of the slices that belong to the
    Service. *)
Theorem Discover_correct service slices :
  length (Discover (Some service) slices) = length (ksPorts service) ∧
  ∀ i sp, ksPorts service !! i = Some sp →
    ∃ r, Discover (Some service) slices !! i = Some r ∧
      spbName r = kpName sp ∧ spbPort r = kpPort sp ∧ spbTargetPort r = kpTargetPort sp ∧
      spbProtocol r = normalizeServiceProtocol (kpProtocol sp) ∧
      NoDup (spbBackends r) ∧ Sorted (ngt backend_less) (spbBackends r) ∧
      ∀ b, b ∈ spbBackends r ↔ wanted service sp slices b.
Proof.
  split; [apply length_fmap|]. intros i sp Hi. simpl.
  rewrite list_lookup_fmap, Hi. eexists. split; [done|]. apply discover_port_spec.
Qed.

(** Discovery does not depend on the order in which the API server lists the
    EndpointSlices. *)
Lemma Discover_order_independent service slices slices' :
  slices ≡ₚ slices' → Discover service slices = Discover service slices'.
Proof.
  intros Hp. destruct service as [s|]; [|done]. simpl. apply list_fmap_ext. intros i sp _.
  destruct (discover_port_spec s sp slices) as (E1 & E2 & E3 & E4 & N1 & S1 & W1).
  destruct (discover_port_spec s sp slices') as (F1 & F2 & F3 & F4 & N2 & S2 & W2).
  assert (spbBackends (discover_port s slices sp) = spbBackends (discover_port s slices' sp)) as E5.
  { apply (Sorted_unique_strong (ngt backend_less)); [|done|done|].
    - intros b b' _ _. apply backend_less_tie.
    - apply NoDup_Permutation; [done..|]. intros b. rewrite W1, W2.
      unfold wanted. by setoid_rewrite Hp. }
  destruct (discover_port s slices sp), (discover_port s slices' sp); simpl in *; congruence.
Qed.
End discover_facts.
