(* ===== verification/Store.v ===== *)
(** * The dataplane's desired-state store (internal/dataplane/store.go)

    The store maps references to Services in canonical form: ports and backends
    sorted.  Its listing is the input of the renderer. *)
From S2P Require Import Prelude GoStrings GoSort Provider Backends.
Local Open Scope Z_scope.

(** Ports are ordered by port, protocol, name and target port. *)
Definition port_less : ServicePort → ServicePort → bool :=
  lex portPort Z.ltb
    (lex portProtocol String.ltb
      (lex portName String.ltb (by_key portTargetPort String.ltb))).

(** Services are listed by namespace, then name. *)
Definition service_less : Service → Service → bool :=
  lex svcNamespace String.ltb (by_key svcName String.ltb).

(** The comparison of the backends inside [normalizeService] *)
Definition backend_order : BackendEndpoint → BackendEndpoint → bool :=
  lex beAddress String.ltb (by_key bePort Z.ltb).

Record Store : Type := MkStore { services : gmap ServiceRef Service }.

Section store.
Context `{GoSort}.

Definition sort_backends (p : ServicePort) : ServicePort :=
  MkPort (portName p) (portProtocol p) (portPort p) (portTargetPort p)
    (sort_slice backend_order (portBackends p)).

Definition normalizeService (service : Service) : Service :=
  let normalized := DeepCopy service in
  MkService (svcNamespace normalized) (svcName normalized) (svcLoadBalancerClass normalized)
    (svcExternalIP normalized) (sort_backends <$> sort_slice port_less (svcPorts normalized)).

Definition sortedServiceListFromMap (m : gmap ServiceRef Service) : list Service :=
  sort_slice service_less (normalizeService ∘ snd <$> map_to_list m).

Definition NewStore : Store := MkStore ∅.

Definition Clone (s : Store) : Store := MkStore (normalizeService <$> services s).

Definition Upsert (service : Service) (s : Store) : Store :=
  let normalized := normalizeService service in
  MkStore (<[Ref normalized := normalized]> (services s)).

Definition StoreDelete (ref : ServiceRef) (s : Store) : Store * bool :=
  match services s !! ref with
  | None => (s, false)
  | Some _ => (MkStore (delete ref (services s)), true)
  end.

Definition StoreGet (ref : ServiceRef) (s : Store) : option Service :=
  DeepCopy <$> services s !! ref.

Definition StoreList (s : Store) : list Service := sortedServiceListFromMap (services s).

Definition StoreSnapshot (s : Store) : gmap ServiceRef Service := DeepCopy <$> services s.

Definition StoreLen (s : Store) : nat := size (services s).
End store.

(** ** Facts *)
#[export] Instance port_less_weak : StrictWeak port_less.
Proof. unfold port_less. apply _. Qed.
#[export] Instance service_less_weak : StrictWeak service_less.
Proof. unfold service_less. apply _. Qed.
#[export] Instance backend_order_weak : StrictWeak backend_order.
Proof. unfold backend_order. apply _. Qed.

Lemma service_less_tie a b : ngt service_less a b → ngt service_less b a → Ref a = Ref b.
Proof.
  unfold service_less. intros H1 H2. destruct (lex_tie _ _ _ _ _ H1 H2) as (Ha & H3 & H4).
  pose proof (by_key_tie _ _ _ _ H3 H4). unfold Ref. congruence.
Qed.

Section store_facts.
Context `{GoSort}.

Lemma normalize_ref s : Ref (normalizeService s) = Ref s.
Proof. done. Qed.

Lemma normalize_ip s : svcExternalIP (normalizeService s) = svcExternalIP s.
Proof. done. Qed.

Lemma normalize_ports s :
  svcPorts (normalizeService s) = sort_backends <$> sort_slice port_less (svcPorts s).
Proof. unfold normalizeService. by rewrite DeepCopy_id. Qed.

Lemma sort_backends_idemp p : sort_backends (sort_backends p) = sort_backends p.
Proof.
  unfold sort_backends. simpl. f_equal. apply sort_slice_idemp. apply _.
Qed.

Lemma sort_backends_sorted l : Sorted (ngt port_less) l → Sorted (ngt port_less) (sort_backends <$> l).
Proof. intros Hl. by apply (Sorted_fmap sort_backends (ngt port_less)). Qed.

Lemma normalize_idemp s : normalizeService (normalizeService s) = normalizeService s.
Proof.
  unfold normalizeService at 1. rewrite DeepCopy_id.
  assert (sort_backends <$> sort_slice port_less (svcPorts (normalizeService s))
    = svcPorts (normalizeService s)) as ->; [|by unfold normalizeService].
  rewrite normalize_ports, sort_slice_fixed.
  - rewrite <- list_fmap_compose. apply list_fmap_ext. intros. apply sort_backends_idemp.
  - apply sort_backends_sorted, sort_slice_sorted. apply _.
Qed.

(** The store invariant: every entry sits under its own reference and is in
    canonical form. *)
Definition store_wf (s : Store) : Prop :=
  ∀ r x, services s !! r = Some x → Ref x = r ∧ normalizeService x = x.

Lemma NewStore_wf : store_wf NewStore.
Proof. intros r x. cbn [services NewStore]. by rewrite lookup_empty. Qed.

Lemma Clone_id s : store_wf s → Clone s = s.
Proof.
  intros Hwf. destruct s as [m]. unfold Clone. simpl. f_equal. apply map_eq. intros r.
  rewrite lookup_fmap. destruct (m !! r) as [x|] eqn:Hx; [|done]. simpl. f_equal.
  by apply (Hwf r x).
Qed.

Lemma Upsert_services s x : services (Upsert x s) = <[Ref x := normalizeService x]> (services s).
Proof. done. Qed.

Lemma Upsert_wf s x : store_wf s → store_wf (Upsert x s).
Proof.
  intros Hwf r y. rewrite Upsert_services.
  intros [[<- <-]|[_ Hy]]%lookup_insert_Some; [|by apply Hwf].
  split; [done|]. apply normalize_idemp.
Qed.

Lemma StoreDelete_services r s : services (StoreDelete r s).1 = delete r (services s).
Proof.
  unfold StoreDelete. destruct (services s !! r) eqn:E; [done|]. simpl. by rewrite delete_id.
Qed.

Lemma StoreDelete_wf r s : store_wf s → store_wf (StoreDelete r s).1.
Proof.
  intros Hwf r' x. rewrite StoreDelete_services. intros [_ Hx]%lookup_delete_Some. by apply Hwf.
Qed.

(** Listing a well-formed store: exactly its entries, in strictly increasing order
    of references, and independent of the iteration order of the map. *)
Lemma StoreList_perm s : store_wf s → StoreList s ≡ₚ (map_to_list (services s)).*2.
Proof.
  intros Hwf. unfold StoreList, sortedServiceListFromMap. rewrite sort_slice_perm.
  apply Permutation_refl'. apply list_fmap_ext. intros i [r x] Hi.
  simpl. apply (Hwf r x). apply elem_of_map_to_list. by eapply list_elem_of_lookup_2.
Qed.

Lemma StoreList_elem s x : store_wf s → x ∈ StoreList s ↔ services s !! Ref x = Some x.
Proof.
  intros Hwf. rewrite StoreList_perm, list_elem_of_fmap by done. split.
  - intros ([r y] & -> & Hy). apply elem_of_map_to_list in Hy. simpl. by destruct (Hwf _ _ Hy) as [-> _].
  - intros Hx. exists (Ref x, x). split; [done|]. by apply elem_of_map_to_list.
Qed.

Lemma StoreList_NoDup s : store_wf s → NoDup (Ref <$> StoreList s).
Proof.
  intros Hwf. rewrite (StoreList_perm s Hwf). rewrite <- list_fmap_compose.
  assert (Ref ∘ snd <$> map_to_list (services s) = (map_to_list (services s)).*1) as ->.
  { apply list_fmap_ext. intros i [r x] Hi. simpl. apply (Hwf r x), elem_of_map_to_list.
    by eapply list_elem_of_lookup_2. }
  apply NoDup_fst_map_to_list.
Qed.

Lemma StoreList_sorted s : Sorted (ngt service_less) (StoreList s).
Proof. apply sort_slice_sorted. apply _. Qed.
(** The listing does not depend on Go's random map iteration order: sorting the
    entries of a well-formed store in any order gives the same list. *)
Lemma StoreList_deterministic s l :
  store_wf s → l ≡ₚ map_to_list (services s) →
  sort_slice service_less (normalizeService ∘ snd <$> l) = StoreList s.
Proof.
  intros Hwf Hp. apply sort_slice_perm_eq; [apply _| |by rewrite Hp].
  intros a b Ha Hb H1 H2. apply (service_less_tie a b H1) in H2 as HR.
  assert (∀ x, x ∈ normalizeService ∘ snd <$> map_to_list (services s) →
    services s !! Ref x = Some x) as Hx.
  { intros x Hx. apply StoreList_elem; [done|]. unfold StoreList, sortedServiceListFromMap.
    by rewrite sort_slice_elem. }
  apply Hx in Ha, Hb. rewrite HR in Ha. congruence.
Qed.
End store_facts.

#[export] Hint Resolve NewStore_wf Upsert_wf StoreDelete_wf : lb.
