(* ===== verification/Render.v ===== *)
(** * Rendering the HAProxy configuration (internal/dataplane/render.go) *)
From S2P Require Import Prelude GoStrings GoSort NetIP Provider IPAM Store.
Local Open Scope Z_scope.

Definition configHeader : string := "# Managed by k8s-lb-controller. DO NOT EDIT.
global
    maxconn 2048

defaults
    mode tcp
    timeout connect 5s
    timeout client 30s
    timeout server 30s
".

Definition bootstrapFrontendSection : string := "
# Bootstrap listener keeps HAProxy runnable before the first managed Service exists.
frontend fe_bootstrap_loopback
    bind 127.0.0.2:65535
    mode http
    http-request return status 204
".

Definition newline : string := "
".

Inductive ValidateError : Type :=
| ErrNamespaceEmpty
| ErrNameEmpty
| ErrExternalIP (ip : string)
| ErrProtocol (port : Z) (protocol : string)
| ErrServicePort
| ErrBackendAddress (address : string)
| ErrBackendPort.

#[global] Instance ValidateError_eq_dec : EqDecision ValidateError.
Proof. solve_decision. Defined.

Definition is_ipv4_string (s : string) : bool :=
  match ParseAddr s with Some a => Is4 a | None => false end.

Definition validateBackend (backend : BackendEndpoint) : result ValidateError () :=
  if negb (is_ipv4_string (beAddress backend)) then Err (ErrBackendAddress (beAddress backend)) else
  if bePort backend <=? 0 then Err ErrBackendPort else Ok ().

Definition validatePort (port : ServicePort) : result ValidateError () :=
  let protocol := TrimSpace (portProtocol port) in
  if negb (EqualFold protocol "TCP") && negb (bool_decide (protocol = ""))
  then Err (ErrProtocol (portPort port) (portProtocol port)) else
  if portPort port <=? 0 then Err ErrServicePort else
  forE validateBackend (portBackends port).

Definition ValidateService (service : Service) : result ValidateError () :=
  if bool_decide (TrimSpace (svcNamespace service) = "") then Err ErrNamespaceEmpty else
  if bool_decide (TrimSpace (svcName service) = "") then Err ErrNameEmpty else
  if negb (is_ipv4_string (svcExternalIP service)) then Err (ErrExternalIP (svcExternalIP service)) else
  forE validatePort (svcPorts service).

(** ** Identifiers *)
Section identifiers.
Context `{UnicodeCase}.

Definition sanitize_rune (r : Z) : ascii :=
  if (97 <=? r) && (r <=? 122) then zb r else
  if (48 <=? r) && (r <=? 57) then zb r else "_"%char.

Definition sanitizeIdentifier (value : string) : string :=
  let trimmed := TrimSpace (ToLower value) in
  if bool_decide (trimmed = "") then "unnamed" else
  let sanitized := Trim (of_bytes (sanitize_rune <$> runes trimmed)) "_"%char in
  if bool_decide (sanitized = "") then "unnamed" else sanitized.

Definition int32ToString (value : Z) : string := itoa value.

Definition identifierSuffix (service : Service) (port : ServicePort) : string :=
  ToLower (svcNamespace service +:+ "_" +:+ svcName service +:+ "_" +:+
    itoa (portPort port) +:+ "_" +:+ portName port +:+ "_" +:+ portProtocol port).

Definition frontendIdentifier (service : Service) (port : ServicePort) : string :=
  "fe_" +:+ sanitizeIdentifier (identifierSuffix service port).

Definition backendIdentifier (service : Service) (port : ServicePort) : string :=
  "be_" +:+ sanitizeIdentifier (identifierSuffix service port).

Definition serverIdentifier (index : Z) (backend : BackendEndpoint) : string :=
  sanitizeIdentifier ("srv_" +:+ itoa_pad4 (index + 1) +:+ "_" +:+ beAddress backend +:+ "_" +:+
    itoa (bePort backend)).
End identifiers.

Section render.
Context `{GoSort, UnicodeCase}.

Definition render_server (index : nat) (backend : BackendEndpoint) : string :=
  "    server " +:+ serverIdentifier (Z.of_nat index) backend +:+ " " +:+ beAddress backend +:+
  ":" +:+ int32ToString (bePort backend) +:+ newline.

Definition render_port (service : Service) (port : ServicePort) : string :=
  let backendName := backendIdentifier service port in
  let frontendName := frontendIdentifier service port in
  newline +:+ "frontend " +:+ frontendName +:+ newline +:+
  "    bind " +:+ svcExternalIP service +:+ ":" +:+ int32ToString (portPort port) +:+ newline +:+
  "    mode tcp" +:+ newline +:+
  "    default_backend " +:+ backendName +:+ newline +:+ newline +:+
  "backend " +:+ backendName +:+ newline +:+
  "    mode tcp" +:+ newline +:+
  "    balance roundrobin" +:+ newline +:+
  match portBackends port with
  | [] => "    server srv_unavailable 127.0.0.1:1 disabled" +:+ newline
  | backends => String.concat "" (imap render_server backends)
  end.

(** Building the store in order: a later Service replaces an earlier one with the
    same reference. *)
Definition sortedServiceListFromSlice (l : list Service) : list Service :=
  StoreList (foldl (λ store service, Upsert service store) NewStore l).

Inductive RenderError : Type := ErrRender (ref : ServiceRef) (e : ValidateError).

Fixpoint render_loop (builder : string) (l : list Service) : result RenderError string :=
  match l with
  | [] => Ok builder
  | service :: l =>
    match ValidateService service with
    | Err e => Err (ErrRender (Ref service) e)
    | Ok _ => render_loop (builder +:+ String.concat "" (render_port service <$> svcPorts service)) l
    end
  end.

Definition Render (l : list Service) : result RenderError string :=
  let sortedServices := normalizeService <$> l in
  if bool_decide (length sortedServices = 0%nat) then
    Ok (configHeader +:+ bootstrapFrontendSection)
  else render_loop configHeader (sortedServiceListFromSlice sortedServices).
End render.

(** ** Validation *)

(** A valid Service, declaratively. *)
Definition ipv4_string (s : string) : Prop := ∃ a, ipv4_wf a ∧ s = AddrString a.

Definition backend_valid (b : BackendEndpoint) : Prop :=
  ipv4_string (beAddress b) ∧ 0 < bePort b.

Definition port_valid (p : ServicePort) : Prop :=
  (TrimSpace (portProtocol p) = "" ∨ EqualFold (TrimSpace (portProtocol p)) "TCP" = true) ∧
  0 < portPort p ∧ ∀ b, b ∈ portBackends p → backend_valid b.

Definition service_valid (s : Service) : Prop :=
  TrimSpace (svcNamespace s) ≠ "" ∧ TrimSpace (svcName s) ≠ "" ∧
  ipv4_string (svcExternalIP s) ∧ ∀ p, p ∈ svcPorts s → port_valid p.

Lemma is_ipv4_string_spec s : is_ipv4_string s = true ↔ ipv4_string s.
Proof.
  unfold is_ipv4_string, ipv4_string. split.
  - destruct (ParseAddr s) as [a|] eqn:E; [|done]. intros H4. exists a.
    destruct (AddrString_ParseAddr _ _ E H4). by repeat split.
  - intros (a & [H4 Hw] & ->). by rewrite ParseAddr_AddrString.
Qed.

Lemma validateBackend_spec b : validateBackend b = Ok () ↔ backend_valid b.
Proof.
  unfold validateBackend, backend_valid. rewrite <- is_ipv4_string_spec.
  destruct (is_ipv4_string _); simpl; [|split; [done|by intros [? _]]].
  destruct (Z.leb_spec (bePort b) 0); split; try done; lia.
Qed.

Lemma validatePort_spec p : validatePort p = Ok () ↔ port_valid p.
Proof.
  unfold validatePort, port_valid. destruct (_ && _) eqn:E.
  - bool_props. split; [done|]. intros ([?|?] & _); congruence.
  - assert (TrimSpace (portProtocol p) = "" ∨ EqualFold (TrimSpace (portProtocol p)) "TCP" = true).
    { apply andb_false_iff in E as [E|E]; bool_props; auto. }
    destruct (Z.leb_spec (portPort p) 0).
    + split; [done|]. intros (_ & ? & _). lia.
    + rewrite forE_Ok. setoid_rewrite validateBackend_spec. tauto.
Qed.

Lemma ValidateService_spec s : ValidateService s = Ok () ↔ service_valid s.
Proof.
  unfold ValidateService, service_valid. rewrite <- is_ipv4_string_spec.
  case_bool_decide; [split; [done|]; by intros (? & _)|].
  case_bool_decide; [split; [done|]; by intros (_ & ? & _)|].
  destruct (is_ipv4_string _); simpl; [|split; [done|]; by intros (_ & _ & ? & _)].
  rewrite forE_Ok. setoid_rewrite validatePort_spec. tauto.
Qed.

#[global] Instance service_valid_dec s : Decision (service_valid s).
Proof.
  destruct (decide (ValidateService s = Ok ())) as [Hv|Hv]; [left|right];
    by rewrite <- ValidateService_spec.
Defined.

Section valid_normalize.
Context `{GoSort}.

(** Validity does not depend on the order of ports and backends. *)
Lemma port_valid_sort p : port_valid (sort_backends p) ↔ port_valid p.
Proof. unfold port_valid, sort_backends. simpl. setoid_rewrite sort_slice_elem. done. Qed.

Lemma service_valid_normalize s : service_valid (normalizeService s) ↔ service_valid s.
Proof.
  unfold service_valid. rewrite normalize_ports. setoid_rewrite list_elem_of_fmap.
  setoid_rewrite sort_slice_elem. split; intros (? & ? & ? & Hp); split_and!; try done.
  - intros p Hin. rewrite <- port_valid_sort. eauto.
  - intros ? (p & -> & Hin). rewrite port_valid_sort. auto.
Qed.
End valid_normalize.

(** ** The rendered document *)

(** The entry that counts for a reference: the last one of the list. *)
Definition effective (l : list Service) (s : Service) : Prop :=
  ∃ l1 l2, l = l1 ++ s :: l2 ∧ Ref s ∉ (Ref <$> l2).

Lemma effective_NoDup l s : NoDup (Ref <$> l) → effective l s ↔ s ∈ l.
Proof.
  intros Hnd. split.
  - intros (l1 & l2 & -> & _). set_solver.
  - intros (l1 & l2 & ->)%list_elem_of_split. exists l1, l2. split; [done|].
    rewrite fmap_app, fmap_cons in Hnd. apply NoDup_app in Hnd as (_ & _ & Hnd).
    by inversion Hnd.
Qed.

(** Two Services are strictly ordered by namespace, then name. *)
Definition ref_before (a b : Service) : Prop := service_less a b = true.

Section render_facts.
Context `{GoSort, UnicodeCase}.

Definition store_of (l : list Service) : Store :=
  foldl (λ store service, Upsert service store) NewStore l.

Lemma store_of_snoc l s : store_of (l ++ [s]) = Upsert s (store_of l).
Proof. unfold store_of. by rewrite foldl_app. Qed.

Lemma store_of_wf l : store_wf (store_of l).
Proof.
  induction l as [|s l IH] using rev_ind; [auto with lb|].
  rewrite store_of_snoc. auto with lb.
Qed.

Lemma ref_notin_snoc (r : ServiceRef) l s :
  r ∉ (Ref <$> l ++ [s]) ↔ r ∉ (Ref <$> l) ∧ r ≠ Ref s.
Proof.
  rewrite fmap_app, not_elem_of_app. cbn [fmap list_fmap]. by rewrite list_elem_of_singleton.
Qed.

Lemma store_of_lookup l r x :
  services (store_of l) !! r = Some x ↔ ∃ s, effective l s ∧ Ref s = r ∧ x = normalizeService s.
Proof.
  induction l as [|y l IH] using rev_ind.
  { change (services (store_of [])) with (∅ : gmap ServiceRef Service).
    rewrite lookup_empty. split; [done|]. by intros (s & ([] & l2 & ? & _) & _). }
  rewrite store_of_snoc, Upsert_services, lookup_insert_Some, IH. split.
  - intros [[<- <-]|[Hr (s & (l1 & l2 & -> & Hs) & <- & ->)]].
    + exists y. split; [|done]. exists l, []. split; [done|]. set_solver.
    + exists s. split; [|done]. exists l1, (l2 ++ [y]). split; [by rewrite <- app_assoc|].
      rewrite ref_notin_snoc. auto.
  - intros (s & (l1 & l2 & E & Hs) & <- & ->). destruct l2 as [|z l2 _] using rev_ind.
    + apply app_inj_tail in E as [_ ->]. by left.
    + rewrite app_comm_cons, app_assoc in E. apply app_inj_tail in E as [-> ->].
      rewrite ref_notin_snoc in Hs. destruct Hs as [? ?].
      right. split; [by auto|]. exists s. split; [|done]. by exists l1, l2.
Qed.

Lemma store_of_normalize l : store_of (normalizeService <$> l) = store_of l.
Proof.
  induction l as [|s l IH] using rev_ind; [done|].
  rewrite fmap_app. cbn [fmap list_fmap]. rewrite !store_of_snoc, IH.
  unfold Upsert. by rewrite normalize_idemp.
Qed.

(** The Services of a document in the order of the document. *)
Definition listing (l : list Service) : list Service := StoreList (store_of l).

Lemma listing_elem l x :
  x ∈ listing l ↔ ∃ s, effective l s ∧ x = normalizeService s.
Proof.
  unfold listing. rewrite StoreList_elem by apply store_of_wf. rewrite store_of_lookup.
  split; [naive_solver|]. intros (s & ? & ->). by exists s.
Qed.

Lemma StoreList_strict s : store_wf s → StronglySorted ref_before (StoreList s).
Proof.
  intros Hwf. pose proof (StoreList_NoDup s Hwf) as Hnd.
  pose proof (Sorted_StronglySorted (ngt service_less) _ (StoreList_sorted s)) as Hs.
  induction Hs as [|a l Hs IH Ha]; [constructor|]. rewrite fmap_cons in Hnd.
  apply NoDup_cons in Hnd as [Hin Hnd]. constructor; [by apply IH|].
  rewrite Forall_forall in Ha |- *. intros b Hb. unfold ref_before.
  destruct (service_less a b) eqn:E; [done|]. exfalso. apply Hin.
  rewrite (service_less_tie a b); [by apply list_elem_of_fmap_2|by apply Ha|done].
Qed.

Lemma store_list_ext s t : store_wf s → services s = services t → StoreList s = StoreList t.
Proof. intros _ E. unfold StoreList. by rewrite E. Qed.

Definition section_of (s : Service) : string := String.concat "" (render_port s <$> svcPorts s).

Lemma render_loop_spec builder l :
  render_loop builder l =
    match List.find (λ s, negb (is_Ok (ValidateService s))) l with
    | Some s => match ValidateService s with
                | Err e => Err (ErrRender (Ref s) e)
                | Ok _ => Ok ""
                end
    | None => Ok (foldl (λ acc s, acc +:+ section_of s) builder l)
    end.
Proof.
  revert builder. induction l as [|s l IH]; intros builder; simpl; [done|].
  destruct (ValidateService s) eqn:E; simpl; [apply IH|]. by rewrite E.
Qed.

Lemma Render_listing l : l ≠ [] → Render l = render_loop configHeader (listing l).
Proof.
  intros Hl. unfold Render, sortedServiceListFromSlice, listing. rewrite length_fmap.
  rewrite bool_decide_eq_false_2 by (by destruct l). by rewrite <- (store_of_normalize l).
Qed.

(** C28. [Render] writes exactly one document per effective configuration: the
    header followed by the sections of the last Service given for every
    reference, in canonical form and in strictly increasing order of namespace
    and name; or, when one of them is not valid, the error of the first such
    Service of that order.  Without Services it writes the bootstrap listener. *)
Theorem Render_correct l :
  (l = [] → Render l = Ok (configHeader +:+ bootstrapFrontendSection)) ∧
  (l ≠ [] → ∃ ss, StronglySorted ref_before ss ∧
    (∀ x, x ∈ ss ↔ ∃ s, effective l s ∧ x = normalizeService s) ∧
    (((∀ x, x ∈ ss → service_valid x) ∧
      Render l = Ok (foldl (λ acc s, acc +:+ section_of s) configHeader ss)) ∨
     (∃ ss1 x ss2 e, ss = ss1 ++ x :: ss2 ∧ (∀ y, y ∈ ss1 → service_valid y) ∧
      ValidateService x = Err e ∧ Render l = Err (ErrRender (Ref x) e)))).
Proof.
  split; [by intros ->|]. intros Hl. exists (listing l).
  split; [apply StoreList_strict, store_of_wf|]. split; [apply listing_elem|].
  rewrite (Render_listing l Hl), render_loop_spec.
  assert (∀ y, negb (is_Ok (ValidateService y)) = false → service_valid y) as Hval.
  { intros y Hy. apply ValidateService_spec. by destruct (ValidateService y) as [[]|]. }
  destruct (List.find _ _) as [x|] eqn:E.
  - right. apply find_first_spec in E as (ss1 & ss2 & -> & Hx & H1).
    destruct (ValidateService x) as [[]|e] eqn:Ex; [done|].
    exists ss1, x, ss2, e. split_and!; try done. auto.
  - left. split; [|done]. intros x Hx. rewrite find_none_spec in E. auto.
Qed.

Lemma Render_is_ok l :
  is_Ok (Render l) = true ↔ ∀ s, effective l s → service_valid s.
Proof.
  destruct (decide (l = [])) as [->|Hl].
  { split; [|done]. by intros _ s ([] & ? & ? & _). }
  rewrite (Render_listing l Hl), render_loop_spec. destruct (List.find _ _) as [x|] eqn:E.
  - apply find_first_spec in E as (ss1 & ss2 & E & Hx & _).
    destruct (ValidateService x) as [[]|e] eqn:Ex; [done|]. split; [done|]. intros Hall.
    assert (x ∈ listing l) as Hin by (rewrite E; set_solver).
    apply listing_elem in Hin as (s & Hs & ->). apply Hall in Hs.
    apply service_valid_normalize, ValidateService_spec in Hs. congruence.
  - split; [|done]. intros _ s Hs. apply service_valid_normalize, ValidateService_spec.
    rewrite find_none_spec in E. specialize (E (normalizeService s)).
    assert (normalizeService s ∈ listing l) as Hin by (apply listing_elem; eauto).
    apply E in Hin. by destruct (ValidateService _) as [[]|].
Qed.

(** Rendering succeeds exactly when every effective Service is valid, and then a
    second pass over the normalized Services gives the same document. *)
Theorem Render_total l :
  (is_Ok (Render l) = true ↔ ∀ s, effective l s → service_valid s) ∧
  Render (normalizeService <$> l) = Render l.
Proof.
  split; [apply Render_is_ok|]. destruct l as [|s l]; [done|].
  rewrite !Render_listing by done. unfold listing. by rewrite store_of_normalize.
Qed.

(** The document depends neither on the order in which Services are given nor on
    the order of their ports and backends beyond the canonical one. *)
Theorem Render_order_independent l k :
  NoDup (Ref <$> l) → (normalizeService <$> l) ≡ₚ (normalizeService <$> k) → Render l = Render k.
Proof.
  intros Hnd Hp. destruct (decide (l = [])) as [->|Hl].
  { apply Permutation_nil in Hp. by destruct k. }
  assert (k ≠ []) by (by intros ->; symmetry in Hp; apply Permutation_nil in Hp; destruct l).
  assert (∀ j : list Service, Ref <$> j = Ref <$> (normalizeService <$> j)) as Hrefs.
  { intros j. rewrite <- list_fmap_compose. by apply list_fmap_ext. }
  rewrite !Render_listing by done. f_equal. apply store_list_ext; [apply store_of_wf|].
  rewrite <- (store_of_normalize l), <- (store_of_normalize k).
  apply map_eq. intros r. apply option_eq. intros x. rewrite !store_of_lookup.
  rewrite Hrefs in Hnd. setoid_rewrite (effective_NoDup _ _ Hnd). rewrite Hp in Hnd.
  setoid_rewrite (effective_NoDup _ _ Hnd). setoid_rewrite Hp. done.
Qed.
End render_facts.

(** ** Identifiers are safe to write into the configuration *)
Definition ident_char (c : ascii) : bool :=
  ((97 <=? bz c) && (bz c <=? 122)) || ((48 <=? bz c) && (bz c <=? 57)) || (bz c =? 95).

Definition newline_char : ascii := "010"%char.

Lemma newline_char_string : newline = String newline_char "".
Proof. done. Qed.

Lemma sanitize_rune_char r : ident_char (sanitize_rune r) = true.
Proof.
  unfold sanitize_rune, ident_char.
  destruct ((97 <=? r) && (r <=? 122)) eqn:E1; [rewrite bz_zb by lia; lia|].
  destruct ((48 <=? r) && (r <=? 57)) eqn:E2; [rewrite bz_zb by lia; lia|]. done.
Qed.

Lemma ident_char_newline c : ident_char c = true → c ≠ newline_char.
Proof. by intros H ->. Qed.

(** Number of line breaks of a text *)
Definition line_breaks (s : string) : nat := count_occ ascii_dec (bytes s) newline_char.

Lemma line_breaks_app s t : line_breaks (s +:+ t) = (line_breaks s + line_breaks t)%nat.
Proof. unfold line_breaks. by rewrite bytes_app, count_occ_app. Qed.

Lemma line_breaks_0 s : (∀ c, c ∈ bytes s → c ≠ newline_char) → line_breaks s = 0%nat.
Proof.
  intros Hs. unfold line_breaks. apply count_occ_not_In. intros Hin%list_elem_of_In.
  by apply (Hs newline_char).
Qed.

Lemma line_breaks_itoa z : line_breaks (itoa z) = 0%nat.
Proof. apply line_breaks_0. intros c Hc ->. by apply itoa_digits in Hc as [?|?]. Qed.

Lemma line_breaks_ipv4 s : ipv4_string s → line_breaks s = 0%nat.
Proof.
  intros (a & [H4 Hw] & ->). apply line_breaks_0.
  intros c Hc. apply AddrString_chars in Hc as [->|(d & -> & Hd)]; [done| |done].
  intros E. apply (f_equal bz) in E. unfold digit in E. rewrite bz_zb in E by lia.
  change (bz newline_char) with 10 in E. lia.
Qed.

Lemma line_breaks_concat l : line_breaks (String.concat "" l) = sum_list (line_breaks <$> l).
Proof.
  induction l as [|s [|t l] IH]; [done|simpl; lia|].
  change (String.concat "" (s :: t :: l)) with (s +:+ "" +:+ String.concat "" (t :: l)).
  rewrite !line_breaks_app, IH. done.
Qed.

Section identifier_facts.
Context `{GoSort, UnicodeCase}.

Lemma sanitize_word value :
  let out := bytes (sanitizeIdentifier value) in
  out ≠ [] ∧ (∀ c, c ∈ out → ident_char c = true) ∧
  head out ≠ Some "_"%char ∧ last out ≠ Some "_"%char.
Proof.
  cbv zeta. unfold sanitizeIdentifier. set (t := TrimSpace _).
  assert (∀ c, c ∈ bytes "unnamed" → ident_char c = true) as Hun.
  { intros c Hc. repeat (apply elem_of_cons in Hc as [->|Hc]; [done|]). by apply not_elem_of_nil in Hc. }
  case_bool_decide; [done|]. case_bool_decide as Hs; [done|].
  set (w := of_bytes _) in *. destruct (Trim_spec w "_"%char) as (Hin & Hh & Hl).
  split_and!; [|intros c Hc|done..].
  - by rewrite bytes_nil.
  - apply Hin in Hc. unfold w in Hc. rewrite bytes_of_bytes, list_elem_of_fmap in Hc.
    destruct Hc as (r & -> & _). apply sanitize_rune_char.
Qed.

(** Whatever text the names of a Service hold, the identifiers made of them are
    words of lower-case letters, digits and underscores with a letter or digit
    at both ends of the sanitized part: one token of the configuration. *)
Theorem identifiers_safe s p i b :
  ∀ id, id ∈ [frontendIdentifier s p; backendIdentifier s p; serverIdentifier i b] →
  id ≠ "" ∧ (∀ c, c ∈ bytes id → ident_char c = true) ∧ last (bytes id) ≠ Some "_"%char.
Proof.
  set (v := identifierSuffix s p). destruct (sanitize_word v) as (Hne & Hc & _ & Hl).
  assert (∀ x y : ascii, ident_char x = true → ident_char y = true →
    let id := String x (String y (String "_"%char (sanitizeIdentifier v))) in
    id ≠ "" ∧ (∀ c, c ∈ bytes id → ident_char c = true) ∧ last (bytes id) ≠ Some "_"%char) as Hpre.
  { intros x y Hx Hy. cbv zeta. split; [done|]. split.
    - intros c. cbn [bytes String.list_ascii_of_string]. rewrite !elem_of_cons.
      intros [->|[->|[->|Hin]]]; auto.
    - cbn [bytes String.list_ascii_of_string].
      rewrite !last_cons. fold (bytes (sanitizeIdentifier v)).
      destruct (last (bytes (sanitizeIdentifier v))) eqn:E; [done|]. by apply last_None in E. }
  intros id. rewrite !elem_of_cons. intros [->|[->|[->|[]%not_elem_of_nil]]]; [by apply Hpre..|].
  unfold serverIdentifier. destruct (sanitize_word ("srv_" +:+ itoa_pad4 (i + 1) +:+ "_" +:+
    beAddress b +:+ "_" +:+ itoa (bePort b))) as (Hne' & Hc' & _ & Hl').
  split_and!; [|done..]. by rewrite <- bytes_nil.
Qed.

Lemma line_breaks_ident v : line_breaks (sanitizeIdentifier v) = 0%nat.
Proof.
  apply line_breaks_0. intros c Hc. by apply ident_char_newline, (sanitize_word v).
Qed.

Lemma render_server_lines i b : backend_valid b → line_breaks (render_server i b) = 1%nat.
Proof.
  intros [Ha _]. unfold render_server, serverIdentifier, int32ToString.
  rewrite !line_breaks_app, line_breaks_ident, line_breaks_itoa, (line_breaks_ipv4 _ Ha). done.
Qed.

Lemma sum_list_cons n l : sum_list (n :: l) = (n + sum_list l)%nat.
Proof. done. Qed.

Lemma imap_lines l k :
  (∀ b, b ∈ l → backend_valid b) →
  sum_list (line_breaks <$> imap (λ i, render_server (k + i)) l) = length l.
Proof.
  revert k. induction l as [|b l IH]; intros k Hl; [done|]. rewrite imap_cons, fmap_cons, sum_list_cons.
  rewrite render_server_lines by (apply Hl; by left). cbn [length]. rewrite <- (IH (S k)).
  - do 2 f_equal. f_equal. apply imap_ext. intros i x _. cbn [compose]. f_equal. lia.
  - intros x Hx. apply Hl. by right.
Qed.

(** C30. No text of a valid Service can add a directive: the section of a port has
    nine fixed line breaks (blank lines included) and one [server] line per
    backend, or the one disabled placeholder when there is none. *)
Theorem render_port_lines s p :
  service_valid s → p ∈ svcPorts s →
  line_breaks (render_port s p) = (9 + Nat.max 1 (length (portBackends p)))%nat.
Proof.
  intros (_ & _ & Hip & Hps) Hp. destruct (Hps p Hp) as (_ & _ & Hbs).
  unfold render_port, frontendIdentifier, backendIdentifier, int32ToString. cbv zeta.
  rewrite !line_breaks_app, !line_breaks_ident, line_breaks_itoa, (line_breaks_ipv4 _ Hip).
  destruct (portBackends p) as [|b bs] eqn:E; [done|].
  rewrite line_breaks_concat. pose proof (imap_lines (b :: bs) 0 Hbs) as Hl.
  change (imap (λ i, render_server (0 + i)) (b :: bs)) with (imap render_server (b :: bs)) in Hl.
  rewrite Hl. done.
Qed.

(** C40. Identifiers are not unique across Services: the separators of the parts are
    characters that sanitizing also writes for others, so two different valid
    Services can be given one frontend name and one backend name. *)
Theorem identifier_collision :
  ∃ s1 s2 p, Ref s1 ≠ Ref s2 ∧ service_valid s1 ∧ service_valid s2 ∧
    p ∈ svcPorts s1 ∧ p ∈ svcPorts s2 ∧
    frontendIdentifier s1 p = frontendIdentifier s2 p ∧
    backendIdentifier s1 p = backendIdentifier s2 p.
Proof.
  set (p := MkPort "http" "TCP" 80 "80" []).
  exists (MkService "a-b" "c" "x" "10.0.0.1" [p]), (MkService "a" "b-c" "x" "10.0.0.2" [p]), p.
  split_and!; [done| | |by left|by left|vm_compute; reflexivity|vm_compute; reflexivity];
    apply ValidateService_spec; vm_compute; reflexivity.
Qed.
End identifier_facts.
