(* ===== verification/ExternalIPs.v ===== *)
(** * Desired external addresses (internal/dataplane/externalips.go) *)
From S2P Require Import Prelude GoStrings GoSort NetIP Provider IPAM Store Render.
Local Open Scope Z_scope.

Inductive DesiredError : Type :=
| ErrParseDesired (ip : string) (ref : ServiceRef)
| ErrDesiredNotIPv4 (ip : string) (ref : ServiceRef).

(** The loop over the Services that fills the set [unique]. *)
Fixpoint collect_unique (unique : gset Addr) (l : list Service) : result DesiredError (gset Addr) :=
  match l with
  | [] => Ok unique
  | service :: l =>
    if bool_decide (svcExternalIP service = "") then collect_unique unique l else
    match ParseAddr (svcExternalIP service) with
    | None => Err (ErrParseDesired (svcExternalIP service) (Ref service))
    | Some addr =>
      if negb (Is4 addr) then Err (ErrDesiredNotIPv4 (svcExternalIP service) (Ref service))
      else collect_unique ({[addr]} ∪ unique) l
    end
  end.

Definition desiredExternalIPs `{GoSort} (l : list Service) : result DesiredError (list Addr) :=
  match collect_unique ∅ l with
  | Err e => Err e
  | Ok unique => Ok (sort_slice addr_less (elements unique))
  end.

Definition diffExternalIPs (left right : list Addr) : list Addr :=
  let rightSet : gset Addr := list_to_set right in
  filter (λ addr, addr ∉ rightSet) left.

(** ** Facts *)
Definition wants_ip (l : list Service) (a : Addr) : Prop :=
  ipv4_wf a ∧ ∃ s, s ∈ l ∧ svcExternalIP s = AddrString a.

Lemma collect_unique_spec l u u' :
  collect_unique u l = Ok u' → ∀ a, a ∈ u' ↔ a ∈ u ∨ wants_ip l a.
Proof.
  revert u. induction l as [|s l IH]; intros u; cbn [collect_unique].
  - intros [= ->] a. split; [by left|]. intros [?|(_ & s & Hs & _)]; [done|].
    by apply not_elem_of_nil in Hs.
  - assert (∀ a, wants_ip (s :: l) a ↔
      (ipv4_wf a ∧ svcExternalIP s = AddrString a) ∨ wants_ip l a) as Hcons.
    { intros a. unfold wants_ip. setoid_rewrite elem_of_cons. split.
      - intros (Ha & x & [->|Hx] & E); [by left|]. right. eauto.
      - intros [[Ha E]|(Ha & x & Hx & E)]; split; try done; eauto. }
    case_bool_decide as Hempty.
    { intros Hu a. rewrite (IH _ Hu), Hcons. split; [tauto|]. intros [?|[[[H4 Hw] E]|?]]; try tauto.
      rewrite Hempty in E. symmetry in E. by apply AddrString_nonempty in E. }
    destruct (ParseAddr _) as [b|] eqn:Hp; [|done].
    destruct (Is4 b) eqn:Hb; cbn [negb]; [|done].
    intros Hu a. rewrite (IH _ Hu), Hcons, elem_of_union, elem_of_singleton.
    destruct (AddrString_ParseAddr _ _ Hp Hb) as [HE Hw]. split.
    + intros [[->|?]|?]; try tauto. right. left. by repeat split.
    + intros [?|[[[H4 Hw'] E]|?]]; try tauto. left. left.
      rewrite E, ParseAddr_AddrString in Hp by done. congruence.
Qed.

Lemma collect_unique_ok l u :
  (∀ s, s ∈ l → svcExternalIP s = "" ∨ ipv4_string (svcExternalIP s)) ↔
  is_Ok (collect_unique u l) = true.
Proof.
  revert u. induction l as [|s l IH]; intros u; cbn [collect_unique]; [set_solver|].
  assert ((∀ x, x ∈ s :: l → svcExternalIP x = "" ∨ ipv4_string (svcExternalIP x)) ↔
    (svcExternalIP s = "" ∨ ipv4_string (svcExternalIP s)) ∧
    (∀ x, x ∈ l → svcExternalIP x = "" ∨ ipv4_string (svcExternalIP x))) as ->.
  { split; [intros Hall; split; [apply Hall; by left|]; intros x Hx; apply Hall; by right|].
    intros [Hs Hl] x [->|Hx]%elem_of_cons; auto. }
  rewrite <- is_ipv4_string_spec. unfold is_ipv4_string.
  case_bool_decide; [rewrite <- (IH u); tauto|].
  destruct (ParseAddr _) as [b|]; [|split; [by intros [[?|?] _]|done]].
  destruct (Is4 b); simpl; [rewrite <- IH; tauto|]. split; [by intros [[?|?] _]|done].
Qed.

Section external_facts.
Context `{GoSort}.

Lemma desired_spec l ips :
  desiredExternalIPs l = Ok ips → ∀ a, a ∈ ips ↔ wants_ip l a.
Proof.
  unfold desiredExternalIPs. destruct (collect_unique ∅ l) as [u|] eqn:E; [|done].
  intros [= <-] a. rewrite sort_slice_elem, elem_of_elements, (collect_unique_spec _ _ _ E).
  set_solver.
Qed.

Lemma desired_NoDup l ips : desiredExternalIPs l = Ok ips → NoDup ips.
Proof.
  unfold desiredExternalIPs. destruct (collect_unique ∅ l) as [u|]; [|done].
  intros [= <-]. rewrite sort_slice_perm. apply NoDup_elements.
Qed.

Lemma desired_is_ok l :
  (∀ s, s ∈ l → service_valid s) → ∃ ips, desiredExternalIPs l = Ok ips.
Proof.
  intros Hl. unfold desiredExternalIPs.
  assert (is_Ok (collect_unique ∅ l) = true) as Hok.
  { apply collect_unique_ok. intros s Hs. right. by apply (Hl s Hs). }
  destruct (collect_unique ∅ l) as [u|]; [|done]. eauto.
Qed.

Lemma diff_spec l k a : a ∈ diffExternalIPs l k ↔ a ∈ l ∧ a ∉ k.
Proof.
  unfold diffExternalIPs. rewrite list_elem_of_filter, elem_of_list_to_set. tauto.
Qed.

(** The desired addresses are exactly those of the Services that have one, each
    once, in increasing order; the computation fails exactly when some Service
    has an external address that is not IPv4. *)
Lemma desiredExternalIPs_correct l :
  ((∃ ips, desiredExternalIPs l = Ok ips) ↔
    ∀ s, s ∈ l → svcExternalIP s = "" ∨ ipv4_string (svcExternalIP s)) ∧
  ∀ ips, desiredExternalIPs l = Ok ips →
    NoDup ips ∧ Sorted (ngt addr_less) ips ∧ ∀ a, a ∈ ips ↔ wants_ip l a.
Proof.
  split.
  - rewrite (collect_unique_ok l ∅). unfold desiredExternalIPs.
    destruct (collect_unique ∅ l); split; try done; eauto. by intros [? ?].
  - intros ips E. split_and!; [by eapply desired_NoDup| |by apply desired_spec].
    unfold desiredExternalIPs in E. destruct (collect_unique ∅ l); [|done].
    injection E as <-. apply sort_slice_sorted. apply _.
Qed.
End external_facts.
