(* ===== verification/Engine.v ===== *)
(** * The dataplane engine (internal/dataplane/engine.go)

    The engine keeps the desired state in memory and drives two collaborators:
    a [ConfigApplier], which materializes one configuration file, and an
    [ExternalIPManager], which attaches addresses to the host.  Both are records
    of operations on a world [W]; what the engine relies on is stated in the
    classes [ApplierSpec], [IPManagerSpec] and [EngineFrame], discharged by the
    implementations in Apply.v and IPAttach.v. *)
From S2P Require Import Prelude GoStrings GoSort NetIP Provider IPAM Store Render ExternalIPs.
Local Open Scope Z_scope.

Record ConfigApplier (W E : Type) : Type := MkConfigApplier {
  ca_Apply : list Service → W → W * result E bool;
  ca_Bootstrap : W → W * result E ();
}.
Global Arguments MkConfigApplier {W E} _ _.
Global Arguments ca_Apply {W E} _ _ _.
Global Arguments ca_Bootstrap {W E} _ _.

Record ExternalIPManager (W E : Type) : Type := MkIPManager {
  ipm_List : W → W * result E (list Addr);
  ipm_EnsurePresent : Addr → W → W * result E bool;
  ipm_EnsureAbsent : Addr → W → W * result E bool;
}.
Global Arguments MkIPManager {W E} _ _ _.
Global Arguments ipm_List {W E} _ _.
Global Arguments ipm_EnsurePresent {W E} _ _ _.
Global Arguments ipm_EnsureAbsent {W E} _ _ _.

(** [noopExternalIPManager] *)
Definition noopExternalIPManager {W E} : ExternalIPManager W E :=
  MkIPManager (λ w, (w, Ok [])) (λ _ w, (w, Ok false)) (λ _ w, (w, Ok false)).

(** The errors of the engine; those of a failed reconciliation carry the errors of
    the rollback that [errors.Join] adds. *)
Inductive EngineError (E : Type) : Type :=
| ErrInvalid (e : ValidateError)
| ErrListIPs (e : E)
| ErrDesiredIPs (e : DesiredError)
| ErrAttach (addr : Addr) (e : E) (rollback : list (Addr * E))
| ErrApply (e : E) (rollback : list (Addr * E))
| ErrDetach (addr : Addr) (e : E).
Global Arguments ErrInvalid {E} _.
Global Arguments ErrListIPs {E} _.
Global Arguments ErrDesiredIPs {E} _.
Global Arguments ErrAttach {E} _ _ _.
Global Arguments ErrApply {E} _ _.
Global Arguments ErrDetach {E} _ _.

Record Engine (W : Type) : Type := MkEngine { store : Store; host : W }.
Global Arguments MkEngine {W} _ _.
Global Arguments store {W} _.
Global Arguments host {W} _.

Section engine.
Context `{GoSort, UnicodeCase} {W E : Type}.
Variable applier : ConfigApplier W E.
Variable ipm : ExternalIPManager W E.

(** The rollback visits the addresses from the last attached to the first. *)
Fixpoint rollback_loop (l : list Addr) (w : W) : W * list (Addr * E) :=
  match l with
  | [] => (w, [])
  | addr :: l =>
    let '(w, res) := ipm_EnsureAbsent ipm addr w in
    let '(w, errs) := rollback_loop l w in
    (w, match res with Err e => (addr, e) :: errs | Ok _ => errs end)
  end.

Definition rollbackAttachedExternalIPs (attached : list Addr) (w : W) : W * list (Addr * E) :=
  rollback_loop (reverse attached) w.

(** The loop that attaches the new addresses. *)
Fixpoint attach_loop (newlyAttached newIPs : list Addr) (w : W) :
    W * result (EngineError E) (list Addr) :=
  match newIPs with
  | [] => (w, Ok newlyAttached)
  | addr :: newIPs =>
    match ipm_EnsurePresent ipm addr w with
    | (w, Err e) =>
      let '(w, rollback) := rollbackAttachedExternalIPs newlyAttached w in
      (w, Err (ErrAttach addr e rollback))
    | (w, Ok changed) =>
      attach_loop (if (changed : bool) then newlyAttached ++ [addr] else newlyAttached) newIPs w
    end
  end.

(** The loop that detaches the stale addresses. *)
Fixpoint detach_loop (changed : bool) (staleIPs : list Addr) (w : W) :
    W * result (EngineError E) bool :=
  match staleIPs with
  | [] => (w, Ok changed)
  | addr :: staleIPs =>
    match ipm_EnsureAbsent ipm addr w with
    | (w, Err e) => (w, Err (ErrDetach addr e))
    | (w, Ok detached) => detach_loop (changed || detached) staleIPs w
    end
  end.

Definition reconcileLocked (e : Engine W) (nextStore : Store) :
    Engine W * result (EngineError E) bool :=
  let nextServices := StoreList nextStore in
  match ipm_List ipm (host e) with
  | (w, Err err) => (MkEngine (store e) w, Err (ErrListIPs err))
  | (w, Ok currentIPs) =>
    match desiredExternalIPs nextServices with
    | Err err => (MkEngine (store e) w, Err (ErrDesiredIPs err))
    | Ok desiredIPs =>
      let newIPs := diffExternalIPs desiredIPs currentIPs in
      let staleIPs := diffExternalIPs currentIPs desiredIPs in
      match attach_loop [] newIPs w with
      | (w, Err err) => (MkEngine (store e) w, Err err)
      | (w, Ok newlyAttached) =>
        match ca_Apply applier nextServices w with
        | (w, Err err) =>
          let '(w, rollback) := rollbackAttachedExternalIPs newlyAttached w in
          (MkEngine (store e) w, Err (ErrApply err rollback))
        | (w, Ok configChanged) =>
          let changed := configChanged || (0 <? Z.of_nat (length newlyAttached)) in
          let '(w, res) := detach_loop changed staleIPs w in
          (MkEngine nextStore w, res)
        end
      end
    end
  end.

Definition EngineEnsure (service : Service) (e : Engine W) : Engine W * result (EngineError E) bool :=
  let normalized := normalizeService service in
  match ValidateService normalized with
  | Err err => (e, Err (ErrInvalid err))
  | Ok _ => reconcileLocked e (Upsert normalized (Clone (store e)))
  end.

Definition EngineDelete (ref : ServiceRef) (e : Engine W) : Engine W * result (EngineError E) bool :=
  match StoreGet ref (store e) with
  | None => (e, Ok false)
  | Some _ => reconcileLocked e (StoreDelete ref (Clone (store e))).1
  end.

Definition EngineBootstrap (e : Engine W) : Engine W * result E () :=
  let '(w, res) := ca_Bootstrap applier (host e) in (MkEngine (store e) w, res).

Definition EngineSnapshot (e : Engine W) : gmap ServiceRef Service := StoreSnapshot (store e).

Definition ServiceCount (e : Engine W) : nat := StoreLen (store e).
End engine.

(** ** The collaborators' contracts *)

(** What an address manager promises.  [ip_attached] are the addresses it sees on the
    host.  [ip_active] tells whether it attaches addresses at all: the manager of a
    dataplane with attachment disabled, which is the default, does not, and sees none.
    After an error the one address of the call may have been changed or not; no other
    address ever changes. *)
Class IPManagerSpec {W E} (M : ExternalIPManager W E) : Type := {
  ip_active : bool;
  ip_attached : W → gset Addr;
  ip_inactive : ∀ w, ip_active = false → ip_attached w = ∅;
  ip_attached_wf : ∀ w a, a ∈ ip_attached w → ipv4_wf a;
  ip_list_ok : ∀ w w' l, ipm_List M w = (w', Ok l) →
    ip_attached w' = ip_attached w ∧ list_to_set l = ip_attached w;
  ip_list_err : ∀ w w' e, ipm_List M w = (w', Err e) → ip_attached w' = ip_attached w;
  ip_present_ok : ∀ a w w' b, ipv4_wf a → ipm_EnsurePresent M a w = (w', Ok b) →
    ip_attached w' = (if ip_active then {[a]} else ∅) ∪ ip_attached w ∧
    (b = true → ip_active = true ∧ a ∉ ip_attached w);
  ip_present_err : ∀ a w w' e, ipv4_wf a → ipm_EnsurePresent M a w = (w', Err e) →
    ip_attached w ⊆ ip_attached w' ∧ ip_attached w' ⊆ {[a]} ∪ ip_attached w;
  ip_absent_ok : ∀ a w w' b, ipv4_wf a → ipm_EnsureAbsent M a w = (w', Ok b) →
    ip_attached w' = ip_attached w ∖ {[a]} ∧ (b = true → a ∈ ip_attached w);
  ip_absent_err : ∀ a w w' e, ipv4_wf a → ipm_EnsureAbsent M a w = (w', Err e) →
    ip_attached w ∖ {[a]} ⊆ ip_attached w' ∧ ip_attached w' ⊆ ip_attached w;
}.

(** The manager that does nothing keeps the contract. *)
#[export] Instance noop_manager_spec {W E} : IPManagerSpec (noopExternalIPManager (W:=W) (E:=E)).
Proof.
  refine {| ip_active := false; ip_attached := λ _, ∅ |}; cbn.
  - done.
  - set_solver.
  - intros w w' l [= _ <-]. done.
  - done.
  - intros a w w' b _ [= _ <-]. split; [set_solver|done].
  - done.
  - intros a w w' b _ [= _ <-]. split; [set_solver|done].
  - done.
Defined.

(** A manager whose failed and unreported operations change nothing. *)
Class IPManagerExact {W E} (M : ExternalIPManager W E) `{!IPManagerSpec M} : Prop := {
  ipx_present_false : ∀ a w w', ipv4_wf a → ipm_EnsurePresent M a w = (w', Ok false) →
    ip_attached w' = ip_attached w;
  ipx_present_err : ∀ a w w' e, ipv4_wf a → ipm_EnsurePresent M a w = (w', Err e) →
    ip_attached w' = ip_attached w;
  ipx_absent_false : ∀ a w w', ipv4_wf a → ipm_EnsureAbsent M a w = (w', Ok false) →
    ip_attached w' = ip_attached w;
}.

(** What an applier promises: the active configuration is at any time the old
    document or the complete new one, and the reported change is exact. *)
Class ApplierSpec `{GoSort, UnicodeCase} {W E} (A : ConfigApplier W E) : Type := {
  ap_config : W → option string;
  ap_apply_ok : ∀ l w w' b, ca_Apply A l w = (w', Ok b) →
    ∃ doc, Render l = Ok doc ∧ ap_config w' = Some doc ∧ b = bool_decide (ap_config w ≠ Some doc);
  ap_apply_err : ∀ l w w' e, ca_Apply A l w = (w', Err e) →
    ap_config w' = ap_config w ∨ ∃ doc, Render l = Ok doc ∧ ap_config w' = Some doc;
  ap_boot_ok : ∀ w w' u, ca_Bootstrap A w = (w', Ok u) →
    ap_config w' = Some (configHeader +:+ bootstrapFrontendSection);
  ap_boot_err : ∀ w w' e, ca_Bootstrap A w = (w', Err e) →
    ap_config w' = ap_config w ∨ ap_config w' = Some (configHeader +:+ bootstrapFrontendSection);
}.

(** The two act on different parts of the host. *)
Class EngineFrame `{GoSort, UnicodeCase} {W E} (A : ConfigApplier W E) (M : ExternalIPManager W E)
    `{!ApplierSpec A, !IPManagerSpec M} : Prop := {
  fr_apply : ∀ l w, ip_attached (ca_Apply A l w).1 = ip_attached w;
  fr_boot : ∀ w, ip_attached (ca_Bootstrap A w).1 = ip_attached w;
  fr_list : ∀ w, ap_config (ipm_List M w).1 = ap_config w;
  fr_present : ∀ a w, ap_config (ipm_EnsurePresent M a w).1 = ap_config w;
  fr_absent : ∀ a w, ap_config (ipm_EnsureAbsent M a w).1 = ap_config w;
}.

(** ** The loops over addresses *)
Section ip_loops.
Context {W E : Type} (M : ExternalIPManager W E) `{!IPManagerSpec M}.
Implicit Types (w : W) (l : list Addr) (B : gset Addr).

(** Of a set of addresses, those that an active manager attaches *)
Definition ip_act (B : gset Addr) : gset Addr := if ip_active (M:=M) then B else ∅.

#[local] Instance set_unfold_act a B Q :
  SetUnfoldElemOf a B Q → SetUnfoldElemOf a (ip_act B) (ip_active (M:=M) = true ∧ Q).
Proof. intros [HQ]. constructor. unfold ip_act. destruct ip_active; [rewrite HQ; naive_solver|set_solver]. Qed.

(** The manager can attach an address without reporting it, for instance when the
    operation failed and the address is there nevertheless. *)
Definition silently_attached (a : Addr) : Prop :=
  ∃ w w', ipm_EnsurePresent M a w = (w', Ok false) ∧ a ∉ ip_attached w ∧ a ∈ ip_attached w'.

Definition all_ipv4 (l : list Addr) : Prop := ∀ a, a ∈ l → ipv4_wf a.

Lemma all_ipv4_cons a l : all_ipv4 (a :: l) ↔ ipv4_wf a ∧ all_ipv4 l.
Proof.
  unfold all_ipv4. split.
  - intros Hl. split; [apply Hl; by left|]. intros x Hx. apply Hl. by right.
  - intros [Ha Hl] x [->|Hx]%elem_of_cons; auto.
Qed.

Lemma all_ipv4_snoc a l : all_ipv4 (l ++ [a]) ↔ all_ipv4 l ∧ ipv4_wf a.
Proof.
  unfold all_ipv4. split.
  - intros Hl. split; [intros x Hx|]; apply Hl, elem_of_app; [by left|right; by left].
  - intros [Hl Ha] x [Hx|Hx]%elem_of_app; [auto|]. by apply list_elem_of_singleton in Hx as ->.
Qed.

Lemma rollback_spec l w w' errs :
  all_ipv4 l → rollback_loop M l w = (w', errs) →
  ip_attached w ∖ list_to_set l ⊆ ip_attached w' ∧ ip_attached w' ⊆ ip_attached w ∧
  (∀ a, a ∈ l → a ∈ ip_attached w' → a ∈ errs.*1) ∧ (∀ a, a ∈ errs.*1 → a ∈ l).
Proof.
  revert w errs. induction l as [|a l IH]; intros w errs Hwf; cbn [rollback_loop].
  { intros [= <- <-]. split_and!; set_solver. }
  apply all_ipv4_cons in Hwf as [Hwa Hwl].
  destruct (ipm_EnsureAbsent M a w) as [w1 res] eqn:Ha.
  destruct (rollback_loop M l w1) as [w2 errs2] eqn:Hl. intros [= <- <-].
  destruct (IH _ _ Hwl Hl) as (H1 & H2 & H3 & H4). rewrite list_to_set_cons. destruct res as [b|e].
  - apply ip_absent_ok in Ha as [Ha _]; [|done]. rewrite Ha in *.
    split_and!; [clear -H1; set_solver|clear -H2; set_solver| |clear -H4; set_solver].
    intros x [->|Hx]%elem_of_cons Hin; [clear -H2 Hin; set_solver|auto].
  - apply ip_absent_err in Ha as [? ?]; [|done]. clear IH Hwl Hl. cbn [fmap list_fmap fst].
    split_and!; [set_solver|set_solver| |clear -H4; set_solver].
    intros x [->|Hx]%elem_of_cons Hin; [by left|right; auto].
Qed.

Lemma rollback_attached_spec l w w' errs :
  all_ipv4 l → rollbackAttachedExternalIPs M l w = (w', errs) →
  ip_attached w ∖ list_to_set l ⊆ ip_attached w' ∧ ip_attached w' ⊆ ip_attached w ∧
  (∀ a, a ∈ l → a ∈ ip_attached w' → a ∈ errs.*1) ∧ (∀ a, a ∈ errs.*1 → a ∈ l).
Proof.
  intros Hwf Hr. apply rollback_spec in Hr; [|intros a Ha; apply Hwf; by rewrite elem_of_reverse in Ha].
  assert (list_to_set (reverse l) = list_to_set l :> gset Addr) as Hrev by set_solver.
  rewrite Hrev in Hr. setoid_rewrite elem_of_reverse in Hr. done.
Qed.

Lemma rollback_clean l w w' :
  all_ipv4 l → rollbackAttachedExternalIPs M l w = (w', []) → ip_attached w' = ip_attached w ∖ list_to_set l.
Proof.
  intros Hwf Hr. apply rollback_attached_spec in Hr as (H1 & H2 & H3 & _); [|done]. apply set_eq. intros a.
  rewrite elem_of_difference, elem_of_list_to_set. split; [|intros [? ?]; apply H1; set_solver].
  intros Ha. split; [auto|]. intros Hl. by apply (not_elem_of_nil a), (H3 a).
Qed.

Lemma detach_spec c l w w' res :
  all_ipv4 l → detach_loop M c l w = (w', res) →
  ip_attached w ∖ list_to_set l ⊆ ip_attached w' ∧ ip_attached w' ⊆ ip_attached w ∧
  match res with
  | Ok b => ip_attached w' = ip_attached w ∖ list_to_set l ∧
            (c = true → b = true) ∧ (b = true → c = false → ip_attached w' ≠ ip_attached w)
  | Err e => ∃ a err done left, e = ErrDetach a err ∧ l = done ++ a :: left ∧
              ∀ x, x ≠ a → x ∈ ip_attached w' ↔ x ∈ ip_attached w ∧ x ∉ done
  end.
Proof.
  revert c w. induction l as [|a l IH]; intros c w Hwf; cbn [detach_loop].
  { intros [= <- <-]. split_and!; [set_solver..|done|congruence]. }
  apply all_ipv4_cons in Hwf as [Hwa Hwl].
  destruct (ipm_EnsureAbsent M a w) as [w1 [b|e]] eqn:Ha.
  - intros Hl. apply IH in Hl as (H1 & H2 & H3); [|done].
    apply ip_absent_ok in Ha as [Ha Hb]; [|done]. rewrite list_to_set_cons, Ha in *.
    split_and!; [set_solver..|]. destruct res as [b'|err].
    + destruct H3 as (H3 & H4 & H5). split_and!; [clear -H3; set_solver|by intros ->; apply H4|].
      intros Hb' ->. destruct b; [specialize (Hb eq_refl); clear -H2 Hb; set_solver|].
      intros Eq. apply (H5 Hb' eq_refl). clear -H2 Eq. set_solver.
    + destruct H3 as (x & err' & done & left & -> & -> & Hx). exists x, err', (a :: done), left.
      split_and!; [done..|]. intros y Hy. rewrite (Hx y Hy), not_elem_of_cons. set_solver.
  - intros [= <- <-]. apply ip_absent_err in Ha as [? ?]; [|done]. clear IH Hwl. rewrite list_to_set_cons.
    split_and!; [set_solver..|]. exists a, e, [], l. split_and!; [done..|]. intros y Hy. set_solver.
Qed.

(** Attaching: [B] is what was attached when the loop started. *)
Lemma attach_spec B na l w w' res :
  all_ipv4 l → all_ipv4 na → attach_loop M na l w = (w', res) →
  B ⊆ ip_attached w → (∀ a, a ∈ na → a ∉ B) →
  (∀ a, a ∈ ip_attached w → a ∈ B ∨ a ∈ na ∨ silently_attached a) →
  B ⊆ ip_attached w' ∧ ip_attached w' ⊆ ip_attached w ∪ list_to_set l ∧
  match res with
  | Ok na' => ip_attached w' = ip_attached w ∪ ip_act (list_to_set l) ∧ (∀ a, a ∈ na' → a ∉ B) ∧
              (∀ a, a ∈ na' → a ∈ na ∨ a ∈ l) ∧ (na' ≠ [] → na ≠ [] ∨ ip_attached w' ≠ ip_attached w) ∧
              (∀ a, a ∈ ip_attached w' → a ∈ B ∨ a ∈ na' ∨ silently_attached a)
  | Err e => ∃ a err rb, e = ErrAttach a err rb ∧ a ∈ l ∧
              ∀ x, x ∈ ip_attached w' → x ∈ B ∨ x = a ∨ x ∈ rb.*1 ∨ silently_attached x
  end.
Proof.
  revert na w. induction l as [|a l IH]; intros na w Hwf Hwn; cbn [attach_loop].
  { intros [= <- <-] HB Hna Hw. split_and!; try set_solver; auto. }
  apply all_ipv4_cons in Hwf as [Hwa Hwl].
  destruct (ipm_EnsurePresent M a w) as [w1 [b|e]] eqn:Ha.
  - intros Hl HB Hna Hw. pose proof Ha as Ha'. apply ip_present_ok in Ha as [Ha Hb]; [|done].
    fold (ip_act {[a]}) in Ha.
    apply IH in Hl as (H1 & H2 & H3); [|done|by destruct b; [apply all_ipv4_snoc|]|set_solver| |].
    + rewrite list_to_set_cons, Ha in *. split_and!; [done|clear -H2; set_solver|].
      destruct res as [na'|err].
      * destruct H3 as (H3 & H4 & H5 & H6 & H7). split_and!; [clear -H3; set_solver|done|..|done].
        -- intros x Hx. destruct (H5 x Hx) as [Hin|Hin]; destruct b; clear -Hin; set_solver.
        -- intros Hne. destruct b; [specialize (Hb eq_refl); right; clear -H3 Hb; set_solver|].
           destruct (H6 Hne) as [?|Hneq]; [by left|]. right. intros Eq. apply Hneq.
           clear -H3 Eq. set_solver.
      * destruct H3 as (x & err' & rb & -> & Hx & H3). exists x, err', rb. split_and!; [done|by right|done].
    + destruct b; [|done]. intros x [?|Hx]%elem_of_app; [auto|].
      apply list_elem_of_singleton in Hx as ->. set_solver.
    + intros x Hx. destruct (decide (x ∈ ip_attached w)) as [Hin|Hin].
      * destruct (Hw x Hin) as [?|[?|?]]; [by left| |by right; right]. right. left. destruct b; [|done].
        apply elem_of_app. by left.
      * assert (x = a) as -> by (clear -Ha Hx Hin; set_solver). right. destruct b; [left|right].
        -- apply elem_of_app. right. by left.
        -- by exists w, w1.
  - destruct (rollbackAttachedExternalIPs M na w1) as [w2 rb] eqn:Hr. intros [= <- <-] HB Hna Hw.
    apply ip_present_err in Ha as [? Hup]; [|done]. apply rollback_attached_spec in Hr as (? & Hr1 & Hr2 & _); [|done].
    clear IH Hwn Hwl. rewrite list_to_set_cons. split_and!; [set_solver..|]. exists a, e, rb. split_and!; [done|by left|].
    intros x Hx. destruct (decide (x = a)) as [->|Hne]; [by right; left|].
    assert (x ∈ ip_attached w) as Hin by (clear -Hr1 Hup Hx Hne; set_solver).
    destruct (Hw x Hin) as [?|[?|?]]; [by left| |by right; right; right]. right. right. left. auto.
Qed.

(** With an exact manager a rollback without errors restores [B]. *)
Lemma attach_exact `{!IPManagerExact M} B na l w w' res :
  all_ipv4 l → all_ipv4 na → attach_loop M na l w = (w', res) →
  ip_attached w = B ∪ list_to_set na → (∀ a, a ∈ na → a ∉ B) →
  match res with
  | Ok na' => ip_attached w' = B ∪ list_to_set na'
  | Err (ErrAttach _ _ []) => ip_attached w' = B
  | Err _ => True
  end.
Proof.
  revert na w. induction l as [|a l IH]; intros na w Hwf Hwn; cbn [attach_loop].
  { by intros [= <- <-] HB Hna. }
  apply all_ipv4_cons in Hwf as [Hwa Hwl].
  destruct (ipm_EnsurePresent M a w) as [w1 [b|e]] eqn:Ha.
  - intros Hl HB Hna. pose proof (ip_present_ok _ _ _ _ Hwa Ha) as [Ha1 Ha2].
    apply IH in Hl; [done|done|by destruct b; [apply all_ipv4_snoc|]|..]; destruct b.
    + destruct (Ha2 eq_refl) as [Hact _]. rewrite Ha1, Hact, list_to_set_app_L. clear IH Hwl Hwn Hl Hna Ha2. set_solver.
    + apply ipx_present_false in Ha; [|done]. by rewrite Ha.
    + specialize (Ha2 eq_refl). intros x [?|Hx]%elem_of_app; [auto|].
      apply list_elem_of_singleton in Hx as ->. set_solver.
    + done.
  - destruct (rollbackAttachedExternalIPs M na w1) as [w2 rb] eqn:Hr. intros [= <- <-] HB Hna.
    destruct rb as [|]; [|done]. apply rollback_clean in Hr; [|done].
    rewrite Hr, (ipx_present_err _ _ _ _ Hwa Ha) by done. clear IH Hwl Hwn. set_solver.
Qed.

Lemma detach_exact `{!IPManagerExact M} c l w w' b :
  all_ipv4 l → detach_loop M c l w = (w', Ok b) → c = false → b = false → ip_attached w' = ip_attached w.
Proof.
  revert c w. induction l as [|a l IH]; intros c w Hwf; cbn [detach_loop]; [by intros [= <- <-]|].
  apply all_ipv4_cons in Hwf as [Hwa Hwl]. destruct (ipm_EnsureAbsent M a w) as [w1 [d|e]] eqn:Ha; [|done].
  intros Hl -> ->. destruct d.
  - apply detach_spec in Hl as (_ & _ & _ & Hc & _); [|done]. by specialize (Hc eq_refl).
  - rewrite <- (ipx_absent_false _ _ _ Hwa Ha). by eapply IH.
Qed.

(** The loops do not fail when the operations on their addresses do not. *)
Lemma attach_total (P : Addr → Prop) :
  (∀ a w, P a → is_Ok (ipm_EnsurePresent M a w).2 = true) →
  ∀ na l w, (∀ a, a ∈ l → P a) → is_Ok (attach_loop M na l w).2 = true.
Proof.
  intros Hp na l. revert na. induction l as [|a l IH]; intros na w Hl; simpl; [done|].
  specialize (Hp a w (Hl a ltac:(by left))). destruct (ipm_EnsurePresent M a w) as [w' [c|]]; [|done].
  apply IH. intros x Hx. apply Hl. by right.
Qed.

Lemma detach_total (P : Addr → Prop) :
  (∀ a w, P a → is_Ok (ipm_EnsureAbsent M a w).2 = true) →
  ∀ c l w, (∀ a, a ∈ l → P a) → is_Ok (detach_loop M c l w).2 = true.
Proof.
  intros Hp c l. revert c. induction l as [|a l IH]; intros c w Hl; simpl; [done|].
  specialize (Hp a w (Hl a ltac:(by left))). destruct (ipm_EnsureAbsent M a w) as [w' [c'|]]; [|done].
  apply IH. intros x Hx. apply Hl. by right.
Qed.

(** The effect of the last loop on what is attached: [B] was attached before, [na]
    was newly attached, [c] is the change noted so far. *)
Lemma detach_change `{!IPManagerExact M} B na c cur des w w' b :
  all_ipv4 cur → detach_loop M c (diffExternalIPs cur des) w = (w', Ok b) →
  ip_attached w = B ∪ list_to_set na → (∀ a, a ∈ na → a ∉ B) → list_to_set cur = B →
  (na ≠ [] → c = true) →
  (na ≠ [] → ip_attached w' ≠ B) ∧ (b = true ↔ c = true ∨ ip_attached w' ≠ B).
Proof.
  intros Hwf Hd Hw Hna Hcur Hc.
  assert (all_ipv4 (diffExternalIPs cur des)) as Hwd by (intros a [? _]%diff_spec; auto).
  assert (na ≠ [] → ip_attached w' ≠ B) as Hch.
  { destruct na as [|a na]; [done|]. intros _ Eq. apply (Hna a); [by left|].
    destruct (detach_spec _ _ _ _ _ Hwd Hd) as (D & _). rewrite <- Eq. apply D.
    rewrite Hw, elem_of_difference, elem_of_list_to_set, diff_spec. split; [set_solver|].
    intros [Hin _]. apply (Hna a); [by left|]. by rewrite <- Hcur, elem_of_list_to_set. }
  split; [done|]. destruct (detach_spec _ _ _ _ _ Hwd Hd) as (_ & _ & _ & D4 & D5).
  destruct c; [split; [by left|]; intros _; by apply D4|].
  assert (na = []) as -> by (destruct na; [done|]; by specialize (Hc ltac:(done))).
  cbn [list_to_set] in Hw. rewrite right_id_L in Hw by apply _. split.
  - intros ->. right. rewrite <- Hw. by apply D5.
  - intros [?|Hne]; [done|]. destruct b; [done|]. destruct Hne. rewrite <- Hw.
    by eapply detach_exact.
Qed.
End ip_loops.

(** ** Reconciliation *)
Section engine_facts.
Context `{GoSort, UnicodeCase} {W E : Type}.
Context (A : ConfigApplier W E) (M : ExternalIPManager W E).
Context `{!ApplierSpec A, !IPManagerSpec M, !EngineFrame A M}.
Implicit Types (e : Engine W) (w : W).

Lemma rollback_config l w : ap_config (rollback_loop M l w).1 = ap_config w.
Proof.
  revert w. induction l as [|a l IH]; intros w; cbn [rollback_loop]; [done|].
  pose proof (fr_absent (A:=A) a w) as Ha. destruct (ipm_EnsureAbsent M a w) as [w1 res].
  pose proof (IH w1) as Hl. destruct (rollback_loop M l w1). simpl in *. congruence.
Qed.

Lemma attach_config na l w : ap_config (attach_loop M na l w).1 = ap_config w.
Proof.
  revert na w. induction l as [|a l IH]; intros na w; cbn [attach_loop]; [done|].
  pose proof (fr_present (A:=A) a w) as Ha.
  destruct (ipm_EnsurePresent M a w) as [w1 [b|err]]; simpl in Ha.
  - by rewrite IH.
  - pose proof (rollback_config (reverse na) w1) as Hr. unfold rollbackAttachedExternalIPs.
    destruct (rollback_loop M (reverse na) w1). simpl in *. congruence.
Qed.

Lemma detach_config c l w : ap_config (detach_loop M c l w).1 = ap_config w.
Proof.
  revert c w. induction l as [|a l IH]; intros c w; cbn [detach_loop]; [done|].
  pose proof (fr_absent (A:=A) a w) as Ha.
  destruct (ipm_EnsureAbsent M a w) as [w1 [b|err]]; simpl in Ha; [by rewrite IH|done].
Qed.

(** The active configuration is the document of a list of Services. *)
Definition configured (w : W) (l : list Service) : Prop :=
  ∃ doc, Render l = Ok doc ∧ ap_config w = Some doc.

(** The addresses that are to be attached for a list of Services: all of theirs, unless
    attachment is disabled *)
Definition to_attach (l : list Service) (a : Addr) : Prop := ip_active (M:=M) = true ∧ wants_ip l a.

(** What one reconciliation does, by the way it ends.  After a failed detachment the stale
    addresses before the one that failed are gone and those behind it are there.  After
    the other errors the addresses are those from before; of the new ones, only the one
    that could not be attached may be there, those whose detachment the rollback reports
    as failed, and those that the manager has attached without saying so. *)
Definition reconcile_post (e : Engine W) (next : Store) (e' : Engine W)
    (res : result (EngineError E) bool) : Prop :=
  let restored (left : Addr → Prop) :=
    store e' = store e ∧ ip_attached (host e) ⊆ ip_attached (host e') ∧
    ∀ a, a ∈ ip_attached (host e') → a ∈ ip_attached (host e) ∨ wants_ip (StoreList next) a ∧ left a in
  match res with
  | Ok _ =>
    store e' = next ∧ configured (host e') (StoreList next) ∧
    (∀ a, a ∈ ip_attached (host e') ↔ to_attach (StoreList next) a)
  | Err (ErrDetach addr _) =>
    store e' = next ∧ configured (host e') (StoreList next) ∧
    ∃ done left, (∀ a, a ∈ done ++ addr :: left ↔ a ∈ ip_attached (host e) ∧ ¬ wants_ip (StoreList next) a) ∧
      ∀ a, a ≠ addr → a ∈ ip_attached (host e') ↔ to_attach (StoreList next) a ∨ a ∈ left ∧ a ∉ done
  | Err (ErrAttach addr _ rollback) =>
    restored (λ a, a = addr ∨ a ∈ rollback.*1 ∨ silently_attached M a) ∧
    addr ∉ ip_attached (host e) ∧ wants_ip (StoreList next) addr ∧ ap_config (host e') = ap_config (host e)
  | Err (ErrApply _ rollback) =>
    restored (λ a, a ∈ rollback.*1 ∨ silently_attached M a) ∧
    (ap_config (host e') = ap_config (host e) ∨ configured (host e') (StoreList next))
  | Err _ => restored (λ _, False) ∧ ap_config (host e') = ap_config (host e)
  end.

(** Attaching the new addresses and detaching the stale ones gives the desired set. *)
Lemma attached_after w (cur des : list Addr) (gone : list Addr) a :
  (∀ x, x ∈ cur ↔ x ∈ ip_attached w) → (∀ x, x ∈ gone → x ∈ diffExternalIPs cur des) →
  a ∈ (ip_attached w ∪ ip_act M (list_to_set (diffExternalIPs des cur))) ∧ a ∉ gone ↔
  ip_active (M:=M) = true ∧ a ∈ des ∨ a ∈ diffExternalIPs cur des ∧ a ∉ gone.
Proof.
  intros Hcur Hgone. assert (a ∈ gone → a ∉ des) as Hg by (intros [_ ?]%Hgone%diff_spec; done).
  unfold ip_act. destruct (ip_active (M:=M)) eqn:Hact.
  - rewrite elem_of_union, elem_of_list_to_set, !diff_spec, Hcur.
    destruct (decide (a ∈ ip_attached w)), (decide (a ∈ des)); tauto.
  - rewrite elem_of_union, diff_spec, Hcur, (ip_inactive w Hact). set_solver.
Qed.

Lemma reconcile_correct e next e' res :
  reconcileLocked A M e next = (e', res) → reconcile_post e next e' res.
Proof.
  unfold reconcileLocked. pose proof (fr_list (A:=A) (host e)) as Fl.
  destruct (ipm_List M (host e)) as [w1 [cur|err]] eqn:El; simpl in Fl.
  2:{ intros [= <- <-]. simpl. apply ip_list_err in El. rewrite El. split_and!; auto. }
  apply ip_list_ok in El as [Al Hcur].
  assert (∀ a, a ∈ cur ↔ a ∈ ip_attached (host e)) as Hcur' by (intros a; by rewrite <- Hcur, elem_of_list_to_set).
  assert (all_ipv4 cur) as Wc by (intros x Hx; by apply (ip_attached_wf (host e)), Hcur').
  destruct (desiredExternalIPs (StoreList next)) as [des|derr] eqn:Ed.
  2:{ intros [= <- <-]. simpl. rewrite Al. split_and!; auto. }
  pose proof (desired_spec _ _ Ed) as Hdes.
  assert (all_ipv4 (diffExternalIPs des cur)) as Wn by (intros x [[? _]%Hdes _]%diff_spec; done).
  assert (all_ipv4 (diffExternalIPs cur des)) as Ws by (intros x [? _]%diff_spec; auto).
  pose proof (attach_config [] (diffExternalIPs des cur) w1) as Fa.
  destruct (attach_loop M [] _ w1) as [w2 ares] eqn:Ea; simpl in Fa.
  apply (attach_spec M (ip_attached w1)) in Ea as (A1 & A2 & A3);
    [|done|by intros ? ?%not_elem_of_nil|done|set_solver|by left].
  assert (∀ a, a ∈ ip_attached w2 → a ∈ ip_attached (host e) ∨ wants_ip (StoreList next) a) as A4.
  { intros a Ha%A2. rewrite Al, elem_of_union, elem_of_list_to_set, diff_spec, Hdes in Ha. tauto. }
  rewrite Al in A1, A3. destruct ares as [na|aerr].
  2:{ destruct A3 as (a & er & rb & -> & Ha & A5). intros [= <- <-]. simpl. rewrite diff_spec, Hdes, Hcur' in Ha.
      destruct Ha. split_and!; [done|done| |done|done|congruence]. intros x Hx. destruct (A5 x Hx); [by left|].
      destruct (A4 x Hx); [by left|by right]. }
  destruct A3 as (A3 & A5 & A6 & _ & A7).
  assert (all_ipv4 na) as Wna by (intros x Hx; destruct (A6 x Hx) as [?%not_elem_of_nil|?]; [done|auto]).
  pose proof (fr_apply (M:=M) (StoreList next) w2) as Fp.
  destruct (ca_Apply A (StoreList next) w2) as [w3 [cc|perr]] eqn:Ep; simpl in Fp.
  - apply ap_apply_ok in Ep as (doc & HR & Hc & _). set (c := cc || _).
    pose proof (detach_config c (diffExternalIPs cur des) w3) as Fd.
    destruct (detach_loop M c _ w3) as [w4 dres] eqn:Edt; simpl in Fd.
    apply (detach_spec M) in Edt as (_ & _ & D3); [|done]. rewrite Fp, A3 in D3.
    assert (configured w4 (StoreList next)) as Hconf by (exists doc; split; congruence).
    assert (∀ a (gone : list Addr), (∀ x, x ∈ gone → x ∈ diffExternalIPs cur des) →
      a ∈ ip_attached (host e) ∪ ip_act M (list_to_set (diffExternalIPs des cur)) ∧ a ∉ gone ↔
      to_attach (StoreList next) a ∨ a ∈ diffExternalIPs cur des ∧ a ∉ gone) as Hset.
    { intros a gone Hgone. unfold to_attach. rewrite <- Hdes. by apply attached_after. }
    intros [= <- <-]. destruct dres as [b|derr]; cbn [reconcile_post store host].
    + destruct D3 as (D3 & _ & _). split_and!; [done|done|]. intros a.
      rewrite D3, elem_of_difference, elem_of_list_to_set, Hset by done. tauto.
    + destruct D3 as (a & er & done & left & -> & Hl & D3). split_and!; [done|done|]. exists done, left. split.
      * intros x. rewrite <- Hl, diff_spec, Hdes, Hcur'. done.
      * intros x Hx. rewrite (D3 x Hx), Hset, Hl by (rewrite Hl; set_solver). set_solver.
  - destruct (rollbackAttachedExternalIPs M na w3) as [w4 rb] eqn:Er.
    pose proof (rollback_config (reverse na) w3) as Fr. unfold rollbackAttachedExternalIPs in Er.
    rewrite Er in Fr. simpl in Fr. apply (rollback_attached_spec M) in Er as (R1 & R2 & R3 & _); [|done]. rewrite Fp in R1, R2.
    intros [= <- <-]. simpl. split_and!; [done|set_solver| |].
    + intros a Ha. destruct (A7 a (R2 a Ha)) as [?|[?|?]]; [by left| |]; (destruct (A4 a (R2 a Ha)); [by left|right]).
      * split; [done|]. left. auto.
      * split; [done|]. by right.
    + unfold configured. rewrite Fr. destruct (ap_apply_err _ _ _ _ Ep) as [->|?]; [left; congruence|by right].
Qed.

(** On a well-formed store the copy the engine works on is the store itself. *)
Lemma next_ensure s st : store_wf st → Upsert (normalizeService s) (Clone st) = Upsert s st.
Proof. intros Hwf. rewrite Clone_id by done. unfold Upsert. by rewrite normalize_idemp. Qed.



(** ** Rollback and the reported change, for managers that fail cleanly *)
Lemma reconcile_exact `{!IPManagerExact M} e next e' res :
  reconcileLocked A M e next = (e', res) →
  match res with
  | Ok b => b = true ↔ ap_config (host e') ≠ ap_config (host e) ∨
                       ip_attached (host e') ≠ ip_attached (host e)
  | Err (ErrAttach _ _ []) | Err (ErrApply _ []) => ip_attached (host e') = ip_attached (host e)
  | Err _ => True
  end.
Proof.
  unfold reconcileLocked. pose proof (fr_list (A:=A) (host e)) as Fl.
  destruct (ipm_List M (host e)) as [w1 [cur|err]] eqn:El; simpl in Fl; [|by intros [= <- <-]].
  apply ip_list_ok in El as [Al Hcur].
  assert (all_ipv4 cur) as Wc by (intros x Hx; apply (ip_attached_wf (host e)); by rewrite <- Hcur, elem_of_list_to_set).
  destruct (desiredExternalIPs (StoreList next)) as [des|derr] eqn:Ed; [|by intros [= <- <-]].
  assert (all_ipv4 (diffExternalIPs des cur)) as Wn
    by (intros x [[? _]%(desired_spec _ _ Ed) _]%diff_spec; done).
  assert (all_ipv4 (diffExternalIPs cur des)) as Ws by (intros x [? _]%diff_spec; auto).
  assert (all_ipv4 []) as W0 by by intros ? ?%not_elem_of_nil.
  pose proof (attach_config [] (diffExternalIPs des cur) w1) as Fa.
  destruct (attach_loop M [] _ w1) as [w2 ares] eqn:Ea; simpl in Fa.
  pose proof (attach_spec M (ip_attached w1) _ _ _ _ _ Wn W0 Ea ltac:(done) ltac:(set_solver)
    ltac:(by left)) as As.
  apply (attach_exact M (ip_attached w1)) in Ea; [|done|done|set_solver|set_solver].
  destruct ares as [na|aerr].
  2:{ destruct As as (_ & _ & a & err & rb & -> & _). intros [= <- <-]. destruct rb; simpl; congruence. }
  destruct As as (_ & _ & _ & Hnew & Hsub & _).
  assert (all_ipv4 na) as Wna by (intros x Hx; destruct (Hsub x Hx) as [?%not_elem_of_nil|?]; [done|auto]).
  pose proof (fr_apply (M:=M) (StoreList next) w2) as Fp.
  destruct (ca_Apply A (StoreList next) w2) as [w3 [cc|perr]] eqn:Ep; simpl in Fp.
  - apply ap_apply_ok in Ep as (doc & HR & Hc & ->). set (c := _ || _).
    pose proof (detach_config c (diffExternalIPs cur des) w3) as Fd.
    destruct (detach_loop M c _ w3) as [w4 dres] eqn:Edt; simpl in Fd. intros [= <- <-].
    destruct dres as [b|derr]; [|destruct derr as [| | |? ? []|? []|]; simpl; try done].
    2,3: by apply (detach_spec M) in Edt as (_ & _ & ? & ? & ? & ? & ? & _); [|done].
    simpl. rewrite Fd, Hc, <- Fl, <- Fa.
    assert (c = true ↔ ap_config w2 ≠ Some doc ∨ na ≠ []) as Hcb.
    { unfold c. rewrite orb_true_iff, bool_decide_eq_true.
      destruct na; simpl; split; intros [?|?]; auto; congruence. }
    apply (detach_change M (ip_attached (host e)) na) in Edt as [Hna ->];
      [|done|congruence|by rewrite <- Al|done|tauto].
    rewrite Hcb. split; [|intros [?|?]; auto].
    intros [[?|?]|?]; auto.
  - destruct (rollbackAttachedExternalIPs M na w3) as [w4 rb] eqn:Er.
    intros [= <- <-]. destruct rb; [|done]. apply (rollback_clean M) in Er; [|done].
    simpl. rewrite Er, Fp, Ea, <- Al. set_solver.
Qed.

(** C17. With a manager whose failures change nothing, a failed [Ensure] or [Delete]
    whose rollback met no error leaves exactly the addresses attached that were
    attached before, and the [changed] result of a successful one is exact: it
    tells whether the active configuration or the attached addresses changed. *)
Theorem engine_rollback_exact `{!IPManagerExact M} e e' res (s : Service) (r : ServiceRef) :
  EngineEnsure A M s e = (e', res) ∨ EngineDelete A M r e = (e', res) →
  match res with
  | Ok b => b = true ↔ ap_config (host e') ≠ ap_config (host e) ∨
                       ip_attached (host e') ≠ ip_attached (host e)
  | Err (ErrAttach _ _ []) | Err (ErrApply _ []) => ip_attached (host e') = ip_attached (host e)
  | Err _ => True
  end.
Proof.
  unfold EngineEnsure, EngineDelete. intros [He|He].
  - destruct (ValidateService _); [by eapply reconcile_exact|]. by injection He as <- <-.
  - destruct (StoreGet _ _); [by eapply reconcile_exact|]. injection He as <- <-. simpl.
    split; [done|]. by intros [?|?].
Qed.

(** ** Reachable states *)
Inductive engine_op : Type :=
| OpEnsure (s : Service)
| OpDelete (r : ServiceRef)
| OpBootstrap.

Definition engine_run (op : engine_op) (e : Engine W) : Engine W :=
  match op with
  | OpEnsure s => (EngineEnsure A M s e).1
  | OpDelete r => (EngineDelete A M r e).1
  | OpBootstrap => (EngineBootstrap A e).1
  end.

(** States reached from a fresh engine by any calls, successful or not. *)
Inductive engine_reachable : Engine W → Prop :=
| reach_new w : engine_reachable (MkEngine NewStore w)
| reach_step op e : engine_reachable e → engine_reachable (engine_run op e).

(** The store is well-formed and valid, and unless attachment is disabled the address of
    every stored Service is attached. *)
Definition engine_inv (e : Engine W) : Prop :=
  store_wf (store e) ∧ (∀ r s, services (store e) !! r = Some s → service_valid s) ∧
  (∀ a, to_attach (StoreList (store e)) a → a ∈ ip_attached (host e)).

Lemma reconcile_inv e next :
  engine_inv e → store_wf next → (∀ r s, services next !! r = Some s → service_valid s) →
  engine_inv (reconcileLocked A M e next).1.
Proof.
  intros (Hwf & Hval & Hatt) Hwf' Hval'.
  destruct (reconcileLocked A M e next) as [e' res] eqn:Hr.
  apply reconcile_correct in Hr. unfold engine_inv. destruct res as [b|err]; cbn in Hr |- *.
  { destruct Hr as (-> & _ & Ha). split_and!; [done..|]. intros a. apply Ha. }
  destruct err; cbn in Hr.
  6:{ destruct Hr as (-> & _ & done & left & Hst & Ha). split_and!; [done..|]. intros a Hw.
      apply Ha; [|by left]. intros ->. destruct Hw as [_ Hw].
      by destruct (proj1 (Hst addr)) as [_ ?]; [apply elem_of_app; right; by left|]. }
  all: destruct Hr as [(-> & Hsub & _) _]; split_and!; [done..|]; intros a Hw; by apply Hsub, Hatt.
Qed.

Lemma engine_run_inv op e : engine_inv e → engine_inv (engine_run op e).
Proof.
  intros Hinv. pose proof Hinv as (Hwf & Hval & Hatt). destruct op as [s|r|]; simpl.
  - unfold EngineEnsure. destruct (ValidateService _) as [[]|] eqn:Hv; [|done].
    rewrite next_ensure by done. apply reconcile_inv; [done|by auto with lb|].
    intros r x. rewrite Upsert_services. intros [[_ <-]|[_ Hx]]%lookup_insert_Some; [|by eapply Hval].
    by apply ValidateService_spec.
  - unfold EngineDelete. destruct (StoreGet _ _); [|done]. rewrite Clone_id by done.
    apply reconcile_inv; [done|by auto with lb|].
    intros r' x. rewrite StoreDelete_services. intros [_ Hx]%lookup_delete_Some. by eapply Hval.
  - unfold EngineBootstrap. pose proof (fr_boot (A:=A) (M:=M) (host e)) as Hb.
    destruct (ca_Bootstrap A (host e)) as [w res]. simpl in *.
    split_and!; [done..|]. intros a Ha. simpl. rewrite Hb. by apply Hatt.
Qed.


(** The engine makes progress: in a reachable state, when the host's address
    operations work and the applier succeeds on every document that renders,
    ensuring a valid Service succeeds. *)
Theorem EngineEnsure_succeeds s e :
  engine_inv e → service_valid s →
  (∀ w, is_Ok (ipm_List M w).2 = true) →
  (∀ a w, ipv4_wf a → is_Ok (ipm_EnsurePresent M a w).2 = true) →
  (∀ a w, a ∈ ip_attached (host e) → is_Ok (ipm_EnsureAbsent M a w).2 = true) →
  (∀ l w, is_Ok (Render l) = true → is_Ok (ca_Apply A l w).2 = true) →
  is_Ok (EngineEnsure A M s e).2 = true.
Proof.
  intros (Hwf & Hval & _) Hs Hlist Hpres Habs Happ. unfold EngineEnsure.
  rewrite (proj2 (ValidateService_spec _)) by by apply service_valid_normalize.
  rewrite next_ensure by done. set (next := Upsert s (store e)).
  assert (store_wf next) as Hwf' by (unfold next; auto with lb).
  assert (∀ x, x ∈ StoreList next → service_valid x) as Hall.
  { intros x Hx. apply StoreList_elem in Hx; [|done]. unfold next in Hx.
    rewrite Upsert_services in Hx. apply lookup_insert_Some in Hx as [[_ <-]|[_ Hx]]; [|by eapply Hval].
    by apply service_valid_normalize. }
  destruct (reconcileLocked A M e next) as [e' [b|err]] eqn:Hr; [done|exfalso].
  unfold reconcileLocked in Hr. specialize (Hlist (host e)).
  destruct (ipm_List M (host e)) as [w1 [cur|]] eqn:El; [|done].
  apply ip_list_ok in El as [_ Hcur].
  destruct (desired_is_ok _ Hall) as [des Ed]. rewrite Ed in Hr.
  pose proof (attach_total M _ Hpres [] (diffExternalIPs des cur) w1) as Hattach.
  destruct (attach_loop M [] _ w1) as [w2 [na|]]; [clear Hattach|].
  2:{ simpl in Hattach. enough (false = true) by done. apply Hattach. intros a Ha.
      apply diff_spec in Ha as [Ha _]. by apply (desired_spec _ _ Ed) in Ha as [? _]. }
  specialize (Happ (StoreList next) w2). destruct (ca_Apply A _ w2) as [w3 [cc|]].
  2:{ enough (false = true) by done. apply Happ, Render_is_ok. intros x (l1 & l2 & E2 & _).
      apply Hall. rewrite E2. set_solver. }
  pose proof (detach_total M _ Habs (cc || (0 <? Z.of_nat (length na))) (diffExternalIPs cur des) w3)
    as Hdet.
  destruct (detach_loop M _ _ w3) as [w4 res]. injection Hr as <- ->.
  enough (false = true) by done. apply Hdet. intros a Ha. apply diff_spec in Ha as [Ha _].
  by rewrite <- Hcur, elem_of_list_to_set.
Qed.
End engine_facts.

(** ** The engine as a provider *)
Section engine_provider.
Context `{GoSort, UnicodeCase} {W E : Type}.
Context (A : ConfigApplier W E) (M : ExternalIPManager W E).

Lemma reconcile_store e next e' res :
  reconcileLocked A M e next = (e', res) →
  (store e' = next) ∨ (store e' = store e ∧ is_Ok res = false).
Proof.
  unfold reconcileLocked. destruct (ipm_List M (host e)) as [w1 [cur|err]]; [|by intros [= <- <-]; right].
  destruct (desiredExternalIPs _); [|by intros [= <- <-]; right].
  destruct (attach_loop M [] _ w1) as [w2 [na|aerr]]; [|by intros [= <- <-]; right].
  destruct (ca_Apply A _ w2) as [w3 [cc|perr]].
  - destruct (detach_loop M _ _ w3) as [w4 dres]. intros [= <- <-]. by left.
  - destruct (rollbackAttachedExternalIPs M na w3). intros [= <- <-]. by right.
Qed.

Definition engine_view (e : Engine W) : gmap ServiceRef Service := normalizeService <$> services (store e).

Lemma view_ensure s st :
  normalizeService <$> services (Upsert (normalizeService s) (Clone st)) =
  <[Ref s := normalizeService s]> (normalizeService <$> services st).
Proof.
  rewrite Upsert_services, fmap_insert, !normalize_idemp. f_equal.
  unfold Clone. simpl. rewrite <- map_fmap_compose. apply map_fmap_ext.
  intros. apply normalize_idemp.
Qed.

Lemma view_delete r st :
  normalizeService <$> services (StoreDelete r (Clone st)).1 =
  delete r (normalizeService <$> services st).
Proof.
  rewrite StoreDelete_services, fmap_delete. f_equal.
  unfold Clone. simpl. rewrite <- map_fmap_compose. apply map_fmap_ext.
  intros. apply normalize_idemp.
Qed.

Definition engine_provider : Provider (Engine W) (EngineError E) :=
  MkProvider (EngineEnsure A M) (EngineDelete A M).

#[export] Instance engine_provider_spec : ProviderSpec engine_provider.
Proof.
  refine {| pv_state := engine_view; pv_norm := normalizeService |}; cbn [Ensure Delete engine_provider];
    unfold engine_view.
  - done.
  - intros s e e' b. unfold EngineEnsure. destruct (ValidateService _); [|done].
    intros [->|[_ ?]]%reconcile_store; [apply view_ensure|done].
  - intros s e e' err. unfold EngineEnsure. destruct (ValidateService _).
    + intros [->|[-> _]]%reconcile_store; [right; apply view_ensure|by left].
    + intros [= <- _]. by left.
  - intros r e e' b. unfold EngineDelete, StoreGet.
    destruct (services (store e) !! r) eqn:Hr; simpl.
    + intros [->|[_ ?]]%reconcile_store; [apply view_delete|done].
    + intros [= <- _]. rewrite delete_id; [done|]. by rewrite lookup_fmap, Hr.
  - intros r e e' err. unfold EngineDelete. destruct (StoreGet _ _); [|done].
    intros [->|[-> _]]%reconcile_store; [right; apply view_delete|by left].
Defined.
End engine_provider.
