(* ===== verification/FilePath.v ===== *)
(** * Slash-separated paths (Go's [path] and [path/filepath] on Unix) *)
From S2P Require Import Prelude GoStrings.
Local Open Scope Z_scope.

Definition slash : ascii := "/"%char.

(** One element of the path, on the stack of the elements kept so far: the
    rules of [Clean] for empty elements, ["."] and [".."]. *)
Definition clean_step (rooted : bool) (stack : list string) (elem : string) : list string :=
  if bool_decide (elem = "") || bool_decide (elem = ".") then stack else
  if bool_decide (elem = "..") then
    match stack with
    | [] => if rooted then [] else [".."]
    | top :: rest => if bool_decide (top = "..") then ".." :: stack else rest
    end
  else elem :: stack.

(** [path.Clean] *)
Definition Clean (path : string) : string :=
  if bool_decide (path = "") then "." else
  let rooted := HasPrefix path "/" in
  let body := String.concat "/" (reverse (foldl (clean_step rooted) [] (Split path slash))) in
  if rooted then "/" +:+ body else if bool_decide (body = "") then "." else body.

Fixpoint take_while (f : ascii → bool) (l : list ascii) : list ascii :=
  match l with
  | [] => []
  | c :: l => if f c then c :: take_while f l else []
  end.

Definition not_slash (c : ascii) : bool := bool_decide (c ≠ slash).

(** [filepath.Dir]: the text up to the last slash, cleaned. *)
Definition Dir (path : string) : string :=
  Clean (of_bytes (reverse (drop_while not_slash (reverse (bytes path))))).

(** [filepath.Base]: the text after the last slash, trailing slashes removed. *)
Definition Base (path : string) : string :=
  if bool_decide (path = "") then "." else
  let stripped := drop_while (λ c, bool_decide (c = slash)) (reverse (bytes path)) in
  match stripped with
  | [] => "/"
  | _ => of_bytes (reverse (take_while not_slash stripped))
  end.

(** [os.joinPath] *)
Definition joinPath (dir name : string) : string :=
  match last (bytes dir) with
  | Some c => if bool_decide (c = slash) then dir +:+ name else dir +:+ "/" +:+ name
  | None => "/" +:+ name
  end.

(** [path.Join]: the non-empty elements joined by slashes and cleaned. *)
Definition Join (elems : list string) : string :=
  match filter (λ e : string, e ≠ "") elems with
  | [] => ""
  | l => Clean (String.concat "/" l)
  end.

(** ** Facts *)
Lemma take_while_app f l k :
  (∀ c, c ∈ l → f c = true) → take_while f (l ++ k) = l ++ take_while f k.
Proof.
  induction l as [|c l IH]; intros Hl; simpl; [done|].
  rewrite Hl by by left. f_equal. apply IH. intros d Hd. apply Hl. by right.
Qed.

Lemma Base_name l name :
  slash ∉ bytes name → name ≠ "" → Base (of_bytes (l ++ [slash]) +:+ name) = name.
Proof.
  intros Hs Hne. unfold Base. rewrite bool_decide_eq_false_2.
  2:{ intros E. apply (f_equal bytes) in E. rewrite bytes_app, bytes_of_bytes in E. by destruct l. }
  rewrite bytes_app. autorewrite with lb_rw. rewrite reverse_app.
  destruct (reverse (bytes name)) as [|c k] eqn:E.
  { destruct Hne. apply bytes_nil. by rewrite <- (reverse_involutive (bytes name)), E. }
  assert (∀ d, d ∈ c :: k → not_slash d = true) as Hk.
  { intros d Hd. rewrite <- E in Hd. apply (proj1 (elem_of_reverse _ _)) in Hd. apply bool_decide_eq_true. congruence. }
  cbn [app drop_while]. rewrite bool_decide_eq_false_2.
  2:{ intros ->. specialize (Hk slash ltac:(by left)). by unfold not_slash in Hk; rewrite bool_decide_eq_false_2 in Hk by tauto. }
  rewrite app_comm_cons, take_while_app by done. rewrite <- E.
  rewrite (reverse_app l [slash]). change (take_while not_slash (reverse [slash] ++ reverse l)) with (@nil ascii).
  rewrite app_nil_r, reverse_involutive. apply of_bytes_bytes.
Qed.

Lemma Base_joinPath dir name : slash ∉ bytes name → name ≠ "" → Base (joinPath dir name) = name.
Proof.
  intros Hs Hne. unfold joinPath. destruct (last (bytes dir)) as [c|] eqn:E.
  - case_bool_decide as Hc; [subst c|].
    + apply last_Some in E as [l El]. rewrite <- (of_bytes_bytes dir), El. by apply Base_name.
    + assert (dir +:+ "/" +:+ name = of_bytes (bytes dir ++ [slash]) +:+ name) as ->.
      { rewrite of_bytes_app, of_bytes_bytes. apply (inj bytes). rewrite !bytes_app. by rewrite <- app_assoc. }
      by apply Base_name.
  - by apply (Base_name [] name).
Qed.

(** *** Cleaning *)

(** An element that [Clean] keeps *)
Definition clean_elem (e : string) : Prop := e ≠ "." ∧ e ≠ ".." ∧ slash ∉ bytes e.

Lemma clean_elems stack l :
  Forall clean_elem l → foldl (clean_step true) stack l = reverse (filter (λ e, e ≠ "") l) ++ stack.
Proof.
  intros Hl. revert stack. induction Hl as [|e l (H1 & H2 & _) Hl IH]; intros stack; cbn [foldl]; [done|].
  rewrite IH. unfold clean_step. rewrite (bool_decide_eq_false_2 (e = ".")), (bool_decide_eq_false_2 (e = "..")) by done.
  destruct (decide (e = "")) as [->|He].
  - rewrite bool_decide_eq_true_2 by done. cbn [orb]. by rewrite filter_cons_False by tauto.
  - rewrite (bool_decide_eq_false_2 (e = "")) by done. cbn [orb]. rewrite filter_cons_True by done.
    by rewrite reverse_cons, <- app_assoc.
Qed.

Lemma concat_cons e l : l ≠ [] → String.concat "/" (e :: l) = e +:+ String slash (String.concat "/" l).
Proof. by destruct l. Qed.

Lemma Split_concat l : l ≠ [] → Forall (λ e, slash ∉ bytes e) l → Split (String.concat "/" l) slash = l.
Proof.
  induction l as [|e l IH]; [done|]. intros _ [He Hl]%Forall_cons. destruct (decide (l = [])) as [->|Hne].
  - by apply Split_last.
  - rewrite concat_cons by done. rewrite Split_sep by done. by rewrite IH.
Qed.

(** A rooted path is cleaned to its non-empty elements. *)
Lemma Clean_elems l :
  l ≠ [] → Forall clean_elem l →
  Clean ("/" +:+ String.concat "/" l) = "/" +:+ String.concat "/" (filter (λ e, e ≠ "") l).
Proof.
  intros Hne Hl. unfold Clean. rewrite bool_decide_eq_false_2 by done.
  assert (∀ s, HasPrefix ("/" +:+ s) "/" = true) as -> by by intros [].
  assert (Split ("/" +:+ String.concat "/" l) slash = "" :: l) as ->.
  { change ("/" +:+ String.concat "/" l) with ("" +:+ String slash (String.concat "/" l)).
    rewrite Split_sep by (apply not_elem_of_nil). rewrite Split_concat; [done|done|].
    eapply Forall_impl; [done|]. by intros e (_ & _ & He). }
  cbn [foldl]. change (clean_step true [] "") with (@nil string). rewrite clean_elems by done.
  by rewrite app_nil_r, reverse_involutive.
Qed.
