(* ===== verification/Apply.v ===== *)
(** * Applying the configuration (internal/dataplane/apply.go)

    The applier works on the file system and runs external commands.  The file
    system is modelled with the operations of Go's [os] package the applier
    calls; every call may be made to fail by the list of faults the state
    carries, and every version of the files is kept in a history, so that
    theorems can speak of what an observer (HAProxy, or a restart after a crash)
    sees at any moment.  Commands are a parameter. *)
From S2P Require Import Prelude GoStrings GoSort NetIP Provider IPAM Store Render FilePath ExternalIPs Engine.
Local Open Scope Z_scope.

(** ** The file system *)
Inductive Errno : Type := ENOENT | EISDIR | ENOTDIR | EINVAL | ENOTSUP | EIO.

(** An injected failure, and how many bytes a failing write still wrote. *)
Inductive FaultKind : Type := FaultInval | FaultNotSup | FaultIO.
Record Fault : Type := MkFault { f_kind : FaultKind; f_written : nat }.

Definition fault_errno (f : Fault) : Errno :=
  match f_kind f with FaultInval => EINVAL | FaultNotSup => ENOTSUP | FaultIO => EIO end.

Record FS : Type := MkFS {
  files : gmap string string;
  dirs : gset string;
  faults : list (option Fault);
  history : list (gmap string string);
}.

Definition set_files (m : gmap string string) (fs : FS) : FS :=
  MkFS m (dirs fs) (faults fs) (m :: history fs).

Definition set_dirs (d : gset string) (fs : FS) : FS :=
  MkFS (files fs) d (faults fs) (history fs).

Definition set_faults (l : list (option Fault)) (fs : FS) : FS :=
  MkFS (files fs) (dirs fs) l (history fs).

(** One system call: it fails when the next fault says so. *)
Definition syscall {A} (on_fault : Fault → FS → FS) (body : FS → FS * result Errno A) (fs : FS) :
    FS * result Errno A :=
  match faults fs with
  | Some f :: rest => (on_fault f (set_faults rest fs), Err (fault_errno f))
  | None :: rest => body (set_faults rest fs)
  | [] => body fs
  end.

Definition keep (f : Fault) (fs : FS) : FS := fs.

(** [os.ReadFile] *)
Definition ReadFile (path : string) : FS → FS * result Errno string :=
  syscall keep (λ fs,
    (fs, match files fs !! path with
         | Some c => Ok c
         | None => if bool_decide (path ∈ dirs fs) then Err EISDIR else Err ENOENT
         end)).

(** [os.MkdirAll] *)
Definition MkdirAll (dir : string) : FS → FS * result Errno () :=
  syscall keep (λ fs,
    match files fs !! dir with
    | Some _ => (fs, Err ENOTDIR)
    | None => (set_dirs ({[dir]} ∪ dirs fs) fs, Ok ())
    end).

(** [os.CreateTemp] draws random decimal digits until the name is new. *)
Class TempNames := {
  temp_random : string → FS → string;
  temp_random_digits : ∀ prefix fs c, c ∈ bytes (temp_random prefix fs) → is_digit c = true;
  temp_random_fresh : ∀ prefix fs,
    files fs !! (prefix +:+ temp_random prefix fs) = None ∧
    prefix +:+ temp_random prefix fs ∉ dirs fs;
}.

(** [os.CreateTemp(dir, name + "*")] *)
Definition CreateTemp `{TempNames} (dir name : string) (fs : FS) : FS * result Errno string :=
  if bool_decide (slash ∈ bytes name) then (fs, Err EINVAL) else
  syscall keep (λ fs,
    if bool_decide (dir ∈ dirs fs) then
      let prefix := joinPath dir name in
      let path := prefix +:+ temp_random prefix fs in
      (set_files (<[path := ""]> (files fs)) fs, Ok path)
    else (fs, Err ENOENT)) fs.

(** [File.Write] on a file opened at its start *)
Definition WriteFile (path data : string) : FS → FS * result Errno () :=
  syscall
    (λ f fs, set_files (<[path := of_bytes (take (f_written f) (bytes data))]> (files fs)) fs)
    (λ fs, (set_files (<[path := data]> (files fs)) fs, Ok ())).

(** [File.Sync] and [File.Close] *)
Definition SyncFile : FS → FS * result Errno () := syscall keep (λ fs, (fs, Ok ())).
Definition CloseFile : FS → FS * result Errno () := syscall keep (λ fs, (fs, Ok ())).

(** [os.Remove] on a regular file *)
Definition Remove (path : string) : FS → FS * result Errno () :=
  syscall keep (λ fs,
    match files fs !! path with
    | Some _ => (set_files (delete path (files fs)) fs, Ok ())
    | None => (fs, Err ENOENT)
    end).

(** [os.Rename] of a regular file: atomic. *)
Definition Rename (old new : string) : FS → FS * result Errno () :=
  syscall keep (λ fs,
    match files fs !! old with
    | None => (fs, Err ENOENT)
    | Some c =>
      if bool_decide (new ∈ dirs fs) then (fs, Err EISDIR)
      else (set_files (<[new := c]> (delete old (files fs))) fs, Ok ())
    end).

(** [os.Open] for reading *)
Definition Open (path : string) : FS → FS * result Errno () :=
  syscall keep (λ fs,
    (fs, if bool_decide (path ∈ dirs fs) || bool_decide (is_Some (files fs !! path))
         then Ok () else Err ENOENT)).

(** [os.Stat]: whether the path is a directory *)
Definition Stat (path : string) : FS → FS * result Errno bool :=
  syscall keep (λ fs,
    (fs, if bool_decide (path ∈ dirs fs) then Ok true else
         match files fs !! path with Some _ => Ok false | None => Err ENOENT end)).

(** ** The applier *)
Definition configPlaceholder : string := "{{config}}".

Record ApplyConfig : Type := MkApplyConfig {
  ConfigPath : string;
  ValidateCommand : string;
  ReloadCommand : string;
  PIDFile : string;
}.

Definition NewApplier (cfg : ApplyConfig) : result string ApplyConfig :=
  let configPath := TrimSpace (ConfigPath cfg) in
  if bool_decide (configPath = "") then Err "config path must not be empty" else
  Ok (MkApplyConfig (Clean configPath) (TrimSpace (ValidateCommand cfg))
        (TrimSpace (ReloadCommand cfg)) (TrimSpace (PIDFile cfg))).

Inductive WriteStep : Type := StepMkdir | StepCreate | StepWrite | StepSync | StepClose.

Section applier.
Context `{GoSort, UnicodeCase, TempNames} {X ExecError : Type}.

(** The host: its file system and the rest of it. *)
Record Host : Type := MkHost { fs : FS; rest : X }.

(** Running a command: its combined output and its error. *)
Variable exec : list string → Host → Host * (string * option ExecError).

Inductive CommandError : Type :=
| ErrEmptyCommand (command : string)
| ErrCommand (e : ExecError) (output : string).

Inductive ApplyError : Type :=
| ErrRenderConfig (e : RenderError)
| ErrReadActive (path : string) (e : Errno)
| ErrWriteCandidate (step : WriteStep) (e : Errno)
| ErrValidate (e : CommandError)
| ErrReplace (path : string) (e : Errno)
| ErrSyncDir (e : Errno)
| ErrReload (e : CommandError)
| ErrBootstrap (e : ApplyError).

(** A system call on the host *)
Definition lift {A} (call : FS → FS * result Errno A) (h : Host) : Host * result Errno A :=
  let '(s, r) := call (fs h) in (MkHost s (rest h), r).

Definition renderedConfigMatchesCurrentFile (configPath renderedConfig : string) (h : Host) :
    Host * result ApplyError bool :=
  match lift (ReadFile configPath) h with
  | (h, Err ENOENT) => (h, Ok false)
  | (h, Err e) => (h, Err (ErrReadActive configPath e))
  | (h, Ok currentConfig) => (h, Ok (bool_decide (currentConfig = renderedConfig)))
  end.

(** The closure [cleanup]: its error is dropped. *)
Definition cleanup (candidatePath : string) (h : Host) : Host := (lift (Remove candidatePath) h).1.

(** [_ = candidateFile.Close()] *)
Definition close_quietly (h : Host) : Host := (lift CloseFile h).1.

Definition writeCandidateFile (configPath data : string) (h : Host) : Host * result ApplyError string :=
  let configDir := Dir configPath in
  match lift (MkdirAll configDir) h with
  | (h, Err e) => (h, Err (ErrWriteCandidate StepMkdir e))
  | (h, Ok _) =>
    match lift (CreateTemp configDir (Base configPath +:+ ".tmp-")) h with
    | (h, Err e) => (h, Err (ErrWriteCandidate StepCreate e))
    | (h, Ok candidatePath) =>
      match lift (WriteFile candidatePath data) h with
      | (h, Err e) => (cleanup candidatePath (close_quietly h), Err (ErrWriteCandidate StepWrite e))
      | (h, Ok _) =>
        match lift SyncFile h with
        | (h, Err e) => (cleanup candidatePath (close_quietly h), Err (ErrWriteCandidate StepSync e))
        | (h, Ok _) =>
          match lift CloseFile h with
          | (h, Err e) => (cleanup candidatePath h, Err (ErrWriteCandidate StepClose e))
          | (h, Ok _) => (h, Ok candidatePath)
          end
        end
      end
    end
  end.

(** The characters that need a shell; 34 is the double quote. *)
Definition commandRequiresShell (command : string) : bool :=
  ContainsAny command ("'" +:+ String (zb 34) "|&;<>$`()").

Definition run_argv (argv : list string) (h : Host) : Host * result CommandError () :=
  match exec argv h with
  | (h, (_, None)) => (h, Ok ())
  | (h, (output, Some err)) => (h, Err (ErrCommand err (TrimSpace output)))
  end.

Definition runCommand (command configPath : string) (h : Host) : Host * result CommandError () :=
  let command := TrimSpace command in
  if bool_decide (command = "") then (h, Ok ()) else
  let replaced := ReplaceAll command configPlaceholder configPath in
  if commandRequiresShell replaced then run_argv ["/bin/sh"; "-ec"; replaced] h else
  match Fields replaced with
  | [] => (h, Err (ErrEmptyCommand command))
  | args => run_argv args h
  end.

Definition ignorableSyncError (e : Errno) : bool :=
  match e with EINVAL | ENOTSUP => true | _ => false end.

Definition syncPath (path : string) (h : Host) : Host * result Errno () :=
  match lift (Open path) h with
  | (h, Err e) => (h, Err e)
  | (h, Ok _) =>
    let '(h, r) := lift SyncFile h in
    let h := close_quietly h in
    match r with
    | Err e => (h, if ignorableSyncError e then Ok () else Err e)
    | Ok _ => (h, Ok ())
    end
  end.

(** [applyRenderedConfig] once the active file is known to differ: the deferred
    function removes the candidate unless the rename took place. *)
Definition replaceActiveConfig (a : ApplyConfig) (renderedConfig : string) (reload : bool) (h : Host) :
    Host * result ApplyError bool :=
  match writeCandidateFile (ConfigPath a) renderedConfig h with
  | (h, Err e) => (h, Err e)
  | (h, Ok candidatePath) =>
    match runCommand (ValidateCommand a) candidatePath h with
    | (h, Err e) => (cleanup candidatePath h, Err (ErrValidate e))
    | (h, Ok _) =>
      match lift (Rename candidatePath (ConfigPath a)) h with
      | (h, Err e) => (cleanup candidatePath h, Err (ErrReplace (ConfigPath a) e))
      | (h, Ok _) =>
        match syncPath (Dir (ConfigPath a)) h with
        | (h, Err e) => (h, Err (ErrSyncDir e))
        | (h, Ok _) =>
          if reload then
            match runCommand (ReloadCommand a) (ConfigPath a) h with
            | (h, Err e) => (h, Err (ErrReload e))
            | (h, Ok _) => (h, Ok true)
            end
          else (h, Ok true)
        end
      end
    end
  end.

Definition applyRenderedConfig (a : ApplyConfig) (renderedConfig : string) (reload : bool) (h : Host) :
    Host * result ApplyError bool :=
  match renderedConfigMatchesCurrentFile (ConfigPath a) renderedConfig h with
  | (h, Err e) => (h, Err e)
  | (h, Ok true) => (h, Ok false)
  | (h, Ok false) => replaceActiveConfig a renderedConfig reload h
  end.

Definition shouldReloadOnBootstrap (a : ApplyConfig) (h : Host) : Host * bool :=
  if bool_decide (TrimSpace (ReloadCommand a) = "") then (h, false) else
  if bool_decide (TrimSpace (PIDFile a) = "") then (h, false) else
  match lift (Stat (PIDFile a)) h with
  | (h, Err _) => (h, false)
  | (h, Ok isDir) => (h, negb isDir)
  end.

Definition Apply (a : ApplyConfig) (l : list Service) (h : Host) : Host * result ApplyError bool :=
  match Render l with
  | Err e => (h, Err (ErrRenderConfig e))
  | Ok renderedConfig => applyRenderedConfig a renderedConfig true h
  end.

Definition Bootstrap (a : ApplyConfig) (h : Host) : Host * result ApplyError () :=
  match Render [] with
  | Err e => (h, Err (ErrRenderConfig e))
  | Ok renderedConfig =>
    let '(h, reload) := shouldReloadOnBootstrap a h in
    match applyRenderedConfig a renderedConfig reload h with
    | (h, Err e) => (h, Err (ErrBootstrap e))
    | (h, Ok _) => (h, Ok ())
    end
  end.

Definition applier_of (a : ApplyConfig) : ConfigApplier Host ApplyError :=
  MkConfigApplier (Apply a) (Bootstrap a).
End applier.
Arguments Host : clear implicits.
Arguments ApplyError : clear implicits.
Arguments CommandError : clear implicits.

(** ** What one system call does *)
Ltac syscall_cases :=
  unfold syscall; repeat match goal with
  | |- context [match faults ?s with _ => _ end] => destruct (faults s) as [|[?|] ?]; simpl
  | |- context [match files ?s !! ?p with _ => _ end] => destruct (files s !! p) eqn:?; simpl
  | |- context [if bool_decide ?P then _ else _] => destruct (decide P) as [?|?];
      [rewrite (bool_decide_eq_true_2 P) by done|rewrite (bool_decide_eq_false_2 P) by done]; simpl
  end.

(** The files and the history are the same. *)
Definition same_files (s s' : FS) : Prop := files s' = files s ∧ history s' = history s.

(** The files changed to [m], in one step. *)
Definition moved_to (m : gmap string string) (s s' : FS) : Prop :=
  files s' = m ∧ history s' = m :: history s.

Lemma ReadFile_spec p s s' r :
  ReadFile p s = (s', r) → same_files s s' ∧
  match r with
  | Ok c => files s !! p = Some c
  | Err ENOENT => files s !! p = None
  | Err _ => True
  end.
Proof.
  unfold ReadFile, same_files. syscall_cases; intros [= <- <-]; simpl; auto;
    match goal with f : Fault |- _ => destruct f as [[] ?] end; done.
Qed.

Lemma MkdirAll_spec d s s' r : MkdirAll d s = (s', r) → same_files s s'.
Proof. unfold MkdirAll, same_files. syscall_cases; intros [= <- <-]; auto. Qed.

Lemma CreateTemp_spec `{TempNames} d name s s' r :
  CreateTemp d name s = (s', r) →
  match r with
  | Ok path => slash ∉ bytes name ∧ files s !! path = None ∧
      (∃ rnd, path = joinPath d name +:+ rnd ∧ ∀ c, c ∈ bytes rnd → is_digit c = true) ∧
      moved_to (<[path := ""]> (files s)) s s'
  | Err _ => same_files s s'
  end.
Proof.
  unfold CreateTemp, same_files, moved_to. case_bool_decide; [intros [= <- <-]; auto|].
  unfold syscall. destruct (faults s) as [|[f|] rest]; cbn [set_faults dirs files];
    [|intros [= <- <-]; auto|]; case_bool_decide; intros [= <- <-]; cbn; auto.
  - split; [done|]. split; [apply temp_random_fresh|]. split; [|done].
    eexists. split; [done|]. apply temp_random_digits.
  - split; [done|]. split; [apply (temp_random_fresh _ (set_faults rest s))|]. split; [|done].
    eexists. split; [done|]. apply temp_random_digits.
Qed.

Lemma WriteFile_spec p data s s' r :
  WriteFile p data s = (s', r) →
  ∃ d, moved_to (<[p := d]> (files s)) s s' ∧ (is_Ok r = true → d = data).
Proof.
  unfold WriteFile, moved_to. syscall_cases; intros [= <- <-]; simpl; eexists; split; try done.
Qed.

Lemma noop_spec s s' r : syscall keep (λ s, (s, Ok ())) s = (s', r) → same_files s s'.
Proof. unfold same_files. syscall_cases; intros [= <- <-]; auto. Qed.

Lemma Remove_spec p s s' r :
  Remove p s = (s', r) → same_files s s' ∨ moved_to (delete p (files s)) s s'.
Proof. unfold Remove, same_files, moved_to. syscall_cases; intros [= <- <-]; auto. Qed.

Lemma Rename_spec old new s s' r :
  Rename old new s = (s', r) →
  match r with
  | Ok _ => ∃ c, files s !! old = Some c ∧ moved_to (<[new := c]> (delete old (files s))) s s'
  | Err _ => same_files s s'
  end.
Proof.
  unfold Rename, same_files, moved_to. syscall_cases; intros [= <- <-]; simpl; eauto.
Qed.

Lemma Open_spec p s s' r : Open p s = (s', r) → same_files s s'.
Proof. unfold Open, same_files. syscall_cases; intros [= <- <-]; auto. Qed.

Lemma Stat_spec p s s' r : Stat p s = (s', r) → same_files s s'.
Proof. unfold Stat, same_files. syscall_cases; intros [= <- <-]; auto. Qed.

(** ** The applier *)
Section applier_facts.
Context `{GoSort, UnicodeCase, TempNames} {X V ExecError : Type}.
Variable exec : list string → Host X → Host X * (string * option ExecError).
Variable a : ApplyConfig.
(** A view of the rest of the host *)
Variable view : X → V.
Implicit Types (h : Host X).

(** The paths only the applier may change: the active file and its candidates. *)
Definition owned (q : string) : Prop :=
  q = ConfigPath a ∨
  ∃ rnd, q = joinPath (Dir (ConfigPath a)) (Base (ConfigPath a) +:+ ".tmp-") +:+ rnd.

(** From [h] to [h'] no owned path outside [P] changed, at any moment, and the rest
    of the host looks the same. *)
Definition touches (P : string → Prop) (h h' : Host X) : Prop :=
  (∀ q, owned q → ¬ P q → files (fs h') !! q = files (fs h) !! q) ∧
  (∃ l, history (fs h') = l ++ history (fs h) ∧
    ∀ m q, m ∈ l → owned q → ¬ P q → m !! q = files (fs h) !! q) ∧
  view (rest h') = view (rest h).

(** What the external commands are relied on for: they leave the owned paths and the
    viewed part of the host alone. *)
Hypothesis exec_frame : ∀ argv h, touches (λ _, False) h (exec argv h).1.

Lemma touches_trans P h1 h2 h3 : touches P h1 h2 → touches P h2 h3 → touches P h1 h3.
Proof.
  intros (F1 & (l1 & E1 & S1) & V1) (F2 & (l2 & E2 & S2) & V2). split_and!; [| |congruence].
  - intros q Ho Hq. by rewrite F2, F1.
  - exists (l2 ++ l1). split; [by rewrite E2, E1, app_assoc|].
    intros m q [Hm|Hm]%elem_of_app Ho Hq; [by rewrite S2, F1|by apply S1].
Qed.

Lemma touches_weaken (P Q : string → Prop) h h' :
  (∀ q, P q → Q q) → touches P h h' → touches Q h h'.
Proof.
  intros HPQ (F & (l & E & S) & V'). split_and!; [by auto|exists l; split; eauto|done].
Qed.

Lemma touches_same P (s : FS) h : same_files (fs h) s → touches P h (MkHost s (rest h)).
Proof.
  intros [Ef Eh]. split_and!; simpl; [by rewrite Ef| |done].
  exists []. split; [done|]. by intros m q ?%not_elem_of_nil.
Qed.

Lemma touches_moved P (s : FS) m h :
  moved_to m (fs h) s → (∀ q, ¬ P q → m !! q = files (fs h) !! q) → touches P h (MkHost s (rest h)).
Proof.
  intros [Ef Eh] Hm. split_and!; simpl; [rewrite Ef; auto| |done].
  exists [m]. split; [by rewrite Eh|]. intros ? q ->%list_elem_of_singleton. auto.
Qed.

Lemma touches_noop P (call : FS → FS * result Errno ()) h h' r :
  (∀ s s' r, call s = (s', r) → same_files s s') → lift call h = (h', r) → touches P h h'.
Proof.
  intros Hc. unfold lift. destruct (call (fs h)) as [s r'] eqn:E. intros [= <- <-].
  eapply touches_same, Hc, E.
Qed.

Lemma close_touches P h : touches P h (close_quietly h).
Proof.
  unfold close_quietly. destruct (lift CloseFile h) as [h' r] eqn:E.
  eapply touches_noop, E. apply noop_spec.
Qed.

Lemma cleanup_touches (P : string → Prop) c h : P c → touches P h (cleanup c h).
Proof.
  intros Hc. unfold cleanup, lift. destruct (Remove c (fs h)) as [s r] eqn:E. simpl.
  apply Remove_spec in E as [E|E]; [by apply touches_same|].
  eapply touches_moved; [done|]. intros q Hq. rewrite lookup_delete_ne; [done|congruence].
Qed.

Lemma run_touches command path h h' r :
  runCommand exec command path h = (h', r) → touches (λ _, False) h h'.
Proof.
  assert (touches (λ _, False) h h) as Hrefl.
  { destruct h as [s x]. by apply (touches_same _ s (MkHost s x)). }
  unfold runCommand. case_bool_decide; [by intros [= <- _]|].
  assert (∀ argv, run_argv exec argv h = (h', r) → touches (λ _, False) h h') as Hrun.
  { intros argv. unfold run_argv. pose proof (exec_frame argv h) as Hx.
    destruct (exec argv h) as [h2 [out [err|]]]; by intros [= <- _]. }
  destruct (commandRequiresShell _); [apply Hrun|].
  destruct (Fields _); [by intros [= <- _]|]. apply Hrun.
Qed.

Lemma sync_touches P path h h' r : syncPath path h = (h', r) → touches P h h'.
Proof.
  unfold syncPath. destruct (lift (Open path) h) as [h1 [u|e]] eqn:E1.
  - destruct (lift SyncFile h1) as [h2 r2] eqn:E2. intros Eq.
    assert (h' = close_quietly h2) as -> by (destruct r2; by injection Eq as <- _).
    eapply touches_trans; [eapply touches_noop, E1; apply Open_spec|].
    eapply touches_trans; [eapply touches_noop, E2; apply noop_spec|]. apply close_touches.
  - intros [= <- _]. eapply touches_noop, E1. apply Open_spec.
Qed.

(** A candidate is not the active file. *)
Lemma candidate_ne rnd :
  slash ∉ bytes (Base (ConfigPath a) +:+ ".tmp-") → (∀ c, c ∈ bytes rnd → is_digit c = true) →
  joinPath (Dir (ConfigPath a)) (Base (ConfigPath a) +:+ ".tmp-") +:+ rnd ≠ ConfigPath a.
Proof.
  intros Hs Hd E. set (b := Base (ConfigPath a)) in *.
  assert (∀ d n r, joinPath d n +:+ r = joinPath d (n +:+ r)) as Hj.
  { intros d n r. unfold joinPath. apply (inj bytes).
    destruct (last _); [case_bool_decide|]; rewrite !bytes_app; by rewrite <- ?app_assoc. }
  rewrite Hj in E. apply (f_equal Base) in E. rewrite Base_joinPath in E.
  - apply (f_equal (λ s, length (bytes s))) in E. fold b in E.
    rewrite !bytes_app, !length_app in E. simpl in E. lia.
  - rewrite bytes_app, not_elem_of_app. split; [done|]. intros Hr. by apply Hd in Hr.
  - intros E'. apply (f_equal bytes) in E'. rewrite !bytes_app in E'. by destruct (bytes b).
Qed.

Lemma writeCandidate_spec data h h' (r : result (ApplyError ExecError) string) :
  writeCandidateFile (ConfigPath a) data h = (h', r) →
  match r with
  | Ok c => c ≠ ConfigPath a ∧ owned c ∧ files (fs h') !! c = Some data ∧ touches (.= c) h h'
  | Err e => (∃ st err, e = ErrWriteCandidate st err) ∧ ∃ c, c ≠ ConfigPath a ∧ touches (.= c) h h'
  end.
Proof.
  unfold writeCandidateFile.
  destruct (lift (MkdirAll _) h) as [h1 [u1|e1]] eqn:E1.
  2:{ intros [= <- <-]. split; [eauto|]. exists (ConfigPath a +:+ "x"). split.
      - intros E. apply (f_equal (λ s, length (bytes s))) in E. rewrite bytes_app, length_app in E. simpl in E. lia.
      - eapply touches_noop, E1. apply MkdirAll_spec. }
  unfold lift at 1. destruct (CreateTemp _ _ (fs h1)) as [s2 [c|e2]] eqn:E2; apply CreateTemp_spec in E2.
  2:{ intros [= <- <-]. split; [eauto|]. exists (ConfigPath a +:+ "x"). split.
      - intros E. apply (f_equal (λ s, length (bytes s))) in E. rewrite bytes_app, length_app in E. simpl in E. lia.
      - eapply touches_trans; [eapply touches_noop, E1; apply MkdirAll_spec|]. by apply touches_same. }
  destruct E2 as (Hs & Hfresh & (rnd & Hc & Hd) & Hm2).
  assert (c ≠ ConfigPath a) as Hne by (subst c; by apply candidate_ne).
  assert (owned c) as Ho by (right; eauto).
  assert (touches (.= c) h (MkHost s2 (rest h1))) as T2.
  { eapply touches_trans; [eapply touches_noop, E1; apply MkdirAll_spec|].
    eapply touches_moved; [done|]. intros q Hq. by rewrite lookup_insert_ne. }
  unfold lift at 1. cbn [fs rest].
  destruct (WriteFile c data s2) as [s3 r3] eqn:E3. apply WriteFile_spec in E3 as (d & Hm3 & Hd3).
  assert (touches (.= c) h (MkHost s3 (rest h1))) as T3.
  { eapply touches_trans; [exact T2|]. eapply (touches_moved _ s3 _ (MkHost s2 (rest h1))); [done|].
    intros q Hq. simpl. by rewrite lookup_insert_ne. }
  destruct r3 as [u3|e3].
  2:{ intros [= <- <-]. split; [eauto|]. exists c. split; [done|].
      eapply touches_trans; [exact T3|]. eapply touches_trans; [apply close_touches|by apply cleanup_touches]. }
  rewrite (Hd3 eq_refl) in Hm3. destruct Hm3 as [Hf3 _].
  destruct (lift SyncFile _) as [h4 [u4|e4]] eqn:E4.
  2:{ intros [= <- <-]. split; [eauto|]. exists c. split; [done|].
      eapply touches_trans; [exact T3|]. eapply touches_trans; [eapply touches_noop, E4; apply noop_spec|].
      eapply touches_trans; [apply close_touches|by apply cleanup_touches]. }
  pose proof (touches_noop (λ _, False) _ _ _ _ (noop_spec) E4) as T4.
  destruct (lift CloseFile h4) as [h5 [u5|e5]] eqn:E5.
  2:{ intros [= <- <-]. split; [eauto|]. exists c. split; [done|].
      eapply touches_trans; [exact T3|]. eapply touches_trans; [by eapply touches_weaken, T4|].
      eapply touches_trans; [eapply touches_noop, E5; apply noop_spec|by apply cleanup_touches]. }
  pose proof (touches_noop (λ _, False) _ _ _ _ (noop_spec) E5) as T5.
  intros [= <- <-]. split_and!; try done.
  - destruct T5 as (-> & _); [|done|auto]. destruct T4 as (-> & _); [|done|auto].
    simpl. by rewrite Hf3, lookup_insert_eq.
  - eapply touches_trans; [exact T3|].
    eapply touches_trans; [by eapply touches_weaken, T4|by eapply touches_weaken, T5].
Qed.

(** The active configuration *)
Definition active (h : Host X) : option string := files (fs h) !! ConfigPath a.

(** Every version of the active file between [h] and [h'] is the one of [h] or [doc]. *)
Definition versions (doc : string) (h h' : Host X) : Prop :=
  ∃ l, history (fs h') = l ++ history (fs h) ∧
    ∀ m, m ∈ l → m !! ConfigPath a = active h ∨ m !! ConfigPath a = Some doc.

Lemma touches_active P h h' : ¬ P (ConfigPath a) → touches P h h' → active h' = active h.
Proof. intros HP (F & _). apply F; [by left|done]. Qed.

Lemma touches_versions P doc h h' : ¬ P (ConfigPath a) → touches P h h' → versions doc h h'.
Proof.
  intros HP (_ & (l & E & S) & _). exists l. split; [done|]. intros m Hm. left.
  apply S; [done|by left|done].
Qed.

Lemma versions_trans doc h1 h2 h3 :
  versions doc h1 h2 → versions doc h2 h3 → active h2 = active h1 ∨ active h2 = Some doc →
  versions doc h1 h3.
Proof.
  intros (l1 & E1 & S1) (l2 & E2 & S2) H2. exists (l2 ++ l1). split; [by rewrite E2, E1, app_assoc|].
  intros m [Hm|Hm]%elem_of_app; [|by apply S1].
  destruct (S2 m Hm) as [->|?]; [|by right]. done.
Qed.

(** The outcome of an application, by the way it ends. *)
Definition apply_post (doc : string) (h h' : Host X) (res : result (ApplyError ExecError) bool) : Prop :=
  view (rest h') = view (rest h) ∧ versions doc h h' ∧
  match res with
  | Ok b => active h' = Some doc ∧ b = bool_decide (active h ≠ Some doc)
  | Err (ErrSyncDir _) | Err (ErrReload _) => active h' = Some doc ∧ active h ≠ Some doc
  | Err _ => active h' = active h
  end.

Lemma post_same doc P h h' res :
  touches P h h' → ¬ P (ConfigPath a) →
  match res with
  | Ok b => active h = Some doc ∧ b = false
  | Err (ErrSyncDir _) | Err (ErrReload _) => False
  | Err _ => True
  end → apply_post doc h h' res.
Proof.
  intros T HP Hres. pose proof (touches_active _ _ _ HP T) as Ha. unfold apply_post.
  split; [apply T|]. split; [by eapply touches_versions|]. rewrite Ha.
  destruct res as [b|[]]; try done. destruct Hres as [-> ->]. split; [done|].
  by rewrite bool_decide_eq_false_2 by auto.
Qed.

(** After the rename: the new document is active, and stays. *)
Lemma post_renamed doc c h h1 s2 h3 res :
  touches (.= c) h h1 → c ≠ ConfigPath a → active h ≠ Some doc →
  moved_to (<[ConfigPath a := doc]> (delete c (files (fs h1)))) (fs h1) s2 →
  touches (λ _, False) (MkHost s2 (rest h1)) h3 →
  match res with Ok b => b = true | Err (ErrSyncDir _) | Err (ErrReload _) => True | _ => False end →
  apply_post doc h h3 res.
Proof.
  intros T1 Hc Hneq [Ef Eh] T3 Hres.
  assert (active (MkHost s2 (rest h1)) = Some doc) as Ha2.
  { unfold active. simpl. by rewrite Ef, lookup_insert_eq. }
  pose proof (touches_active _ _ _ (λ H, H) T3) as Ha3. rewrite Ha2 in Ha3.
  assert (active h1 = active h) as Ha1 by (eapply touches_active; [|exact T1]; congruence).
  split_and!.
  - destruct T1 as (_ & _ & <-). by destruct T3 as (_ & _ & ->).
  - eapply versions_trans; [eapply touches_versions; [|exact T1]; congruence| |by left].
    eapply versions_trans; [| by eapply touches_versions, T3; intros []|by right].
    exists [files s2]. split; [by rewrite Ef|]. intros m ->%list_elem_of_singleton. by right.
  - destruct res as [b|[]]; try done. subst b. split; [done|]. by rewrite bool_decide_eq_true_2.
Qed.

Lemma replace_post doc reload h h0 h' res :
  touches (λ _, False) h h0 → active h ≠ Some doc →
  replaceActiveConfig exec a doc reload h0 = (h', res) → apply_post doc h h' res.
Proof.
  intros T0 Hneq. unfold replaceActiveConfig.
  destruct (writeCandidateFile _ doc h0) as [h1 [c|e1]] eqn:E1; apply writeCandidate_spec in E1.
  2:{ destruct E1 as ((st & err & ->) & c & Hc & T1). intros [= <- <-].
      eapply (post_same _ (.= c)); [|congruence|done]. eapply touches_trans, T1. by eapply touches_weaken, T0. }
  destruct E1 as (Hc & Ho & Hdata & T1).
  assert (touches (.= c) h h1) as T01 by (eapply touches_trans, T1; by eapply touches_weaken, T0).
  destruct (runCommand exec (ValidateCommand a) c h1) as [h2 [u2|e2]] eqn:E2; apply run_touches in E2 as T2.
  all: assert (touches (.= c) h h2) as T02 by (eapply touches_trans; [exact T01|by eapply touches_weaken, T2]).
  2:{ intros [= <- <-]. eapply (post_same _ (.= c)); [|congruence|done].
      eapply touches_trans; [exact T02|by apply cleanup_touches]. }
  unfold lift. destruct (Rename c (ConfigPath a) (fs h2)) as [s3 [u3|e3]] eqn:E3; apply Rename_spec in E3.
  2:{ intros [= <- <-]. eapply (post_same _ (.= c)); [|congruence|done].
      eapply touches_trans; [exact T02|]. eapply touches_trans; [by apply touches_same|by apply cleanup_touches]. }
  destruct E3 as (c' & Hc' & Hm). destruct T2 as (F2 & _). rewrite F2 in Hc' by auto.
  rewrite Hdata in Hc'. injection Hc' as <-.
  destruct (syncPath _ _) as [h4 [u4|e4]] eqn:E4; apply (sync_touches (λ _, False)) in E4.
  2:{ intros [= <- <-]. by eapply post_renamed. }
  destruct reload; [|intros [= <- <-]; by eapply post_renamed].
  destruct (runCommand exec (ReloadCommand a) _ h4) as [h5 [u5|e5]] eqn:E5; apply run_touches in E5;
    intros [= <- <-]; (eapply post_renamed; [done..| |done]); by eapply touches_trans.
Qed.

Lemma applyRendered_post doc reload h h' res :
  applyRenderedConfig exec a doc reload h = (h', res) → apply_post doc h h' res.
Proof.
  unfold applyRenderedConfig, renderedConfigMatchesCurrentFile, lift.
  destruct (ReadFile (ConfigPath a) (fs h)) as [s0 r0] eqn:E0. apply ReadFile_spec in E0 as [S0 R0].
  assert (touches (λ _, False) h (MkHost s0 (rest h))) as T0 by by apply touches_same.
  destruct r0 as [cur|[]]; try (intros [= <- <-]; eapply post_same; [exact T0|auto|done]).
  - case_bool_decide as Hc.
    + intros [= <- <-]. subst cur. eapply post_same; [exact T0|auto|by split].
    + eapply replace_post; [exact T0|]. unfold active. congruence.
  - eapply replace_post; [exact T0|]. unfold active. congruence.
Qed.

(** C10. The active configuration is replaced atomically.  Whatever system calls fail
    and whatever the commands answer, at every moment the active file holds
    its old contents or the complete new document; it has the new one on success
    (reported as a change exactly when the contents differed), keeps the old one
    when reading, writing the candidate, validating or renaming fails, and has the
    new one when only the directory sync or the reload fails. *)
Theorem Apply_atomic l h h' res :
  Apply exec a l h = (h', res) →
  match Render l with
  | Err e => h' = h ∧ res = Err (ErrRenderConfig e)
  | Ok doc => apply_post doc h h' res
  end.
Proof.
  unfold Apply. destruct (Render l); [apply applyRendered_post|]. by intros [= <- <-].
Qed.

Lemma Stat_touches P path h h' r : lift (Stat path) h = (h', r) → touches P h h'.
Proof.
  unfold lift. destruct (Stat path (fs h)) as [s r'] eqn:E. intros [= <- <-].
  eapply touches_same, Stat_spec, E.
Qed.

Lemma shouldReload_touches P h h' b : shouldReloadOnBootstrap a h = (h', b) → touches P h h'.
Proof.
  assert (touches P h h) as Hrefl.
  { destruct h as [s x]. by apply (touches_same _ s (MkHost s x)). }
  unfold shouldReloadOnBootstrap. case_bool_decide; [by intros [= <- _]|].
  case_bool_decide; [by intros [= <- _]|].
  destruct (lift (Stat (PIDFile a)) h) as [h1 [d|e]] eqn:E; intros [= <- _]; by eapply Stat_touches.
Qed.

Definition bootstrapConfig : string := configHeader +:+ bootstrapFrontendSection.

Lemma Bootstrap_post h h' res :
  Bootstrap exec a h = (h', res) →
  view (rest h') = view (rest h) ∧ versions bootstrapConfig h h' ∧
  (active h' = active h ∨ active h' = Some bootstrapConfig) ∧
  (is_Ok res = true → active h' = Some bootstrapConfig).
Proof.
  unfold Bootstrap. change (Render []) with (Ok bootstrapConfig : result RenderError string).
  destruct (shouldReloadOnBootstrap a h) as [h1 reload] eqn:E1.
  apply (shouldReload_touches (λ _, False)) in E1.
  destruct (applyRenderedConfig exec a _ reload h1) as [h2 r2] eqn:E2. intros Eq.
  assert (h' = h2 ∧ is_Ok res = is_Ok r2) as [-> Hok] by (destruct r2; by injection Eq as <- <-).
  apply applyRendered_post in E2 as (V2 & Vs2 & R2).
  pose proof (touches_active _ _ _ (λ H, H) E1) as Ha. rewrite Ha in R2.
  split_and!.
  - destruct E1 as (_ & _ & <-). done.
  - eapply versions_trans; [by eapply touches_versions, E1; intros []|done|by left].
  - destruct r2 as [b|[]]; destruct_and? R2; auto.
  - rewrite Hok. destruct r2 as [b|]; [by destruct R2|done].
Qed.

(** The applier keeps the promises the engine relies on. *)
#[export] Instance applier_spec : ApplierSpec (applier_of exec a).
Proof.
  refine {| ap_config := active |}; cbn [ca_Apply ca_Bootstrap applier_of].
  - intros l w w' b. unfold Apply. destruct (Render l) as [doc|e]; [|done].
    intros (_ & _ & R)%applyRendered_post. by exists doc.
  - intros l w w' e. unfold Apply. destruct (Render l) as [doc|e']; [|intros [= <- _]; by left].
    intros (_ & _ & R)%applyRendered_post. destruct e; destruct_and? R; eauto.
  - intros w w' u (_ & _ & _ & R)%Bootstrap_post. by apply R.
  - intros w w' e (_ & _ & R & _)%Bootstrap_post. done.
Defined.

Lemma applier_frame_apply l h : view (rest (ca_Apply (applier_of exec a) l h).1) = view (rest h).
Proof.
  cbn. unfold Apply. destruct (Render l); [|done].
  destruct (applyRenderedConfig _ _ _ _ _) as [h' r] eqn:E. by apply applyRendered_post in E as (? & _).
Qed.

Lemma applier_frame_boot h : view (rest (ca_Bootstrap (applier_of exec a) h).1) = view (rest h).
Proof.
  cbn. destruct (Bootstrap _ _ _) as [h' r] eqn:E. by apply Bootstrap_post in E as (? & _).
Qed.

Lemma Apply_current (exec' : list string → Host X → Host X * (string * option ExecError)) l doc h :
  Render l = Ok doc → active h = Some doc → faults (fs h) = [] → Apply exec' a l h = (h, Ok false).
Proof.
  intros HR Ha Hf. unfold Apply. rewrite HR.
  unfold applyRenderedConfig, renderedConfigMatchesCurrentFile, lift, ReadFile, syscall.
  unfold active in Ha. rewrite Hf, Ha. cbn. rewrite bool_decide_eq_true_2 by done. by destruct h.
Qed.

(** C38. A reload that failed is not retried: after [Apply] failed in the reload (or in
    the directory sync before it), the same call again reports success and no
    change, whatever the commands would answer, and runs none of them, so HAProxy
    keeps serving the previous configuration. *)
Theorem reload_failure_not_retried l h h' e :
  (∃ err, e = ErrReload err) ∨ (∃ err, e = ErrSyncDir err) →
  Apply exec a l h = (h', Err e) → faults (fs h') = [] →
  ∀ exec' : list string → Host X → Host X * (string * option ExecError),
    Apply exec' a l h' = (h', Ok false).
Proof.
  intros He Happ Hf exec'. pose proof Happ as Happ'. unfold Apply in Happ.
  destruct (Render l) as [doc|] eqn:HR.
  - eapply Apply_current; [done| |done]. apply applyRendered_post in Happ as (_ & _ & R).
    destruct He as [[? ->]|[? ->]]; apply R.
  - injection Happ as _ <-. by destruct He as [[? ?]|[? ?]].
Qed.

(** *** Without injected faults *)
Lemma writeCandidate_nofault data h h' c :
  faults (fs h) = [] →
  writeCandidateFile (ExecError:=ExecError) (ConfigPath a) data h = (h', Ok c) →
  faults (fs h') = [] ∧ files (fs h) !! c = None.
Proof.
  intros Hf. unfold writeCandidateFile, lift, MkdirAll, syscall. rewrite Hf.
  destruct (files (fs h) !! Dir (ConfigPath a)); [done|]. cbn [fs rest].
  set (s1 := set_dirs _ (fs h)).
  destruct (CreateTemp _ _ s1) as [s2 [p|]] eqn:E2; [|done]. cbn [fs rest].
  assert (faults s2 = []) as Hf2.
  { revert E2. unfold CreateTemp, syscall. change (faults s1) with (faults (fs h)). rewrite Hf.
    repeat case_bool_decide; intros [= <- _]; done. }
  apply CreateTemp_spec in E2 as (_ & Hfresh & _).
  unfold WriteFile, SyncFile, CloseFile, syscall. rewrite Hf2. cbn. rewrite Hf2. cbn. rewrite Hf2. cbn.
  intros [= <- <-]. by split.
Qed.

(** A document the validate command rejects leaves no trace: without file-system
    faults the active file is untouched and the candidate is gone. *)
Theorem validate_failure_clean l h h' e :
  faults (fs h) = [] → (∀ argv h, faults (fs (exec argv h).1) = faults (fs h)) →
  Apply exec a l h = (h', Err (ErrValidate e)) →
  ∀ q, owned q → files (fs h') !! q = files (fs h) !! q.
Proof.
  intros Hf Hexec. unfold Apply. destruct (Render l) as [doc|]; [|done].
  unfold applyRenderedConfig, renderedConfigMatchesCurrentFile, lift, ReadFile, syscall. rewrite Hf.
  intros Happ q Hq.
  assert (replaceActiveConfig exec a doc true h = (h', Err (ErrValidate e))) as Hrep.
  { destruct h as [s x]. simpl in Happ. destruct (files s !! ConfigPath a); [by case_bool_decide|].
    by case_bool_decide. }
  clear Happ. revert Hrep. unfold replaceActiveConfig.
  destruct (writeCandidateFile _ doc h) as [h1 [c|e1]] eqn:E1.
  2:{ apply writeCandidate_spec in E1 as [(st & er & ->) _]. done. }
  destruct (writeCandidate_nofault _ _ _ _ Hf E1) as [Hf1 Hfresh].
  apply writeCandidate_spec in E1 as (Hne & Ho & Hdata & T1).
  destruct (runCommand exec (ValidateCommand a) c h1) as [h2 [u2|e2]] eqn:E2.
  { destruct (lift (Rename _ _) h2) as [h3 [u3|]]; [|done]. destruct (syncPath _ h3) as [h4 [u4|]]; [|done].
    by destruct (runCommand _ _ _ h4) as [? [|]]. }
  intros [= <- _]. pose proof (run_touches _ _ _ _ _ E2) as T2.
  assert (faults (fs h2) = []) as Hf2.
  { revert E2. unfold runCommand, run_argv. case_bool_decide; [done|].
    assert (∀ argv, faults (fs (exec argv h1).1) = []) as Hx by (intros; by rewrite Hexec).
    destruct (commandRequiresShell _); [|destruct (Fields _) as [|f l0]; [by intros [= <- _]|]];
      [specialize (Hx ["/bin/sh"; "-ec"; ReplaceAll (TrimSpace (ValidateCommand a)) configPlaceholder c])
      |specialize (Hx (f :: l0))];
      (destruct (exec _ h1) as [h9 [out [err|]]]; simpl in Hx; by intros [= <- _]). }
  unfold cleanup, lift, Remove, syscall. rewrite Hf2.
  destruct T2 as (F2 & _). destruct T1 as (F1 & _).
  destruct (decide (q = c)) as [->|Hqc].
  - rewrite Hfresh. destruct (files (fs h2) !! c) eqn:Ec; simpl; [by rewrite lookup_delete_eq|done].
  - assert (files (fs h2) !! q = files (fs h) !! q) as <- by (rewrite F2, F1; auto).
    destruct (files (fs h2) !! c); simpl; [by rewrite lookup_delete_ne|done].
Qed.
End applier_facts.
