(* ===== verification/IPAttach.v ===== *)
(** * Attaching addresses to the host (internal/dataplane/ipattach)

    Two managers implement the engine's [ExternalIPManager]: one runs the [ip]
    command, one talks to the kernel through netlink.  The command runner and
    the netlink library are parameters; the managers are proved to keep the
    engine's contract from what those promise. *)
From S2P Require Import Prelude GoStrings GoSort NetIP Provider IPAM Store Render ExternalIPs Engine.
Local Open Scope Z_scope.

(** ** manager.go *)
Definition DefaultCommandPath : string := "ip".
Definition DefaultCIDRSuffix : Z := 32.

Definition ModeExec : string := "exec".
Definition ModeNetlink : string := "netlink".
Definition DefaultMode : string := ModeNetlink.

Record Config : Type := MkConfig {
  Enabled : bool;
  Mode : string;
  Interface : string;
  CommandPath : string;
  CIDRSuffix : Z;
}.

Inductive ConfigError : Type :=
| ErrUnsupportedMode (mode : string)
| ErrCIDRSuffix
| ErrInterfaceEmpty
| ErrNetlinkUnsupported.

Definition normalizeMode `{UnicodeCase} (mode : string) : string := ToLower (TrimSpace mode).

(** [Mode.Normalize] *)
Definition ModeNormalize `{UnicodeCase} (mode : string) : string := normalizeMode mode.

(** [Mode.Valid] *)
Definition ModeValid `{UnicodeCase} (mode : string) : bool :=
  let m := ModeNormalize mode in
  bool_decide (m = ModeExec) || bool_decide (m = ModeNetlink).

Definition normalizeConfig `{UnicodeCase} (cfg : Config) : result ConfigError Config :=
  let mode := ModeNormalize (Mode cfg) in
  let mode := if bool_decide (mode = "") then DefaultMode else mode in
  if negb (bool_decide (mode = ModeExec) || bool_decide (mode = ModeNetlink))
  then Err (ErrUnsupportedMode (Mode cfg)) else
  let iface := TrimSpace (Interface cfg) in
  let command := TrimSpace (CommandPath cfg) in
  let command := if bool_decide (command = "") then DefaultCommandPath else command in
  let suffix := if CIDRSuffix cfg =? 0 then DefaultCIDRSuffix else CIDRSuffix cfg in
  if (suffix <? 1) || (32 <? suffix) then Err ErrCIDRSuffix else
  if Enabled cfg && bool_decide (iface = "") then Err ErrInterfaceEmpty else
  Ok (MkConfig (Enabled cfg) mode iface command suffix).

Inductive AttachError (E : Type) : Type :=
| ErrAddress (addr : Addr)
| ErrParseAddress (text : string)
| ErrOperation (action : string) (e : E) (output : string)
| ErrCheck (message : string) (e : AttachError E).
Global Arguments ErrAddress {E} _.
Global Arguments ErrParseAddress {E} _.
Global Arguments ErrOperation {E} _ _ _.
Global Arguments ErrCheck {E} _ _.

Definition validateIPv4Addr {E} (addr : Addr) : result (AttachError E) () :=
  if negb (IsValid addr) || negb (Is4 addr) then Err (ErrAddress addr) else Ok ().

Definition containsAddr (addresses : list Addr) (target : Addr) : bool :=
  existsb (λ candidate, bool_decide (candidate = target)) addresses.

(** [noopManager] *)
Definition noopManager {W E} : ExternalIPManager W E :=
  MkIPManager (λ w, (w, Ok [])) (λ _ w, (w, Ok false)) (λ _ w, (w, Ok false)).

(** ** The part the two managers share

    Both check the address, look at what is attached, change it when needed, and
    look again when the change failed: the failure does not count when the
    address is where it should be. *)
Section managed.
Context {W E : Type}.
Variable list_addrs : W → W * result (AttachError E) (list Addr).
(** The operation on the host: its error and the output that came with it. *)
Variable operate : Addr → W → W * option (E * string).
(** The text before an error of the second look *)
Variable failure_message : string → string → string.

Definition ensureStateAfterOperation (addr : Addr) (wantPresent : bool) (action : string)
    (operationErr : E) (output : string) (w : W) : W * result (AttachError E) bool :=
  match list_addrs w with
  | (w, Ok current) =>
    if bool_decide (containsAddr current addr = wantPresent) then (w, Ok false)
    else (w, Err (ErrOperation action operationErr (TrimSpace output)))
  | (w, Err e) => (w, Err (ErrCheck (failure_message action output) e))
  end.

(** What the manager does when the operation failed *)
Variable after : Addr → bool → string → E → string → W → W * result (AttachError E) bool.

Definition ensureState (wantPresent : bool) (action : string) (addr : Addr) (w : W) :
    W * result (AttachError E) bool :=
  match validateIPv4Addr addr with
  | Err e => (w, Err e)
  | Ok _ =>
    match list_addrs w with
    | (w, Err e) => (w, Err e)
    | (w, Ok current) =>
      if bool_decide (containsAddr current addr = wantPresent) then (w, Ok false) else
      match operate addr w with
      | (w, Some (err, output)) => after addr wantPresent action err output w
      | (w, None) => (w, Ok true)
      end
    end
  end.
End managed.

(** ** exec.go *)

(** [Runner]: a command's combined output and its error *)
Definition Runner (W E : Type) : Type := string → list string → W → W * (string * option E).

(** The first [inet] field of a line that has a field after it. *)
Fixpoint inet_field (fields : list string) : option string :=
  match fields with
  | f :: ((next :: _) as fields') => if bool_decide (f = "inet") then Some next else inet_field fields'
  | _ => None
  end.

Fixpoint parse_lines {E} (managedCIDRSuffix : Z) (addresses : list Addr) (lines : list string) :
    result (AttachError E) (list Addr) :=
  match lines with
  | [] => Ok addresses
  | line :: lines =>
    if bool_decide (TrimSpace line = "") then parse_lines managedCIDRSuffix addresses lines else
    match inet_field (Fields line) with
    | None => parse_lines managedCIDRSuffix addresses lines
    | Some text =>
      match ParsePrefix text with
      | None => Err (ErrParseAddress text)
      | Some prefix =>
        let keep := Is4 (PrefixAddr prefix) && (PrefixBits prefix =? managedCIDRSuffix) in
        parse_lines managedCIDRSuffix
          (if keep then addresses ++ [PrefixAddr prefix] else addresses) lines
      end
    end
  end.

Definition parseManagedInterfaceAddrs {E} (output : string) (managedCIDRSuffix : Z) :
    result (AttachError E) (list Addr) :=
  parse_lines managedCIDRSuffix [] (Split (TrimSpace output) "010"%char).

Definition commandFailureMessage (action output : string) : string :=
  let trimmedOutput := TrimSpace output in
  if bool_decide (trimmedOutput = "") then action else action +:+ ": " +:+ trimmedOutput.

Section exec_manager.
Context `{GoSort} {W E : Type}.
Variable cfg : Config.
Variable runner : Runner W E.

Definition execList (w : W) : W * result (AttachError E) (list Addr) :=
  match runner (CommandPath cfg) ["-4"; "-o"; "addr"; "show"; "dev"; Interface cfg] w with
  | (w, (output, Some err)) => (w, Err (ErrOperation "list interface addresses" err (TrimSpace output)))
  | (w, (output, None)) =>
    match parseManagedInterfaceAddrs output (CIDRSuffix cfg) with
    | Err e => (w, Err e)
    | Ok addresses => (w, Ok (sort_slice addr_less addresses))
    end
  end.

(** [ip addr add] and [ip addr del] *)
Definition addr_command (verb : string) (addr : Addr) (w : W) : W * option (E * string) :=
  match runner (CommandPath cfg)
      ["addr"; verb; AddrString addr +:+ "/" +:+ itoa (CIDRSuffix cfg); "dev"; Interface cfg] w with
  | (w, (output, Some err)) => (w, Some (err, output))
  | (w, (_, None)) => (w, None)
  end.

Definition ensureExecStateAfterCommand : Addr → bool → string → E → string → W → W * result (AttachError E) bool :=
  ensureStateAfterOperation execList commandFailureMessage.

Definition execEnsurePresent : Addr → W → W * result (AttachError E) bool :=
  ensureState execList (addr_command "add") ensureExecStateAfterCommand true "attach external IP".

Definition execEnsureAbsent : Addr → W → W * result (AttachError E) bool :=
  ensureState execList (addr_command "del") ensureExecStateAfterCommand false "detach external IP".

Definition execManager : ExternalIPManager W (AttachError E) :=
  MkIPManager execList execEnsurePresent execEnsureAbsent.
End exec_manager.

(** [execRunner] stands for [ExecRunner], which runs a command of the system. *)
Definition newExecManager `{GoSort} {W E} (execRunner : Runner W E) (cfg : Config) (runner : option (Runner W E)) :
    ExternalIPManager W (AttachError E) :=
  execManager cfg (default execRunner runner).

(** ** netlink.go *)
Record netlinkClient (W E : Type) : Type := MkNetlinkClient {
  ListIPv4Addrs : string → W → W * result E (list Prefix);
  AddIPv4Addr : string → Prefix → W → W * result E ();
  DeleteIPv4Addr : string → Prefix → W → W * result E ();
}.
Global Arguments MkNetlinkClient {W E} _ _ _.
Global Arguments ListIPv4Addrs {W E} _ _ _.
Global Arguments AddIPv4Addr {W E} _ _ _ _.
Global Arguments DeleteIPv4Addr {W E} _ _ _ _.

Section netlink_manager.
Context `{GoSort} {W E : Type}.
Variable cfg : Config.
Variable client : netlinkClient W E.

Definition managed_prefix (prefix : Prefix) : bool :=
  Is4 (PrefixAddr prefix) && (PrefixBits prefix =? CIDRSuffix cfg).

Definition netlinkList (w : W) : W * result (AttachError E) (list Addr) :=
  match ListIPv4Addrs client (Interface cfg) w with
  | (w, Err e) => (w, Err (ErrOperation "list interface addresses" e ""))
  | (w, Ok prefixes) =>
    (w, Ok (sort_slice addr_less (PrefixAddr <$> filter (λ p, managed_prefix p = true) prefixes)))
  end.

Definition prefix_operation (call : string → Prefix → W → W * result E ()) (addr : Addr) (w : W) :
    W * option (E * string) :=
  match call (Interface cfg) (PrefixFrom addr (CIDRSuffix cfg)) w with
  | (w, Err e) => (w, Some (e, ""))
  | (w, Ok _) => (w, None)
  end.

(** The library's errors come without output. *)
Definition ensureNetlinkStateAfterOperation : Addr → bool → string → E → string → W → W * result (AttachError E) bool :=
  ensureStateAfterOperation netlinkList (λ action _, action).

Definition netlinkEnsurePresent : Addr → W → W * result (AttachError E) bool :=
  ensureState netlinkList (prefix_operation (AddIPv4Addr client)) ensureNetlinkStateAfterOperation
    true "attach external IP".

Definition netlinkEnsureAbsent : Addr → W → W * result (AttachError E) bool :=
  ensureState netlinkList (prefix_operation (DeleteIPv4Addr client)) ensureNetlinkStateAfterOperation
    false "detach external IP".

Definition netlinkManager : ExternalIPManager W (AttachError E) :=
  MkIPManager netlinkList netlinkEnsurePresent netlinkEnsureAbsent.
End netlink_manager.

(** The client of the platform: that of netlink_linux.go, or none (netlink_unsupported.go) *)
Definition newDefaultNetlinkClient {W E} (platform : option (netlinkClient W E)) : result ConfigError (netlinkClient W E) :=
  match platform with Some c => Ok c | None => Err ErrNetlinkUnsupported end.

Definition newNetlinkManager `{GoSort} {W E} (platform : option (netlinkClient W E)) (cfg : Config)
    (client : option (netlinkClient W E)) : result ConfigError (ExternalIPManager W (AttachError E)) :=
  match client with
  | Some c => Ok (netlinkManager cfg c)
  | None => c ← newDefaultNetlinkClient platform; Ok (netlinkManager cfg c)
  end.

Record Dependencies (W E : Type) : Type := MkDependencies {
  depRunner : option (Runner W E);
  depNetlinkClient : option (netlinkClient W E);
}.
Global Arguments MkDependencies {W E} _ _.
Global Arguments depRunner {W E} _.
Global Arguments depNetlinkClient {W E} _.

Definition NewManager `{GoSort, UnicodeCase} {W E : Type} (execRunner : Runner W E)
    (platform : option (netlinkClient W E)) (cfg : Config) (deps : Dependencies W E) :
    result ConfigError (ExternalIPManager W (AttachError E)) :=
  match normalizeConfig cfg with
  | Err e => Err e
  | Ok normalized =>
    if negb (Enabled normalized) then Ok noopManager else
    if bool_decide (Mode normalized = ModeExec) then Ok (newExecManager execRunner normalized (depRunner deps)) else
    if bool_decide (Mode normalized = ModeNetlink) then newNetlinkManager platform normalized (depNetlinkClient deps)
    else Err (ErrUnsupportedMode (Mode normalized))
  end.

(** ** netlink_linux.go *)

(** [net.IPNet]: address and mask as byte slices *)
Record IPNet : Type := MkIPNet { NetIPBytes : list Z; NetMask : list Z }.

(** The [i]-th byte, most significant first, of a 4-byte address *)
Definition AsSlice (a : Addr) : list Z :=
  match a with
  | AddrZero => []
  | Addr4 z => [octet z 3; octet z 2; octet z 1; octet z 0]
  | Addr6 z _ => (λ i : nat, Z.land (Z.shiftr z (8 * (15 - Z.of_nat i))) 255) <$> seq 0 16
  end.

(** [net.CIDRMask(ones, 32)]: byte [i] of the mask *)
Definition mask_byte (ones : Z) : Z :=
  if 8 <=? ones then 255 else if ones <=? 0 then 0 else 256 - 2 ^ (8 - ones).

Definition CIDRMask32 (ones : Z) : list Z :=
  if (ones <? 0) || (32 <? ones) then [] else
  [mask_byte ones; mask_byte (ones - 8); mask_byte (ones - 16); mask_byte (ones - 24)].

(** [netip.AddrFromSlice] *)
Definition AddrFromSlice (l : list Z) : option Addr :=
  if bool_decide (length l = 4%nat) then Some (Addr4 (bytes_val l)) else
  if bool_decide (length l = 16%nat) then Some (Addr6 (bytes_val l) "") else None.

(** [Addr.Unmap] *)
Definition Unmap (a : Addr) : Addr :=
  match a with
  | Addr6 z zone => if (z / 2 ^ 32 =? 65535) then Addr4 (z mod 2 ^ 32) else a
  | _ => a
  end.

(** [simpleMaskLength]: the number of leading ones, when no one follows a zero *)
Fixpoint simpleMaskLength (l : list Z) : option Z :=
  match l with
  | [] => Some 0
  | v :: l =>
    if v =? 255 then n ← simpleMaskLength l; Some (8 + n) else
    let ones := List.find (λ n, v =? 256 - 2 ^ (8 - n)) [0; 1; 2; 3; 4; 5; 6; 7] in
    match ones with
    | Some n => if forallb (λ b, b =? 0) l then Some n else None
    | None => None
    end
  end.

(** [IPMask.Size] *)
Definition MaskSize (mask : list Z) : Z * Z :=
  match simpleMaskLength mask with
  | Some ones => (ones, 8 * Z.of_nat (length mask))
  | None => (0, 0)
  end.

Definition prefixToIPNet (prefix : Prefix) : IPNet :=
  MkIPNet (AsSlice (PrefixAddr prefix)) (CIDRMask32 (PrefixBits prefix)).

Inductive ConvertError : Type := ErrInvalidIP (ip : list Z) | ErrMaskSize (bits : Z).

Definition prefixFromIPNet (ipNet : IPNet) : result ConvertError Prefix :=
  match AddrFromSlice (NetIPBytes ipNet) with
  | None => Err (ErrInvalidIP (NetIPBytes ipNet))
  | Some addr =>
    let '(ones, bits) := MaskSize (NetMask ipNet) in
    if negb (bits =? 32) then Err (ErrMaskSize bits) else Ok (PrefixFrom (Unmap addr) ones)
  end.

(** The netlink library *)
Record Netlink (W Link E : Type) : Type := MkNetlink {
  LinkByName : string → W → W * result E Link;
  AddrList : Link → W → W * result E (list (option IPNet));
  AddrAdd : Link → IPNet → W → W * result E ();
  AddrDel : Link → IPNet → W → W * result E ();
}.
Global Arguments LinkByName {W Link E} _ _ _.
Global Arguments AddrList {W Link E} _ _ _.
Global Arguments AddrAdd {W Link E} _ _ _ _.
Global Arguments AddrDel {W Link E} _ _ _ _.

Inductive LinuxError (E : Type) : Type :=
| ErrLookupInterface (name : string) (e : E)
| ErrListIPv4 (name : string) (e : E)
| ErrConvert (ipNet : IPNet) (name : string) (e : ConvertError)
| ErrAddIPv4 (prefix : Prefix) (name : string) (e : E)
| ErrDeleteIPv4 (prefix : Prefix) (name : string) (e : E).
Global Arguments ErrLookupInterface {E} _ _.
Global Arguments ErrListIPv4 {E} _ _.
Global Arguments ErrConvert {E} _ _ _.
Global Arguments ErrAddIPv4 {E} _ _ _.
Global Arguments ErrDeleteIPv4 {E} _ _ _.

Section linux.
Context {W Link E : Type} (nl : Netlink W Link E).

Fixpoint convert_addrs (name : string) (prefixes : list Prefix) (addrs : list (option IPNet)) :
    result (LinuxError E) (list Prefix) :=
  match addrs with
  | [] => Ok prefixes
  | None :: addrs => convert_addrs name prefixes addrs
  | Some ipNet :: addrs =>
    match prefixFromIPNet ipNet with
    | Err e => Err (ErrConvert ipNet name e)
    | Ok prefix =>
      convert_addrs name (if Is4 (PrefixAddr prefix) then prefixes ++ [prefix] else prefixes) addrs
    end
  end.

Definition linuxListIPv4Addrs (name : string) (w : W) : W * result (LinuxError E) (list Prefix) :=
  match LinkByName nl name w with
  | (w, Err e) => (w, Err (ErrLookupInterface name e))
  | (w, Ok link) =>
    match AddrList nl link w with
    | (w, Err e) => (w, Err (ErrListIPv4 name e))
    | (w, Ok addrs) => (w, convert_addrs name [] addrs)
    end
  end.

Definition linuxAddIPv4Addr (name : string) (prefix : Prefix) (w : W) : W * result (LinuxError E) () :=
  match LinkByName nl name w with
  | (w, Err e) => (w, Err (ErrLookupInterface name e))
  | (w, Ok link) =>
    match AddrAdd nl link (prefixToIPNet prefix) w with
    | (w, Err e) => (w, Err (ErrAddIPv4 prefix name e))
    | (w, Ok _) => (w, Ok ())
    end
  end.

Definition linuxDeleteIPv4Addr (name : string) (prefix : Prefix) (w : W) : W * result (LinuxError E) () :=
  match LinkByName nl name w with
  | (w, Err e) => (w, Err (ErrLookupInterface name e))
  | (w, Ok link) =>
    match AddrDel nl link (prefixToIPNet prefix) w with
    | (w, Err e) => (w, Err (ErrDeleteIPv4 prefix name e))
    | (w, Ok _) => (w, Ok ())
    end
  end.

Definition linuxNetlinkClient : netlinkClient W (LinuxError E) :=
  MkNetlinkClient linuxListIPv4Addrs linuxAddIPv4Addr linuxDeleteIPv4Addr.
End linux.

(** ** The managers keep the engine's contract *)
Lemma containsAddr_spec l a : containsAddr l a = true ↔ a ∈ l.
Proof.
  unfold containsAddr. rewrite existsb_spec. split.
  - intros (x & Hx & E). by apply bool_decide_eq_true in E as ->.
  - intros Ha. exists a. split; [done|]. by apply bool_decide_eq_true.
Qed.

(** What the shared part relies on, for a view [att] of the attached addresses:
    listing is exact, an operation without error has its effect, and one with an
    error has it or not. *)
Record managed_ok {W E} (att : W → gset Addr)
    (list_addrs : W → W * result (AttachError E) (list Addr))
    (add del : Addr → W → W * option (E * string)) : Prop := {
  mo_wf : ∀ w a, a ∈ att w → ipv4_wf a;
  mo_list : ∀ w w' r, list_addrs w = (w', r) →
    att w' = att w ∧ ∀ l, r = Ok l → list_to_set l = att w;
  mo_add : ∀ a w w' r, ipv4_wf a → add a w = (w', r) →
    match r with
    | None => att w' = {[a]} ∪ att w
    | Some _ => att w ⊆ att w' ∧ att w' ⊆ {[a]} ∪ att w
    end;
  mo_del : ∀ a w w' r, ipv4_wf a → del a w = (w', r) →
    match r with
    | None => att w' = att w ∖ {[a]}
    | Some _ => att w ∖ {[a]} ⊆ att w' ∧ att w' ⊆ att w
    end;
}.

(** Moreover failed operations change nothing. *)
Definition managed_exact {W E} (att : W → gset Addr) (op : Addr → W → W * option (E * string)) : Prop :=
  ∀ a w w' x, ipv4_wf a → op a w = (w', Some x) → att w' = att w.

Section managed_facts.
Context {W E : Type} (att : W → gset Addr).
Context (list_addrs : W → W * result (AttachError E) (list Addr)).
Context (add del : Addr → W → W * option (E * string)) (fm : string → string → string).
Context (Hok : managed_ok att list_addrs add del).

Lemma valid_ipv4 a : ipv4_wf a → validateIPv4Addr (E:=E) a = Ok ().
Proof. intros [H4 _]. unfold validateIPv4Addr. by destruct a. Qed.

Lemma list_contains w w' l a :
  list_addrs w = (w', Ok l) → containsAddr l a = true ↔ a ∈ att w.
Proof.
  intros Hl. apply (mo_list _ _ _ _ Hok) in Hl as [_ Hl].
  by rewrite containsAddr_spec, <- (Hl l eq_refl), elem_of_list_to_set.
Qed.

(** Case analysis of one call: nothing to do; done; or failed and looked again. *)
Lemma ensureState_cases op want act a w w' r :
  ipv4_wf a → ensureState list_addrs op (ensureStateAfterOperation list_addrs fm) want act a w = (w', r) →
  (att w' = att w ∧ (∃ e, r = Err e) ) ∨
  (att w' = att w ∧ r = Ok false ∧ bool_decide (a ∈ att w) = want) ∨
  ∃ w1 w2 o, att w1 = att w ∧ bool_decide (a ∈ att w) ≠ want ∧ op a w1 = (w2, o) ∧
    match o with
    | None => w' = w2 ∧ r = Ok true
    | Some _ => att w' = att w2 ∧ ((r = Ok false ∧ bool_decide (a ∈ att w2) = want) ∨ ∃ e, r = Err e)
    end.
Proof.
  intros Ha. unfold ensureState. rewrite valid_ipv4 by done.
  destruct (list_addrs w) as [w1 [l|e]] eqn:El.
  2:{ intros [= <- <-]. apply (mo_list _ _ _ _ Hok) in El as [El _]. left. eauto. }
  assert (containsAddr l a = bool_decide (a ∈ att w)) as Hc.
  { apply eq_true_iff_eq. rewrite (list_contains _ _ _ _ El), bool_decide_eq_true. done. }
  apply (mo_list _ _ _ _ Hok) in El as [El _]. rewrite Hc.
  dec (bool_decide (a ∈ att w) = want) as Hw.
  { intros [= <- <-]. right. left. auto. }
  destruct (op a w1) as [w2 [[err out]|]] eqn:Eo.
  2:{ intros [= <- <-]. right. right. exists w1, w2, None. auto. }
  unfold ensureStateAfterOperation. destruct (list_addrs w2) as [w3 [l3|e3]] eqn:E3;
    intros Heq; right; right; exists w1, w2, (Some (err, out));
    (split; [done|split; [done|split; [done|]]]).
  - assert (containsAddr l3 a = bool_decide (a ∈ att w2)) as Hc3.
    { apply eq_true_iff_eq. rewrite (list_contains _ _ _ _ E3), bool_decide_eq_true. done. }
    apply (mo_list _ _ _ _ Hok) in E3 as [E3 _]. rewrite Hc3 in Heq. revert Heq.
    dec (bool_decide (a ∈ att w2) = want) as Hw2; intros [= <- <-]; split; eauto.
  - apply (mo_list _ _ _ _ Hok) in E3 as [E3 _]. injection Heq as <- <-. split; eauto.
Qed.

Definition managed : ExternalIPManager W (AttachError E) :=
  MkIPManager list_addrs (ensureState list_addrs add (ensureStateAfterOperation list_addrs fm) true "attach external IP")
    (ensureState list_addrs del (ensureStateAfterOperation list_addrs fm) false "detach external IP").

Lemma managed_present a w w' r :
  ipv4_wf a → ipm_EnsurePresent managed a w = (w', r) →
  match r with
  | Ok b => att w' = {[a]} ∪ att w ∧ (b = true → a ∉ att w)
  | Err _ => att w ⊆ att w' ∧ att w' ⊆ {[a]} ∪ att w
  end.
Proof.
  intros Ha Hr. apply (ensureState_cases add) in Hr as [[-> [e ->]]|[(-> & -> & Hin)|
    (w1 & w2 & o & E1 & Hin & Ho & Hres)]]; [set_solver| | |done].
  - bool_props. split; [set_solver|done].
  - pose proof (mo_add _ _ _ _ Hok _ _ _ _ Ha Ho) as Hadd. rewrite E1 in Hadd.
    destruct o as [x|].
    + destruct Hres as [-> [[-> Hin2]|[e ->]]]; [|done]. bool_props.
      split; [|done]. destruct Hadd. set_solver.
    + destruct Hres as [-> ->]. split; [done|]. intros _ Hin'. by apply Hin, bool_decide_eq_true.
Qed.

Lemma managed_absent a w w' r :
  ipv4_wf a → ipm_EnsureAbsent managed a w = (w', r) →
  match r with
  | Ok b => att w' = att w ∖ {[a]} ∧ (b = true → a ∈ att w)
  | Err _ => att w ∖ {[a]} ⊆ att w' ∧ att w' ⊆ att w
  end.
Proof.
  intros Ha Hr. apply (ensureState_cases del) in Hr as [[-> [e ->]]|[(-> & -> & Hin)|
    (w1 & w2 & o & E1 & Hin & Ho & Hres)]]; [set_solver| | |done].
  - bool_props. split; [set_solver|done].
  - pose proof (mo_del _ _ _ _ Hok _ _ _ _ Ha Ho) as Hdel. rewrite E1 in Hdel.
    destruct o as [x|].
    + destruct Hres as [-> [[-> Hin2]|[e ->]]]; [|done]. bool_props.
      split; [|done]. destruct Hdel. set_solver.
    + destruct Hres as [-> ->]. split; [done|]. intros _.
      destruct (decide (a ∈ att w)); [done|]. by rewrite bool_decide_eq_false_2 in Hin.
Qed.

#[export] Instance managed_spec : IPManagerSpec managed.
Proof.
  refine {| ip_active := true; ip_attached := att |}.
  - done.
  - apply (mo_wf _ _ _ _ Hok).
  - intros w w' l Hl. apply (mo_list _ _ _ _ Hok) in Hl as [? Hl]. auto.
  - intros w w' e Hl. by apply (mo_list _ _ _ _ Hok) in Hl as [? _].
  - intros a w w' b Ha Hr. apply managed_present in Hr as [? ?]; [|done]. auto.
  - intros a w w' e Ha Hr. by apply managed_present in Hr.
  - intros a w w' b Ha Hr. by apply managed_absent in Hr.
  - intros a w w' e Ha Hr. by apply managed_absent in Hr.
Defined.

Lemma managed_is_exact :
  managed_exact att add → managed_exact att del → IPManagerExact managed.
Proof.
  intros Hxa Hxd. split; cbn [ip_attached managed_spec].
  - intros a w w' Ha Hr. apply (ensureState_cases add) in Hr as [[-> _]|[(-> & _ & _)|
      (w1 & w2 & o & E1 & Hin & Ho & Hres)]]; [done..| |done].
    destruct o as [x|]; [|by destruct Hres]. destruct Hres as [-> _].
    by rewrite (Hxa _ _ _ _ Ha Ho).
  - intros a w w' e Ha Hr. apply (ensureState_cases add) in Hr as [[-> _]|[(-> & _ & _)|
      (w1 & w2 & o & E1 & Hin & Ho & Hres)]]; [done..| |done].
    destruct o as [x|]; [|by destruct Hres]. destruct Hres as [-> _].
    by rewrite (Hxa _ _ _ _ Ha Ho).
  - intros a w w' Ha Hr. apply (ensureState_cases del) in Hr as [[-> _]|[(-> & _ & _)|
      (w1 & w2 & o & E1 & Hin & Ho & Hres)]]; [done..| |done].
    destruct o as [x|]; [|by destruct Hres]. destruct Hres as [-> _].
    by rewrite (Hxd _ _ _ _ Ha Ho).
Qed.
End managed_facts.

(** ** Prefixes as text and as byte slices *)
Definition prefix_text (p : Prefix) : string := AddrString (PrefixAddr p) +:+ "/" +:+ itoa (PrefixBits p).

Definition prefix_ok (p : Prefix) : Prop := ipv4_wf (PrefixAddr p) ∧ 0 <= PrefixBits p <= 32.

Lemma prefix_bits_cases (P : Z → Prop) :
  (∀ n, n ∈ seq 0 33 → P (Z.of_nat n)) → ∀ n, 0 <= n <= 32 → P n.
Proof.
  intros Hs n Hn. rewrite <- (Z2Nat.id n) by lia. apply Hs, elem_of_seq. lia.
Qed.

Lemma last_index_notin c l : c ∉ l → last_index c l = None.
Proof.
  induction l as [|d l IH]; simpl; [done|]. intros Hc.
  rewrite IH by (intros ?; apply Hc; by right). rewrite bool_decide_eq_false_2; [done|].
  intros ->. apply Hc. by left.
Qed.

Lemma last_index_app c l k : c ∉ k → last_index c (l ++ c :: k) = Some (length l).
Proof.
  intros Hk. induction l as [|d l IH]; simpl.
  - by rewrite last_index_notin, bool_decide_eq_true_2.
  - by rewrite IH.
Qed.

Definition slash_free (s : string) : bool := forallb (λ c, negb (bool_decide (c = "/"%char))) (bytes s).

Definition bits_text_ok (n : Z) : bool :=
  negb (match bytes (itoa n) with c :: _ :: _ => (bz c <? 49) || (57 <? bz c) | _ => false end) &&
  bool_decide (Atoi (itoa n) = Some n) && slash_free (itoa n).

Lemma bits_text n : 0 <= n <= 32 → bits_text_ok n = true.
Proof.
  revert n. apply prefix_bits_cases. intros n Hn.
  assert (forallb (λ n, bits_text_ok (Z.of_nat n)) (seq 0 33) = true) as Hall by (vm_compute; reflexivity).
  rewrite forallb_spec in Hall. by apply Hall.
Qed.

Lemma ParsePrefix_text p : prefix_ok p → ParsePrefix (prefix_text p) = Some p.
Proof.
  intros [[H4 Hw] Hn]. destruct p as [a n]. cbn [PrefixAddr PrefixBits] in *.
  pose proof (bits_text n Hn) as Hb. unfold bits_text_ok in Hb. bool_props.
  unfold slash_free in *. rewrite forallb_spec in *.
  unfold ParsePrefix, prefix_text. cbn [PrefixAddr PrefixBits].
  rewrite !bytes_app. change (bytes "/") with ["/"%char]. cbn [app].
  rewrite last_index_app.
  2:{ intros Hin. match goal with H : ∀ x, x ∈ bytes (itoa n) → _ |- _ => apply H in Hin end. by bool_props. }
  cbn [mbind option_bind]. rewrite take_app_length, of_bytes_bytes, ParseAddr_AddrString by done.
  cbn [mbind option_bind].
  assert (Is6 a = false) as -> by (by destruct a). cbn [andb].
  replace (drop (S (length (bytes (AddrString a)))) (bytes (AddrString a) ++ "/"%char :: bytes (itoa n)))
    with (bytes (itoa n)).
  2:{ rewrite drop_app_ge by lia. by replace (S (length (bytes (AddrString a))) - length (bytes (AddrString a)))%nat with 1%nat by lia. }
  rewrite of_bytes_bytes.
  match goal with H : Atoi (itoa n) = Some n |- _ => rewrite H end.
  match goal with H : _ = false |- _ => rewrite H end. cbn.
  replace ((n <? 0) || (32 <? n)) with false by lia.
  unfold PrefixFrom. replace (addr_bitlen a) with 32 by (by destruct a).
  replace (IsValid a) with true by (by destruct a). by replace ((0 <=? n) && (n <=? 32)) with true by lia.
Qed.

Lemma MaskSize_CIDRMask n : 0 <= n <= 32 → MaskSize (CIDRMask32 n) = (n, 32).
Proof.
  revert n. apply prefix_bits_cases. intros n Hn.
  assert (forallb (λ n, bool_decide (MaskSize (CIDRMask32 (Z.of_nat n)) = (Z.of_nat n, 32))) (seq 0 33) = true)
    as Hall by (vm_compute; reflexivity).
  rewrite forallb_spec in Hall. apply Hall in Hn. by bool_props.
Qed.

Lemma from_to_IPNet p : prefix_ok p → prefixFromIPNet (prefixToIPNet p) = Ok p.
Proof.
  intros [[H4 Hw] Hn]. destruct p as [a n]. cbn [PrefixAddr PrefixBits] in *.
  destruct a as [|z|]; [done| |done]. unfold prefixFromIPNet, prefixToIPNet. cbn [NetIPBytes NetMask PrefixAddr PrefixBits AsSlice].
  unfold AddrFromSlice. rewrite bool_decide_eq_true_2 by done.
  rewrite octets_bytes_val by done. rewrite MaskSize_CIDRMask by done. cbn [Z.eqb Pos.eqb negb].
  unfold Unmap, PrefixFrom. cbn [addr_bitlen IsValid].
  by replace ((0 <=? n) && (n <=? 32)) with true by lia.
Qed.

(** The conversions between prefixes and the netlink library's byte slices are
    inverse on the IPv4 prefixes the manager uses. *)
Theorem prefixFromIPNet_prefixToIPNet p :
  prefix_ok p → prefixFromIPNet (prefixToIPNet p) = Ok p.
Proof. apply from_to_IPNet. Qed.

(** ** The output of [ip -4 -o addr show] *)

(** One line: some words, the word [inet], the prefix, more words; it starts and
    ends with a graphic character. *)
Record show_line : Type := MkShowLine { sl_text : string; sl_prefix : Prefix }.

Definition line_wf (x : show_line) : Prop :=
  "010"%char ∉ bytes (sl_text x) ∧ prefix_ok (sl_prefix x) ∧
  (∃ c l, bytes (sl_text x) = c :: l ∧ solid c = true) ∧
  (∃ c l, bytes (sl_text x) = l ++ [c] ∧ solid c = true) ∧
  ∃ pre post, Fields (sl_text x) = pre ++ "inet" :: prefix_text (sl_prefix x) :: post ∧ "inet" ∉ pre.

(** Every line ends with a newline. *)
Definition show_output (l : list show_line) : string :=
  String.concat "" ((λ x, sl_text x +:+ String "010"%char "") <$> l).

Lemma inet_field_app pre next post :
  "inet" ∉ pre → inet_field (pre ++ "inet" :: next :: post) = Some next.
Proof.
  induction pre as [|f pre IH]; intros Hin; [done|].
  assert (f ≠ "inet") by (intros ->; apply Hin; by left).
  assert ("inet" ∉ pre) by (intros ?; apply Hin; by right).
  cbn [app inet_field]. destruct (pre ++ "inet" :: next :: post) as [|g l] eqn:E; [by destruct pre|].
  rewrite bool_decide_eq_false_2 by done. by apply IH.
Qed.

(** Trimming a text that starts and ends with graphic characters and is followed by
    one newline removes the newline. *)
Lemma TrimSpace_line s c1 l1 c2 l2 :
  bytes s = c1 :: l1 → solid c1 = true → bytes s = l2 ++ [c2] → solid c2 = true →
  TrimSpace (s +:+ String "010"%char "") = s ∧ TrimSpace s = s.
Proof.
  intros E1 S1 E2 S2. unfold TrimSpace.
  assert (∀ k, trim_left (c1 :: k) = c1 :: k) as Hl.
  { intros k. unfold trim_left. apply trim_left_go_stop. by apply space_width_solid. }
  assert (trim_right (l2 ++ [c2]) = l2 ++ [c2]) as Hr.
  { unfold trim_right. rewrite reverse_snoc, trim_right_go_stop by by apply space_width_rev_solid.
    by rewrite reverse_cons, reverse_involutive. }
  split.
  - rewrite bytes_app. change (bytes (String "010" "")) with ["010"%char].
    rewrite E1. cbn [app]. rewrite Hl. rewrite app_comm_cons, <- E1, E2.
    unfold trim_right. rewrite (reverse_snoc (l2 ++ [c2])), length_app. cbn [length]. rewrite Nat.add_1_r.
    cbn [trim_right_go].
    change (space_width_rev ("010"%char :: reverse (l2 ++ [c2]))) with 1%nat. cbn [drop].
    rewrite reverse_snoc, trim_right_go_stop by by apply space_width_rev_solid.
    rewrite drop_0, reverse_cons, reverse_involutive, <- E2. apply of_bytes_bytes.
  - rewrite E1, Hl, <- E1, E2, Hr, <- E2. apply of_bytes_bytes.
Qed.

Lemma parse_lines_spec {E} suffix acc l :
  (∀ x, x ∈ l → line_wf x) →
  parse_lines (E:=E) suffix acc (sl_text <$> l) =
  Ok (acc ++ (PrefixAddr <$> filter (λ p, (PrefixBits p =? suffix) = true) (sl_prefix <$> l))).
Proof.
  revert acc. induction l as [|x l IH]; intros acc Hl; cbn [fmap list_fmap parse_lines].
  { by rewrite app_nil_r. }
  destruct (Hl x ltac:(by left)) as (Hnl & Hp & (c1 & l1 & E1 & S1) & (c2 & l2 & E2 & S2) & pre & post & HF & Hpre).
  destruct (TrimSpace_line _ _ _ _ _ E1 S1 E2 S2) as [_ HT].
  rewrite HT, bool_decide_eq_false_2 by (by intros E0; rewrite E0 in E1).
  rewrite HF, inet_field_app, ParsePrefix_text by done. destruct Hp as [[H4 Hw] _]. rewrite H4.
  cbn [andb]. rewrite IH by (intros y Hy; apply Hl; by right). f_equal.
  rewrite filter_cons. destruct (PrefixBits (sl_prefix x) =? suffix); [|done].
  rewrite decide_True by done. cbn [fmap list_fmap]. by rewrite <- app_assoc.
Qed.

Lemma concat_cons2 sep s t l :
  String.concat sep (s :: t :: l) = s +:+ sep +:+ String.concat sep (t :: l).
Proof. done. Qed.

Definition show_body (l : list show_line) : string :=
  String.concat (String "010"%char "") (sl_text <$> l).

Lemma show_output_body x l : show_output (x :: l) = show_body (x :: l) +:+ String "010"%char "".
Proof.
  revert x. induction l as [|y l IH]; intros x; [done|].
  unfold show_output, show_body in *. cbn [fmap list_fmap] in *. rewrite !concat_cons2.
  cbn [fmap list_fmap] in IH. rewrite IH.
  change ("" +:+ ?s) with s. by rewrite !string_app_assoc.
Qed.

Lemma show_body_split x l :
  (∀ y, y ∈ x :: l → line_wf y) → Split (show_body (x :: l)) "010"%char = sl_text <$> x :: l.
Proof.
  revert x. induction l as [|y l IH]; intros x Hl; unfold show_body in *; cbn [fmap list_fmap] in *.
  - apply Split_last. apply (Hl x). by left.
  - rewrite concat_cons2. change (String "010" "" +:+ ?s) with (String "010"%char s).
    rewrite Split_sep by (apply (Hl x); by left). f_equal. apply IH. intros z Hz. apply Hl. by right.
Qed.

Lemma show_body_ends x l :
  (∀ y, y ∈ x :: l → line_wf y) →
  (∃ c k, bytes (show_body (x :: l)) = c :: k ∧ solid c = true) ∧
  (∃ c k, bytes (show_body (x :: l)) = k ++ [c] ∧ solid c = true).
Proof.
  revert x. induction l as [|y l IH]; intros x Hl.
  { destruct (Hl x ltac:(by left)) as (_ & _ & H1 & H2 & _). done. }
  destruct (Hl x ltac:(by left)) as (_ & _ & (c & k & Hc & Sc) & _ & _).
  destruct (IH y) as [_ (d & j & Hd & Sd)]; [intros z Hz; apply Hl; by right|].
  unfold show_body in *. cbn [fmap list_fmap] in *. rewrite concat_cons2, !bytes_app, Hc, Hd. split.
  - by exists c, (k ++ bytes (String "010" "") ++ j ++ [d]).
  - exists d, ((c :: k) ++ bytes (String "010" "") ++ j). by rewrite <- !app_assoc.
Qed.

Lemma parse_show {E} suffix l :
  (∀ x, x ∈ l → line_wf x) →
  parseManagedInterfaceAddrs (E:=E) (show_output l) suffix =
  Ok (PrefixAddr <$> filter (λ p, (PrefixBits p =? suffix) = true) (sl_prefix <$> l)).
Proof.
  intros Hl. unfold parseManagedInterfaceAddrs. destruct l as [|x l].
  { done. }
  destruct (show_body_ends x l Hl) as [(c & k & Hc & Sc) (d & j & Hd & Sd)].
  destruct (TrimSpace_line _ _ _ _ _ Hc Sc Hd Sd) as [HT _].
  rewrite show_output_body, HT, show_body_split by done. by rewrite parse_lines_spec.
Qed.

(** Parsing the output of [ip -4 -o addr show] gives exactly the addresses of its
    lines whose prefix length is the managed one, in their order. *)
Theorem parseManagedInterfaceAddrs_show {E} suffix l :
  (∀ x, x ∈ l → line_wf x) →
  parseManagedInterfaceAddrs (E:=E) (show_output l) suffix =
  Ok (PrefixAddr <$> filter (λ p, (PrefixBits p =? suffix) = true) (sl_prefix <$> l)).
Proof. apply parse_show. Qed.

(** With attachment disabled the manager is the one that does nothing. *)
#[export] Instance noopManager_spec {W E} : IPManagerSpec (noopManager (W:=W) (E:=E)) := noop_manager_spec.

(** ** From prefixes on the interface to attached addresses *)
Section attached.
Context (suffix : Z) (Hsuffix : 1 <= suffix <= 32).

Definition attached_of (ps : gset Prefix) : gset Addr :=
  set_map PrefixAddr (filter (λ p, Is4 (PrefixAddr p) && (PrefixBits p =? suffix) = true) ps).

Lemma attached_elem ps a : a ∈ attached_of ps ↔ Is4 a = true ∧ MkPrefix a suffix ∈ ps.
Proof.
  unfold attached_of. rewrite elem_of_map. split.
  - intros (p & -> & Hp). apply elem_of_filter in Hp as [Hm Hp]. bool_props.
    destruct p as [b n]. cbn [PrefixAddr PrefixBits] in *. split; [done|].
    by replace suffix with n by lia.
  - intros [H4 Hp]. exists (MkPrefix a suffix). split; [done|]. apply elem_of_filter.
    cbn [PrefixAddr PrefixBits]. rewrite H4. split; [simpl; lia|done].
Qed.

Lemma attached_add a ps : Is4 a = true → attached_of ({[MkPrefix a suffix]} ∪ ps) = {[a]} ∪ attached_of ps.
Proof.
  intros H4. apply set_eq. intros b. rewrite elem_of_union, !attached_elem, elem_of_union, !elem_of_singleton.
  split; [intros [? [[= ->]|?]]; auto|]. intros [->|[? ?]]; auto.
Qed.

Lemma attached_del a ps : attached_of (ps ∖ {[MkPrefix a suffix]}) = attached_of ps ∖ {[a]}.
Proof.
  apply set_eq. intros b.
  rewrite elem_of_difference, !attached_elem, elem_of_difference, !elem_of_singleton.
  split; [intros [? [? Hne]]|intros [[? ?] Hne]]; (split_and!; [done..|]); congruence.
Qed.

Lemma attached_mono ps qs : ps ⊆ qs → attached_of ps ⊆ attached_of qs.
Proof. intros Hsub a. rewrite !attached_elem. intros [? ?]. auto. Qed.

Lemma PrefixFrom_ok a : ipv4_wf a → PrefixFrom a suffix = MkPrefix a suffix.
Proof.
  intros [H4 _]. unfold PrefixFrom. destruct a; try done. cbn [addr_bitlen IsValid].
  by replace ((0 <=? suffix) && (suffix <=? 32)) with true by lia.
Qed.

(** The list a manager returns, as a set *)
Lemma attached_list `{GoSort} (l : list Prefix) ps :
  list_to_set l = ps →
  list_to_set (sort_slice addr_less (PrefixAddr <$>
    filter (λ p, Is4 (PrefixAddr p) && (PrefixBits p =? suffix) = true) l)) = attached_of ps.
Proof.
  intros <-. apply set_eq. intros a. rewrite elem_of_list_to_set, sort_slice_elem, attached_elem.
  rewrite elem_of_list_to_set, list_elem_of_fmap. split.
  - intros (p & -> & Hp). apply list_elem_of_filter in Hp as [Hm Hp]. bool_props.
    destruct p as [b n]. cbn [PrefixAddr PrefixBits] in *. split; [done|]. by replace suffix with n by lia.
  - intros [H4 Hp]. exists (MkPrefix a suffix). split; [done|]. apply list_elem_of_filter.
    cbn [PrefixAddr PrefixBits]. rewrite H4. split; [simpl; lia|done].
Qed.
End attached.

(** ** What the kernel does when an address is deleted

    The addresses of one subnet on an interface are a primary one and secondary ones.
    When the primary one is deleted, the kernel deletes the secondary ones with it,
    unless the setting promote_secondaries is on. *)
Definition same_subnet (p q : Prefix) : Prop :=
  PrefixBits p = PrefixBits q ∧
  ∃ x y, PrefixAddr p = Addr4 x ∧ PrefixAddr q = Addr4 y ∧ x / 2 ^ (32 - PrefixBits p) = y / 2 ^ (32 - PrefixBits q).

Definition may_delete (promote : bool) (p : Prefix) (before after : gset Prefix) : Prop :=
  after ⊆ before ∧ ∀ q, q ∈ before → q ≠ p → q ∈ after ∨ (promote = false ∧ same_subnet p q).

Definition deletes (promote : bool) (p : Prefix) (before after : gset Prefix) : Prop :=
  p ∉ after ∧ may_delete promote p before after.

(** No other address is lost: there are no secondary ones, or they are promoted. *)
Definition secondaries_kept (promote : bool) (suffix : Z) : Prop := promote = true ∨ suffix = 32.

Lemma may_delete_kept promote p before after :
  secondaries_kept promote (PrefixBits p) → may_delete promote p before after → before ∖ {[p]} ⊆ after ∧ after ⊆ before.
Proof.
  intros Hk [Hsub Hd]. split; [|done]. intros q [Hq Hne]%elem_of_difference. rewrite elem_of_singleton in Hne.
  destruct (Hd q Hq Hne) as [?|(Hp & Hb & x & y & Ex & Ey & Exy)]; [done|]. destruct Hk as [?|E32]; [congruence|].
  rewrite <- Hb, E32, Z.sub_diag, !Z.div_1_r in Exy. destruct Hne. destruct p, q; cbn in *. congruence.
Qed.

Lemma deletes_kept promote p before after :
  secondaries_kept promote (PrefixBits p) → deletes promote p before after → after = before ∖ {[p]}.
Proof. intros Hk [Hp Hd]. apply may_delete_kept in Hd as [? ?]; [|done]. set_solver. Qed.

(** What the netlink client promises about one interface, for the prefixes on it. *)
Record netlink_ok {W E} (promote : bool) (client : netlinkClient W E) (iface : string) (prefixes : W → gset Prefix) : Prop := {
  nk_wf : ∀ w p, p ∈ prefixes w → Is4 (PrefixAddr p) = true → addr_wf (PrefixAddr p);
  nk_list : ∀ w w' r, ListIPv4Addrs client iface w = (w', r) →
    prefixes w' = prefixes w ∧ ∀ l, r = Ok l → list_to_set l = prefixes w;
  nk_add : ∀ p w w' r, prefix_ok p → AddIPv4Addr client iface p w = (w', r) →
    match r with
    | Ok _ => prefixes w' = {[p]} ∪ prefixes w
    | Err _ => prefixes w' = prefixes w
    end;
  nk_del : ∀ p w w' r, prefix_ok p → DeleteIPv4Addr client iface p w = (w', r) →
    match r with
    | Ok _ => deletes promote p (prefixes w) (prefixes w')
    | Err _ => prefixes w' = prefixes w
    end;
}.

Section netlink_facts.
Context `{GoSort} {W E : Type} (promote : bool) (cfg : Config) (client : netlinkClient W E) (prefixes : W → gset Prefix).
Context (Hsuffix : 1 <= CIDRSuffix cfg <= 32) (Hkept : secondaries_kept promote (CIDRSuffix cfg)).
Context (Hnk : netlink_ok promote client (Interface cfg) prefixes).

Definition netlink_att (w : W) : gset Addr := attached_of (CIDRSuffix cfg) (prefixes w).

Lemma suffix_ok a : ipv4_wf a → prefix_ok (MkPrefix a (CIDRSuffix cfg)).
Proof. intros Ha. split; [done|]. simpl. lia. Qed.

Lemma netlink_managed :
  managed_ok netlink_att (netlinkList cfg client)
    (prefix_operation cfg (AddIPv4Addr client)) (prefix_operation cfg (DeleteIPv4Addr client)) ∧
  managed_exact netlink_att (prefix_operation cfg (AddIPv4Addr client)) ∧
  managed_exact netlink_att (prefix_operation cfg (DeleteIPv4Addr client)).
Proof.
  unfold netlink_att, prefix_operation, managed_exact. split_and!; [split| |].
  - intros w a [H4 Hp]%attached_elem. split; [done|]. by apply (nk_wf _ _ _ _ Hnk) in Hp.
  - intros w w' r. unfold netlinkList.
    destruct (ListIPv4Addrs client (Interface cfg) w) as [w1 [l|e]] eqn:El;
      apply (nk_list _ _ _ _ Hnk) in El as [E1 E2]; intros [= <- <-]; rewrite E1; split; try done.
    intros ? [= <-]. rewrite <- (attached_list _ l _ (E2 l eq_refl)). done.
  - intros a w w' r Ha. rewrite PrefixFrom_ok by done.
    destruct (AddIPv4Addr _ _ _ _) as [w1 [u|e]] eqn:Eo; apply (nk_add _ _ _ _ Hnk) in Eo as Eo';
      try (by apply suffix_ok); intros [= <- <-]; rewrite Eo'; [apply attached_add, Ha|set_solver].
  - intros a w w' r Ha. rewrite PrefixFrom_ok by done.
    destruct (DeleteIPv4Addr _ _ _ _) as [w1 [u|e]] eqn:Eo; apply (nk_del _ _ _ _ Hnk) in Eo as Eo';
      try (by apply suffix_ok); intros [= <- <-]; [|rewrite Eo'; set_solver].
    apply deletes_kept in Eo' as ->; [|done]. apply attached_del.
  - intros a w w' x Ha. rewrite PrefixFrom_ok by done.
    destruct (AddIPv4Addr _ _ _ _) as [w1 [u|e]] eqn:Eo; [done|].
    apply (nk_add _ _ _ _ Hnk) in Eo; [|by apply suffix_ok]. intros [= <- _]. by rewrite Eo.
  - intros a w w' x Ha. rewrite PrefixFrom_ok by done.
    destruct (DeleteIPv4Addr _ _ _ _) as [w1 [u|e]] eqn:Eo; [done|].
    apply (nk_del _ _ _ _ Hnk) in Eo; [|by apply suffix_ok]. intros [= <- _]. by rewrite Eo.
Qed.

#[export] Instance netlink_spec : IPManagerSpec (netlinkManager cfg client) :=
  managed_spec _ _ _ _ _ (proj1 netlink_managed).

#[export] Instance netlink_exact : IPManagerExact (netlinkManager cfg client).
Proof. apply managed_is_exact; apply netlink_managed. Qed.
End netlink_facts.

(** What the kernel promises through the netlink library about the interface
    [iface]: [links] are the handles of the interface, and the addresses are listed
    as IPv4 networks. *)
Record kernel_ok {W Link E} (promote : bool) (nl : Netlink W Link E) (iface : string) (links : Link → Prop)
    (prefixes : W → gset Prefix) : Prop := {
  ko_wf : ∀ w p, p ∈ prefixes w → prefix_ok p;
  ko_link : ∀ w w' r, LinkByName nl iface w = (w', r) →
    prefixes w' = prefixes w ∧ ∀ link, r = Ok link → links link;
  ko_list : ∀ link w w' r, links link → AddrList nl link w = (w', r) →
    prefixes w' = prefixes w ∧
    ∀ l, r = Ok l → ∃ ps, omap id l = prefixToIPNet <$> ps ∧ list_to_set ps = prefixes w;
  ko_add : ∀ link p w w' r, links link → prefix_ok p → AddrAdd nl link (prefixToIPNet p) w = (w', r) →
    prefixes w' = if is_Ok r then {[p]} ∪ prefixes w else prefixes w;
  ko_del : ∀ link p w w' r, links link → prefix_ok p → AddrDel nl link (prefixToIPNet p) w = (w', r) →
    if is_Ok r then deletes promote p (prefixes w) (prefixes w') else prefixes w' = prefixes w;
}.

Section linux_facts.
Context {W Link E : Type} (promote : bool) (nl : Netlink W Link E) (iface : string).
Context (links : Link → Prop) (prefixes : W → gset Prefix) (Hko : kernel_ok promote nl iface links prefixes).

Lemma convert_addrs_spec l ps acc :
  omap id l = prefixToIPNet <$> ps → (∀ p, p ∈ ps → prefix_ok p) →
  convert_addrs (E:=E) iface acc l = Ok (acc ++ ps).
Proof.
  revert ps acc. induction l as [|[net|] l IH]; intros ps acc; cbn [omap list_omap id convert_addrs].
  - destruct ps; [|done]. by rewrite app_nil_r.
  - destruct ps as [|p ps]; [done|]. cbn [fmap list_fmap]. intros [= -> Hl] Hok.
    rewrite from_to_IPNet by (apply Hok; by left). destruct (Hok p) as [[-> _] _]; [by left|].
    rewrite (IH ps) by (try done; intros q Hq; apply Hok; by right). by rewrite <- app_assoc.
  - apply IH.
Qed.

(** The Linux client keeps the promises the manager relies on. *)
Lemma linux_client_ok : netlink_ok promote (linuxNetlinkClient nl) iface prefixes.
Proof.
  split; cbn [ListIPv4Addrs AddIPv4Addr DeleteIPv4Addr linuxNetlinkClient].
  - intros w p [[_ Hp] _]%(ko_wf _ _ _ _ _ Hko) _. done.
  - intros w w' r. unfold linuxListIPv4Addrs.
    destruct (LinkByName nl iface w) as [w1 [link|e]] eqn:E1; apply (ko_link _ _ _ _ _ Hko) in E1 as [V1 L1].
    2:{ by intros [= <- <-]. }
    destruct (AddrList nl link w1) as [w2 [l|e]] eqn:E2; apply (ko_list _ _ _ _ _ Hko) in E2 as [V2 L2]; auto.
    2:{ intros [= <- <-]. split; [congruence|done]. }
    destruct (L2 l eq_refl) as (ps & Hl & Hps). rewrite (convert_addrs_spec _ ps) by
      (try done; intros p Hp; apply (ko_wf _ _ _ _ _ Hko w1); by rewrite <- Hps, elem_of_list_to_set).
    intros [= <- <-]. split; [congruence|]. intros ? [= <-]. congruence.
  - intros p w w' r Hp. unfold linuxAddIPv4Addr.
    destruct (LinkByName nl iface w) as [w1 [link|e]] eqn:E1; apply (ko_link _ _ _ _ _ Hko) in E1 as [V1 L1].
    2:{ by intros [= <- <-]. }
    destruct (AddrAdd nl link _ w1) as [w2 [u|e]] eqn:E2; apply (ko_add _ _ _ _ _ Hko) in E2; auto;
      intros [= <- <-]; cbn in E2; congruence.
  - intros p w w' r Hp. unfold linuxDeleteIPv4Addr.
    destruct (LinkByName nl iface w) as [w1 [link|e]] eqn:E1; apply (ko_link _ _ _ _ _ Hko) in E1 as [V1 L1].
    2:{ by intros [= <- <-]. }
    destruct (AddrDel nl link _ w1) as [w2 [u|e]] eqn:E2; apply (ko_del _ _ _ _ _ Hko) in E2; auto;
      intros [= <- <-]; cbn in E2; rewrite V1 in E2; done.
Qed.
End linux_facts.

(** What the [ip] command promises about one interface. *)
Record runner_ok {W E} (promote : bool) (runner : Runner W E) (cfg : Config) (prefixes : W → gset Prefix) : Prop := {
  ro_wf : ∀ w p, p ∈ prefixes w → Is4 (PrefixAddr p) = true → addr_wf (PrefixAddr p);
  ro_show : ∀ w w' out err,
    runner (CommandPath cfg) ["-4"; "-o"; "addr"; "show"; "dev"; Interface cfg] w = (w', (out, err)) →
    prefixes w' = prefixes w ∧
    (err = None → ∃ lines, out = show_output lines ∧ (∀ x, x ∈ lines → line_wf x) ∧
      list_to_set (sl_prefix <$> lines) = prefixes w);
  ro_add : ∀ p w w' out err, prefix_ok p →
    runner (CommandPath cfg) ["addr"; "add"; prefix_text p; "dev"; Interface cfg] w = (w', (out, err)) →
    match err with
    | None => prefixes w' = {[p]} ∪ prefixes w
    | Some _ => prefixes w ⊆ prefixes w' ∧ prefixes w' ⊆ {[p]} ∪ prefixes w
    end;
  ro_del : ∀ p w w' out err, prefix_ok p →
    runner (CommandPath cfg) ["addr"; "del"; prefix_text p; "dev"; Interface cfg] w = (w', (out, err)) →
    match err with
    | None => deletes promote p (prefixes w) (prefixes w')
    | Some _ => may_delete promote p (prefixes w) (prefixes w')
    end;
}.

Lemma filter_ext_in {A} (f g : A → bool) (l : list A) :
  (∀ x, x ∈ l → f x = g x) → filter (λ x, f x = true) l = filter (λ x, g x = true) l.
Proof.
  induction l as [|x l IH]; intros Hl; [done|]. rewrite !filter_cons.
  rewrite (Hl x) by by left. by rewrite IH by (intros y Hy; apply Hl; by right).
Qed.

Section exec_facts.
Context `{GoSort} {W E : Type} (promote : bool) (cfg : Config) (runner : Runner W E) (prefixes : W → gset Prefix).
Context (Hsuffix : 1 <= CIDRSuffix cfg <= 32) (Hkept : secondaries_kept promote (CIDRSuffix cfg)).
Context (Hro : runner_ok promote runner cfg prefixes).

Definition exec_att (w : W) : gset Addr := attached_of (CIDRSuffix cfg) (prefixes w).

Lemma exec_list w w' r :
  execList cfg runner w = (w', r) →
  exec_att w' = exec_att w ∧ ∀ l, r = Ok l → list_to_set l = exec_att w.
Proof.
  unfold execList, exec_att. destruct (runner _ _ w) as [w1 [out [err|]]] eqn:Er;
    apply (ro_show _ _ _ _ Hro) in Er as [E1 E2].
  { intros [= <- <-]. by rewrite E1. }
  destruct (E2 eq_refl) as (lines & -> & Hwf & Hset). rewrite parse_show by done.
  intros [= <- <-]. rewrite E1. split; [done|]. intros l [= <-].
  rewrite <- (attached_list _ _ _ Hset). do 3 f_equal. apply (filter_ext_in _ _ (sl_prefix <$> lines)).
  intros p (x & -> & Hx)%list_elem_of_fmap. destruct (Hwf x Hx) as (_ & ([-> _] & _) & _). done.
Qed.

Lemma exec_managed :
  managed_ok exec_att (execList cfg runner) (addr_command cfg runner "add") (addr_command cfg runner "del").
Proof.
  split.
  - intros w a [H4 Hp]%attached_elem. split; [done|]. by apply (ro_wf _ _ _ _ Hro) in Hp.
  - apply exec_list.
  - intros a w w' r Ha. unfold addr_command, exec_att. destruct (runner _ _ w) as [w1 [out err]] eqn:Er.
    apply (ro_add _ _ _ _ Hro (MkPrefix a (CIDRSuffix cfg))) in Er; [|split; [done|simpl; lia]].
    destruct err; intros [= <- <-].
    + destruct Er as [H1 H2]. rewrite <- attached_add by apply Ha. split; by apply attached_mono.
    + rewrite Er. apply attached_add, Ha.
  - intros a w w' r Ha. unfold addr_command, exec_att. destruct (runner _ _ w) as [w1 [out err]] eqn:Er.
    apply (ro_del _ _ _ _ Hro (MkPrefix a (CIDRSuffix cfg))) in Er; [|split; [done|simpl; lia]].
    destruct err; intros [= <- <-].
    + apply may_delete_kept in Er as [H1 H2]; [|done]. rewrite <- attached_del. split; by apply attached_mono.
    + apply deletes_kept in Er as ->; [|done]. apply attached_del.
Qed.

#[export] Instance exec_spec : IPManagerSpec (execManager cfg runner) :=
  managed_spec _ _ _ _ _ exec_managed.
End exec_facts.

(** ** Configuration *)
Section config_facts.
Context `{GoSort, UnicodeCase}.

(** [normalizeConfig] accepts exactly the supported settings and returns a
    canonical configuration: a known mode, a prefix length between 1 and 32, a
    command, and an interface when attachment is enabled; normalizing again
    changes nothing.  So [NewManager] never reaches its last branch. *)
Theorem normalizeConfig_correct cfg :
  match normalizeConfig cfg with
  | Ok c =>
    (Mode c = ModeExec ∨ Mode c = ModeNetlink) ∧ 1 <= CIDRSuffix c <= 32 ∧
    CommandPath c ≠ "" ∧ (Enabled c = true → Interface c ≠ "") ∧ normalizeConfig c = Ok c
  | Err (ErrUnsupportedMode m) => m = Mode cfg ∧ ModeValid m = false ∧ normalizeMode m ≠ ""
  | Err ErrCIDRSuffix => CIDRSuffix cfg < 0 ∨ 32 < CIDRSuffix cfg
  | Err ErrInterfaceEmpty => Enabled cfg = true ∧ TrimSpace (Interface cfg) = ""
  | Err ErrNetlinkUnsupported => False
  end.
Proof.
  unfold normalizeConfig at 1, ModeNormalize. cbv zeta.
  set (mode := if bool_decide (normalizeMode (Mode cfg) = "") then DefaultMode else normalizeMode (Mode cfg)).
  destruct (bool_decide (mode = ModeExec) || bool_decide (mode = ModeNetlink)) eqn:Hm; cbn [negb].
  2:{ split; [done|]. unfold ModeValid, ModeNormalize. revert Hm. unfold mode.
      dec (normalizeMode (Mode cfg) = "") as Hz; intros Hm; [by vm_compute in Hm|by split]. }
  set (suffix := if CIDRSuffix cfg =? 0 then DefaultCIDRSuffix else CIDRSuffix cfg).
  destruct ((suffix <? 1) || (32 <? suffix)) eqn:Hs.
  { unfold suffix, DefaultCIDRSuffix in Hs. destruct (Z.eqb_spec (CIDRSuffix cfg) 0); lia. }
  destruct (Enabled cfg && bool_decide (TrimSpace (Interface cfg) = "")) eqn:Hi; [by bool_props|].
  set (command := if bool_decide (TrimSpace (CommandPath cfg) = "") then DefaultCommandPath else TrimSpace (CommandPath cfg)).
  assert (mode = ModeExec ∨ mode = ModeNetlink) as Hmode.
  { apply orb_true_iff in Hm as [Hm|Hm]; bool_props; auto. }
  assert (command ≠ "" ∧ TrimSpace command = command) as [Hc1 Hc2].
  { unfold command. dec (TrimSpace (CommandPath cfg) = "") as Hc; [by vm_compute|].
    split; [done|apply TrimSpace_idemp]. }
  cbn [Mode CIDRSuffix CommandPath Enabled Interface]. split_and!; [done|lia|lia|done| |].
  - intros He. rewrite He in Hi. simpl in Hi. by bool_props.
  - unfold normalizeConfig. cbn [Mode CIDRSuffix CommandPath Enabled Interface].
    rewrite TrimSpace_idemp, Hc2, (bool_decide_eq_false_2 _ Hc1).
    replace (suffix =? 0) with false by lia. rewrite Hs, Hi.
    destruct Hmode as [-> | ->]; done.
Qed.
End config_facts.
