(* ===== verification/GoTime.v ===== *)
(** * Durations (Go's [time.ParseDuration])

    Durations are 64-bit counts of nanoseconds.  Fractions go through binary64
    arithmetic in Go; the model computes with the IEEE 754 operations of the
    Standard Library's [SpecFloat], so it rounds where Go rounds. *)
From S2P Require Import Prelude GoStrings.
From Stdlib Require Import Floats.SpecFloat.
Local Open Scope Z_scope.

(** ** binary64 *)
Definition f64_of_Z (z : Z) : spec_float := binary_normalize 53 1024 z 0 false.
Definition f64_mul : spec_float → spec_float → spec_float := SFmul 53 1024.
Definition f64_div : spec_float → spec_float → spec_float := SFdiv 53 1024.

(** [uint64(x)] for a finite non-negative [x] below 2^64 *)
Definition f64_trunc (x : spec_float) : Z :=
  match x with
  | S754_finite false m e => if 0 <=? e then Z.pos m * 2 ^ e else Z.pos m / 2 ^ (- e)
  | _ => 0
  end.

(** ** Scanning *)
Definition is_dec (c : ascii) : bool := (48 <=? bz c) && (bz c <=? 57).

(** [leadingInt]: the value of the leading digits and the rest; [None] on overflow *)
Fixpoint leadingInt (x : Z) (s : list ascii) : option (Z * list ascii) :=
  match s with
  | c :: s' =>
    if is_dec c then
      if 2 ^ 63 / 10 <? x then None else
      let x := x * 10 + (bz c - 48) in
      if 2 ^ 63 <? x then None else leadingInt x s'
    else Some (x, s)
  | [] => Some (x, [])
  end.

(** [leadingFraction]: digits beyond the precision are read and ignored. *)
Fixpoint leadingFraction (x : Z) (scale : spec_float) (overflow : bool) (s : list ascii) :
    Z * spec_float * list ascii :=
  match s with
  | c :: s' =>
    if is_dec c then
      if overflow then leadingFraction x scale true s' else
      if (2 ^ 63 - 1) / 10 <? x then leadingFraction x scale true s' else
      let y := x * 10 + (bz c - 48) in
      if 2 ^ 63 <? y then leadingFraction x scale true s' else
      leadingFraction y (f64_mul scale (f64_of_Z 10)) false s'
    else (x, scale, s)
  | [] => (x, scale, [])
  end.

Fixpoint take_unit (s : list ascii) : list ascii * list ascii :=
  match s with
  | c :: s' => if bool_decide (c = "."%char) || is_dec c then ([], s)
               else let '(u, rest) := take_unit s' in (c :: u, rest)
  | [] => ([], [])
  end.

(** [unitMap]; the two spellings of microseconds are U+00B5 and U+03BC. *)
Definition unit_ns (u : list ascii) : option Z :=
  if bool_decide (u = bytes "ns") then Some 1 else
  if bool_decide (u = bytes "us") || bool_decide (u = [zb 194; zb 181; "s"%char])
     || bool_decide (u = [zb 206; zb 188; "s"%char]) then Some 1000 else
  if bool_decide (u = bytes "ms") then Some 1000000 else
  if bool_decide (u = bytes "s") then Some 1000000000 else
  if bool_decide (u = bytes "m") then Some 60000000000 else
  if bool_decide (u = bytes "h") then Some 3600000000000 else None.

(** The loop over the terms; [d] accumulates as a [uint64]. *)
Fixpoint duration_terms (fuel : nat) (d : Z) (s : list ascii) : option Z :=
  match s with
  | [] => Some d
  | c :: _ =>
    match fuel with
    | O => None
    | S fuel =>
      if negb (bool_decide (c = "."%char) || is_dec c) then None else
      '(v, s1) ← leadingInt 0 s;
      let pre := bool_decide (length s1 ≠ length s) in
      let '(f, scale, s2, post) :=
        match s1 with
        | p :: s1' =>
          if bool_decide (p = "."%char) then
            let '(f, scale, s2) := leadingFraction 0 (f64_of_Z 1) false s1' in
            (f, scale, s2, bool_decide (length s2 ≠ length s1'))
          else (0, f64_of_Z 1, s1, false)
        | [] => (0, f64_of_Z 1, s1, false)
        end in
      if negb pre && negb post then None else
      let '(u, s3) := take_unit s2 in
      if bool_decide (u = []) then None else
      unit ← unit_ns u;
      if 2 ^ 63 / unit <? v then None else
      let v := v * unit in
      let v := if 0 <? f then
                 v + f64_trunc (f64_mul (f64_of_Z f) (f64_div (f64_of_Z unit) scale))
               else v in
      if 2 ^ 63 <? v then None else
      let d := (d + v) mod 2 ^ 64 in
      if 2 ^ 63 <? d then None else duration_terms fuel d s3
    end
  end.

(** [time.ParseDuration]: every term consumes at least one byte, so the length is
    enough fuel. *)
Definition ParseDuration (s : string) : option Z :=
  let '(neg, l) := match bytes s with
                   | "-"%char :: l => (true, l)
                   | "+"%char :: l => (false, l)
                   | l => (false, l)
                   end in
  if bool_decide (l = ["0"%char]) then Some 0 else
  if bool_decide (l = []) then None else
  d ← duration_terms (length l) 0 l;
  if (neg : bool) then Some (- d) else if 2 ^ 63 - 1 <? d then None else Some d.

Definition Second : Z := 1000000000.

Example ParseDuration_examples :
  ParseDuration "30s" = Some (30 * Second) ∧ ParseDuration "1h15m30.918s" = Some 4530918000000 ∧
  ParseDuration "-1.5h" = Some (-5400000000000) ∧ ParseDuration "0" = Some 0 ∧
  ParseDuration "3000000h" = None ∧ ParseDuration "5" = None ∧ ParseDuration ".5m" = Some (30 * Second) ∧
  ParseDuration "0.1h" = Some 360000000000.
Proof. by vm_compute. Qed.

(** ** The result is a 64-bit duration *)
Lemma leadingInt_bound x s v rest :
  0 <= x → leadingInt x s = Some (v, rest) → 0 <= v.
Proof.
  revert x. induction s as [|c s IH]; intros x Hx; cbn [leadingInt]; [by intros [= <- _]|].
  destruct (is_dec c) eqn:Hd; [|by intros [= <- _]].
  destruct (_ <? x); [done|]. destruct (_ <? _); [done|]. apply IH. unfold is_dec in Hd. lia.
Qed.

Lemma duration_terms_bound fuel d s v :
  0 <= d <= 2 ^ 63 → duration_terms fuel d s = Some v → 0 <= v <= 2 ^ 63.
Proof.
  revert d s. induction fuel as [|fuel IH]; intros d [|c s] Hd; cbn [duration_terms]; try done;
    try (by intros [= <-]).
  destruct (negb _); [done|].
  destruct (leadingInt 0 (c :: s)) as [[v0 s1]|]; cbn [mbind option_bind]; [|done].
  match goal with |- (let '_ := ?x in _) = _ → _ => destruct x as [[[f scale] s2] post] end.
  destruct (_ && _); [done|]. destruct (take_unit s2) as [u s3]. case_bool_decide; [done|].
  destruct (unit_ns u) as [un|]; cbn [mbind option_bind]; [|done].
  destruct (_ <? v0); [done|]. destruct (2 ^ 63 <? (if 0 <? f then _ else _)); [done|].
  match goal with |- context [2 ^ 63 <? ?x mod 2 ^ 64] => set (y := x mod 2 ^ 64);
    assert (0 <= y) by (apply Z.mod_pos_bound; lia); destruct (Z.ltb_spec (2 ^ 63) y) end; [done|].
  apply IH. lia.
Qed.

Lemma ParseDuration_bound s d : ParseDuration s = Some d → - 2 ^ 63 <= d < 2 ^ 63.
Proof.
  unfold ParseDuration.
  match goal with |- (let '_ := ?x in _) = _ → _ => destruct x as [neg l] end.
  case_bool_decide; [intros [= <-]; lia|]. case_bool_decide; [done|].
  destruct (duration_terms _ 0 l) as [v|] eqn:E; cbn [mbind option_bind]; [|done].
  apply duration_terms_bound in E; [|lia]. destruct neg; [intros [= <-]; lia|].
  destruct (Z.ltb_spec (2 ^ 63 - 1) v); [done|]. intros [= <-]. lia.
Qed.

(** *** The fuel of [duration_terms] is enough: more of it changes nothing. *)
Lemma leadingInt_le x s v s1 : leadingInt x s = Some (v, s1) → (length s1 <= length s)%nat.
Proof.
  revert x. induction s as [|c s IH]; intros x; cbn [leadingInt]; [by intros [= _ <-]|].
  destruct (is_dec c); [|by intros [= _ <-]]. destruct (_ <? _); [done|]. destruct (_ <? _); [done|].
  intros Hs%IH. cbn. lia.
Qed.

Lemma leadingFraction_le x sc o s : (length (leadingFraction x sc o s).2 <= length s)%nat.
Proof.
  revert x sc o. induction s as [|c s IH]; intros x sc o; cbn [leadingFraction]; [done|].
  repeat match goal with |- context [if ?b then _ else _] => destruct b end; cbn [length snd];
    try (etransitivity; [apply IH|lia]); lia.
Qed.

Lemma take_unit_le s u s1 : take_unit s = (u, s1) → length s = (length u + length s1)%nat.
Proof.
  revert u s1. induction s as [|c s IH]; intros u s1; cbn [take_unit]; [by intros [= <- <-]|].
  destruct (_ || _); [by intros [= <- <-]|]. destruct (take_unit s) as [u' s'].
  intros [= <- <-]. cbn. by rewrite (IH u' s').
Qed.

Lemma duration_fuel n m d s :
  (length s <= n)%nat → (length s <= m)%nat → duration_terms n d s = duration_terms m d s.
Proof.
  revert m d s. induction n as [|n IH]; intros [|m] d [|c s] Hn Hm; try done; try (cbn in *; lia).
  cbn [duration_terms]. destruct (negb _); [done|].
  destruct (leadingInt 0 (c :: s)) as [[v s1]|] eqn:E1; [|done]. apply leadingInt_le in E1. cbn [mbind option_bind].
  match goal with |- match ?t with _ => _ end = _ =>
    assert (length t.1.2 <= length s1)%nat as E2; [|destruct t as [[[f sc] s2] post]] end.
  { destruct s1 as [|p s1']; [done|]. case_bool_decide; [|done].
    pose proof (leadingFraction_le 0 (f64_of_Z 1) false s1') as Hf.
    destruct (leadingFraction _ _ _ _) as [[f sc] s2]. cbn in *. lia. }
  cbn [fst snd] in E2. destruct (_ && _); [done|]. destruct (take_unit s2) as [u s3] eqn:E3. apply take_unit_le in E3.
  case_bool_decide as Hu; [done|]. destruct (unit_ns u); [|done]. cbn [mbind option_bind].
  repeat (destruct (_ <? _); [done|]). destruct u; [done|]. apply IH; cbn in *; lia.
Qed.
