(* ===== verification/Config.v ===== *)
(** * Controller configuration (internal/config/config.go)

    The environment is a finite map; the dotenv parser is a parameter. *)
From S2P Require Import Prelude GoStrings GoSort NetIP GoURL Kube IPAM GoTime.
Local Open Scope Z_scope.

Definition DotEnvFileName : string := ".env".
Definition EnvMetricsAddr : string := "K8S_LB_CONTROLLER_METRICS_ADDR".
Definition EnvHealthAddr : string := "K8S_LB_CONTROLLER_HEALTH_ADDR".
Definition EnvLeaderElect : string := "K8S_LB_CONTROLLER_LEADER_ELECT".
Definition EnvLoadBalancerClass : string := "K8S_LB_CONTROLLER_LOAD_BALANCER_CLASS".
Definition EnvIPPool : string := "K8S_LB_CONTROLLER_IP_POOL".
Definition EnvRequeueAfter : string := "K8S_LB_CONTROLLER_REQUEUE_AFTER".
Definition EnvGracefulShutdownTimeout : string := "K8S_LB_CONTROLLER_GRACEFUL_SHUTDOWN_TIMEOUT".
Definition EnvLogLevel : string := "K8S_LB_CONTROLLER_LOG_LEVEL".
Definition EnvProviderMode : string := "K8S_LB_CONTROLLER_PROVIDER_MODE".
Definition EnvHAProxyConfigPath : string := "K8S_LB_CONTROLLER_HAPROXY_CONFIG_PATH".
Definition EnvHAProxyValidateCommand : string := "K8S_LB_CONTROLLER_HAPROXY_VALIDATE_COMMAND".
Definition EnvHAProxyReloadCommand : string := "K8S_LB_CONTROLLER_HAPROXY_RELOAD_COMMAND".
Definition EnvDataplaneAPIURL : string := "K8S_LB_CONTROLLER_DATAPLANE_API_URL".
Definition EnvDataplaneAPITimeout : string := "K8S_LB_CONTROLLER_DATAPLANE_API_TIMEOUT".

Definition LogLevelDebug : string := "debug".
Definition LogLevelInfo : string := "info".
Definition LogLevelWarn : string := "warn".
Definition LogLevelError : string := "error".
Definition supportedLogLevels : list string :=
  [LogLevelDebug; LogLevelInfo; LogLevelWarn; LogLevelError].

Definition ProviderModeLocalHAProxy : string := "local-haproxy".
Definition ProviderModeDataplaneAPI : string := "dataplane-api".
Definition supportedProviderModes : list string :=
  [ProviderModeLocalHAProxy; ProviderModeDataplaneAPI].

Definition DefaultMetricsAddr : string := ":8080".
Definition DefaultHealthAddr : string := ":8081".
Definition DefaultLeaderElect : bool := false.
Definition DefaultLoadBalancerClass : string := "iedge.local/service-lb".
Definition DefaultIPPool : string := "203.0.113.10,203.0.113.11,203.0.113.12".
Definition DefaultRequeueAfter : Z := 30 * Second.
Definition DefaultGracefulShutdownTimeout : Z := 15 * Second.
Definition DefaultLogLevel : string := LogLevelInfo.
Definition DefaultProviderMode : string := ProviderModeLocalHAProxy.
Definition DefaultHAProxyConfigPath : string := "/tmp/k8s-lb-controller-haproxy.cfg".
Definition DefaultHAProxyValidateCommand : string := "".
Definition DefaultHAProxyReloadCommand : string := "".
Definition DefaultDataplaneAPITimeout : Z := 10 * Second.

Record Config : Type := MkConfig {
  MetricsAddr : string;
  HealthAddr : string;
  LeaderElect : bool;
  LoadBalancerClass : string;
  IPPool : list Addr;
  RequeueAfter : Z;
  GracefulShutdownTimeout : Z;
  LogLevel : string;
  ProviderMode : string;
  HAProxyConfigPath : string;
  HAProxyValidateCommand : string;
  HAProxyReloadCommand : string;
  DataplaneAPIURL : string;
  DataplaneAPITimeout : Z;
}.

Inductive ConfigError : Type :=
| ErrParse (key : string)
| ErrNotPositive (key : string)
| ErrMustNotBeEmpty (key : string)
| ErrOneOf (key : string)
| ErrPool (e : PoolError)
| ErrNotAbsolute (key : string)
| ErrScheme (key : string).

(** ** Environment helpers *)
Notation Env := (gmap string string).

Definition stringEnv (key defaultValue : string) (env : Env) : string :=
  match env !! key with
  | None => defaultValue
  | Some value =>
    let trimmed := TrimSpace value in
    if bool_decide (trimmed = "") then defaultValue else trimmed
  end.

(** [boolEnv], [durationEnv] (and the dataplane's [intEnv]) differ in the parser only. *)
Definition parsedEnv {A} (parse : string → option A) (key : string) (defaultValue : A) (env : Env) :
    result ConfigError A :=
  match env !! key with
  | None => Ok defaultValue
  | Some value =>
    if bool_decide (TrimSpace value = "") then Ok defaultValue else
    match parse (TrimSpace value) with
    | None => Err (ErrParse key)
    | Some parsed => Ok parsed
    end
  end.

Definition boolEnv : string → bool → Env → result ConfigError bool := parsedEnv ParseBool.
Definition durationEnv : string → Z → Env → result ConfigError Z := parsedEnv ParseDuration.

Definition positive (key : string) (v : Z) : result ConfigError () := guardE (0 <? v) (ErrNotPositive key).

Section load.
Context `{UnicodeCase}.

Definition normalizeLogLevel (level : string) : string := ToLower (TrimSpace level).
Definition normalizeProviderMode (mode : string) : string := ToLower (TrimSpace mode).

Definition dataplaneAPIURLFromEnv (env : Env) : result ConfigError string :=
  match env !! EnvDataplaneAPIURL with
  | None => Err (ErrMustNotBeEmpty EnvDataplaneAPIURL)
  | Some value =>
    if bool_decide (TrimSpace value = "") then Err (ErrMustNotBeEmpty EnvDataplaneAPIURL) else
    match url_Parse (TrimSpace value) with
    | None => Err (ErrParse EnvDataplaneAPIURL)
    | Some parsed =>
      if negb (IsAbs parsed) || bool_decide (urlHost parsed = "")
      then Err (ErrNotAbsolute EnvDataplaneAPIURL) else
      if bool_decide (urlScheme parsed ≠ "http") && bool_decide (urlScheme parsed ≠ "https")
      then Err (ErrScheme EnvDataplaneAPIURL) else
      Ok (URLString parsed)
    end
  end.

Definition Load (env : Env) : result ConfigError Config :=
  let loadBalancerClass := stringEnv EnvLoadBalancerClass DefaultLoadBalancerClass env in
  let logLevel := normalizeLogLevel (stringEnv EnvLogLevel DefaultLogLevel env) in
  let providerMode := normalizeProviderMode (stringEnv EnvProviderMode DefaultProviderMode env) in
  let haproxyConfigPath := stringEnv EnvHAProxyConfigPath DefaultHAProxyConfigPath env in
  leaderElect ← boolEnv EnvLeaderElect DefaultLeaderElect env;
  requeueAfter ← durationEnv EnvRequeueAfter DefaultRequeueAfter env;
  _ ← positive EnvRequeueAfter requeueAfter;
  gracefulShutdownTimeout ← durationEnv EnvGracefulShutdownTimeout DefaultGracefulShutdownTimeout env;
  _ ← positive EnvGracefulShutdownTimeout gracefulShutdownTimeout;
  dataplaneAPITimeout ← durationEnv EnvDataplaneAPITimeout DefaultDataplaneAPITimeout env;
  _ ← positive EnvDataplaneAPITimeout dataplaneAPITimeout;
  _ ← guardE (bool_decide (loadBalancerClass ≠ "")) (ErrMustNotBeEmpty EnvLoadBalancerClass);
  _ ← guardE (bool_decide (providerMode ∈ supportedProviderModes)) (ErrOneOf EnvProviderMode);
  _ ← guardE (negb (bool_decide (providerMode = ProviderModeLocalHAProxy) &&
                    bool_decide (haproxyConfigPath = ""))) (ErrMustNotBeEmpty EnvHAProxyConfigPath);
  ipPool ← wrapE ErrPool (ParsePool (stringEnv EnvIPPool DefaultIPPool env));
  _ ← guardE (bool_decide (logLevel ∈ supportedLogLevels)) (ErrOneOf EnvLogLevel);
  dataplaneAPIURL ← (if bool_decide (providerMode = ProviderModeDataplaneAPI)
                     then dataplaneAPIURLFromEnv env else Ok "");
  Ok (MkConfig
    (stringEnv EnvMetricsAddr DefaultMetricsAddr env)
    (stringEnv EnvHealthAddr DefaultHealthAddr env)
    leaderElect loadBalancerClass ipPool requeueAfter gracefulShutdownTimeout logLevel providerMode
    haproxyConfigPath
    (stringEnv EnvHAProxyValidateCommand DefaultHAProxyValidateCommand env)
    (stringEnv EnvHAProxyReloadCommand DefaultHAProxyReloadCommand env)
    dataplaneAPIURL dataplaneAPITimeout).
End load.

(** ** The dotenv file *)

(** [os.Setenv]: a key must be non-empty without [=] and NUL, a value without NUL. *)
Definition Setenv (key value : string) (env : Env) : option Env :=
  if bool_decide (key = "") || bool_decide ("="%char ∈ bytes key) || bool_decide (zb 0 ∈ bytes key)
     || bool_decide (zb 0 ∈ bytes value)
  then None else Some (<[key := value]> env).

Inductive DotEnvError (E : Type) : Type := ErrReadDotEnv (e : E) | ErrSetFromDotEnv (key : string).
Global Arguments ErrReadDotEnv {E} _.
Global Arguments ErrSetFromDotEnv {E} _.

(** The loop over the values of the file, in the order of the iteration. *)
Fixpoint set_values {E} (values : list (string * string)) (env : Env) : Env * result (DotEnvError E) bool :=
  match values with
  | [] => (env, Ok true)
  | (key, value) :: values =>
    match env !! key with
    | Some _ => set_values values env
    | None =>
      match Setenv key value env with
      | None => (env, Err (ErrSetFromDotEnv key))
      | Some env => set_values values env
      end
    end
  end.

(** [LoadDotEnv]: reading the file may fail, or fail because it does not exist
    ([inl ()]). *)
Definition LoadDotEnv {E} (read : result (() + E) (list (string * string))) (env : Env) :
    Env * result (DotEnvError E) bool :=
  match read with
  | Err (inl _) => (env, Ok false)
  | Err (inr e) => (env, Err (ErrReadDotEnv e))
  | Ok values => set_values values env
  end.

(** ** Facts *)
Lemma stringEnv_nonempty key d env : d ≠ "" → stringEnv key d env ≠ "".
Proof. unfold stringEnv. destruct (env !! key); [|done]. by case_bool_decide. Qed.

Lemma durationEnv_bound key d env v :
  - 2 ^ 63 <= d < 2 ^ 63 → durationEnv key d env = Ok v → - 2 ^ 63 <= v < 2 ^ 63.
Proof.
  intros Hd. unfold durationEnv, parsedEnv. destruct (env !! key); [|by intros [= <-]].
  case_bool_decide; [by intros [= <-]|].
  destruct (ParseDuration _) as [x|] eqn:E; [|done]. intros [= <-]. by apply ParseDuration_bound in E.
Qed.

Lemma ParsePool_pool raw pool : ParsePool raw = Ok pool → pool ≠ [] ∧ NoDup pool ∧ Forall ipv4_wf pool.
Proof.
  unfold ParsePool. destruct (ParsePool_loop _ _ _ _) as [p|] eqn:E; cbn; [|done].
  apply (ParsePool_loop_sound _ _ []) in E as (new & -> & Hnd & _ & Hwf & _). simpl.
  case_bool_decide; [done|]. by intros [= <-].
Qed.

(** What the rest of the program may assume of a loaded configuration. *)
Definition config_wf (cfg : Config) : Prop :=
  LoadBalancerClass cfg ≠ "" ∧ IPPool cfg ≠ [] ∧ NoDup (IPPool cfg) ∧ Forall ipv4_wf (IPPool cfg) ∧
  0 < RequeueAfter cfg < 2 ^ 63 ∧ 0 < GracefulShutdownTimeout cfg < 2 ^ 63 ∧
  0 < DataplaneAPITimeout cfg < 2 ^ 63 ∧
  LogLevel cfg ∈ supportedLogLevels ∧ ProviderMode cfg ∈ supportedProviderModes ∧
  HAProxyConfigPath cfg ≠ "".

(** Where the base URL of the dataplane API comes from *)
Definition loaded_url (cfg : Config) : Prop :=
  ProviderMode cfg = ProviderModeDataplaneAPI →
  ∃ value u, url_Parse value = Some u ∧ urlScheme u ∈ ["http"; "https"] ∧ urlHost u ≠ "" ∧
    DataplaneAPIURL cfg = URLString u.

Lemma stringEnv_trimmed key d env : TrimSpace d = d → TrimSpace (stringEnv key d env) = stringEnv key d env.
Proof. unfold stringEnv. intros Hd. destruct (env !! key); [|done]. case_bool_decide; [done|]. apply TrimSpace_idemp. Qed.

Lemma dataplaneAPIURL_inv env s :
  dataplaneAPIURLFromEnv env = Ok s →
  ∃ value u, url_Parse value = Some u ∧ urlScheme u ∈ ["http"; "https"] ∧ urlHost u ≠ "" ∧ s = URLString u.
Proof.
  unfold dataplaneAPIURLFromEnv. destruct (env !! EnvDataplaneAPIURL) as [value|]; [|done].
  case_bool_decide; [done|]. destruct (url_Parse (TrimSpace value)) as [u|] eqn:E; [|done].
  destruct (negb (IsAbs u) || _) eqn:Ha; [done|]. destruct (bool_decide (urlScheme u ≠ "http") && _) eqn:Hs; [done|].
  intros [= <-]. bool_props. exists (TrimSpace value), u. split_and!; [done| |done|done].
  apply andb_false_iff in Hs. rewrite !bool_decide_eq_false in Hs. destruct Hs as [Hs|Hs]; apply dec_stable in Hs; set_solver.
Qed.

Lemma dataplaneAPIURL_err env e :
  dataplaneAPIURLFromEnv env = Err e →
  e ∈ [ErrMustNotBeEmpty EnvDataplaneAPIURL; ErrParse EnvDataplaneAPIURL; ErrNotAbsolute EnvDataplaneAPIURL;
       ErrScheme EnvDataplaneAPIURL].
Proof. unfold dataplaneAPIURLFromEnv. repeat case_match; intros [= <-]; set_solver. Qed.

Section load_facts.
Context `{UnicodeCase}.

Lemma positive_ok key v u : positive key v = Ok u → 0 < v.
Proof. unfold positive, guardE. destruct (Z.ltb_spec 0 v); done. Qed.

Lemma Load_spec env :
  match Load env with
  | Ok cfg => config_wf cfg ∧ TrimSpace (HAProxyConfigPath cfg) ≠ "" ∧ loaded_url cfg
  | Err e => e ≠ ErrMustNotBeEmpty EnvLoadBalancerClass ∧ e ≠ ErrMustNotBeEmpty EnvHAProxyConfigPath
  end.
Proof.
  assert (stringEnv EnvLoadBalancerClass DefaultLoadBalancerClass env ≠ "") as Hclass by by apply stringEnv_nonempty.
  assert (stringEnv EnvHAProxyConfigPath DefaultHAProxyConfigPath env ≠ "") as Hpath by by apply stringEnv_nonempty.
  assert (∀ A parse key (d : A) e, parsedEnv parse key d env = Err e → e = ErrParse key) as Hpe.
  { intros A parse key d e. unfold parsedEnv. destruct (env !! key); [|done].
    case_bool_decide; [done|]. destruct (parse _); [done|]. by intros [= <-]. }
  unfold Load. cbn [mbind result_bind].
  destruct (boolEnv _ _ env) as [le|e] eqn:E1; cbn; [|apply Hpe in E1 as ->; done].
  destruct (durationEnv EnvRequeueAfter _ env) as [ra|e] eqn:E2; cbn; [|apply Hpe in E2 as ->; done].
  destruct (positive _ ra) as [?|e] eqn:P2; cbn; [apply positive_ok in P2|
    unfold positive, guardE in P2; destruct (0 <? ra); [done|]; by injection P2 as <-].
  destruct (durationEnv EnvGracefulShutdownTimeout _ env) as [gs|e] eqn:E3; cbn; [|apply Hpe in E3 as ->; done].
  destruct (positive _ gs) as [?|e] eqn:P3; cbn; [apply positive_ok in P3|
    unfold positive, guardE in P3; destruct (0 <? gs); [done|]; by injection P3 as <-].
  destruct (durationEnv EnvDataplaneAPITimeout _ env) as [dt|e] eqn:E4; cbn; [|apply Hpe in E4 as ->; done].
  destruct (positive _ dt) as [?|e] eqn:P4; cbn; [apply positive_ok in P4|
    unfold positive, guardE in P4; destruct (0 <? dt); [done|]; by injection P4 as <-].
  unfold guardE. rewrite (bool_decide_eq_true_2 _ Hclass). cbn.
  dec (normalizeProviderMode (stringEnv EnvProviderMode DefaultProviderMode env) ∈ supportedProviderModes) as Hmode; cbn; [|done].
  rewrite (bool_decide_eq_false_2 _ Hpath), andb_false_r. cbn.
  destruct (ParsePool _) as [pool|e] eqn:E5; cbn; [|done].
  dec (normalizeLogLevel (stringEnv EnvLogLevel DefaultLogLevel env) ∈ supportedLogLevels) as Hlevel; cbn; [|done].
  apply durationEnv_bound in E2, E3, E4; [|done..].
  apply ParsePool_pool in E5 as (? & ? & ?).
  assert (∀ u, config_wf (MkConfig (stringEnv EnvMetricsAddr DefaultMetricsAddr env)
    (stringEnv EnvHealthAddr DefaultHealthAddr env) le
    (stringEnv EnvLoadBalancerClass DefaultLoadBalancerClass env) pool ra gs
    (normalizeLogLevel (stringEnv EnvLogLevel DefaultLogLevel env))
    (normalizeProviderMode (stringEnv EnvProviderMode DefaultProviderMode env))
    (stringEnv EnvHAProxyConfigPath DefaultHAProxyConfigPath env)
    (stringEnv EnvHAProxyValidateCommand DefaultHAProxyValidateCommand env)
    (stringEnv EnvHAProxyReloadCommand DefaultHAProxyReloadCommand env) u dt)) as Hwf.
  { intros u. unfold config_wf. cbn. split_and!; try done; lia. }
  assert (TrimSpace (stringEnv EnvHAProxyConfigPath DefaultHAProxyConfigPath env) ≠ "") as Htrim.
  { by rewrite stringEnv_trimmed by (vm_compute; reflexivity). }
  case_bool_decide as Hd.
  - destruct (dataplaneAPIURLFromEnv env) as [s|e] eqn:Hu; cbn.
    + split_and!; [apply Hwf|done|]. intros _. by apply dataplaneAPIURL_inv in Hu.
    + apply dataplaneAPIURL_err in Hu.
      repeat (apply elem_of_cons in Hu as [->|Hu]; [done|]). by apply not_elem_of_nil in Hu.
  - cbn. split_and!; [apply Hwf|done|]. intros Hm. by destruct Hd.
Qed.

(** A configuration that loads is well formed: positive 64-bit durations, a
    non-empty pool of distinct IPv4 addresses, a supported provider mode and log
    level, a class and a configuration path; and loading never fails for an empty
    class or path, because blank variables fall back to the defaults. *)
Theorem Load_correct env :
  match Load env with
  | Ok cfg => config_wf cfg
  | Err e => e ≠ ErrMustNotBeEmpty EnvLoadBalancerClass ∧ e ≠ ErrMustNotBeEmpty EnvHAProxyConfigPath
  end.
Proof. pose proof (Load_spec env) as Hl. destruct (Load env); [by destruct Hl|done]. Qed.
End load_facts.

(** The dotenv file never overrides the environment: when loading succeeds, the
    environment has all it had, and otherwise exactly the values of the file. *)
Theorem LoadDotEnv_correct {E} (values : list (string * string)) (env env' : Env) b :
  NoDup values.*1 → LoadDotEnv (E:=E) (Ok values) env = (env', Ok b) →
  b = true ∧ env' = env ∪ list_to_map values.
Proof.
  unfold LoadDotEnv. revert env. induction values as [|[key value] values IH]; intros env Hnd; cbn [set_values].
  { intros [= <- <-]. split; [done|]. cbn [list_to_map foldr]. symmetry. apply (right_id_L ∅ (∪)). }
  cbn [fmap list_fmap fst] in Hnd. apply NoDup_cons in Hnd as [Hin Hnd].
  assert (list_to_map ((key, value) :: values) = <[key := value]> (list_to_map values : Env)) as -> by done.
  destruct (env !! key) as [x|] eqn:Ek.
  - intros [-> ->]%IH; [|done]. split; [done|]. apply map_eq. intros k.
    rewrite !lookup_union. destruct (decide (k = key)) as [->|Hk]; [|by rewrite lookup_insert_ne].
    rewrite Ek. by destruct ((list_to_map values : Env) !! key), (<[key:=value]> (list_to_map values : Env) !! key).
  - unfold Setenv. destruct (_ || _); [done|]. intros [-> ->]%IH; [|done]. split; [done|].
    by rewrite <- insert_union_l, insert_union_r.
Qed.
