(* ===== verification/Metrics.v ===== *)
(** * Metrics (internal/metrics/metrics.go)

    The counters of the process and the provider wrapper that keeps some of
    them.  The global registry is split by who writes it: the reconciler's
    counters and the provider's. *)
From S2P Require Import Prelude GoStrings GoSort Provider.
Local Open Scope Z_scope.

(** ** Registration

    The collectors are known to the registry of controller-runtime by their names.
    [Register] is called by [init] and by every function of the package; a name that is
    registered twice makes [MustRegister] panic ([None]). *)
Definition metricNamespace : string := "k8s_lb_controller".

Definition collectors : list string :=
  (λ name, metricNamespace +:+ "_" +:+ name) <$>
    ["service_reconcile_total"; "service_reconcile_errors_total"; "service_reconcile_duration_seconds";
     "ip_allocations_total"; "provider_operations_total"; "provider_managed_services"].

Record Registry : Type := MkRegistry { registerOnce : bool; registered : list string }.

Fixpoint MustRegister (names registered : list string) : option (list string) :=
  match names with
  | [] => Some registered
  | name :: names => if bool_decide (name ∈ registered) then None else MustRegister names (registered ++ [name])
  end.

Definition Register (r : Registry) : option Registry :=
  if registerOnce r then Some r else MkRegistry true <$> MustRegister collectors (registered r).

Lemma MustRegister_fresh names l : NoDup (l ++ names) → MustRegister names l = Some (l ++ names).
Proof.
  revert l. induction names as [|n names IH]; intros l Hnd; cbn [MustRegister]; [by rewrite app_nil_r|].
  rewrite bool_decide_eq_false_2.
  - rewrite IH; by rewrite <- (assoc_L (++)).
  - apply NoDup_app in Hnd as (_ & Hd & _). intros Hn. apply (Hd n Hn). set_solver.
Qed.

(** However often [Register] is called, the collectors are registered once and nothing
    panics, in a registry that has none of their names. *)
Lemma Register_once l n :
  NoDup l → (∀ x, x ∈ l → x ∉ collectors) →
  Nat.iter (S n) (λ r, r ≫= Register) (Some (MkRegistry false l)) = Some (MkRegistry true (l ++ collectors)).
Proof.
  intros Hl Hd. induction n as [|n IH].
  - change (MkRegistry true <$> MustRegister collectors l = Some (MkRegistry true (l ++ collectors))).
    rewrite MustRegister_fresh; [done|].
    apply NoDup_app. split_and!; [done|done|]. by apply (bool_decide_unpack _).
  - change (Nat.iter (S n) (λ r, r ≫= Register) (Some (MkRegistry false l)) ≫= Register = Some (MkRegistry true (l ++ collectors))).
    by rewrite IH.
Qed.

Definition allocationResultAllocated : string := "allocated".
Definition allocationResultReused : string := "reused".
Definition allocationResultExhausted : string := "exhausted".
Definition allocationResultError : string := "error".

Record ReconcileMetrics : Type := MkReconcileMetrics {
  serviceReconcileTotal : Z;
  serviceReconcileErrorsTotal : Z;
  (** number of observations of the duration histogram *)
  serviceReconcileDurations : Z;
  ipAllocationsTotal : gmap string Z;
}.

Record ProviderMetrics : Type := MkProviderMetrics {
  providerOperationsTotal : gmap (string * string) Z;
  providerManagedServices : Z;
}.

Definition NewReconcileMetrics : ReconcileMetrics := MkReconcileMetrics 0 0 0 ∅.
Definition NewProviderMetrics : ProviderMetrics := MkProviderMetrics ∅ 0.

(** The value of a label combination nothing was recorded for is zero. *)
Definition counter {K} `{Countable K} (m : gmap K Z) (k : K) : Z := default 0 (m !! k).

Definition inc {K} `{Countable K} (k : K) (m : gmap K Z) : gmap K Z := <[k := counter m k + 1]> m.

Definition IncServiceReconcile (m : ReconcileMetrics) : ReconcileMetrics :=
  MkReconcileMetrics (serviceReconcileTotal m + 1) (serviceReconcileErrorsTotal m)
    (serviceReconcileDurations m) (ipAllocationsTotal m).

Definition ObserveServiceReconcile (failed : bool) (m : ReconcileMetrics) : ReconcileMetrics :=
  MkReconcileMetrics (serviceReconcileTotal m)
    (if failed then serviceReconcileErrorsTotal m + 1 else serviceReconcileErrorsTotal m)
    (serviceReconcileDurations m + 1) (ipAllocationsTotal m).

Definition recordIPAllocation (result : string) (m : ReconcileMetrics) : ReconcileMetrics :=
  MkReconcileMetrics (serviceReconcileTotal m) (serviceReconcileErrorsTotal m)
    (serviceReconcileDurations m) (inc result (ipAllocationsTotal m)).

Definition RecordIPAllocationAllocated : ReconcileMetrics → ReconcileMetrics :=
  recordIPAllocation allocationResultAllocated.
Definition RecordIPAllocationReused : ReconcileMetrics → ReconcileMetrics :=
  recordIPAllocation allocationResultReused.
Definition RecordIPAllocationExhausted : ReconcileMetrics → ReconcileMetrics :=
  recordIPAllocation allocationResultExhausted.
Definition RecordIPAllocationError : ReconcileMetrics → ReconcileMetrics :=
  recordIPAllocation allocationResultError.

Definition recordProviderOperation (operation result : string) (m : ProviderMetrics) : ProviderMetrics :=
  MkProviderMetrics (inc (operation, result) (providerOperationsTotal m)) (providerManagedServices m).

Definition set_gauge (v : Z) (m : ProviderMetrics) : ProviderMetrics :=
  MkProviderMetrics (providerOperationsTotal m) v.

(** ** [instrumentedProvider] *)
Record instrumentedProvider (W : Type) : Type := MkInstrumented {
  pmetrics : ProviderMetrics;
  refs : gset ServiceRef;
  next : W;
}.
Global Arguments MkInstrumented {W} _ _ _.
Global Arguments pmetrics {W} _.
Global Arguments refs {W} _.
Global Arguments next {W} _.

Section wrap.
Context {W E : Type} (P : Provider W E).

Definition trackEnsure (ref : ServiceRef) (p : instrumentedProvider W) : instrumentedProvider W :=
  let refs' := {[ref]} ∪ refs p in
  MkInstrumented (set_gauge (Z.of_nat (size refs')) (pmetrics p)) refs' (next p).

Definition trackDelete (ref : ServiceRef) (p : instrumentedProvider W) : instrumentedProvider W :=
  let refs' := refs p ∖ {[ref]} in
  MkInstrumented (set_gauge (Z.of_nat (size refs')) (pmetrics p)) refs' (next p).

Definition instrumentedEnsure (service : Service) (p : instrumentedProvider W) :
    instrumentedProvider W * result E bool :=
  match Ensure P service (next p) with
  | (w, Err e) => (MkInstrumented (recordProviderOperation "ensure" "error" (pmetrics p)) (refs p) w, Err e)
  | (w, Ok changed) =>
    (trackEnsure (Ref service)
       (MkInstrumented (recordProviderOperation "ensure" "success" (pmetrics p)) (refs p) w), Ok changed)
  end.

Definition instrumentedDelete (ref : ServiceRef) (p : instrumentedProvider W) :
    instrumentedProvider W * result E bool :=
  match Delete P ref (next p) with
  | (w, Err e) => (MkInstrumented (recordProviderOperation "delete" "error" (pmetrics p)) (refs p) w, Err e)
  | (w, Ok changed) =>
    (trackDelete ref
       (MkInstrumented (recordProviderOperation "delete" "success" (pmetrics p)) (refs p) w), Ok changed)
  end.

Definition instrumented : Provider (instrumentedProvider W) E :=
  MkProvider instrumentedEnsure instrumentedDelete.

(** [WrapProvider] of a provider in state [w] *)
Definition WrapProvider (m : ProviderMetrics) (w : W) : instrumentedProvider W := MkInstrumented m ∅ w.
End wrap.

(** ** Facts *)
Lemma counter_inc {K} `{Countable K} (k k' : K) (m : gmap K Z) :
  counter (inc k m) k' = counter m k' + (if bool_decide (k = k') then 1 else 0).
Proof.
  unfold inc, counter at 1. case_bool_decide as Hk.
  - subst k'. by rewrite lookup_insert_eq.
  - rewrite lookup_insert_ne by done. unfold counter. lia.
Qed.

Section wrap_facts.
Context {W E : Type} (P : Provider W E) `{!ProviderSpec P}.

#[export] Instance instrumented_spec : ProviderSpec (instrumented P).
Proof.
  refine {| pv_state := λ p, pv_state (next p); pv_norm := pv_norm |};
    cbn [Ensure Delete instrumented]; unfold instrumentedEnsure, instrumentedDelete.
  - apply pv_norm_ref.
  - intros s p p' b. destruct (Ensure P s (next p)) as [w [c|e]] eqn:Hr; [|done].
    intros [= <- _]. cbn. by eapply pv_ensure_ok.
  - intros s p p' e. destruct (Ensure P s (next p)) as [w [c|e']] eqn:Hr; [done|].
    intros [= <- _]. cbn. by eapply pv_ensure_err.
  - intros r p p' b. destruct (Delete P r (next p)) as [w [c|e]] eqn:Hr; [|done].
    intros [= <- _]. cbn. by eapply pv_delete_ok.
  - intros r p p' e. destruct (Delete P r (next p)) as [w [c|e']] eqn:Hr; [done|].
    intros [= <- _]. cbn. by eapply pv_delete_err.
Defined.

(** The wrapper is transparent: results and the wrapped provider's state are those
    of the wrapped provider, and exactly one operation counter moves, by one, the
    one for the operation and its outcome.  When no operation failed so far and
    the provider started empty, the gauge is the number of stored Services, and a
    successful call keeps it so. *)
Theorem instrumented_correct p p' res (s : Service) (r : ServiceRef) :
  (instrumentedEnsure P s p = (p', res) →
     Ensure P s (next p) = (next p', res) ∧
     (∀ k, counter (providerOperationsTotal (pmetrics p')) k =
        counter (providerOperationsTotal (pmetrics p)) k +
        (if bool_decide (("ensure", if is_Ok res then "success" else "error") = k) then 1 else 0)) ∧
     (is_Ok res = true → refs p = dom (pv_state (next p)) →
        refs p' = dom (pv_state (next p')) ∧
        providerManagedServices (pmetrics p') = Z.of_nat (size (pv_state (next p'))))) ∧
  (instrumentedDelete P r p = (p', res) →
     Delete P r (next p) = (next p', res) ∧
     (∀ k, counter (providerOperationsTotal (pmetrics p')) k =
        counter (providerOperationsTotal (pmetrics p)) k +
        (if bool_decide (("delete", if is_Ok res then "success" else "error") = k) then 1 else 0)) ∧
     (is_Ok res = true → refs p = dom (pv_state (next p)) →
        refs p' = dom (pv_state (next p')) ∧
        providerManagedServices (pmetrics p') = Z.of_nat (size (pv_state (next p'))))).
Proof.
  unfold instrumentedEnsure, instrumentedDelete. split.
  - destruct (Ensure P s (next p)) as [w [c|e]] eqn:Hr; intros [= <- <-]; cbn.
    + split; [done|]. split; [intros k; apply counter_inc|]. intros _ Hrefs.
      rewrite (pv_ensure_ok _ _ _ _ Hr), dom_insert_L, Hrefs. split; [done|].
      by rewrite <- (size_dom (<[_ := _]> _)), dom_insert_L.
    + split; [done|]. split; [intros k; apply counter_inc|done].
  - destruct (Delete P r (next p)) as [w [c|e]] eqn:Hr; intros [= <- <-]; cbn.
    + split; [done|]. split; [intros k; apply counter_inc|]. intros _ Hrefs.
      rewrite (pv_delete_ok _ _ _ _ Hr), dom_delete_L, Hrefs. split; [done|].
      by rewrite <- (size_dom (delete _ _)), dom_delete_L.
    + split; [done|]. split; [intros k; apply counter_inc|done].
Qed.

(** The gauge is not the number of Services stored in the provider: the tracked
    set starts empty, so after wrapping a provider that already holds Services
    (a restart in front of a remote dataplane) the first successful [Ensure]
    sets it to one whatever the provider holds. *)
Theorem gauge_after_restart m w s p' b :
  instrumentedEnsure P s (WrapProvider m w) = (p', Ok b) →
  pv_state w !! Ref s = None →
  providerManagedServices (pmetrics p') = 1 ∧
  Z.of_nat (size (pv_state (next p'))) = Z.of_nat (size (pv_state w)) + 1.
Proof.
  unfold instrumentedEnsure, WrapProvider. cbn [next pmetrics refs].
  destruct (Ensure P s w) as [w' [c|e]] eqn:Hr; [|done]. intros [= <- <-] Hnone. cbn.
  rewrite (pv_ensure_ok _ _ _ _ Hr), map_size_insert_None by done.
  rewrite (right_id_L ∅ (∪) ({[Ref s]} : gset ServiceRef)), size_singleton. lia.
Qed.
End wrap_facts.
