(* ===== verification/Controller.v ===== *)
(** * The Service controller (internal/controller)

    [Reconcile] and everything it calls, over a world made of the cluster (behind
    the [Client] interface), the provider's state (behind [Provider]) and the
    reconciler's metrics.  controller-runtime's finalizer helpers and
    apimachinery's [IntOrString.String] are parameters. *)
From S2P Require Import Prelude GoStrings GoSort NetIP Kube Client Provider IPAM Status Backends GoTime Config Metrics.
Local Open Scope Z_scope.

Definition serviceFinalizer : string := "iedge.local/service-lb-finalizer".

(** controllerutil's [ContainsFinalizer], [AddFinalizer] and [RemoveFinalizer], on the
    list of finalizers of the object *)
Class FinalizerUtil := {
  ContainsFinalizer : list string → string → bool;
  AddFinalizer : list string → string → list string;
  RemoveFinalizer : list string → string → list string;
  ContainsFinalizer_spec : ∀ l f, ContainsFinalizer l f = true ↔ f ∈ l;
  AddFinalizer_spec : ∀ l f x, x ∈ AddFinalizer l f ↔ x = f ∨ x ∈ l;
  RemoveFinalizer_spec : ∀ l f x, x ∈ RemoveFinalizer l f ↔ x ≠ f ∧ x ∈ l;
}.

(** ** service_filter.go *)
Definition isManagedLoadBalancerService (service : option KService) (expectedLoadBalancerClass : string) : bool :=
  match service with
  | None => false
  | Some s =>
    if bool_decide (ksType s ≠ ServiceTypeLoadBalancer) then false else
    match ksLoadBalancerClass s with
    | None => false
    | Some c => bool_decide (c = expectedLoadBalancerClass)
    end
  end.

Definition serviceLoadBalancerClass (service : option KService) : string :=
  match service with
  | Some s => default "" (ksLoadBalancerClass s)
  | None => ""
  end.

Definition deletionTimestampChanged (oldService newService : option KService) : bool :=
  match oldService, newService with
  | None, None => false
  | None, Some n => bool_decide (ksDeletionTimestamp n ≠ None)
  | Some o, None => bool_decide (ksDeletionTimestamp o ≠ None)
  | Some o, Some n =>
    match ksDeletionTimestamp o, ksDeletionTimestamp n with
    | None, None => false
    | None, Some _ | Some _, None => true
    | Some t, Some t' => negb (bool_decide (t = t'))
    end
  end.

(** Watch events; the objects of an update are [None] when they have another type. *)
Inductive WatchEvent (A : Type) : Type :=
| EvCreate
| EvUpdate (old new : option A)
| EvDelete
| EvGeneric.
Global Arguments EvCreate {A}.
Global Arguments EvUpdate {A} _ _.
Global Arguments EvDelete {A}.
Global Arguments EvGeneric {A}.

Definition serviceReconcilePredicate (e : WatchEvent KService) : bool :=
  match e with
  | EvCreate => true
  | EvUpdate (Some oldService) (Some newService) =>
    if bool_decide (ksGeneration oldService ≠ ksGeneration newService) then true
    else deletionTimestampChanged (Some oldService) (Some newService)
  | EvUpdate _ _ => true
  | EvDelete => false
  | EvGeneric => false
  end.

Definition endpointSliceReconcilePredicate (e : WatchEvent EndpointSlice) : bool :=
  match e with
  | EvCreate => true
  | EvUpdate (Some o) (Some n) => bool_decide (esResourceVersion o ≠ esResourceVersion n)
  | EvUpdate _ _ => true
  | EvDelete => true
  | EvGeneric => false
  end.

(** [endpointSliceToServiceRequests]; [None] is an object of another type. *)
Definition endpointSliceToServiceRequests (obj : option EndpointSlice) : list NamespacedName :=
  match obj with
  | None => []
  | Some endpointSlice =>
    let serviceName := label endpointSlice LabelServiceName in
    if bool_decide (serviceName = "") then []
    else [MkNN (esNamespace endpointSlice) serviceName]
  end.

(** ** service_controller.go *)
Record World (Wc Wp : Type) : Type := MkWorld {
  cluster : Wc;
  prov : Wp;
  rmetrics : ReconcileMetrics;
}.
Global Arguments MkWorld {Wc Wp} _ _ _.
Global Arguments cluster {Wc Wp} _.
Global Arguments prov {Wc Wp} _.
Global Arguments rmetrics {Wc Wp} _.

(** [ctrl.Result]: how long to wait before the next attempt, zero for not at all *)
Record Result : Type := MkResult { resRequeueAfter : Z }.

Inductive ReconcileError (Ec Ep : Type) : Type :=
| ErrGetService (e : Ec)
| ErrDeleteProvider (ref : ServiceRef) (e : Ep)
| ErrRemoveFinalizer (ref : ServiceRef) (e : Ec)
| ErrDeleteUnmanaged (ref : ServiceRef) (e : Ep)
| ErrClearStatus (ref : ServiceRef) (e : StatusError Ec)
| ErrRefreshUnmanaged (ref : ServiceRef) (e : Ec)
| ErrRemoveUnmanagedFinalizer (ref : ServiceRef) (e : Ec)
| ErrEnsureFinalizer (e : Ec)
| ErrRefreshService (e : Ec)
| ErrListServices (e : Ec)
| ErrAllocateIP (e : AllocError)
| ErrListEndpointSlices (e : Ec)
| ErrEnsureProvider (e : Ep)
| ErrUpdateStatus (e : StatusError Ec).
Global Arguments ErrGetService {Ec Ep} _.
Global Arguments ErrDeleteProvider {Ec Ep} _ _.
Global Arguments ErrRemoveFinalizer {Ec Ep} _ _.
Global Arguments ErrDeleteUnmanaged {Ec Ep} _ _.
Global Arguments ErrClearStatus {Ec Ep} _ _.
Global Arguments ErrRefreshUnmanaged {Ec Ep} _ _.
Global Arguments ErrRemoveUnmanagedFinalizer {Ec Ep} _ _.
Global Arguments ErrEnsureFinalizer {Ec Ep} _.
Global Arguments ErrRefreshService {Ec Ep} _.
Global Arguments ErrListServices {Ec Ep} _.
Global Arguments ErrAllocateIP {Ec Ep} _.
Global Arguments ErrListEndpointSlices {Ec Ep} _.
Global Arguments ErrEnsureProvider {Ec Ep} _.
Global Arguments ErrUpdateStatus {Ec Ep} _.

Section controller.
Context `{GoSort, FinalizerUtil} {Wc Ec Wp Ep : Type}.
Variable C : Client Wc Ec.
Variable P : Provider Wp Ep.
Variable cfg : Config.
(** [intstr.IntOrString.String] *)
Variable ios_String : IntOrString → string.

Notation world := (World Wc Wp).
Notation error := (ReconcileError Ec Ep).

Definition set_cluster (w : world) (c : Wc) : world := MkWorld c (prov w) (rmetrics w).
Definition set_prov (w : world) (p : Wp) : world := MkWorld (cluster w) p (rmetrics w).
Definition set_metrics (w : world) (m : ReconcileMetrics) : world := MkWorld (cluster w) (prov w) m.

(** finalizer.go *)
Definition hasServiceFinalizer (service : option KService) : bool :=
  match service with
  | None => false
  | Some s => ContainsFinalizer (ksFinalizers s) serviceFinalizer
  end.

Definition listServicesForAllocation (c : Wc) : Wc * result Ec (list KService) := cl_list_services C c.

Definition listEndpointSlicesForService (service : option KService) (c : Wc) :
    Wc * result Ec (list EndpointSlice) :=
  match service with
  | None => (c, Ok [])
  | Some s => cl_list_slices C (ksNamespace s) {[LabelServiceName := ksName s]} c
  end.

(** The patched object replaces the one in memory. *)
Definition ensureServiceFinalizer (service : KService) (c : Wc) : Wc * result Ec (bool * KService) :=
  if hasServiceFinalizer (Some service) then (c, Ok (false, service)) else
  let patched := set_finalizers service (AddFinalizer (ksFinalizers service) serviceFinalizer) in
  match cl_patch C service patched c with
  | (c, Err e) => (c, Err e)
  | (c, Ok s) => (c, Ok (true, s))
  end.

Definition removeServiceFinalizer (service : KService) (c : Wc) : Wc * result Ec () :=
  if negb (hasServiceFinalizer (Some service)) then (c, Ok ()) else
  let patched := set_finalizers service (RemoveFinalizer (ksFinalizers service) serviceFinalizer) in
  match cl_patch C service patched c with
  | (c, Err e) => (c, Err e)
  | (c, Ok _) => (c, Ok ())
  end.

Definition serviceRef (service : KService) : ServiceRef := MkRef (ksNamespace service) (ksName service).

Definition reconcileDeletingService (service : KService) (w : world) : world * result error () :=
  if negb (hasServiceFinalizer (Some service)) then (w, Ok ()) else
  match Delete P (serviceRef service) (prov w) with
  | (p, Err e) => (set_prov w p, Err (ErrDeleteProvider (serviceRef service) e))
  | (p, Ok _) =>
    let w := set_prov w p in
    match removeServiceFinalizer service (cluster w) with
    | (c, Err e) => (set_cluster w c, Err (ErrRemoveFinalizer (serviceRef service) e))
    | (c, Ok _) => (set_cluster w c, Ok ())
    end
  end.

(** The status is cleared under the same condition the function continues with. *)
Definition reconcileUnmanagedService (service : option KService) (w : world) : world * result error () :=
  match service with
  | None => (w, Ok ())
  | Some s =>
    let ownedStatus := HasLoadBalancerIngressIPInPool (Some s) (IPPool cfg) in
    if negb (hasServiceFinalizer (Some s)) && negb ownedStatus then (w, Ok ()) else
    match Delete P (serviceRef s) (prov w) with
    | (p, Err e) => (set_prov w p, Err (ErrDeleteUnmanaged (serviceRef s) e))
    | (p, Ok _) =>
      let w := set_prov w p in
      let '(c, s1, cleared) :=
        if hasServiceFinalizer (Some s) || ownedStatus
        then UpdateServiceLoadBalancerStatus C (Some s) [] (cluster w)
        else (cluster w, Some s, Ok false) in
      let w := set_cluster w c in
      match cleared, s1 with
      | Err e, _ => (w, Err (ErrClearStatus (serviceRef s) e))
      | Ok _, None => (w, Ok ())
      | Ok statusWasCleared, Some s1 =>
        if negb (hasServiceFinalizer (Some s1)) then (w, Ok ()) else
        let finish (s2 : KService) (w : world) :=
          match removeServiceFinalizer s2 (cluster w) with
          | (c, Err e) => (set_cluster w c, Err (ErrRemoveUnmanagedFinalizer (serviceRef s) e))
          | (c, Ok _) => (set_cluster w c, Ok ())
          end in
        if statusWasCleared : bool then
          match cl_get C (objectKey s1) (cluster w) with
          | (c, Err e) => (set_cluster w c, Err (ErrRefreshUnmanaged (serviceRef s) e))
          | (c, Ok s2) => finish s2 (set_cluster w c)
          end
        else finish s1 w
      end
    end
  end.

Definition buildProviderService (service : KService) (externalIP : string)
    (discoveredBackends : list ServicePortBackends) : Service :=
  MkService (ksNamespace service) (ksName service) (serviceLoadBalancerClass (Some service)) externalIP
    ((λ port, MkPort (spbName port) (spbProtocol port) (spbPort port) (ios_String (spbTargetPort port))
                (spbBackends port)) <$> discoveredBackends).

Definition providerBackendCount (service : Service) : nat :=
  foldl (λ total port, total + length (portBackends port))%nat 0%nat (svcPorts service).

(** The matcher given to the allocator *)
Definition managed_by (s : KService) : bool := isManagedLoadBalancerService (Some s) (LoadBalancerClass cfg).

(** From the allocation to the published status *)
Definition provisionService (service : KService) (allocation : Allocation) (w : world) :
    world * result error Result :=
  match listEndpointSlicesForService (Some service) (cluster w) with
  | (c, Err e) => (set_cluster w c, Err (ErrListEndpointSlices e))
  | (c, Ok endpointSlices) =>
    let w := set_cluster w c in
    let discoveredBackends := Discover (Some service) endpointSlices in
    let externalIP := AddrString (allocIP allocation) in
    match Ensure P (buildProviderService service externalIP discoveredBackends) (prov w) with
    | (p, Err e) => (set_prov w p, Err (ErrEnsureProvider e))
    | (p, Ok _) =>
      let w := set_prov w p in
      match UpdateServiceLoadBalancerStatus C (Some service) (DesiredLoadBalancerIngress externalIP)
              (cluster w) with
      | (c, _, Err e) => (set_cluster w c, Err (ErrUpdateStatus e))
      | (c, _, Ok _) => (set_cluster w c, Ok (MkResult 0))
      end
    end
  end.

(** From the list of Services to the allocation *)
Definition allocateService (service : KService) (w : world) : world * result error Result :=
  match listServicesForAllocation (cluster w) with
  | (c, Err e) => (set_cluster w c, Err (ErrListServices e))
  | (c, Ok services) =>
    let w := set_cluster w c in
    let allocator := NewAllocator (IPPool cfg) (Some managed_by) in
    match Allocate allocator (Some service) services with
    | Err ErrNoFreeIP =>
      (set_metrics w (RecordIPAllocationExhausted (rmetrics w)), Ok (MkResult (RequeueAfter cfg)))
    | Err e => (set_metrics w (RecordIPAllocationError (rmetrics w)), Err (ErrAllocateIP e))
    | Ok allocation =>
      let w := set_metrics w (if allocReused allocation then RecordIPAllocationReused (rmetrics w)
                              else RecordIPAllocationAllocated (rmetrics w)) in
      provisionService service allocation w
    end
  end.

(** The handling of a Service the controller manages *)
Definition reconcileManagedService (req : NamespacedName) (service : KService) (w : world) :
    world * result error Result :=
  match ensureServiceFinalizer service (cluster w) with
  | (c, Err e) => (set_cluster w c, Err (ErrEnsureFinalizer e))
  | (c, Ok (finalizerAdded, service)) =>
    let w := set_cluster w c in
    if finalizerAdded : bool then
      match cl_get C req (cluster w) with
      | (c, Err e) => (set_cluster w c, Err (ErrRefreshService e))
      | (c, Ok service) => allocateService service (set_cluster w c)
      end
    else allocateService service w
  end.

Definition reconcile_request (req : NamespacedName) (w : world) : world * result error Result :=
  match cl_get C req (cluster w) with
  | (c, Err e) =>
    (set_cluster w c, if cl_not_found C e then Ok (MkResult 0) else Err (ErrGetService e))
  | (c, Ok service) =>
    let w := set_cluster w c in
    if bool_decide (ksDeletionTimestamp service ≠ None) then
      let '(w, r) := reconcileDeletingService service w in
      (w, match r with Err e => Err e | Ok _ => Ok (MkResult 0) end)
    else if negb (isManagedLoadBalancerService (Some service) (LoadBalancerClass cfg)) then
      let '(w, r) := reconcileUnmanagedService (Some service) w in
      (w, match r with Err e => Err e | Ok _ => Ok (MkResult 0) end)
    else reconcileManagedService req service w
  end.

(** [Reconcile]: the request with its metrics, the deferred observation last *)
Definition Reconcile (req : NamespacedName) (w : world) : world * result error Result :=
  let w := set_metrics w (IncServiceReconcile (rmetrics w)) in
  let '(w, r) := reconcile_request req w in
  (set_metrics w (ObserveServiceReconcile (negb (is_Ok r)) (rmetrics w)), r).
End controller.

(** ** What a reconciliation may do to the stored Services *)
Section writes.
Implicit Types (m : gmap NamespacedName KService) (k : NamespacedName) (s : KService).

Definition ingress_write k (ing : list LoadBalancerIngress) m m' : Prop :=
  m' = m ∨ ∃ st, m !! k = Some st ∧ m' = <[k := set_ingress st ing]> m.

Definition finalizer_write k (fin : list string) m m' : Prop :=
  m' = m ∨ ∃ st, m !! k = Some st ∧ m' = store_finalizers m k st fin.

Definition nn (r : ServiceRef) : NamespacedName := MkNN (refNamespace r) (refName r).

(** *** Every entry of the provider belongs to a Service that has the finalizer *)
Definition guarded m (ps : gmap ServiceRef Service) : Prop :=
  ∀ r x, ps !! r = Some x → ∃ s, m !! nn r = Some s ∧ serviceFinalizer ∈ ksFinalizers s.

#[export] Instance nn_inj : Inj (=) (=) nn.
Proof. intros [] [] E. by injection E as -> ->. Qed.

Lemma guarded_delete m ps r : guarded m ps → guarded m (delete r ps).
Proof. intros Hg r' x [_ Hx]%lookup_delete_Some. by eapply Hg. Qed.

Lemma guarded_insert m ps r x s :
  guarded m ps → m !! nn r = Some s → serviceFinalizer ∈ ksFinalizers s → guarded m (<[r := x]> ps).
Proof. intros Hg Hs Hf r' x' [[<- _]|[_ Hx]]%lookup_insert_Some; [eauto|by eapply Hg]. Qed.

Lemma guarded_ingress k ing m m' ps : ingress_write k ing m m' → guarded m ps → guarded m' ps.
Proof.
  intros [->|(st & Hst & ->)] Hg; [done|]. intros r x Hx. destruct (Hg r x Hx) as (s & Hs & Hf).
  destruct (decide (k = nn r)) as [->|Hk]; [|exists s; by rewrite lookup_insert_ne].
  exists (set_ingress st ing). rewrite lookup_insert_eq. split; [done|]. simpl. congruence.
Qed.

Lemma guarded_finalizer k fin m m' ps :
  finalizer_write k fin m m' → serviceFinalizer ∈ fin ∨ (∀ r, nn r = k → ps !! r = None) →
  guarded m ps → guarded m' ps.
Proof.
  intros [->|(st & Hst & ->)] Hfin Hg; [done|]. intros r x Hx. destruct (Hg r x Hx) as (s & Hs & Hf).
  assert (k = nn r → serviceFinalizer ∈ fin) as Hk.
  { intros ->. destruct Hfin as [?|Hn]; [done|]. by rewrite Hn in Hx. }
  unfold store_finalizers. case_bool_decide as Hd.
  - destruct (decide (k = nn r)) as [Hkr|Hkr]; [|exists s; by rewrite lookup_delete_ne].
    specialize (Hk Hkr). destruct Hd as [_ ->]. by apply not_elem_of_nil in Hk.
  - destruct (decide (k = nn r)) as [Hkr|Hkr]; [|exists s; by rewrite lookup_insert_ne].
    subst k. exists (set_finalizers st fin). rewrite lookup_insert_eq. auto.
Qed.

(** *** No two live managed Services publish one address of the pool *)
Definition live (class : string) s : Prop :=
  ksDeletionTimestamp s = None ∧ isManagedLoadBalancerService (Some s) class = true.

Definition unique_ips (class : string) (pool : list Addr) m : Prop :=
  ∀ k1 k2 s1 s2 a, m !! k1 = Some s1 → m !! k2 = Some s2 → live class s1 → live class s2 →
    a ∈ pool → publishes s1 a → publishes s2 a → k1 = k2.

Lemma unique_finalizer class pool k fin m m' :
  finalizer_write k fin m m' → unique_ips class pool m → unique_ips class pool m'.
Proof.
  intros [->|(st & Hst & ->)] Hu; [done|].
  assert (∀ k' s', store_finalizers m k st fin !! k' = Some s' → ∃ s0, m !! k' = Some s0 ∧
    (live class s' → live class s0) ∧ ∀ a, publishes s' a → publishes s0 a) as Hback.
  { intros k' s'. unfold store_finalizers. case_bool_decide.
    - intros [_ Hs]%lookup_delete_Some. eauto.
    - intros [[<- <-]|[_ Hs]]%lookup_insert_Some; eauto. }
  intros k1 k2 s1 s2 a (t1 & T1 & L1 & P1)%Hback (t2 & T2 & L2 & P2)%Hback H1 H2 Ha Hp1 Hp2.
  eapply (Hu k1 k2 t1 t2 a); eauto.
Qed.

Lemma unique_ingress class pool k ing m m' :
  ingress_write k ing m m' →
  (∀ i a k' s', i ∈ ing → ingressIPv4 i = Some a → a ∈ pool → m !! k' = Some s' → k' ≠ k →
     live class s' → ¬ publishes s' a) →
  unique_ips class pool m → unique_ips class pool m'.
Proof.
  intros [->|(st & Hst & ->)] Hfree Hu; [done|]. intros k1 k2 s1 s2 a H1 H2 L1 L2 Ha P1 P2.
  apply lookup_insert_Some in H1 as [[<- <-]|[Hk1 H1]], H2 as [[<- <-]|[Hk2 H2]]; [done|..].
  - destruct P1 as (i & Hi & Hia). by destruct (Hfree i a k2 s2).
  - destruct P2 as (i & Hi & Hia). by destruct (Hfree i a k1 s1).
  - by eapply Hu.
Qed.

Lemma unique_clear class pool k m m' :
  ingress_write k [] m m' → unique_ips class pool m → unique_ips class pool m'.
Proof. intros Hw. apply (unique_ingress _ _ _ _ _ _ Hw). by intros i a k' s' ?%not_elem_of_nil. Qed.
End writes.

Section controller_facts.
Context `{GoSort, FinalizerUtil} {Wc Ec Wp Ep : Type}.
Context (C : Client Wc Ec) `{!ClientSpec C} (P : Provider Wp Ep) `{!ProviderSpec P}.
Context (cfg : Config) (ios_String : IntOrString → string).
Notation world := (World Wc Wp).
Implicit Types (w : world) (s : KService) (c : Wc) (k : NamespacedName).

Definition stored w := cs_services (cluster w).
Definition held w := pv_state (prov w).

(** The two invariants of the system *)
Definition inv w : Prop :=
  guarded (stored w) (held w) ∧ unique_ips (LoadBalancerClass cfg) (IPPool cfg) (stored w).

Lemma hasFinalizer_spec s : hasServiceFinalizer (Some s) = true ↔ serviceFinalizer ∈ ksFinalizers s.
Proof. apply ContainsFinalizer_spec. Qed.

Lemma objectKey_ref s : nn (serviceRef s) = objectKey s.
Proof. done. Qed.

Lemma update_status_write s ing c c' out res :
  UpdateServiceLoadBalancerStatus C (Some s) ing c = (c', out, res) →
  ingress_write (objectKey s) ing (cs_services c) (cs_services c').
Proof.
  intros Hu. apply (update_status_frame C) in Hu as [?|(st & ? & ?)]; [by left|right; eauto].
Qed.

Lemma patch_write orig s c c' res :
  cl_patch C orig s c = (c', res) →
  finalizer_write (objectKey s) (ksFinalizers s) (cs_services c) (cs_services c').
Proof.
  destruct res as [s'|e].
  - intros (st & ? & _ & ?)%cs_patch_ok. right. eauto.
  - intros [?|(st & ? & ?)]%cs_patch_err; [by left|right; eauto].
Qed.

Lemma remove_write s c c' res :
  removeServiceFinalizer C s c = (c', res) →
  finalizer_write (objectKey s) (RemoveFinalizer (ksFinalizers s) serviceFinalizer) (cs_services c) (cs_services c').
Proof.
  unfold removeServiceFinalizer. destruct (negb _); [intros [= <- _]; by left|].
  destruct (cl_patch C _ _ c) as [c1 r] eqn:Ep'. intros Heq.
  assert (c' = c1) as -> by (destruct r; by injection Heq as <- _).
  by apply patch_write in Ep'.
Qed.

(** The finalizer is in place when [ensureServiceFinalizer] succeeds. *)
Lemma ensureFinalizer_spec s c c' r :
  cs_services c !! objectKey s = Some s → ensureServiceFinalizer C s c = (c', r) →
  finalizer_write (objectKey s) (AddFinalizer (ksFinalizers s) serviceFinalizer)
    (cs_services c) (cs_services c') ∧
  match r with
  | Ok (b, s') => cs_services c' !! objectKey s = Some s' ∧ serviceFinalizer ∈ ksFinalizers s' ∧
      (b = false → s' = s ∧ cs_services c' = cs_services c) ∧
      s' = set_finalizers s (ksFinalizers s') ∧ cs_slices_of c' = cs_slices_of c
  | Err _ => True
  end.
Proof.
  intros Hs. unfold ensureServiceFinalizer. destruct (hasServiceFinalizer (Some s)) eqn:Hf.
  { intros [= <- <-]. split; [by left|]. apply hasFinalizer_spec in Hf.
    split_and!; try done. by destruct s. }
  set (patched := set_finalizers s _).
  destruct (cl_patch C s patched c) as [c1 [s'|e]] eqn:Ep'; intros [= <- <-].
  all: pose proof (patch_write _ _ _ _ _ Ep') as Hw.
  - split; [done|]. pose proof (cs_patch_slices s patched c) as Hsl. rewrite Ep' in Hsl.
    apply cs_patch_ok in Ep' as (st & Hst & -> & Hc).
    change (objectKey patched) with (objectKey s) in *. assert (st = s) as -> by congruence.
    assert (serviceFinalizer ∈ AddFinalizer (ksFinalizers s) serviceFinalizer) as Hin
      by (apply AddFinalizer_spec; auto).
    split_and!; try done. rewrite Hc. unfold store_finalizers. rewrite bool_decide_eq_false_2.
    + by rewrite lookup_insert_eq.
    + intros [_ E]. change (ksFinalizers patched) with (AddFinalizer (ksFinalizers s) serviceFinalizer) in E.
      rewrite E in Hin. by apply not_elem_of_nil in Hin.
  - split; [done|done].
Qed.

(** *** The provider's operations keep the guard *)
Lemma delete_guarded m r p p' res :
  Delete P r p = (p', res) → guarded m (pv_state p) → guarded m (pv_state p').
Proof.
  intros Hd Hg. destruct res.
  - rewrite (pv_delete_ok _ _ _ _ Hd). by apply guarded_delete.
  - destruct (pv_delete_err _ _ _ _ Hd) as [-> | ->]; [done|by apply guarded_delete].
Qed.

Lemma ensure_guarded m x p p' res s :
  Ensure P x p = (p', res) → m !! nn (Ref x) = Some s → serviceFinalizer ∈ ksFinalizers s →
  guarded m (pv_state p) → guarded m (pv_state p').
Proof.
  intros He Hs Hf Hg. destruct res.
  - rewrite (pv_ensure_ok _ _ _ _ He). by eapply guarded_insert.
  - destruct (pv_ensure_err _ _ _ _ He) as [-> | ->]; [done|by eapply guarded_insert].
Qed.

(** Removing the finalizer once the provider has no entry for the Service *)
Lemma remove_inv s c c' ps res :
  removeServiceFinalizer C s c = (c', res) → ps !! serviceRef s = None →
  guarded (cs_services c) ps ∧ unique_ips (LoadBalancerClass cfg) (IPPool cfg) (cs_services c) →
  guarded (cs_services c') ps ∧ unique_ips (LoadBalancerClass cfg) (IPPool cfg) (cs_services c').
Proof.
  intros Hr%remove_write Hnone [Hg Hu]. split; [|by eapply unique_finalizer].
  eapply guarded_finalizer; [done| |done]. right. intros r Hk. rewrite <- objectKey_ref in Hk.
  by apply (inj nn) in Hk as ->.
Qed.

Lemma deleting_inv s w : inv w → inv (reconcileDeletingService C P s w).1.
Proof.
  intros [Hg Hu]. unfold reconcileDeletingService. destruct (negb _); [done|].
  destruct (Delete P (serviceRef s) (prov w)) as [p [b|e]] eqn:Hd.
  2:{ split; [by eapply delete_guarded|done]. }
  assert (held (set_prov w p) !! serviceRef s = None) as Hnone.
  { unfold held. cbn. by rewrite (pv_delete_ok _ _ _ _ Hd), lookup_delete_eq. }
  eapply delete_guarded in Hg; [|exact Hd].
  destruct (removeServiceFinalizer C s (cluster (set_prov w p))) as [c r] eqn:Hr.
  assert (inv (set_cluster (set_prov w p) c)) as Hinv by by eapply remove_inv.
  by destruct r.
Qed.

Lemma unmanaged_inv s w :
  stored w !! objectKey s = Some s → inv w → inv (reconcileUnmanagedService C P cfg (Some s) w).1.
Proof.
  intros Hs [Hg Hu]. unfold reconcileUnmanagedService. destruct (_ && _); [done|].
  destruct (Delete P (serviceRef s) (prov w)) as [p [b|e]] eqn:Hd.
  2:{ split; [by eapply delete_guarded|done]. }
  assert (pv_state p !! serviceRef s = None) as Hnone.
  { by rewrite (pv_delete_ok _ _ _ _ Hd), lookup_delete_eq. }
  eapply delete_guarded in Hg; [|exact Hd]. cbn [cluster set_prov].
  destruct (if _ || _ then _ else _) as [[c s1] cleared] eqn:Hst.
  assert (ingress_write (objectKey s) [] (stored w) (cs_services c) ∧
    (∀ b s1', cleared = Ok b → s1 = Some s1' → objectKey s1' = objectKey s)) as [Hw Hkey].
  { destruct (_ || _).
    - split; [by eapply update_status_write|]. intros b' s1' -> ->. revert Hst.
      unfold UpdateServiceLoadBalancerStatus. destruct (negb _); [by intros [= _ <- _]|].
      destruct (cl_status_update C _ _) as [c1 [u|e]]; [|done]. by intros [= _ <- _].
    - injection Hst as <- <- <-. split; [by left|]. by intros ? ? _ [= <-]. }
  eapply (guarded_ingress _ _ _ _ _ Hw) in Hg. eapply (unique_clear _ _ _ _ _ Hw) in Hu.
  assert (inv (set_cluster (set_prov w p) c)) as Hinv by by split.
  destruct cleared as [b'|e]; [|done]. destruct s1 as [s1|]; [|done].
  specialize (Hkey b' s1 eq_refl eq_refl). destruct (negb _); [done|].
  assert (∀ s2 c2, objectKey s2 = objectKey s → cs_services c2 = cs_services c →
    inv (let '(c3, r) := removeServiceFinalizer C s2 c2 in set_cluster (set_prov w p) c3)) as Hfin.
  { intros s2 c2 Hk2 Hc2. destruct (removeServiceFinalizer C s2 c2) as [c3 r] eqn:Hr.
    eapply remove_inv; [exact Hr| |by rewrite Hc2].
    replace (serviceRef s2) with (serviceRef s); [done|].
    apply (inj nn). by rewrite !objectKey_ref. }
  destruct b'.
  - destruct (cl_get C (objectKey s1) (cluster (set_cluster (set_prov w p) c))) as [c2 [s2|e]] eqn:Hget.
    + apply cs_get_ok in Hget as [Hc2 Hs2]. specialize (Hfin s2 c2).
      cbn [cluster set_cluster set_prov prov rmetrics] in *.
      destruct (removeServiceFinalizer C s2 c2) as [c3 [u|e]];
        (apply Hfin; [rewrite <- Hkey; by eapply cs_keys|done]).
    + apply cs_get_err in Hget. cbn in Hget. unfold inv, stored, held. cbn. rewrite Hget. by split.
  - specialize (Hfin s1 c Hkey eq_refl). cbn [cluster set_cluster set_prov prov rmetrics] in *.
    by destruct (removeServiceFinalizer C s1 c) as [c3 [u|e]].
Qed.

(** *** The managed path *)

(** The allocator the reconciler builds *)
Definition allocator_of : Allocator := NewAllocator (IPPool cfg) (Some (managed_by cfg)).

(** An address the allocator gives is free among the stored Services. *)
Lemma allocated_free s c c' l alloc :
  cl_list_services C c = (c', Ok l) → Allocate allocator_of (Some s) l = Ok alloc →
  allocIP alloc ∈ IPPool cfg ∧
  ∀ k' s', cs_services c !! k' = Some s' → k' ≠ objectKey s → live (LoadBalancerClass cfg) s' →
    ¬ publishes s' (allocIP alloc).
Proof.
  intros Hl Ha. destruct (Allocate_free _ _ _ _ Ha) as [Hpool Hfree].
  split; [done|]. intros k' s' Hs' Hk [Hd Hm] Hpub. apply Hfree. exists s'.
  pose proof (cs_keys _ _ _ Hs') as Hkey. split; [|split; [|done]].
  - apply (cs_list_ok _ _ _ _ Hl). by rewrite Hkey.
  - unfold competes. split_and!; [done| |done]. intros E. apply Hk. rewrite <- Hkey.
    unfold serviceKey in E. unfold objectKey. congruence.
Qed.

Lemma provision_inv s alloc w :
  stored w !! objectKey s = Some s → serviceFinalizer ∈ ksFinalizers s →
  (∀ k' s', stored w !! k' = Some s' → k' ≠ objectKey s → live (LoadBalancerClass cfg) s' →
     ¬ publishes s' (allocIP alloc)) →
  ipv4_wf (allocIP alloc) →
  inv w → inv (provisionService C P ios_String s alloc w).1.
Proof.
  intros Hs Hf Hfree Hwf [Hg Hu]. unfold provisionService, listEndpointSlicesForService.
  destruct (cl_list_slices C _ _ (cluster w)) as [c1 [es|e]] eqn:Hsl; apply cs_slices in Hsl.
  2:{ unfold inv, stored, held. cbn. by rewrite Hsl. }
  cbn [cluster prov set_cluster rmetrics].
  destruct (Ensure P _ (prov w)) as [p [b|e]] eqn:He.
  all: eapply (ensure_guarded (stored w)) in He as Hg'; [|exact Hs|done|exact Hg].
  2:{ unfold inv, stored, held. cbn. rewrite Hsl. by split. }
  cbn [cluster prov set_cluster set_prov rmetrics].
  destruct (UpdateServiceLoadBalancerStatus C (Some s) _ c1) as [[c2 out] r] eqn:Hup.
  apply update_status_write in Hup. rewrite Hsl in Hup. fold (stored w) in Hup.
  assert (inv (MkWorld c2 p (rmetrics w))) as Hinv.
  { split; unfold stored, held; cbn; [by eapply guarded_ingress|].
    eapply unique_ingress; [exact Hup| |exact Hu].
    intros i a k' s' ->%list_elem_of_singleton Ha _ Hs' Hk Hl.
    rewrite ingressIPv4_string in Ha by done. injection Ha as <-. by eapply (Hfree k'). }
  by destruct r.
Qed.

Lemma allocate_inv s w :
  Forall ipv4_wf (IPPool cfg) →
  stored w !! objectKey s = Some s → serviceFinalizer ∈ ksFinalizers s →
  inv w → inv (allocateService C P cfg ios_String s w).1.
Proof.
  intros Hpool Hs Hf Hinv. unfold allocateService, listServicesForAllocation.
  destruct (cl_list_services C (cluster w)) as [c [l|e]] eqn:Hl.
  2:{ apply cs_list in Hl. unfold inv, stored, held. cbn. by rewrite Hl. }
  pose proof (cs_list _ _ _ Hl) as Hc.
  assert (inv (set_cluster w c)) as Hinv' by (unfold inv, stored, held; cbn; by rewrite Hc).
  fold allocator_of. destruct (Allocate allocator_of (Some s) l) as [alloc|[]] eqn:Ha;
    try (exact Hinv').
  pose proof (allocated_free _ _ _ _ _ Hl Ha) as [Hin Hfree].
  apply provision_inv; unfold stored; cbn.
  - rewrite Hc. done.
  - done.
  - rewrite Hc. done.
  - rewrite Forall_forall in Hpool. by apply Hpool.
  - done.
Qed.

Lemma managed_inv s w :
  Forall ipv4_wf (IPPool cfg) → stored w !! objectKey s = Some s →
  inv w → inv (reconcileManagedService C P cfg ios_String (objectKey s) s w).1.
Proof.
  intros Hpool Hs Hinv. unfold reconcileManagedService.
  destruct (ensureServiceFinalizer C s (cluster w)) as [c r] eqn:He.
  apply ensureFinalizer_spec in He as [Hw Hr]; [|done].
  assert (inv (set_cluster w c)) as Hinv'.
  { destruct Hinv as [Hg Hu]. split; [|by eapply unique_finalizer].
    eapply guarded_finalizer; [exact Hw| |exact Hg]. left. apply AddFinalizer_spec. auto. }
  destruct r as [[b s']|e]; [|done]. destruct Hr as (Hs' & Hf & Hsame & _). destruct b.
  - cbn [cluster set_cluster]. destruct (cl_get C (objectKey s) c) as [c2 [s2|e]] eqn:Hget.
    + apply cs_get_ok in Hget as [Hc2 Hs2]. assert (s2 = s') as -> by congruence.
      apply allocate_inv; [done| |done|].
      * unfold stored. cbn. rewrite Hc2. by rewrite (cs_keys _ _ _ Hs').
      * unfold inv, stored, held in *. cbn in *. by rewrite Hc2.
    + apply cs_get_err in Hget. unfold inv, stored, held in *. cbn in *. by rewrite Hget.
  - destruct (Hsame eq_refl) as [-> Hc]. by apply allocate_inv.
Qed.

Lemma request_inv req w :
  Forall ipv4_wf (IPPool cfg) → inv w → inv (reconcile_request C P cfg ios_String req w).1.
Proof.
  intros Hpool Hinv. unfold reconcile_request.
  destruct (cl_get C req (cluster w)) as [c [s|e]] eqn:Hget.
  2:{ apply cs_get_err in Hget. unfold inv, stored, held in *. cbn. by rewrite Hget. }
  apply cs_get_ok in Hget as [Hc Hs]. pose proof (cs_keys _ _ _ Hs) as <-.
  assert (inv (set_cluster w c)) as Hinv' by (unfold inv, stored, held in *; cbn; by rewrite Hc).
  assert (stored (set_cluster w c) !! objectKey s = Some s) as Hs' by (unfold stored; cbn; by rewrite Hc).
  case_bool_decide.
  { pose proof (deleting_inv s _ Hinv') as Hd. by destruct (reconcileDeletingService _ _ _ _). }
  destruct (negb _); [|by apply managed_inv].
  pose proof (unmanaged_inv s _ Hs' Hinv') as Hd. by destruct (reconcileUnmanagedService _ _ _ _ _).
Qed.

Lemma Reconcile_inv req w :
  Forall ipv4_wf (IPPool cfg) → inv w → inv (Reconcile C P cfg ios_String req w).1.
Proof.
  intros Hpool Hinv. unfold Reconcile.
  pose proof (request_inv req (set_metrics w (IncServiceReconcile (rmetrics w))) Hpool Hinv) as Hr.
  by destruct (reconcile_request _ _ _ _ _ _).
Qed.

(** ** Runs of the controller *)

(** What users and other controllers may do to the Services between two
    reconciliations: create Services (the API server clears the status of a new
    object), change a Service but neither its published addresses nor the presence of
    the finalizer, and remove Services without the finalizer.  A Service that becomes
    managed must not already publish addresses of the pool. *)
Definition user_change (m m' : gmap NamespacedName KService) : Prop :=
  (∀ k s', m' !! k = Some s' →
    match m !! k with
    | None => ksIngress s' = []
    | Some s => ksIngress s' = ksIngress s ∧
        (serviceFinalizer ∈ ksFinalizers s → serviceFinalizer ∈ ksFinalizers s') ∧
        (live (LoadBalancerClass cfg) s' →
           live (LoadBalancerClass cfg) s ∨ ∀ a, a ∈ IPPool cfg → ¬ publishes s' a)
    end) ∧
  (∀ k s, m !! k = Some s → m' !! k = None → serviceFinalizer ∉ ksFinalizers s).

Lemma user_change_inv w c' :
  user_change (stored w) (cs_services c') → inv w → inv (MkWorld c' (prov w) (rmetrics w)).
Proof.
  intros [Hch Hgone] [Hg Hu]. unfold inv, stored, held in *. cbn [cluster prov]. split.
  - intros r x Hx. destruct (Hg r x Hx) as (s & Hs & Hf).
    destruct (cs_services c' !! nn r) as [s'|] eqn:Hs'; [|by destruct (Hgone _ _ Hs Hs')].
    exists s'. split; [done|]. specialize (Hch _ _ Hs'). rewrite Hs in Hch. by apply Hch.
  - assert (∀ k s' a, cs_services c' !! k = Some s' → live (LoadBalancerClass cfg) s' → a ∈ IPPool cfg →
      publishes s' a → ∃ s, cs_services (cluster w) !! k = Some s ∧ live (LoadBalancerClass cfg) s ∧ publishes s a)
      as Hback.
    { intros k s' a Hk Hl Ha Hp. specialize (Hch _ _ Hk).
      destruct (cs_services (cluster w) !! k) as [s|]; [|destruct Hp as (i & Hi & _); rewrite Hch in Hi; set_solver].
      destruct Hch as (Hing & _ & Hlive). exists s. split_and!; [done| |].
      - destruct (Hlive Hl) as [?|Hno]; [done|]. by destruct (Hno a).
      - unfold publishes in *. by rewrite <- Hing. }
    intros k1 k2 s1 s2 a H1 H2 L1 L2 Ha P1 P2.
    destruct (Hback _ _ _ H1 L1 Ha P1) as (t1 & ? & ? & ?), (Hback _ _ _ H2 L2 Ha P2) as (t2 & ? & ? & ?).
    by eapply (Hu k1 k2 t1 t2 a).
Qed.

(** States reached from [w0] by any interleaving of reconciliations, each of which may
    succeed or fail at any point, and changes by users. *)
Inductive reachable (w0 : world) : world → Prop :=
| reachable_start : reachable w0 w0
| reachable_step req w : reachable w0 w → reachable w0 (Reconcile C P cfg ios_String req w).1
| reachable_user c' w : reachable w0 w → user_change (stored w) (cs_services c') →
    reachable w0 (MkWorld c' (prov w) (rmetrics w)).

(** Address uniqueness: along every run of the controller from a cluster in which
    no two live managed Services publish the same address of the pool, none ever
    do, whatever calls to the API server or the provider fail, as long as others leave
    the published addresses to the controller ([user_change]).  [reconcile_no_duplicates]
    is the theorem without this condition. *)
Theorem reconcile_unique_ips w0 w :
  Forall ipv4_wf (IPPool cfg) → inv w0 → reachable w0 w →
  unique_ips (LoadBalancerClass cfg) (IPPool cfg) (stored w).
Proof.
  intros Hpool Hstart Hr. enough (inv w) as [_ Hu] by done.
  induction Hr as [|req w _ IH|c' w _ IH Hc]; [done|by apply Reconcile_inv|by apply user_change_inv].
Qed.


(** ** What a successful reconciliation established *)

(** A managed Service is provisioned: the provider has its definition with address
    [a] and the backends of its EndpointSlices, its status publishes exactly
    [a], and it has the finalizer. *)
Definition provisioned (s : KService) (a : Addr) (slices : list EndpointSlice) w : Prop :=
  (∃ es, es ≡ₚ List.filter (slice_selected (ksNamespace s) {[LabelServiceName := ksName s]}) slices ∧
    held w !! serviceRef s =
      Some (pv_norm (buildProviderService ios_String s (AddrString a) (Discover (Some s) es)))) ∧
  ∃ s' i, stored w !! objectKey s = Some s' ∧ ksIngress s' = [i] ∧ TrimSpace (ingIP i) = AddrString a ∧
    serviceFinalizer ∈ ksFinalizers s'.

(** How the managed path got there: one successful [Ensure] of the definition, one
    address published, and no other Service touched.  Nothing is assumed of the
    provider. *)
Definition provision_run (s : KService) (a : Addr) w w' : Prop :=
  (∃ es b, es ≡ₚ List.filter (slice_selected (ksNamespace s) {[LabelServiceName := ksName s]}) (cs_slices_of (cluster w)) ∧
    Ensure P (buildProviderService ios_String s (AddrString a) (Discover (Some s) es)) (prov w) = (prov w', Ok b)) ∧
  (∃ s' i, stored w' !! objectKey s = Some s' ∧ s' = set_ingress (set_finalizers s (ksFinalizers s')) [i] ∧
    TrimSpace (ingIP i) = AddrString a ∧ (ksIngress s = [i] ∨ ingIP i = AddrString a) ∧
    serviceFinalizer ∈ ksFinalizers s') ∧
  (∀ k, k ≠ objectKey s → stored w' !! k = stored w !! k).

Lemma provision_ok s alloc w w' r :
  stored w !! objectKey s = Some s → serviceFinalizer ∈ ksFinalizers s → ipv4_wf (allocIP alloc) →
  provisionService C P ios_String s alloc w = (w', Ok r) →
  r = MkResult 0 ∧ provision_run s (allocIP alloc) w w'.
Proof.
  intros Hs Hf Hwf. unfold provisionService, listEndpointSlicesForService.
  destruct (cl_list_slices C _ _ (cluster w)) as [c1 [es|e]] eqn:Hsl; [|done].
  pose proof (cs_slices_ok _ _ _ _ _ Hsl) as Hes. apply cs_slices in Hsl.
  cbn [cluster prov set_cluster rmetrics].
  destruct (Ensure P _ (prov w)) as [p [b|e]] eqn:He; [|done].
  cbn [cluster prov set_cluster set_prov rmetrics].
  destruct (UpdateServiceLoadBalancerStatus C (Some s) _ c1) as [[c2 out] [b2|e]] eqn:Hup; [|done].
  intros [= <- <-]. split; [done|]. split; [by exists es, b|].
  revert Hup. unfold UpdateServiceLoadBalancerStatus, NeedsLoadBalancerIngressUpdate, stored in *.
  cbn [cluster set_cluster set_prov]. rewrite negb_involutive. destruct (LoadBalancerIngressEqual _ _) eqn:Heq.
  - apply ingress_equal_desired in Heq as (i & Hi & Hip); [|done]. intros [= <- <- <-]. rewrite Hsl. split; [|done].
    exists s, i. split_and!; [done| |done|by left|done]. rewrite <- Hi. by destruct s.
  - destruct (cl_status_update C _ c1) as [c3 [u|e]] eqn:Hst; [|done]. intros [= <- <- <-].
    apply cs_status_ok in Hst as (st & Hst & -> & Hc3).
    change (objectKey (set_ingress s _)) with (objectKey s) in *. rewrite Hsl in Hst, Hc3.
    assert (st = s) as -> by congruence. rewrite Hc3. split; [|intros k Hk; by rewrite lookup_insert_ne].
    eexists _, (MkIngress (AddrString (allocIP alloc)) ""). split; [apply lookup_insert_eq|].
    split_and!; [by destruct s|apply TrimSpace_AddrString, Hwf|by right|done].
Qed.

(** The same run with other reads before it *)
Lemma provision_run_from s a w w0 w' :
  provision_run s a w w' → cs_slices_of (cluster w) = cs_slices_of (cluster w0) → prov w = prov w0 →
  (∀ k, k ≠ objectKey s → stored w !! k = stored w0 !! k) → provision_run s a w0 w'.
Proof.
  intros (H1 & H2 & H3) Hsl Hp Hst. unfold provision_run. rewrite <- Hsl, <- Hp. split_and!; [done..|].
  intros k Hk. rewrite H3 by done. by apply Hst.
Qed.

Lemma provision_run_finalizers s fin a w w' :
  provision_run (set_finalizers s fin) a w w' → provision_run s a w w'.
Proof. done. Qed.

Lemma run_provisioned s a w w' : provision_run s a w w' → provisioned s a (cs_slices_of (cluster w)) w'.
Proof.
  intros ((es & b & Hes & He) & (s' & i & Hs' & Hi & Hip & _ & Hf) & _). split.
  - exists es. split; [done|]. unfold held. rewrite (pv_ensure_ok _ _ _ _ He). apply lookup_insert_eq.
  - exists s', i. split_and!; [done|by rewrite Hi|done|done].
Qed.

(** The pool is exhausted for a Service. *)
Definition exhausted (s : KService) w : Prop :=
  ∀ a, a ∈ IPPool cfg → ∃ k' s', k' ≠ objectKey s ∧ stored w !! k' = Some s' ∧
    live (LoadBalancerClass cfg) s' ∧ publishes s' a.

Lemma alloc_exhausted s l a :
  Allocate allocator_of (Some s) l = Err ErrNoFreeIP → a ∈ IPPool cfg → in_use allocator_of s l a.
Proof.
  unfold Allocate. case_bool_decide; [done|]. intros Hf Ha.
  destruct (List.find _ _) as [x|] eqn:Hfind.
  { destruct (assignedIPFromStatus _) as [ip|]; [|done]. by destruct (_ && _). }
  rewrite find_none_spec in Hfind. specialize (Hfind a Ha). bool_props.
  apply not_eq_None_Some, collectUsedIPs_spec in Hfind. tauto.
Qed.

(** No other live managed Service publishes the address. *)
Definition unclaimed s (a : Addr) w : Prop :=
  ∀ k' s', stored w !! k' = Some s' → k' ≠ objectKey s → live (LoadBalancerClass cfg) s' → ¬ publishes s' a.

(** The two ways in which the managed path succeeds *)
Definition managed_outcome (s : KService) w w' (r : Result) : Prop :=
  (r = MkResult (RequeueAfter cfg) ∧ exhausted s w ∧ prov w' = prov w) ∨
  (r = MkResult 0 ∧ ∃ a, a ∈ IPPool cfg ∧ unclaimed s a w ∧ provision_run s a w w').

Lemma allocate_ok s w w' r :
  Forall ipv4_wf (IPPool cfg) →
  stored w !! objectKey s = Some s → serviceFinalizer ∈ ksFinalizers s →
  allocateService C P cfg ios_String s w = (w', Ok r) → managed_outcome s w w' r.
Proof.
  intros Hpool Hs Hf. unfold allocateService, listServicesForAllocation.
  pose proof (cs_list_slices (cluster w)) as Hsl.
  destruct (cl_list_services C (cluster w)) as [c [l|e]] eqn:Hl; [|done]. cbn in Hsl.
  pose proof (cs_list _ _ _ Hl) as Hc. fold allocator_of.
  destruct (Allocate allocator_of (Some s) l) as [alloc|[]] eqn:Ha; [|done|done|].
  - destruct (allocated_free _ _ _ _ _ Hl Ha) as [Hin Hfree]. rewrite Forall_forall in Hpool.
    intros Hp. right. apply provision_ok in Hp as [-> Hp]; [|by unfold stored; cbn; rewrite Hc|done|auto].
    split; [done|]. exists (allocIP alloc). split_and!; [done|exact Hfree|].
    apply (provision_run_from _ _ _ w) in Hp; [done|done|done|]. intros k _. unfold stored. cbn. by rewrite Hc.
  - intros [= <- <-]. left. split; [done|]. split; [|done].
    intros a Hin. destruct (alloc_exhausted _ _ _ Ha Hin) as (s' & Hs' & (Hd & Hk & Hm) & Hpub).
    apply (cs_list_ok _ _ _ _ Hl) in Hs'. exists (objectKey s'), s'. split_and!; try done.
Qed.

(** The outcome does not depend on the Service's own entry in the cluster. *)
Lemma managed_outcome_from s w w0 w' r :
  managed_outcome s w w' r → cs_slices_of (cluster w) = cs_slices_of (cluster w0) → prov w = prov w0 →
  (∀ k, k ≠ objectKey s → stored w !! k = stored w0 !! k) → managed_outcome s w0 w' r.
Proof.
  intros [(-> & Hx & Hp)|(-> & a & Ha & Hun & Hrun)] Hsl Hpr Hst; [left|right]; (split; [done|]).
  - split; [|congruence]. intros a Ha. destruct (Hx a Ha) as (k & x & Hk & Hx' & Hrest).
    exists k, x. by rewrite <- Hst.
  - exists a. split_and!; [done| |by eapply provision_run_from].
    intros k x Hx Hk. rewrite <- Hst in Hx by done. by apply (Hun k).
Qed.

Lemma managed_ok s w w' r :
  Forall ipv4_wf (IPPool cfg) → stored w !! objectKey s = Some s →
  reconcileManagedService C P cfg ios_String (objectKey s) s w = (w', Ok r) → managed_outcome s w w' r.
Proof.
  intros Hpool Hs. unfold reconcileManagedService.
  destruct (ensureServiceFinalizer C s (cluster w)) as [c res] eqn:He.
  apply ensureFinalizer_spec in He as [Hw Hr]; [|done]. destruct res as [[b s']|e]; [|done].
  destruct Hr as (Hs' & Hf & Hsame & Heq & Hsl).
  assert (∀ k, k ≠ objectKey s → cs_services c !! k = stored w !! k) as Hother.
  { intros k Hk. destruct Hw as [Hw|(st & _ & Hw)]; rewrite Hw; [done|]. unfold store_finalizers.
    case_bool_decide; by rewrite ?lookup_delete_ne, ?lookup_insert_ne by done. }
  assert (∀ c2, cs_services c2 = cs_services c → cs_slices_of c2 = cs_slices_of (cluster w) →
    allocateService C P cfg ios_String s' (set_cluster w c2) = (w', Ok r) → managed_outcome s w w' r) as Hall.
  { intros c2 Hc2 Hsl2 Hal. rewrite Heq in Hal. apply allocate_ok in Hal; [| done| |].
    - apply (managed_outcome_from _ _ w) in Hal; [done|done|done|]. intros k Hk. unfold stored at 1. cbn.
      rewrite Hc2. by apply Hother.
    - unfold stored. cbn. rewrite Hc2. change (objectKey (set_finalizers s _)) with (objectKey s). by rewrite <- Heq.
    - done. }
  destruct b.
  - cbn [cluster set_cluster]. pose proof (cs_get_slices (objectKey s) c) as Hsl2.
    destruct (cl_get C (objectKey s) c) as [c2 [s2|e]] eqn:Hget; [|done]. cbn in Hsl2.
    apply cs_get_ok in Hget as [Hc2 Hs2]. assert (s2 = s') as -> by congruence.
    apply (Hall c2); [done|congruence].
  - apply (Hall c); [done|congruence].
Qed.

Lemma Reconcile_ok req s w w' r :
  Forall ipv4_wf (IPPool cfg) → stored w !! req = Some s → live (LoadBalancerClass cfg) s →
  Reconcile C P cfg ios_String req w = (w', Ok r) → req = objectKey s ∧ managed_outcome s w w' r.
Proof.
  intros Hpool Hs [Hd Hm]. unfold Reconcile, reconcile_request.
  pose proof (cs_get_slices req (cluster w)) as Hsl0.
  cbn [cluster set_metrics prov rmetrics].
  destruct (cl_get C req (cluster w)) as [c [s0|e]] eqn:Hget; cbn in Hsl0.
  2:{ destruct (cl_not_found C e) eqn:Hn; [|done]. unfold stored in Hs.
      by rewrite (cs_get_missing _ _ _ _ Hget Hn) in Hs. }
  apply cs_get_ok in Hget as [Hc Hs0]. unfold stored in Hs. assert (s0 = s) as -> by congruence.
  pose proof (cs_keys _ _ _ Hs) as Hkey. subst req.
  rewrite bool_decide_eq_false_2 by (rewrite Hd; tauto). rewrite Hm. cbn [negb].
  destruct (reconcileManagedService _ _ _ _ _ _ _) as [w2 res] eqn:Hman. intros [= <- ->]. split; [done|].
  apply managed_ok in Hman; [|done|by unfold stored; cbn; rewrite Hc].
  apply (managed_outcome_from _ _ w) in Hman; [exact Hman|done|done|]. intros k _. unfold stored. cbn. by rewrite Hc.
Qed.

(** C13. Reconciling a live managed Service.  When [Reconcile] returns without error,
    either every address of the pool is published by another live managed
    Service, the call asks to be repeated after the configured delay and the
    provider is untouched; or the Service is provisioned with one address of
    the pool: provider entry, backends, status and finalizer agree. *)
Theorem Reconcile_managed req s w w' r :
  Forall ipv4_wf (IPPool cfg) → stored w !! req = Some s → live (LoadBalancerClass cfg) s →
  Reconcile C P cfg ios_String req w = (w', Ok r) →
  (r = MkResult (RequeueAfter cfg) ∧ exhausted s w ∧ held w' = held w) ∨
  (r = MkResult 0 ∧ ∃ a, a ∈ IPPool cfg ∧ provisioned s a (cs_slices_of (cluster w)) w').
Proof.
  intros Hpool Hs Hl Hr. destruct (Reconcile_ok _ _ _ _ _ Hpool Hs Hl Hr) as [_ [(-> & Hx & Hp)|(-> & a & Ha & _ & Hrun)]].
  - left. split_and!; [done..|]. unfold held. by rewrite Hp.
  - right. split; [done|]. exists a. split; [done|]. by apply run_provisioned.
Qed.

(** Removing the finalizer of a stored Service *)
Lemma remove_ok s c c' :
  cs_services c !! objectKey s = Some s → removeServiceFinalizer C s c = (c', Ok ()) →
  ∀ s', cs_services c' !! objectKey s = Some s' →
    serviceFinalizer ∉ ksFinalizers s' ∧ ksIngress s' = ksIngress s.
Proof.
  intros Hs. unfold removeServiceFinalizer. destruct (hasServiceFinalizer (Some s)) eqn:Hf; cbn [negb].
  2:{ intros [= <-] s' Hs'. assert (s' = s) as -> by congruence. split; [|done].
      rewrite <- hasFinalizer_spec. by rewrite Hf. }
  destruct (cl_patch C _ _ c) as [c1 [x|e]] eqn:Hp; [|done]. intros [= <-] s'.
  apply cs_patch_ok in Hp as (st & Hst & _ & Hc).
  change (objectKey (set_finalizers s _)) with (objectKey s) in *.
  assert (st = s) as -> by congruence. rewrite Hc. unfold store_finalizers. case_bool_decide.
  - by rewrite lookup_delete_eq.
  - rewrite lookup_insert_eq. intros [= <-]. split; [|done]. cbn. rewrite RemoveFinalizer_spec. tauto.
Qed.

(** Clearing the status of a stored Service *)
Lemma clear_ok s c c' out b :
  cs_services c !! objectKey s = Some s →
  UpdateServiceLoadBalancerStatus C (Some s) [] c = (c', out, Ok b) →
  ∃ s1, out = Some s1 ∧ s1 = set_ingress s [] ∧ cs_services c' !! objectKey s = Some s1.
Proof.
  intros Hst. unfold UpdateServiceLoadBalancerStatus, NeedsLoadBalancerIngressUpdate. rewrite negb_involutive.
  destruct (LoadBalancerIngressEqual _ _) eqn:Heq.
  - apply ingress_equal_nil in Heq. intros [= <- <- <-]. exists s. split; [done|]. split; [|done].
    destruct s. cbn in Heq. by subst.
  - destruct (cl_status_update C _ _) as [c1 [x|e]] eqn:Hst'; [|done]. intros [= <- <- <-].
    apply cs_status_ok in Hst' as (st & Hst' & -> & Hc).
    change (objectKey (set_ingress s [])) with (objectKey s) in *.
    assert (st = s) as -> by congruence. exists (set_ingress s []). by rewrite Hc, lookup_insert_eq.
Qed.

(** The Service a request names, when it is being deleted or not managed *)
Lemma request_unmanaged req s w :
  stored w !! req = Some s → ¬ live (LoadBalancerClass cfg) s →
  ∀ w' r, Reconcile C P cfg ios_String req w = (w', r) →
  (∃ e, r = Err (ErrGetService e) ∧ stored w' = stored w ∧ held w' = held w) ∨
  ∃ w1 w2 r2, objectKey s = req ∧ stored w1 = stored w ∧ held w1 = held w ∧
    stored w2 = stored w' ∧ held w2 = held w' ∧
    (if bool_decide (ksDeletionTimestamp s ≠ None) then reconcileDeletingService C P s w1
     else reconcileUnmanagedService C P cfg (Some s) w1) = (w2, r2) ∧
    r = (match r2 with Err e => Err e | Ok _ => Ok (MkResult 0) end).
Proof.
  intros Hs Hlive w' r. unfold Reconcile, reconcile_request. cbn [cluster set_metrics prov rmetrics].
  destruct (cl_get C req (cluster w)) as [c [s0|e]] eqn:Hget.
  2:{ destruct (cl_not_found C e) eqn:Hn.
      - unfold stored in Hs. by rewrite (cs_get_missing _ _ _ _ Hget Hn) in Hs.
      - intros [= <- <-]. left. exists e. apply cs_get_err in Hget. unfold stored, held. cbn. by rewrite Hget. }
  apply cs_get_ok in Hget as [Hc Hs0]. unfold stored in Hs. assert (s0 = s) as -> by congruence.
  pose proof (cs_keys _ _ _ Hs) as Hkey. intros Hr. right.
  match type of Hr with context [reconcileManagedService _ _ _ _ _ _ ?x] => set (w1 := x) in * end.
  exists w1. case_bool_decide as Hd.
  - destruct (reconcileDeletingService C P s w1) as [w2 r2]. injection Hr as <- <-.
    exists w2, r2. unfold stored, w1. cbn. rewrite Hc. split_and!; try done.
  - destruct (isManagedLoadBalancerService (Some s) (LoadBalancerClass cfg)) eqn:Hm; cbn [negb] in Hr.
    { destruct Hlive. split; [|done]. destruct (ksDeletionTimestamp s); [|done]. by destruct Hd. }
    destruct (reconcileUnmanagedService C P cfg (Some s) w1) as [w2 r2]. injection Hr as <- <-.
    exists w2, r2. unfold stored, w1. cbn. rewrite Hc. split_and!; try done.
Qed.

Lemma deleting_outcome req s w w' r :
  stored w !! req = Some s → ksDeletionTimestamp s ≠ None → serviceFinalizer ∈ ksFinalizers s →
  Reconcile C P cfg ios_String req w = (w', r) →
  match r with
  | Ok res => res = MkResult 0 ∧ held w' !! serviceRef s = None ∧
      ∀ s', stored w' !! req = Some s' → serviceFinalizer ∉ ksFinalizers s'
  | Err (ErrDeleteProvider _ _) | Err (ErrGetService _) => stored w' = stored w
  | Err (ErrRemoveFinalizer _ _) => held w' !! serviceRef s = None
  | Err _ => False
  end.
Proof.
  intros Hs Hd Hf Hr.
  destruct (request_unmanaged req s w Hs ltac:(intros [? _]; congruence) _ _ Hr)
    as [(e & -> & ? & _)|(w1 & w2 & r2 & Hkey & Hs1 & Hh1 & Hs2 & Hh2 & Hdel & ->)]; [done|].
  rewrite bool_decide_eq_true_2 in Hdel by done. rewrite <- Hs2, <- Hh2. clear Hr.
  unfold reconcileDeletingService in Hdel. rewrite (proj2 (hasFinalizer_spec s) Hf) in Hdel. cbn [negb] in Hdel.
  destruct (Delete P (serviceRef s) (prov w1)) as [p [b|e]] eqn:Hp.
  2:{ injection Hdel as <- <-. done. }
  assert (pv_state p !! serviceRef s = None) as Hnone.
  { by rewrite (pv_delete_ok _ _ _ _ Hp), lookup_delete_eq. }
  destruct (removeServiceFinalizer C s (cluster (set_prov w1 p))) as [c [u|e]] eqn:Hrm;
    injection Hdel as <- <-; [|done].
  split_and!; try done. destruct u. intros s' Hs'. unfold stored in Hs', Hs1. cbn in Hs', Hrm.
  rewrite <- Hkey in Hs'. apply (remove_ok s _ _) with (s' := s') in Hrm as [? _]; try done.
  rewrite Hs1. by rewrite Hkey.
Qed.

(** C15. Reconciling a Service that is being deleted and has the finalizer: on success
    the provider holds nothing for it and the finalizer is gone (with it, the
    object, when it was the last one); when the provider fails, the stored
    object is not touched, so the finalizer stays. *)
Theorem Reconcile_deleting req s w w' r :
  stored w !! req = Some s → ksDeletionTimestamp s ≠ None → serviceFinalizer ∈ ksFinalizers s →
  Reconcile C P cfg ios_String req w = (w', r) →
  match r with
  | Ok res => res = MkResult 0 ∧ held w' !! serviceRef s = None ∧
      ∀ s', stored w' !! req = Some s' → serviceFinalizer ∉ ksFinalizers s'
  | Err (ErrDeleteProvider _ _) | Err (ErrGetService _) => stored w' = stored w
  | Err (ErrRemoveFinalizer _ _) => held w' !! serviceRef s = None
  | Err _ => False
  end.
Proof. apply deleting_outcome. Qed.

Lemma unmanaged_outcome req s w w' r :
  stored w !! req = Some s → ksDeletionTimestamp s = None →
  isManagedLoadBalancerService (Some s) (LoadBalancerClass cfg) = false →
  Reconcile C P cfg ios_String req w = (w', Ok r) →
  r = MkResult 0 ∧
  if hasServiceFinalizer (Some s) || HasLoadBalancerIngressIPInPool (Some s) (IPPool cfg)
  then held w' = delete (serviceRef s) (held w) ∧
       ∀ s', stored w' !! req = Some s' → serviceFinalizer ∉ ksFinalizers s' ∧ ksIngress s' = []
  else stored w' = stored w ∧ held w' = held w.
Proof.
  intros Hs Hd Hm Hr.
  destruct (request_unmanaged req s w Hs ltac:(intros [_ ?]; congruence) _ _ Hr)
    as [(e & ? & _)|(w1 & w2 & r2 & Hkey & Hs1 & Hh1 & Hs2 & Hh2 & Hun & Heq)]; [done|].
  rewrite bool_decide_eq_false_2 in Hun by (rewrite Hd; tauto). rewrite <- Hs2, <- Hh2, <- Hs1, <- Hh1.
  destruct r2 as [u|]; [|done]. injection Heq as ->. split; [done|]. clear Hr.
  unfold reconcileUnmanagedService in Hun. rewrite <- negb_orb in Hun.
  destruct (hasServiceFinalizer (Some s) || _) eqn:Hown; cbn [negb] in Hun.
  2:{ by injection Hun as <- _. }
  destruct (Delete P (serviceRef s) (prov w1)) as [p [b|e]] eqn:Hp; [|done].
  pose proof (pv_delete_ok _ _ _ _ Hp) as Hp'. cbn [cluster set_prov] in Hun.
  destruct (UpdateServiceLoadBalancerStatus C (Some s) [] (cluster w1)) as [[c out] cleared] eqn:Hup.
  destruct cleared as [cl|e]; [|done].
  assert (cs_services (cluster w1) !! objectKey s = Some s) as Hst.
  { unfold stored in Hs1, Hs. rewrite Hs1. by rewrite Hkey. }
  destruct (clear_ok _ _ _ _ _ Hst Hup) as (s1 & -> & Hs1' & Hc).
  assert (ksIngress s1 = [] ∧ objectKey s1 = objectKey s) as [Hing Hk1] by (by subst s1).
  assert (∀ s2 c2 c3, s2 = s1 → cs_services c2 = cs_services c → removeServiceFinalizer C s2 c2 = (c3, Ok ()) →
    ∀ s', cs_services c3 !! objectKey s = Some s' → serviceFinalizer ∉ ksFinalizers s' ∧ ksIngress s' = []) as Hfin.
  { intros s2 c2 c3 -> Hc2 Hrm s' Hs'. rewrite <- Hing. eapply remove_ok; [|exact Hrm|by rewrite Hk1].
    by rewrite Hc2, Hk1. }
  rewrite <- Hkey. unfold stored, held. destruct (hasServiceFinalizer (Some s1)) eqn:Hf1; cbn [negb] in Hun.
  2:{ injection Hun as <- _. cbn. split; [done|]. intros s' Hs'. assert (s' = s1) as -> by congruence.
      split; [|done]. rewrite <- hasFinalizer_spec. by rewrite Hf1. }
  cbn [cluster set_cluster set_prov] in Hun. destruct cl.
  - destruct (cl_get C (objectKey s1) c) as [c2 [s2|e]] eqn:Hget; [|done].
    apply cs_get_ok in Hget as [Hc2 Hg2]. cbn [cluster set_cluster] in Hun.
    destruct (removeServiceFinalizer C s2 c2) as [c3 [[]|e]] eqn:Hrm; [|done]. injection Hun as <- _. cbn.
    split; [done|]. eapply Hfin; [|exact Hc2|exact Hrm]. rewrite Hk1 in Hg2. congruence.
  - destruct (removeServiceFinalizer C s1 c) as [c3 [[]|e]] eqn:Hrm; [|done]. injection Hun as <- _. cbn.
    split; [done|]. by apply (Hfin s1 c).
Qed.

(** C24. Reconciling a live Service the controller does not manage: one without
    finalizer and without an address of the pool in its status is left alone;
    otherwise, on success, the provider holds nothing for it, its status is
    empty and the finalizer is gone. *)
Theorem Reconcile_unmanaged req s w w' r :
  stored w !! req = Some s → ksDeletionTimestamp s = None →
  isManagedLoadBalancerService (Some s) (LoadBalancerClass cfg) = false →
  Reconcile C P cfg ios_String req w = (w', Ok r) →
  r = MkResult 0 ∧
  if hasServiceFinalizer (Some s) || HasLoadBalancerIngressIPInPool (Some s) (IPPool cfg)
  then held w' = delete (serviceRef s) (held w) ∧
       ∀ s', stored w' !! req = Some s' → serviceFinalizer ∉ ksFinalizers s' ∧ ksIngress s' = []
  else stored w' = stored w ∧ held w' = held w.
Proof. apply unmanaged_outcome. Qed.

(** Every call of [Reconcile] is counted once, observed once, and counted as an
    error exactly when it returns one; it records at most one allocation
    decision. *)
Theorem Reconcile_metrics req w w' r :
  Reconcile C P cfg ios_String req w = (w', r) →
  serviceReconcileTotal (rmetrics w') = serviceReconcileTotal (rmetrics w) + 1 ∧
  serviceReconcileDurations (rmetrics w') = serviceReconcileDurations (rmetrics w) + 1 ∧
  serviceReconcileErrorsTotal (rmetrics w') =
    serviceReconcileErrorsTotal (rmetrics w) + (if is_Ok r then 0 else 1) ∧
  (ipAllocationsTotal (rmetrics w') = ipAllocationsTotal (rmetrics w) ∨
   ∃ result, ipAllocationsTotal (rmetrics w') = inc result (ipAllocationsTotal (rmetrics w))).
Proof.
  unfold Reconcile. set (m1 := IncServiceReconcile (rmetrics w)).
  destruct (reconcile_request _ _ _ _ _ _) as [w2 r2] eqn:Hr. intros [= <- <-]. cbn.
  assert (rmetrics w2 = m1 ∨ ∃ result, rmetrics w2 = recordIPAllocation result m1) as Hm.
  2:{ destruct Hm as [->|[res ->]]; cbn; destruct (is_Ok r2); cbn; split_and!; eauto; lia. }
  assert (∀ s al w3 w4 r, provisionService C P ios_String s al w3 = (w4, r) → rmetrics w4 = rmetrics w3) as Hprov.
  { intros s al w3 w4 r. unfold provisionService. destruct (listEndpointSlicesForService _ _ _) as [c [es|e]].
    - destruct (Ensure P _ _) as [p [b|e]].
      + destruct (UpdateServiceLoadBalancerStatus _ _ _ _) as [[c2 out] [b2|e]]; by intros [= <- _].
      + by intros [= <- _].
    - by intros [= <- _]. }
  assert (∀ s w3 w4 r, allocateService C P cfg ios_String s w3 = (w4, r) →
    rmetrics w4 = rmetrics w3 ∨ ∃ result, rmetrics w4 = recordIPAllocation result (rmetrics w3)) as Hal.
  { intros s w3 w4 r. unfold allocateService. destruct (listServicesForAllocation _ _) as [c [l|e]].
    2:{ intros [= <- _]. by left. }
    destruct (Allocate _ _ _) as [al|[]]; try (intros [= <- _]; right; by eexists).
    intros ->%Hprov. right. cbn. destruct (allocReused al); by eexists. }
  revert Hr. unfold reconcile_request. destruct (cl_get C req _) as [c [s|e]]; [|intros [= <- _]; by left].
  case_bool_decide.
  - unfold reconcileDeletingService. destruct (negb _); [intros [= <- _]; by left|].
    destruct (Delete P _ _) as [p [b|e]]; [|intros [= <- _]; by left].
    destruct (removeServiceFinalizer _ _ _) as [c2 [u|e]]; intros [= <- _]; by left.
  - destruct (negb _).
    + unfold reconcileUnmanagedService. destruct (_ && _); [intros [= <- _]; by left|].
      destruct (Delete P _ _) as [p [b|e]]; [|intros [= <- _]; by left].
      destruct (if _ || _ then _ else _) as [[c2 s1] [cl|e]]; [|intros [= <- _]; by left].
      destruct s1 as [s1|]; [|intros [= <- _]; by left].
      destruct (negb _); [intros [= <- _]; by left|]. destruct cl.
      * destruct (cl_get C _ _) as [c3 [s2|e]]; [|intros [= <- _]; by left].
        destruct (removeServiceFinalizer _ _ _) as [c4 [u|e]]; intros [= <- _]; by left.
      * destruct (removeServiceFinalizer _ _ _) as [c4 [u|e]]; intros [= <- _]; by left.
    + unfold reconcileManagedService. destruct (ensureServiceFinalizer _ _ _) as [c2 [[[] s2]|e]].
      * destruct (cl_get C _ _) as [c3 [s3|e]]; [|intros [= <- _]; by left]. by intros [?|?]%Hal; [left|right].
      * by intros [?|?]%Hal; [left|right].
      * intros [= <- _]; by left.
Qed.
End controller_facts.

(** ** Watches *)

(** A change of an EndpointSlice reaches the Services it contributes to: a slice
    is turned into a request for exactly the Service it belongs to, and every
    creation, deletion and new version of a slice passes the filter. *)
Theorem endpointSlice_requests es s :
  ksName s ≠ "" →
  (endpointSliceBelongsToService (Some s) es = true ↔
   endpointSliceToServiceRequests (Some es) = [objectKey s]) ∧
  endpointSliceReconcilePredicate EvCreate = true ∧ endpointSliceReconcilePredicate EvDelete = true ∧
  ∀ old, esResourceVersion old ≠ esResourceVersion es →
    endpointSliceReconcilePredicate (EvUpdate (Some old) (Some es)) = true.
Proof.
  intros Hn. split_and!; [|done|done|].
  - unfold endpointSliceBelongsToService, endpointSliceToServiceRequests, objectKey.
    case_bool_decide as Hns.
    + split; [done|]. case_bool_decide; [done|]. intros [= ? _]. congruence.
    + rewrite bool_decide_eq_true. case_bool_decide as Hl.
      * split; [congruence|done].
      * split; [intros ->; by rewrite Hns|]. by intros [= _ ->].
  - intros old Hv. cbn. by apply bool_decide_eq_true.
Qed.

(** The Service filter passes every update that can change what [Reconcile] does to
    the provider: a new generation (any change of the specification) and the start
    of a deletion; it drops the controller's own status writes. *)
Theorem service_predicate_correct old new :
  serviceReconcilePredicate (EvUpdate (Some old) (Some new)) = true ↔
  ksGeneration old ≠ ksGeneration new ∨ ksDeletionTimestamp old ≠ ksDeletionTimestamp new.
Proof.
  cbn. case_bool_decide as Hg; [tauto|].
  destruct (ksDeletionTimestamp old) as [t|], (ksDeletionTimestamp new) as [t'|].
  - rewrite negb_true_iff, bool_decide_eq_false. split; [intros ?; right; congruence|].
    intros [?|Ht]; [done|]. congruence.
  - split; [intros _; by right|done].
  - split; [intros _; by right|done].
  - split; [done|]. intros [?|Ht]; [done|]. by destruct Ht.
Qed.
