(* ===== verification/Convergence.v ===== *)
(** * Convergence of the controller

    A reconciliation that provisioned a Service leaves the cluster settled for it: as
    long as nothing else happens, further reconciliations of the Service only read
    from the API server and hand the provider what it already has.  The theorem holds
    for every API server and provider that meet their contracts, and for a second run
    that fails anywhere. *)
From S2P Require Import Prelude GoStrings GoSort NetIP Kube Client Provider IPAM Status Backends Config Metrics Controller.
Local Open Scope Z_scope.

Section convergence.
Context `{GoSort, FinalizerUtil} {Wc Ec Wp Ep : Type}.
Context (C : Client Wc Ec) `{!ClientSpec C} (P : Provider Wp Ep) `{!ProviderSpec P}.
Context (cfg : Config) (ios_String : IntOrString → string).
Notation world := (World Wc Wp).
Implicit Types (w : world) (s : KService) (c : Wc).

(** ** Calls that only read *)
Inductive read_call c : Wc → Prop :=
| read_get k : read_call c (cl_get C k c).1
| read_services : read_call c (cl_list_services C c).1
| read_slices ns ls : read_call c (cl_list_slices C ns ls c).1.

(** The API server comes from one state to the other by reads alone: none of the calls was
    a patch or an update. *)
Definition reads : Wc → Wc → Prop := rtc read_call.

Lemma reads_get k c c' res : cl_get C k c = (c', res) → reads c c'.
Proof. intros Hc. apply rtc_once. replace c' with (cl_get C k c).1 by by rewrite Hc. constructor. Qed.

Lemma reads_services c c' res : cl_list_services C c = (c', res) → reads c c'.
Proof. intros Hc. apply rtc_once. replace c' with (cl_list_services C c).1 by by rewrite Hc. constructor. Qed.

Lemma reads_slices ns ls c c' res : cl_list_slices C ns ls c = (c', res) → reads c c'.
Proof. intros Hc. apply rtc_once. replace c' with (cl_list_slices C ns ls c).1 by by rewrite Hc. constructor. Qed.

Lemma reads_stored c c' : reads c c' → cs_services c' = cs_services c.
Proof.
  induction 1 as [|c1 c2 c3 Hr _ IH]; [done|]. rewrite IH. clear IH. destruct Hr as [k| |ns ls].
  - destruct (cl_get C k c1) as [c' [s|e]] eqn:E; [by apply cs_get_ok in E as [? _]|by apply cs_get_err in E].
  - destruct (cl_list_services C c1) as [c' res] eqn:E. by apply cs_list in E.
  - destruct (cl_list_slices C ns ls c1) as [c' res] eqn:E. by apply cs_slices in E.
Qed.

(** Nothing is left to write for [s] with address [a]. *)
Definition settled s (a : Addr) w : Prop :=
  stored C w !! objectKey s = Some s ∧ live (LoadBalancerClass cfg) s ∧ serviceFinalizer ∈ ksFinalizers s ∧
  (∃ i, ksIngress s = [i] ∧ ingIP i = AddrString a) ∧ a ∈ IPPool cfg ∧ unclaimed C cfg s a w.

(** The addresses of a status as the API server stores them: no space around *)
Definition trimmed s : Prop := Forall (λ i, TrimSpace (ingIP i) = ingIP i) (ksIngress s).

(** What the provider is given for [s] *)
Definition desired s (a : Addr) (slices : list EndpointSlice) : Service :=
  buildProviderService ios_String s (AddrString a)
    (Discover (Some s) (List.filter (slice_selected (ksNamespace s) {[LabelServiceName := ksName s]}) slices)).

Lemma desired_perm s a slices es :
  es ≡ₚ List.filter (slice_selected (ksNamespace s) {[LabelServiceName := ksName s]}) slices →
  buildProviderService ios_String s (AddrString a) (Discover (Some s) es) = desired s a slices.
Proof. intros Hes. unfold desired. by rewrite (Discover_order_independent (Some s) _ _ Hes). Qed.

#[local] Instance desired_proper s a : Proper (Permutation ==> eq) (desired s a).
Proof.
  intros l k Hp. apply desired_perm. induction Hp as [|x l k Hp IH|x y l|l k m H1 IH1 H2 IH2]; cbn; [done| | |by etrans].
  - destruct (slice_selected _ _ x); by rewrite ?IH.
  - destruct (slice_selected _ _ x), (slice_selected _ _ y); try done. apply Permutation_swap.
Qed.

(** ** The first run settles the Service *)
Lemma run_settles s a w w' :
  live (LoadBalancerClass cfg) s → trimmed s → a ∈ IPPool cfg → unclaimed C cfg s a w →
  provision_run C P ios_String s a w w' →
  ∃ s', objectKey s' = objectKey s ∧ settled s' a w' ∧
    held P w' !! serviceRef s' = Some (pv_norm (desired s' a (cs_slices_of (cluster w)))).
Proof.
  intros Hl Ht Ha Hun ((es & b & Hes & He) & (s' & i & Hs' & Heq & Hip & Hi & Hf) & Hother).
  assert (objectKey s' = objectKey s) as Hk by (rewrite Heq; done). exists s'. split; [done|]. split.
  - split_and!; [by rewrite Hk|rewrite Heq; apply Hl..|done| |done|].
    + exists i. split; [by rewrite Heq|]. destruct Hi as [Hi|]; [|done]. unfold trimmed in Ht. rewrite Hi in Ht.
      apply Forall_inv in Ht. congruence.
    + intros k x Hx Hne. rewrite Hk in Hne. rewrite Hother in Hx by done. by apply (Hun k).
  - unfold held. rewrite (pv_ensure_ok _ _ _ _ He), (desired_perm _ _ _ _ Hes), Heq. apply lookup_insert_eq.
Qed.

(** ** A settled Service stays as it is *)
Lemma settled_allocation s a w c l :
  Forall ipv4_wf (IPPool cfg) → settled s a w → cl_list_services C (cluster w) = (c, Ok l) →
  Allocate (allocator_of cfg) (Some s) l = Ok (MkAllocation a true).
Proof.
  intros Hpool (Hs & Hl & _ & (i & Hi & Hip) & Hin & Hun) Hli. rewrite Forall_forall in Hpool. apply Allocate_keeps.
  - unfold assignedIPFromStatus. rewrite Hi. cbn. destruct i as [x host]. cbn in Hip. subst x.
    by rewrite ingressIPv4_string by auto.
  - done.
  - intros (s' & Hs' & (Hd & Hk & Hm) & Hpub). apply (cs_list_ok _ _ _ _ Hli) in Hs'.
    apply (Hun (objectKey s') s'); [done| |done|done]. intros E. apply Hk. exact E.
Qed.

Lemma settled_status s a c :
  ipv4_wf a → (∃ i, ksIngress s = [i] ∧ ingIP i = AddrString a) →
  UpdateServiceLoadBalancerStatus C (Some s) (DesiredLoadBalancerIngress (AddrString a)) c = (c, Some s, Ok false).
Proof.
  intros Hwf (i & Hi & Hip). unfold UpdateServiceLoadBalancerStatus, NeedsLoadBalancerIngressUpdate.
  rewrite negb_involutive. by replace (LoadBalancerIngressEqual _ _) with true
    by (symmetry; apply ingress_equal_desired; [done|]; exists i; rewrite Hip; split; [done|];
        apply TrimSpace_AddrString, Hwf).
Qed.

(** Ensuring what the provider has *)
Lemma ensure_same x p p' res :
  Ensure P x p = (p', res) → pv_state p !! Ref x = Some (pv_norm x) → pv_state p' = pv_state p.
Proof.
  intros He Hx. destruct res.
  - rewrite (pv_ensure_ok _ _ _ _ He). by apply insert_id.
  - destruct (pv_ensure_err _ _ _ _ He) as [->| ->]; [done|]. by apply insert_id.
Qed.

Lemma settled_run s a w w' res :
  Forall ipv4_wf (IPPool cfg) → settled s a w →
  held P w !! serviceRef s = Some (pv_norm (desired s a (cs_slices_of (cluster w)))) →
  Reconcile C P cfg ios_String (objectKey s) w = (w', res) →
  reads (cluster w) (cluster w') ∧ held P w' = held P w ∧ ∀ r, res = Ok r → r = MkResult 0.
Proof.
  intros Hpool Hset Hh. pose proof Hset as (Hs & [Hd Hm] & Hf & Hi & Hin & Hun).
  unfold Reconcile, reconcile_request. cbn [cluster set_metrics prov rmetrics].
  pose proof (cs_get_slices (objectKey s) (cluster w)) as Hsl0.
  destruct (cl_get C (objectKey s) (cluster w)) as [c0 [s0|e]] eqn:Hget; cbn in Hsl0; pose proof (reads_get _ _ _ _ Hget) as R0.
  2:{ apply cs_get_err in Hget. destruct (cl_not_found C e); intros [= <- <-]; unfold held; cbn;
        (split; [done|split; [done|]]); intros r [=]; congruence. }
  apply cs_get_ok in Hget as [Hc0 Hs0]. unfold stored in Hs. assert (s0 = s) as -> by congruence.
  rewrite bool_decide_eq_false_2 by (rewrite Hd; tauto). rewrite Hm. cbn [negb].
  unfold reconcileManagedService, ensureServiceFinalizer. cbn [cluster set_cluster].
  rewrite (proj2 (hasFinalizer_spec s) Hf). unfold allocateService, listServicesForAllocation. cbn [cluster set_cluster].
  pose proof (cs_list_slices c0) as Hsl1. destruct (cl_list_services C c0) as [c1 res1] eqn:Hli. cbn in Hsl1.
  assert (reads (cluster w) c1) as R1 by (etrans; [exact R0|by eapply reads_services]). destruct res1 as [l|e].
  2:{ intros [= <- <-]. by unfold held. }
  assert (settled s a (set_cluster w c0)) as Hset0
    by (unfold settled, unclaimed, stored; cbn [cluster set_cluster]; by rewrite Hc0).
  fold (allocator_of cfg). rewrite (settled_allocation s a _ c1 l Hpool Hset0 Hli).
  unfold provisionService, listEndpointSlicesForService. cbn [cluster set_cluster set_metrics allocIP prov].
  destruct (cl_list_slices C _ _ c1) as [c2 res2] eqn:Hls.
  assert (reads (cluster w) c2) as R2 by (etrans; [exact R1|by eapply reads_slices]). destruct res2 as [es|e].
  2:{ intros [= <- <-]. by unfold held. }
  apply cs_slices_ok in Hls. rewrite Hsl1, Hsl0 in Hls. rewrite (desired_perm _ _ _ _ Hls). cbn [cluster prov set_cluster].
  destruct (Ensure P _ (prov w)) as [p [b|e]] eqn:He; apply ensure_same in He; try exact Hh.
  2:{ intros [= <- <-]. by unfold held. }
  cbn [cluster set_prov]. rewrite Forall_forall in Hpool. rewrite settled_status by auto.
  intros [= <- <-]. unfold held. cbn. split_and!; [done|done|]. by intros r [= <-].
Qed.

(** C20. Reconciliation converges in one step.  After a run that provisioned a live
    managed Service, and with the same EndpointSlices, another run calls the API server
    only to read, so nothing is patched or updated, not even with the same contents, and
    leaves the provider's state as it is, whether it succeeds or fails at any of its
    calls; and when it succeeds it does not ask to be repeated. *)
Theorem Reconcile_converges req s w w1 w2 res :
  Forall ipv4_wf (IPPool cfg) → 0 < RequeueAfter cfg →
  stored C w !! req = Some s → live (LoadBalancerClass cfg) s → trimmed s →
  Reconcile C P cfg ios_String req w = (w1, Ok (MkResult 0)) →
  cs_slices_of (cluster w1) ≡ₚ cs_slices_of (cluster w) →
  Reconcile C P cfg ios_String req w1 = (w2, res) →
  reads (cluster w1) (cluster w2) ∧ stored C w2 = stored C w1 ∧ held P w2 = held P w1 ∧ ∀ r, res = Ok r → r = MkResult 0.
Proof.
  intros Hpool Hreq Hs Hl Ht Hr1 Hsl Hr2.
  destruct (Reconcile_ok C P cfg ios_String _ _ _ _ _ Hpool Hs Hl Hr1) as [-> [([=] & _)|(_ & a & Ha & Hun & Hrun)]]; [lia|].
  destruct (run_settles _ _ _ _ Hl Ht Ha Hun Hrun) as (s' & Hk & Hset & Hh).
  rewrite <- Hk in Hr2. destruct (settled_run s' a w1 w2 res Hpool Hset) as (R & ? & ?); [by rewrite Hh, Hsl|done|].
  split_and!; [done|by apply reads_stored|done|done].
Qed.
End convergence.
