(* ===== verification/Cache.v ===== *)
(** * The controller behind an informer cache

    The client that controller-runtime's manager hands out reads Services and
    EndpointSlices from a cache that its watches fill, and sends writes to the API
    server; the cache may lag behind.  [ClientSpec] asks for reads that are current.
    This file runs [Reconcile] on such a client: addresses stay unique as long as the
    cache shows every published address, and a cache that lags lets two Services have
    the same one. *)
From S2P Require Import Prelude GoStrings GoSort NetIP Kube Client Provider IPAM Status Backends Config Metrics Controller.
Local Open Scope Z_scope.

(** The cache and the server behind it *)
Record Cached (W : Type) : Type := MkCached {
  cServices : gmap NamespacedName KService;
  cSlices : list EndpointSlice;
  server : W;
}.
Global Arguments MkCached {W} _ _ _.
Global Arguments cServices {W} _.
Global Arguments cSlices {W} _.
Global Arguments server {W} _.

Section cached.
Context {W E : Type} (C : Client W E) (notFound : E).

Definition write_through {A} (f : W → W * A) (c : Cached W) : Cached W * A :=
  let '(w, res) := f (server c) in (MkCached (cServices c) (cSlices c) w, res).

Definition cachedClient : Client (Cached W) E :=
  MkClient
    (λ k c, (c, match cServices c !! k with Some s => Ok s | None => Err notFound end))
    (λ c, (c, Ok (snd <$> map_to_list (cServices c))))
    (λ ns ls c, (c, Ok (List.filter (slice_selected ns ls) (cSlices c))))
    (λ orig s, write_through (cl_patch C orig s))
    (λ s, write_through (cl_status_update C s))
    (cl_not_found C).
End cached.

Section cache_facts.
Context `{GoSort, FinalizerUtil} {Wc Ec Wp Ep : Type}.
Context (C : Client Wc Ec) `{!ClientSpec C} (notFound : Ec) (P : Provider Wp Ep).
Context (cfg : Config) (ios_String : IntOrString → string).
Notation cache := (Cached Wc).
Notation CC := (cachedClient C notFound).
Implicit Types (c : cache) (s : KService) (k : NamespacedName).

(** Every address of the pool that another live managed Service publishes is in the
    cache. *)
Definition cache_shows k c : Prop :=
  ∀ k' s' a, cs_services (server c) !! k' = Some s' → k' ≠ k → live (LoadBalancerClass cfg) s' →
    a ∈ IPPool cfg → publishes s' a →
    ∃ s, cServices c !! k' = Some s ∧ live (LoadBalancerClass cfg) s ∧ publishes s a.

(** The cache has objects under their own keys. *)
Definition cache_wf c : Prop := ∀ k s, cServices c !! k = Some s → objectKey s = k.

(** What a run for [k] keeps, from the state [c0] it began with *)
Definition kept k c0 c : Prop :=
  cServices c = cServices c0 ∧
  (∀ k', k' ≠ k → cs_services (server c) !! k' = cs_services (server c0) !! k') ∧
  unique_ips (LoadBalancerClass cfg) (IPPool cfg) (cs_services (server c)).

Lemma kept_finalizer k c0 c w' fin :
  kept k c0 c → finalizer_write k fin (cs_services (server c)) (cs_services w') →
  kept k c0 (MkCached (cServices c) (cSlices c) w').
Proof.
  intros (Hc & Ho & Hu) Hw. split_and!; [done| |by eapply unique_finalizer]. cbn. intros k' Hk. rewrite <- Ho by done.
  destruct Hw as [->|(st & _ & ->)]; [done|]. unfold store_finalizers.
  case_bool_decide; by rewrite ?lookup_delete_ne, ?lookup_insert_ne by done.
Qed.

Lemma kept_ingress k c0 c w' ing :
  kept k c0 c → ingress_write k ing (cs_services (server c)) (cs_services w') →
  (∀ i a k' s', i ∈ ing → ingressIPv4 i = Some a → a ∈ IPPool cfg → cs_services (server c) !! k' = Some s' → k' ≠ k →
     live (LoadBalancerClass cfg) s' → ¬ publishes s' a) →
  kept k c0 (MkCached (cServices c) (cSlices c) w').
Proof.
  intros (Hc & Ho & Hu) Hw Hfree. split_and!; [done| |by eapply unique_ingress]. cbn. intros k' Hk. rewrite <- Ho by done.
  destruct Hw as [->|(st & _ & ->)]; [done|]. by rewrite lookup_insert_ne.
Qed.

Lemma kept_patch k c0 c orig s : objectKey s = k → kept k c0 c → kept k c0 (cl_patch CC orig s c).1.
Proof.
  intros <- Hk. cbn. unfold write_through. destruct (cl_patch C orig s (server c)) as [w' r] eqn:Hp.
  eapply kept_finalizer; [done|]. by eapply patch_write.
Qed.

Lemma kept_status k c0 c s ing :
  objectKey s = k → kept k c0 c →
  (∀ i a k' s', i ∈ ing → ingressIPv4 i = Some a → a ∈ IPPool cfg → cs_services (server c) !! k' = Some s' → k' ≠ k →
     live (LoadBalancerClass cfg) s' → ¬ publishes s' a) →
  kept k c0 (UpdateServiceLoadBalancerStatus CC (Some s) ing c).1.1.
Proof.
  intros <- Hk Hfree. unfold UpdateServiceLoadBalancerStatus. destruct (negb _); [done|].
  cbn. unfold write_through. destruct (cl_status_update C (set_ingress s ing) (server c)) as [w' r] eqn:Hu.
  assert (ingress_write (objectKey s) ing (cs_services (server c)) (cs_services w')) as Hw.
  { destruct r as [u|e].
    - apply cs_status_ok in Hu as (st & ? & _ & ?). right. by exists st.
    - apply cs_status_err in Hu as [?|(st & ? & ?)]; [by left|right; by exists st]. }
  destruct r; by eapply kept_ingress.
Qed.

Lemma kept_remove k c0 c s : objectKey s = k → kept k c0 c → kept k c0 (removeServiceFinalizer CC s c).1.
Proof.
  intros Hs Hk. unfold removeServiceFinalizer. destruct (negb _); [done|].
  pose proof (kept_patch k c0 c s (set_finalizers s (RemoveFinalizer (ksFinalizers s) serviceFinalizer)) Hs Hk) as Hp.
  destruct (cl_patch CC _ _ c) as [c' [x|e]]; exact Hp.
Qed.

(** *** The paths of a reconciliation *)
Notation world := (World cache Wp).
Implicit Types (w : world).

Lemma kept_deleting k c0 s w :
  objectKey s = k → kept k c0 (cluster w) → kept k c0 (cluster (reconcileDeletingService CC P s w).1).
Proof.
  intros Hs Hk. unfold reconcileDeletingService. destruct (negb _); [done|].
  destruct (Delete P (serviceRef s) (prov w)) as [p [b|e]]; [|done]. cbn [cluster set_prov].
  pose proof (kept_remove k c0 (cluster w) s Hs Hk) as Hr.
  destruct (removeServiceFinalizer CC s (cluster w)) as [c [u|e]]; exact Hr.
Qed.

Lemma status_key s ing c s1 :
  (UpdateServiceLoadBalancerStatus CC (Some s) ing c).1.2 = Some s1 → objectKey s1 = objectKey s.
Proof.
  unfold UpdateServiceLoadBalancerStatus. destruct (negb _); [by intros [= <-]|].
  destruct (cl_status_update CC _ c) as [c' [u|e]]; by intros [= <-].
Qed.

Lemma kept_unmanaged k c0 s w :
  cache_wf c0 → objectKey s = k → kept k c0 (cluster w) →
  kept k c0 (cluster (reconcileUnmanagedService CC P cfg (Some s) w).1).
Proof.
  intros Hwf Hs Hk. unfold reconcileUnmanagedService. destruct (negb _ && negb _); [done|].
  destruct (Delete P (serviceRef s) (prov w)) as [p [b|e]]; [|done]. cbn [cluster set_prov].
  assert (∃ c1 out cleared, (if hasServiceFinalizer (Some s) || HasLoadBalancerIngressIPInPool (Some s) (IPPool cfg)
      then UpdateServiceLoadBalancerStatus CC (Some s) [] (cluster w) else (cluster w, Some s, Ok false)) = (c1, out, cleared) ∧
    kept k c0 c1 ∧ ∀ s1, out = Some s1 → objectKey s1 = k) as (c1 & out & cleared & -> & Hk1 & Hkey).
  { destruct (_ || _); [|eexists _, _, _; split_and!; [done..|by intros s1 [= <-]]].
    pose proof (kept_status k c0 (cluster w) s [] Hs Hk ltac:(by intros i a k' s' ?%not_elem_of_nil)) as Hst.
    pose proof (status_key s [] (cluster w)) as Hkey.
    destruct (UpdateServiceLoadBalancerStatus CC (Some s) [] (cluster w)) as [[c1 out] cl]. cbn in *.
    eexists _, _, _. split_and!; [done..|]. intros s1 ->. rewrite <- Hs. by apply Hkey. }
  destruct cleared as [b1|e]; [|done]. destruct out as [s1|]; [|done].
  destruct (negb _); [done|]. destruct b1.
  - cbn [cl_get cachedClient cluster set_cluster set_prov]. destruct (cServices c1 !! objectKey s1) as [s2|] eqn:Hget; [|done].
    assert (objectKey s2 = k) as Hs2.
    { destruct Hk1 as (Hc & _). rewrite Hc in Hget. rewrite (Hwf _ _ Hget). by apply Hkey. }
    cbn [cluster set_cluster set_prov]. pose proof (kept_remove k c0 c1 s2 Hs2 Hk1) as Hr.
    destruct (removeServiceFinalizer CC s2 c1) as [c [u|e]]; exact Hr.
  - cbn [cluster set_cluster set_prov]. pose proof (kept_remove k c0 c1 s1 (Hkey _ eq_refl) Hk1) as Hr.
    destruct (removeServiceFinalizer CC s1 c1) as [c [u|e]]; exact Hr.
Qed.

(** An address that is free in the cache is free on the server. *)
Lemma cache_free k c0 c s alloc i a k' s' :
  cache_wf c0 → cache_shows k c0 → kept k c0 c → objectKey s = k → Forall ipv4_wf (IPPool cfg) →
  Allocate (NewAllocator (IPPool cfg) (Some (managed_by cfg))) (Some s) (snd <$> map_to_list (cServices c)) = Ok alloc →
  i ∈ DesiredLoadBalancerIngress (AddrString (allocIP alloc)) → ingressIPv4 i = Some a → a ∈ IPPool cfg →
  cs_services (server c) !! k' = Some s' → k' ≠ k → live (LoadBalancerClass cfg) s' → ¬ publishes s' a.
Proof.
  intros Hwf Hshow (Hc & Ho & _) Hs Hpool [Hin Hfree]%Allocate_free Hi Ha _ Hs' Hk Hl Hpub.
  apply list_elem_of_singleton in Hi as ->. rewrite Forall_forall in Hpool.
  change (alPool _) with (IPPool cfg) in Hin. rewrite ingressIPv4_string in Ha by auto. injection Ha as <-.
  rewrite Ho in Hs' by done. destruct (Hshow k' s' (allocIP alloc) Hs' Hk Hl Hin Hpub) as (x & Hx & [Hxd Hxm] & Hxp).
  apply Hfree. exists x. split; [|split; [|done]].
  - apply list_elem_of_fmap. exists (k', x). split; [done|]. apply elem_of_map_to_list. by rewrite Hc.
  - split_and!; [done| |done]. intros Hkey. apply Hk. rewrite <- (Hwf _ _ Hx), <- Hs. exact Hkey.
Qed.

Lemma kept_allocate k c0 s w :
  cache_wf c0 → cache_shows k c0 → Forall ipv4_wf (IPPool cfg) → objectKey s = k → kept k c0 (cluster w) →
  kept k c0 (cluster (allocateService CC P cfg ios_String s w).1).
Proof.
  intros Hwf Hshow Hpool Hs Hk. unfold allocateService, listServicesForAllocation.
  cbn [cl_list_services cachedClient cluster set_cluster].
  destruct (Allocate _ (Some s) _) as [alloc|[]] eqn:Ha; [|done..].
  unfold provisionService, listEndpointSlicesForService. cbn [cl_list_slices cachedClient cluster set_cluster set_metrics prov].
  destruct (Ensure P _ _) as [p [b|e]]; [|done]. cbn [cluster set_cluster set_prov].
  pose proof (kept_status k c0 (cluster w) s (DesiredLoadBalancerIngress (AddrString (allocIP alloc))) Hs Hk
    (λ i a k' s', cache_free k c0 (cluster w) s alloc i a k' s' Hwf Hshow Hk Hs Hpool Ha)) as Hst.
  destruct (UpdateServiceLoadBalancerStatus CC (Some s) _ (cluster w)) as [[c1 out] [b1|e]]; exact Hst.
Qed.

Lemma kept_managed k c0 s w :
  cache_wf c0 → cache_shows k c0 → Forall ipv4_wf (IPPool cfg) → objectKey s = k → kept k c0 (cluster w) →
  kept k c0 (cluster (reconcileManagedService CC P cfg ios_String k s w).1).
Proof.
  intros Hwf Hshow Hpool Hs Hk. unfold reconcileManagedService, ensureServiceFinalizer.
  destruct (hasServiceFinalizer (Some s)); [by apply kept_allocate|].
  pose proof (kept_patch k c0 (cluster w) s (set_finalizers s (AddFinalizer (ksFinalizers s) serviceFinalizer)) Hs Hk) as Hp.
  destruct (cl_patch CC _ _ (cluster w)) as [c1 [x|e]]; cbn [fst] in Hp; [|exact Hp].
  cbn [cl_get cachedClient cluster set_cluster]. destruct (cServices c1 !! k) as [s2|] eqn:Hget; [|exact Hp].
  apply kept_allocate; [done..| |exact Hp]. destruct Hp as (Hc & _). rewrite Hc in Hget. by apply Hwf.
Qed.

(** C9. Behind a cache, addresses stay unique as long as the cache shows every address
    that other Services publish.  Whatever else in the cache is out of date, on every
    path of a reconciliation and whichever calls fail, a server on which no two live
    managed Services publish one address of the pool stays so. *)
Theorem cached_unique_ips req w :
  Forall ipv4_wf (IPPool cfg) → cache_wf (cluster w) → cache_shows req (cluster w) →
  unique_ips (LoadBalancerClass cfg) (IPPool cfg) (cs_services (server (cluster w))) →
  unique_ips (LoadBalancerClass cfg) (IPPool cfg)
    (cs_services (server (cluster (Reconcile CC P cfg ios_String req w).1))).
Proof.
  intros Hpool Hwf Hshow Hu. assert (kept req (cluster w) (cluster w)) as Hk by done.
  enough (kept req (cluster w) (cluster (Reconcile CC P cfg ios_String req w).1)) as (_ & _ & ?) by done.
  unfold Reconcile, reconcile_request. cbn [cl_get cachedClient cluster set_metrics].
  destruct (cServices (cluster w) !! req) as [s|] eqn:Hs; [|done].
  pose proof (Hwf _ _ Hs) as Hkey. cbn [cluster set_cluster set_metrics prov rmetrics].
  case_bool_decide; [|destruct (negb _)].
  - match goal with |- context [reconcileDeletingService CC P s ?w1] => pose proof (kept_deleting req (cluster w) s w1 Hkey Hk) as Hd;
      destruct (reconcileDeletingService CC P s w1) as [w2 r] end. exact Hd.
  - match goal with |- context [reconcileUnmanagedService CC P cfg (Some s) ?w1] =>
      pose proof (kept_unmanaged req (cluster w) s w1 Hwf Hkey Hk) as Hd;
      destruct (reconcileUnmanagedService CC P cfg (Some s) w1) as [w2 r] end. exact Hd.
  - match goal with |- context [reconcileManagedService CC P cfg ios_String req s ?w1] =>
      pose proof (kept_managed req (cluster w) s w1 Hwf Hshow Hpool Hkey Hk) as Hd;
      destruct (reconcileManagedService CC P cfg ios_String req s w1) as [w2 r] end. exact Hd.
Qed.

(** *** A cache that lags *)

(** A Service without an address blocks nothing, so two of them are offered the same. *)
Lemma in_use_mono a s1 s2 l addr :
  (∀ x, x ∈ l → serviceKey (Some x) = serviceKey (Some s2) → ksIngress x = []) →
  in_use a s1 l addr → in_use a s2 l addr.
Proof.
  intros H2 (x & Hx & (Hd & _ & Hm) & Hp). exists x. split_and!; [done| |done].
  split_and!; [done| |done]. intros Hk. destruct Hp as (i & Hi & _). rewrite (H2 x Hx Hk) in Hi. by apply not_elem_of_nil in Hi.
Qed.

Lemma allocate_same a s1 s2 l al1 al2 :
  ksIngress s1 = [] → ksIngress s2 = [] →
  (∀ x, x ∈ l → serviceKey (Some x) = serviceKey (Some s1) → ksIngress x = []) →
  (∀ x, x ∈ l → serviceKey (Some x) = serviceKey (Some s2) → ksIngress x = []) →
  Allocate a (Some s1) l = Ok al1 → Allocate a (Some s2) l = Ok al2 → allocIP al1 = allocIP al2.
Proof.
  intros E1 E2 H1 H2 Ha1 Ha2.
  apply Allocate_cases in Ha1 as [(_ & Hx & _)|[_ Ha1]]; [cbn in Hx; by rewrite E1 in Hx|].
  apply Allocate_cases in Ha2 as [(_ & Hx & _)|[_ Ha2]]; [cbn in Hx; by rewrite E2 in Hx|].
  assert (∀ x : Addr, x ∈ alPool a → free_candidate a s1 l x = free_candidate a s2 l x) as Hext.
  { intros x Hx. unfold free_candidate. apply bool_decide_ext. rewrite !used_None_spec by done.
    split; intros Hn Hu; apply Hn; by eapply in_use_mono. }
  assert (List.find (free_candidate a s1 l) (alPool a) = List.find (free_candidate a s2 l) (alPool a)) as Hf; [|congruence].
  clear -Hext. induction (alPool a) as [|x pool IH]; [done|]. cbn. rewrite Hext by set_solver.
  rewrite IH; [done|]. intros; apply Hext; set_solver.
Qed.

(** The Services that have no address yet *)
Definition unassigned c k s : Prop :=
  cServices c !! k = Some s ∧ live (LoadBalancerClass cfg) s ∧ serviceFinalizer ∈ ksFinalizers s ∧ ksIngress s = [].

(** A run that publishes an address for such a Service *)
Lemma cached_publish k s w w' :
  0 < RequeueAfter cfg → unassigned (cluster w) k s → objectKey s = k → Forall ipv4_wf (IPPool cfg) →
  Reconcile CC P cfg ios_String k w = (w', Ok (MkResult 0)) →
  ∃ alloc st, Allocate (NewAllocator (IPPool cfg) (Some (managed_by cfg))) (Some s)
      (snd <$> map_to_list (cServices (cluster w))) = Ok alloc ∧
    cServices (cluster w') = cServices (cluster w) ∧
    cs_services (server (cluster w')) =
      <[k := set_ingress st [MkIngress (AddrString (allocIP alloc)) ""]]> (cs_services (server (cluster w))).
Proof.
  intros Hreq (Hs & [Hd Hm] & Hf & Hi) Hkey Hpool. unfold Reconcile, reconcile_request.
  cbn [cl_get cachedClient cluster set_metrics]. rewrite Hs, Hd, Hm. rewrite bool_decide_eq_false_2 by tauto. cbn [negb].
  unfold reconcileManagedService, ensureServiceFinalizer. rewrite (proj2 (hasFinalizer_spec s) Hf).
  unfold allocateService, listServicesForAllocation. cbn [cl_list_services cachedClient cluster set_cluster set_metrics].
  destruct (Allocate _ (Some s) _) as [alloc|[]] eqn:Ha; [|done|done|intros [= _ ?]; lia].
  unfold provisionService, listEndpointSlicesForService. cbn [cl_list_slices cachedClient cluster set_cluster set_metrics prov].
  destruct (Ensure P _ _) as [p [b|e]]; [|done]. cbn [cluster set_cluster set_prov].
  unfold UpdateServiceLoadBalancerStatus, NeedsLoadBalancerIngressUpdate. rewrite negb_involutive, Hi.
  destruct (LoadBalancerIngressEqual [] _) eqn:Heq.
  { apply ingress_equal_desired in Heq as (? & [=] & _). rewrite Forall_forall in Hpool. apply Hpool.
    by apply Allocate_free in Ha as [? _]. }
  cbn [cl_status_update cachedClient]. unfold write_through.
  destruct (cl_status_update C _ _) as [w2 [u|e]] eqn:Hu; [|done]. intros [= <-].
  apply cs_status_ok in Hu as (st & _ & _ & Hw2). exists alloc, st. cbn. split_and!; [done..|].
  rewrite Hw2. change (objectKey (set_ingress s _)) with (objectKey s). by rewrite Hkey.
Qed.

(** C39. With a cache that does not yet show the first address, two Services that have none
    get the same.  Two live managed Services have their finalizer and no address in the
    cache; both are reconciled with success while the cache stays as it is.  Then both
    publish one and the same address of the pool.  A change of the status passes no
    filter, so the two updates that brought this about give no request for either
    Service; a later event of one of them would. *)
Theorem stale_cache_duplicate k1 k2 s1 s2 w w1 w2 :
  0 < RequeueAfter cfg → Forall ipv4_wf (IPPool cfg) → cache_wf (cluster w) → k1 ≠ k2 →
  unassigned (cluster w) k1 s1 → unassigned (cluster w) k2 s2 →
  Reconcile CC P cfg ios_String k1 w = (w1, Ok (MkResult 0)) →
  Reconcile CC P cfg ios_String k2 w1 = (w2, Ok (MkResult 0)) →
  (∃ a x1 x2, a ∈ IPPool cfg ∧
    cs_services (server (cluster w2)) !! k1 = Some x1 ∧ ksIngress x1 = [MkIngress (AddrString a) ""] ∧
    cs_services (server (cluster w2)) !! k2 = Some x2 ∧ ksIngress x2 = [MkIngress (AddrString a) ""]) ∧
  ∀ x ing, serviceReconcilePredicate (EvUpdate (Some x) (Some (set_ingress x ing))) = false.
Proof.
  intros Hreq Hpool Hwf Hne Hu1 Hu2 Hr1 Hr2. pose proof Hu1 as (Hs1 & _ & _ & Hi1). pose proof Hu2 as (Hs2 & _ & _ & Hi2).
  pose proof (Hwf _ _ Hs1) as Hk1. pose proof (Hwf _ _ Hs2) as Hk2.
  destruct (cached_publish _ _ _ _ Hreq Hu1 Hk1 Hpool Hr1) as (al1 & st1 & Ha1 & Hc1 & Hw1).
  assert (unassigned (cluster w1) k2 s2) as Hu2' by (unfold unassigned; by rewrite Hc1).
  destruct (cached_publish _ _ _ _ Hreq Hu2' Hk2 Hpool Hr2) as (al2 & st2 & Ha2 & Hc2 & Hw2). rewrite Hc1 in Ha2.
  assert (∀ k s x, cServices (cluster w) !! k = Some s → ksIngress s = [] → x ∈ snd <$> map_to_list (cServices (cluster w)) →
    serviceKey (Some x) = serviceKey (Some s) → ksIngress x = []) as Hself.
  { intros k s x Hs Hi ([k' x'] & -> & Hx)%list_elem_of_fmap Hkey. apply elem_of_map_to_list in Hx. cbn in *.
    assert (k' = k) as -> by (rewrite <- (Hwf _ _ Hx), <- (Hwf _ _ Hs); exact Hkey). congruence. }
  assert (allocIP al1 = allocIP al2) as Heq
    by exact (allocate_same _ _ _ _ _ _ Hi1 Hi2 (λ x, Hself k1 s1 x Hs1 Hi1) (λ x, Hself k2 s2 x Hs2 Hi2) Ha1 Ha2).
  split.
  - eexists (allocIP al1), _, _. split; [by apply Allocate_free in Ha1 as [? _]|]. rewrite Hw2, Hw1, Heq.
    rewrite lookup_insert_ne, lookup_insert_eq, lookup_insert_eq by done. done.
  - intros x ing. cbn. rewrite bool_decide_eq_false_2 by tauto. destruct (ksDeletionTimestamp x) as [t|]; [|done].
    by rewrite bool_decide_eq_true_2.
Qed.
End cache_facts.
