(* ===== verification/Effects.v ===== *)
(** * What one reconciliation may change

    For every API server and provider that meet their contracts, and on every path, with
    failures anywhere: a reconciliation touches its own Service only, and gives it no
    address that another live managed Service publishes.  So along every run two Services
    publish the same address only when somebody else has brought that about. *)
From S2P Require Import Prelude GoStrings GoSort NetIP Kube Client Provider IPAM Status Backends Config Metrics.
From S2P Require Import Controller Convergence.
Local Open Scope Z_scope.

#[export] Instance live_dec class s : Decision (live class s).
Proof. unfold live. apply _. Defined.

(** ** What one reconciliation may change *)
Section effects.
Context `{GoSort, FinalizerUtil} {Wc Ec Wp Ep : Type}.
Context (C : Client Wc Ec) `{!ClientSpec C} (P : Provider Wp Ep) `{!ProviderSpec P}.
Context (cfg : Config) (ios_String : IntOrString → string).
Notation world := (World Wc Wp).
Notation stored := (stored C).
Notation held := (held P).
Implicit Types (w : world) (s : KService) (k : NamespacedName) (c : Wc).

(** No other live managed Service publishes [a]. *)
Definition free_for k (a : Addr) w : Prop :=
  ∀ k' s', stored w !! k' = Some s' → k' ≠ k → live (LoadBalancerClass cfg) s' → ¬ publishes s' a.

(** The finalizers and the status of one Service, and the entry of that Service in the
    provider; the Service itself goes only when it was being deleted.  An address that it
    did not publish before is one that no other live managed Service publishes. *)
Record effect k w w' : Prop := {
  ef_others : ∀ k', k' ≠ k → stored w' !! k' = stored w !! k';
  ef_own : ∀ s', stored w' !! k = Some s' → ∃ s, stored w !! k = Some s ∧
    s' = set_ingress (set_finalizers s (ksFinalizers s')) (ksIngress s') ∧
    (ksIngress s' = ksIngress s ∨ (length (ksIngress s') <= 1)%nat);
  ef_gone : ∀ s, stored w !! k = Some s → stored w' !! k = None → ksDeletionTimestamp s ≠ None;
  ef_claims : ∀ s' a, stored w' !! k = Some s' → publishes s' a →
    (∃ s, stored w !! k = Some s ∧ publishes s a) ∨ free_for k a w;
  ef_held : ∀ r, nn r ≠ k → held w' !! r = held w !! r;
  ef_slices : cs_slices_of (cluster w') = cs_slices_of (cluster w);
}.

Lemma effect_same k w w' :
  stored w' = stored w → (∀ r, nn r ≠ k → held w' !! r = held w !! r) → cs_slices_of (cluster w') = cs_slices_of (cluster w) →
  effect k w w'.
Proof.
  intros Hs Hh Hsl. split; [by rewrite Hs| | | |done|done]; rewrite Hs.
  - intros s Hk. exists s. split_and!; [done|by destruct s|by left].
  - congruence.
  - intros s a Hk Hp. left. by exists s.
Qed.

#[local] Instance effect_refl k : Reflexive (effect k).
Proof. intros w. by apply effect_same. Qed.

#[local] Instance effect_trans k : Transitive (effect k).
Proof.
  intros w1 w2 w3 [O1 S1 G1 C1 H1 L1] [O2 S2 G2 C2 H2 L2]. split.
  - intros k' Hk. by rewrite O2, O1.
  - intros s3 Hs3. destruct (S2 s3 Hs3) as (s2 & Hs2 & E2 & I2). destruct (S1 s2 Hs2) as (s1 & Hs1 & E1 & I1).
    exists s1. split_and!; [done|by rewrite E2, E1|].
    destruct I2 as [I2|?]; [rewrite I2|by right]. destruct I1 as [->|?]; [by left|by right].
  - intros s Hs Hn. destruct (stored w2 !! k) as [s2|] eqn:Hs2; [|by apply G1].
    destruct (S1 s2 eq_refl) as (s1 & Hs1 & E1 & _). assert (s1 = s) as -> by congruence.
    pose proof (G2 s2 eq_refl Hn) as Hd. rewrite E1 in Hd. exact Hd.
  - intros s3 a Hs3 Hp3. destruct (C2 s3 a Hs3 Hp3) as [(s2 & Hs2 & Hp2)|Hf]; [by apply (C1 s2)|].
    right. intros k' s' Hs' Hk'. apply (Hf k'); [by rewrite O1|done].
  - intros r Hr. by rewrite H2, H1.
  - by rewrite L2, L1.
Qed.

(** *** The single operations *)
Lemma effect_read k w c :
  cs_services c = stored w → cs_slices_of c = cs_slices_of (cluster w) → effect k w (set_cluster w c).
Proof. intros Hc Hsl. by apply effect_same. Qed.

Lemma effect_finalizers k fin w c :
  finalizer_write k fin (stored w) (cs_services c) → cs_slices_of c = cs_slices_of (cluster w) →
  effect k w (set_cluster w c).
Proof.
  intros [Hc|(st & Hst & Hc)] Hsl; [by apply effect_read|]. unfold store_finalizers in Hc.
  split; [..|done|done]; change (stored (set_cluster w c)) with (cs_services c); rewrite Hc; case_bool_decide as Hd.
  - intros k' Hk. by rewrite lookup_delete_ne.
  - intros k' Hk. by rewrite lookup_insert_ne.
  - intros s'. by rewrite lookup_delete_eq.
  - intros s'. rewrite lookup_insert_eq. intros [= <-]. exists st. split_and!; [done|by destruct st|by left].
  - intros s Hs _. destruct Hd as [Hd _]. congruence.
  - intros s Hs. by rewrite lookup_insert_eq.
  - intros s' a. by rewrite lookup_delete_eq.
  - intros s' a. rewrite lookup_insert_eq. intros [= <-] Hp. left. by exists st.
Qed.

(** All addresses of a status that is written are free. *)
Definition all_free k (ing : list LoadBalancerIngress) w : Prop := ∀ i a, i ∈ ing → ingressIPv4 i = Some a → free_for k a w.

Lemma nothing_free k w : all_free k [] w.
Proof. by intros i a ?%not_elem_of_nil. Qed.

Lemma effect_ingress k ing w c :
  ingress_write k ing (stored w) (cs_services c) → (length ing <= 1)%nat → all_free k ing w →
  cs_slices_of c = cs_slices_of (cluster w) → effect k w (set_cluster w c).
Proof.
  intros [Hc|(st & Hst & Hc)] Hlen Hfree Hsl; [by apply effect_read|].
  split; [..|done|done]; change (stored (set_cluster w c)) with (cs_services c); rewrite Hc.
  - intros k' Hk. by rewrite lookup_insert_ne.
  - intros s'. rewrite lookup_insert_eq. intros [= <-]. exists st. split_and!; [done|by destruct st|by right].
  - intros s Hs. by rewrite lookup_insert_eq.
  - intros s' a. rewrite lookup_insert_eq. intros [= <-] (i & Hi & Hia). right. by apply (Hfree i).
Qed.

Lemma effect_status s ing w c out res :
  UpdateServiceLoadBalancerStatus C (Some s) ing (cluster w) = (c, out, res) → (length ing <= 1)%nat →
  all_free (objectKey s) ing w → effect (objectKey s) w (set_cluster w c).
Proof.
  intros Hup Hlen Hfree. eapply effect_ingress; [by eapply update_status_write|done|done|]. revert Hup.
  unfold UpdateServiceLoadBalancerStatus. destruct (negb _); [by intros [= <- _ _]|].
  pose proof (cs_status_slices (set_ingress s ing) (cluster w)) as Hsl.
  destruct (cl_status_update C _ _) as [c1 [u|e]]; by intros [= <- _ _].
Qed.

Lemma effect_remove s w c res :
  removeServiceFinalizer C s (cluster w) = (c, res) → effect (objectKey s) w (set_cluster w c).
Proof.
  intros Hr. eapply effect_finalizers; [by eapply remove_write|]. revert Hr. unfold removeServiceFinalizer.
  destruct (negb _); [by intros [= <- _]|].
  match goal with |- context [cl_patch C s ?x _] => pose proof (cs_patch_slices s x (cluster w)) as Hsl end.
  destruct (cl_patch C _ _ _) as [c1 [u|e]]; by intros [= <- _].
Qed.

Lemma effect_prov_delete s w p res :
  Delete P (serviceRef s) (prov w) = (p, res) → effect (objectKey s) w (set_prov w p).
Proof.
  intros Hd. apply effect_same; [done| |done]. intros r Hr. unfold held. cbn. eapply delete_frame; [exact Hd|].
  intros ->. by apply Hr.
Qed.

Lemma effect_prov_ensure s ip disc w p res :
  Ensure P (buildProviderService ios_String s ip disc) (prov w) = (p, res) → effect (objectKey s) w (set_prov w p).
Proof.
  intros He. apply effect_same; [done| |done]. intros r Hr. unfold held. cbn. eapply ensure_frame; [exact He|].
  intros ->. by apply Hr.
Qed.

(** *** The paths *)
Lemma effect_deleting s w : effect (objectKey s) w (reconcileDeletingService C P s w).1.
Proof.
  unfold reconcileDeletingService. destruct (negb _); [done|].
  destruct (Delete P (serviceRef s) (prov w)) as [p [b|e]] eqn:Hd; apply effect_prov_delete in Hd; [|exact Hd].
  etrans; [exact Hd|]. destruct (removeServiceFinalizer C s (cluster (set_prov w p))) as [c r] eqn:Hr.
  apply effect_remove in Hr. by destruct r.
Qed.

Lemma effect_unmanaged s w : effect (objectKey s) w (reconcileUnmanagedService C P cfg (Some s) w).1.
Proof.
  unfold reconcileUnmanagedService. destruct (_ && _); [done|].
  destruct (Delete P (serviceRef s) (prov w)) as [p [b|e]] eqn:Hd; apply effect_prov_delete in Hd; [|exact Hd].
  etrans; [exact Hd|]. clear Hd. set (w1 := set_prov w p).
  destruct (if _ || _ then _ else _) as [[c out] cleared] eqn:Hst.
  assert (effect (objectKey s) w1 (set_cluster w1 c) ∧ (∀ s1, out = Some s1 → objectKey s1 = objectKey s)) as [Hc Hkey].
  { destruct (_ || _).
    - split; [eapply effect_status; [exact Hst|cbn; lia|apply nothing_free]|]. revert Hst. unfold UpdateServiceLoadBalancerStatus.
      destruct (negb _); [intros [= _ <- _]; by intros s1 [= <-]|].
      destruct (cl_status_update C _ _) as [c1 [u|e]]; intros [= _ <- _]; by intros s1 [= <-].
    - injection Hst as <- <- <-. split; [by apply effect_read|]. by intros s1 [= <-]. }
  assert (∀ s2 c2, objectKey s2 = objectKey s → effect (objectKey s) w1 (set_cluster w1 c2) →
    effect (objectKey s) w1 (let '(c3, r) := removeServiceFinalizer C s2 c2 in set_cluster w1 c3)) as Hfin.
  { intros s2 c2 Hk Hc2. etrans; [exact Hc2|].
    destruct (removeServiceFinalizer C s2 c2) as [c3 r] eqn:Hr. rewrite <- Hk.
    by apply (effect_remove s2 (set_cluster w1 c2)) in Hr. }
  destruct cleared as [b'|e]; [|exact Hc]. destruct out as [s1|]; [|exact Hc]. specialize (Hkey s1 eq_refl).
  destruct (negb _); [exact Hc|]. destruct b'; cbn [cluster set_cluster set_prov].
  - pose proof (cs_get_slices (objectKey s1) c) as Hsl. destruct (cl_get C (objectKey s1) c) as [c2 [s2|e]] eqn:Hget.
    + apply cs_get_ok in Hget as [Hc2 Hs2]. specialize (Hfin s2 c2 ltac:(rewrite <- Hkey; by eapply cs_keys)).
      destruct (removeServiceFinalizer C s2 c2) as [c3 [u|e]];
        (apply Hfin; etrans; [exact Hc|]; by apply (effect_read _ (set_cluster w1 c))).
    + apply cs_get_err in Hget. etrans; [exact Hc|]. by apply (effect_read _ (set_cluster w1 c)).
  - specialize (Hfin s1 c Hkey Hc). by destruct (removeServiceFinalizer C s1 c) as [c3 [u|e]].
Qed.

Lemma effect_provision s alloc w :
  ipv4_wf (allocIP alloc) → free_for (objectKey s) (allocIP alloc) w →
  effect (objectKey s) w (provisionService C P ios_String s alloc w).1.
Proof.
  intros Hwf Hfree.
  unfold provisionService, listEndpointSlicesForService.
  pose proof (cs_slices_slices (ksNamespace s) {[LabelServiceName := ksName s]} (cluster w)) as Hsl.
  destruct (cl_list_slices C _ _ (cluster w)) as [c1 res] eqn:Hl. apply cs_slices in Hl. cbn [fst] in Hsl.
  assert (effect (objectKey s) w (set_cluster w c1)) as H1 by by apply effect_read.
  destruct res as [es|e]; [|exact H1]. etrans; [exact H1|]. set (w1 := set_cluster w c1).
  change (prov w) with (prov w1).
  destruct (Ensure P _ (prov w1)) as [p [b|e]] eqn:He; apply effect_prov_ensure in He; [|exact He].
  etrans; [exact He|]. set (w2 := set_prov w1 p).
  destruct (UpdateServiceLoadBalancerStatus C (Some s) _ (cluster w2)) as [[c2 out] r] eqn:Hup.
  apply effect_status in Hup; [by destruct r|cbn; lia|].
  intros i a ->%list_elem_of_singleton. rewrite ingressIPv4_string by done. intros [= <-] k' s' Hs'.
  apply (Hfree k'). revert Hs'. unfold w2, w1, Controller.stored. cbn. by rewrite Hl.
Qed.

Lemma effect_allocate s w :
  Forall ipv4_wf (IPPool cfg) → effect (objectKey s) w (allocateService C P cfg ios_String s w).1.
Proof.
  intros Hpool.
  unfold allocateService, listServicesForAllocation. pose proof (cs_list_slices (cluster w)) as Hsl.
  destruct (cl_list_services C (cluster w)) as [c res] eqn:Hl. pose proof (cs_list _ _ _ Hl) as Hc. cbn [fst] in Hsl.
  assert (effect (objectKey s) w (set_cluster w c)) as H1 by by apply effect_read.
  destruct res as [l|e]; [|exact H1]. fold (allocator_of cfg).
  destruct (Allocate _ (Some s) l) as [alloc|[]] eqn:Ha; try (by etrans; [exact H1|apply effect_same]).
  apply (allocated_free C cfg _ _ _ _ _ Hl) in Ha as [Hin Hfree]. rewrite Forall_forall in Hpool.
  etrans; [exact H1|]. etrans; [|apply effect_provision; [by apply Hpool|]]; [by apply effect_same|].
  intros k' s' Hs'. apply (Hfree k'). revert Hs'. unfold Controller.stored. cbn. by rewrite Hc.
Qed.

Lemma effect_managed s w :
  Forall ipv4_wf (IPPool cfg) → stored w !! objectKey s = Some s →
  effect (objectKey s) w (reconcileManagedService C P cfg ios_String (objectKey s) s w).1.
Proof.
  intros Hpool Hs. unfold reconcileManagedService. destruct (ensureServiceFinalizer C s (cluster w)) as [c res] eqn:He.
  assert (effect (objectKey s) w (set_cluster w c)) as H1.
  { apply (ensureFinalizer_spec C) in He as Hw; [|done]. destruct Hw as [Hw _]. eapply effect_finalizers; [exact Hw|].
    revert He. unfold ensureServiceFinalizer. destruct (hasServiceFinalizer (Some s)); [by intros [= <- _]|].
    match goal with |- context [cl_patch C s ?x _] => pose proof (cs_patch_slices s x (cluster w)) as Hsl end.
    destruct (cl_patch C _ _ _) as [c1 [u|e]]; by intros [= <- _]. }
  apply (ensureFinalizer_spec C) in He as [_ Hr]; [|done]. destruct res as [[b s']|e]; [|exact H1].
  destruct Hr as (Hs' & _). etrans; [exact H1|]. destruct b; cbn [cluster set_cluster].
  - pose proof (cs_get_slices (objectKey s) c) as Hsl. destruct (cl_get C (objectKey s) c) as [c2 [s2|e]] eqn:Hget.
    + apply cs_get_ok in Hget as [Hc2 Hs2]. rewrite <- (cs_keys _ _ _ Hs2). etrans; [|by apply effect_allocate].
      by apply (effect_read _ (set_cluster w c)).
    + apply cs_get_err in Hget. by apply (effect_read _ (set_cluster w c)).
  - rewrite <- (cs_keys _ _ _ Hs'). by apply effect_allocate.
Qed.

Lemma effect_metrics k w m : effect k w (set_metrics w m).
Proof. by apply effect_same. Qed.

Lemma Reconcile_effect req w : Forall ipv4_wf (IPPool cfg) → effect req w (Reconcile C P cfg ios_String req w).1.
Proof.
  intros Hpool.
  unfold Reconcile, reconcile_request. set (w0 := set_metrics w _). transitivity w0; [apply effect_metrics|].
  change (cluster w) with (cluster w0).
  pose proof (cs_get_slices req (cluster w0)) as Hsl. destruct (cl_get C req (cluster w0)) as [c [s|e]] eqn:Hget.
  2:{ apply cs_get_err in Hget. cbn [fst]. etrans; [|apply effect_metrics]. by apply effect_read. }
  apply cs_get_ok in Hget as [Hc Hs]. pose proof (cs_keys _ _ _ Hs) as <-. cbn [fst] in Hsl.
  set (w1 := set_cluster w0 c). assert (effect (objectKey s) w0 w1) as H1 by by apply effect_read.
  case_bool_decide; [|destruct (negb _)].
  - pose proof (effect_deleting s w1) as Hd. destruct (reconcileDeletingService C P s w1) as [w2 r].
    etrans; [exact H1|]. etrans; [exact Hd|apply effect_metrics].
  - pose proof (effect_unmanaged s w1) as Hd. destruct (reconcileUnmanagedService C P cfg (Some s) w1) as [w2 r].
    etrans; [exact H1|]. etrans; [exact Hd|apply effect_metrics].
  - pose proof (effect_managed s w1) as Hd.
    destruct (reconcileManagedService C P cfg ios_String (objectKey s) s w1) as [w2 r].
    etrans; [exact H1|]. etrans; [apply Hd|apply effect_metrics]; [done|]. unfold Controller.stored, w1. cbn. by rewrite Hc.
Qed.

(** ** Addresses that two Services publish *)
#[local] Instance publishes_dec s a : Decision (publishes s a).
Proof.
  destruct (decide (Exists (λ i, ingressIPv4 i = Some a) (ksIngress s))) as [Hp|Hp].
  - left. by apply Exists_exists in Hp.
  - right. by rewrite Exists_exists in Hp.
Defined.

(** The Service [k] is live and managed and publishes [a]. *)
Definition claims (m : gmap NamespacedName KService) k (a : Addr) : Prop :=
  ∃ s, m !! k = Some s ∧ live (LoadBalancerClass cfg) s ∧ publishes s a.

#[local] Instance claims_dec m k a : Decision (claims m k a).
Proof.
  destruct (m !! k) as [s|] eqn:Hs; [|right; by intros (s & ? & _); simplify_eq].
  destruct (decide (live (LoadBalancerClass cfg) s ∧ publishes s a)) as [Hd|Hd]; [left; by exists s|].
  right. intros (s' & ? & Hl). simplify_eq. tauto.
Defined.

(** A change that makes [k] a live managed Service with an address of the pool which it
    did not have as one before: its status was written, it was created with a status, or
    it became managed while it published the address. *)
Definition claimed (m m' : gmap NamespacedName KService) k : Prop :=
  ∃ a, a ∈ IPPool cfg ∧ claims m' k a ∧ ¬ claims m k a.

(** Runs of the controller in which everybody else may do anything to the cluster at any
    time, with the set [T] of the Services that others have given an address since
    [Reconcile] last ended for them without being repeated *)
Inductive run (T0 : NamespacedName → Prop) w0 : (NamespacedName → Prop) → world → Prop :=
| run_start : run T0 w0 T0 w0
| run_reconcile T req w w' res : run T0 w0 T w → Reconcile C P cfg ios_String req w = (w', res) →
    run T0 w0 (λ k, T k ∧ ¬ (k = req ∧ res = Ok (MkResult 0))) w'
| run_change T w c' : run T0 w0 T w →
    run T0 w0 (λ k, T k ∨ claimed (stored w) (cs_services c') k) (set_cluster w c').

(** Of two live managed Services with the same address of the pool, one is in [T]. *)
Definition attributed (T : NamespacedName → Prop) w : Prop :=
  ∀ k1 k2 a, a ∈ IPPool cfg → k1 ≠ k2 → claims (stored w) k1 a → claims (stored w) k2 a → T k1 ∨ T k2.

Lemma claims_other k k' w w' a : effect k w w' → k' ≠ k → claims (stored w') k' a ↔ claims (stored w) k' a.
Proof. intros Hef Hk. unfold claims. by rewrite (ef_others _ _ _ Hef). Qed.

(** What the reconciled Service claims afterwards it had before, or nobody else has it. *)
Lemma claims_own k w w' a :
  effect k w w' → claims (stored w') k a → claims (stored w) k a ∨ ∀ k', k' ≠ k → ¬ claims (stored w) k' a.
Proof.
  intros Hef (s' & Hs' & [Hd Hm] & Hp). destruct (ef_own _ _ _ Hef s' Hs') as (s & Hs & Heq & _).
  destruct (ef_claims _ _ _ Hef s' a Hs' Hp) as [(x & Hx & Hpx)|Hfree].
  - left. exists s. assert (x = s) as -> by congruence. split_and!; [done| |done]. rewrite Heq in Hd, Hm. by split.
  - right. intros k' Hk' (x & Hx & Hl & Hpx). by apply (Hfree k' x).
Qed.

(** After a reconciliation that is not repeated, nobody else has its address. *)
Lemma reconciled_own k w w' a :
  Forall ipv4_wf (IPPool cfg) → 0 < RequeueAfter cfg → Reconcile C P cfg ios_String k w = (w', Ok (MkResult 0)) →
  claims (stored w') k a → ∀ k', k' ≠ k → ¬ claims (stored w) k' a.
Proof.
  intros Hpool Hreq Hr (s' & Hs' & [Hd Hm] & (j & Hj & Hja)) k' Hk' (x & Hx & Hlx & Hpx).
  pose proof (Reconcile_effect k w Hpool) as Hef. rewrite Hr in Hef. cbn [fst] in Hef.
  destruct (ef_own _ _ _ Hef s' Hs') as (s & Hs & Heq & _). pose proof (cs_keys _ _ _ Hs) as <-.
  assert (live (LoadBalancerClass cfg) s) as Hl by (rewrite Heq in Hd, Hm; by split).
  destruct (Reconcile_ok C P cfg ios_String _ _ _ _ _ Hpool Hs Hl Hr) as [_ [([= ?] & _)|(_ & b & Hb & Hun & Hrun)]]; [lia|].
  destruct Hrun as (_ & (y & i & Hy & Hyeq & Hip & _) & _). assert (y = s') as -> by congruence.
  rewrite Hyeq in Hj. apply list_elem_of_singleton in Hj as ->. rewrite Forall_forall in Hpool.
  apply ingressIPv4_wf in Hja as [Hwf Ha]. rewrite Ha, TrimSpace_AddrString in Hip by apply Hwf.
  destruct Hwf, (Hpool b Hb). apply AddrString_inj in Hip as ->; [|done..]. by apply (Hun k' x).
Qed.

Lemma reconcile_attributed T req w w' res :
  Forall ipv4_wf (IPPool cfg) → 0 < RequeueAfter cfg → Reconcile C P cfg ios_String req w = (w', res) →
  attributed T w → attributed (λ k, T k ∧ ¬ (k = req ∧ res = Ok (MkResult 0))) w'.
Proof.
  intros Hpool Hreq Hr HT. pose proof (Reconcile_effect req w Hpool) as Hef. rewrite Hr in Hef. cbn [fst] in Hef.
  assert (∀ k a, a ∈ IPPool cfg → k ≠ req → claims (stored w') req a → claims (stored w') k a →
    res ≠ Ok (MkResult 0) ∧ (T req ∨ T k)) as Hown.
  { intros k a Ha Hk H1 H2. apply (claims_other _ _ _ _ _ Hef Hk) in H2. split.
    - intros ->. by eapply (reconciled_own req w w' a).
    - destruct (claims_own _ _ _ _ Hef H1) as [Hc|Hno]; [by apply (HT req k a)|by destruct (Hno k)]. }
  intros k1 k2 a Ha Hne H1 H2. destruct (decide (k1 = req)) as [->|Hk1]; [|destruct (decide (k2 = req)) as [->|Hk2]].
  - destruct (Hown k2 a) as [? [?|?]]; try done; [left|right]; split; naive_solver.
  - destruct (Hown k1 a) as [? [?|?]]; try done; [right|left]; split; naive_solver.
  - apply (claims_other _ _ _ _ _ Hef) in H1, H2; [|done..]. destruct (HT k1 k2 a) as [?|?]; naive_solver.
Qed.

Lemma change_attributed T w c' :
  attributed T w → attributed (λ k, T k ∨ claimed (stored w) (cs_services c') k) (set_cluster w c').
Proof.
  intros HT k1 k2 a Ha Hne H1 H2. change (stored (set_cluster w c')) with (cs_services c') in *.
  destruct (decide (claims (stored w) k1 a)) as [P1|P1]; [|left; right; by exists a].
  destruct (decide (claims (stored w) k2 a)) as [P2|P2]; [|right; right; by exists a].
  destruct (HT k1 k2 a) as [?|?]; auto.
Qed.

(** What users do who leave status and finalizer to the controller gives no Service an
    address. *)
Lemma user_change_claims_nothing m m' k : user_change cfg m m' → ¬ claimed m m' k.
Proof.
  intros [Hch _] (a & Ha & (s' & Hs' & Hl' & Hp') & Hn). specialize (Hch k s' Hs').
  destruct (m !! k) as [s|] eqn:Hs.
  - destruct Hch as (Hing & _ & Hch). destruct (Hch Hl') as [Hl|Hno]; [|by apply (Hno a)].
    apply Hn. exists s. split_and!; [done|done|]. unfold publishes in *. by rewrite <- Hing.
  - destruct Hp' as (i & Hi & _). rewrite Hch in Hi. by apply not_elem_of_nil in Hi.
Qed.

(** C1. The controller never brings two Services to one address.  Along every run, in which
    any call of the API server or the provider may fail, and users and other controllers
    may do anything to the cluster between two reconciliations (edit statuses and
    finalizers, make a Service managed that already publishes an address), two live
    managed Services publish the same address of the pool only when somebody else gave
    one of them an address since that Service was last reconciled without being repeated;
    and that reconciliation gives up the address.  Reads are taken to be current here, as
    [ClientSpec] says; [cached_unique_ips] and [stale_cache_duplicate] are about the
    cached reads of the manager's client. *)
Theorem reconcile_no_duplicates T0 w0 T w :
  Forall ipv4_wf (IPPool cfg) → 0 < RequeueAfter cfg → attributed T0 w0 → run T0 w0 T w →
  attributed T w ∧ ((∀ k, ¬ T k) → unique_ips (LoadBalancerClass cfg) (IPPool cfg) (stored w)).
Proof.
  intros Hpool Hreq Hstart Hrun. assert (attributed T w) as HT.
  { induction Hrun as [|T req w w' res _ IH Hr|T w c' _ IH]; [done|by eapply reconcile_attributed|by apply change_attributed]. }
  split; [done|]. intros Hno k1 k2 s1 s2 a H1 H2 L1 L2 Ha P1 P2.
  destruct (decide (k1 = k2)) as [|Hne]; [done|].
  destruct (HT k1 k2 a Ha Hne) as [?|?]; [by exists s1|by exists s2|by destruct (Hno k1)|by destruct (Hno k2)].
Qed.
End effects.

