(* ===== verification/WorkQueue.v ===== *)
(** * The controller and its work queue

    [Reconcile] inside the loop that controller-runtime runs around it: the API server
    reports every change of a Service or an EndpointSlice, the filters and the mapping of
    service_filter.go and service_controller.go turn the reports into requests, a worker
    takes one request at a time, and a request whose reconciliation failed or asked to be
    repeated is put back.  Everybody else may change the Services in any way; the updates
    that matter and that the filter nevertheless drops are recorded beside the queue.  A
    Service with no request in the queue and no such update is as it should be. *)
From S2P Require Import Prelude GoStrings GoSort NetIP Kube Client Provider IPAM Status Backends Config Metrics.
From S2P Require Import Controller Convergence Effects.
Local Open Scope Z_scope.

(** ** Events and requests *)

(** What a watch reports of one Service *)
Definition service_event (old new : option KService) : option (WatchEvent KService) :=
  match old, new with
  | None, None => None
  | None, Some _ => Some EvCreate
  | Some o, Some n => if decide (o = n) then None else Some (EvUpdate (Some o) (Some n))
  | Some _, None => Some EvDelete
  end.

(** The watch of Services with its filter: a request for every Service with an event that
    passes *)
Definition service_requests (m m' : gmap NamespacedName KService) : gset NamespacedName :=
  filter (λ k, from_option serviceReconcilePredicate false (service_event (m !! k) (m' !! k)) = true) (dom m ∪ dom m').

(** What [Reconcile] looks at in the Service itself *)
Definition relevant (s : KService) :=
  (ksType s, ksLoadBalancerClass s, ksPorts s, ksDeletionTimestamp s, ksIngress s,
   bool_decide (serviceFinalizer ∈ ksFinalizers s)).

(** An update that matters but does not pass the filter *)
Definition dropped (old new : option KService) : bool :=
  match old, new with
  | Some o, Some n => negb (serviceReconcilePredicate (EvUpdate (Some o) (Some n))) && bool_decide (relevant o ≠ relevant n)
  | _, _ => false
  end.

Definition service_missed (m m' : gmap NamespacedName KService) : gset NamespacedName :=
  filter (λ k, dropped (m !! k) (m' !! k) = true) (dom m).

(** One change of an EndpointSlice; the API server gives a changed object a new version. *)
Inductive slice_change : Type :=
| SliceCreated (es : EndpointSlice)
| SliceUpdated (old new : EndpointSlice)
| SliceDeleted (es : EndpointSlice).

Definition slice_changed (ch : slice_change) (sl sl' : list EndpointSlice) : Prop :=
  match ch with
  | SliceCreated es => sl' ≡ₚ es :: sl
  | SliceUpdated old new => ∃ l, sl ≡ₚ old :: l ∧ sl' ≡ₚ new :: l ∧ (old = new ∨ esResourceVersion old ≠ esResourceVersion new)
  | SliceDeleted es => sl ≡ₚ es :: sl'
  end.

(** The watch of EndpointSlices: filter, then mapping; of an update both objects are
    mapped. *)
Definition slice_requests (ch : slice_change) : list NamespacedName :=
  match ch with
  | SliceCreated es => if endpointSliceReconcilePredicate EvCreate then endpointSliceToServiceRequests (Some es) else []
  | SliceUpdated old new =>
    if endpointSliceReconcilePredicate (EvUpdate (Some old) (Some new))
    then endpointSliceToServiceRequests (Some old) ++ endpointSliceToServiceRequests (Some new) else []
  | SliceDeleted es => if endpointSliceReconcilePredicate EvDelete then endpointSliceToServiceRequests (Some es) else []
  end.

Lemma service_requests_elem m m' k :
  k ∈ service_requests m m' ↔ ∃ e, service_event (m !! k) (m' !! k) = Some e ∧ serviceReconcilePredicate e = true.
Proof.
  unfold service_requests. rewrite elem_of_filter, elem_of_union, !elem_of_dom.
  destruct (service_event (m !! k) (m' !! k)) as [e|] eqn:He; cbn [from_option].
  - split; [intros [Hp _]; by exists e|]. intros (e' & [= <-] & Hp). split; [done|]. unfold service_event in He.
    destruct (m !! k) as [o|]; [by left|]. destruct (m' !! k) as [n|]; [by right|done].
  - split; [by intros [? _]|]. by intros (e & ? & _).
Qed.

(** They are the updates that keep generation and deletion timestamp. *)
Lemma service_missed_elem m m' k :
  k ∈ service_missed m m' ↔ ∃ s s', m !! k = Some s ∧ m' !! k = Some s' ∧ relevant s ≠ relevant s' ∧
    ksGeneration s = ksGeneration s' ∧ ksDeletionTimestamp s = ksDeletionTimestamp s'.
Proof.
  unfold service_missed. rewrite elem_of_filter, elem_of_dom. unfold dropped.
  destruct (m !! k) as [s|]; [|split; [by intros [? _]|by intros (? & ? & ? & _)]].
  destruct (m' !! k) as [s'|]; [|split; [by intros [? _]|by intros (? & ? & _ & ? & _)]].
  rewrite andb_true_iff, negb_true_iff, bool_decide_eq_true, <- not_true_iff_false, service_predicate_correct.
  assert (¬ (ksGeneration s ≠ ksGeneration s' ∨ ksDeletionTimestamp s ≠ ksDeletionTimestamp s') ↔
    ksGeneration s = ksGeneration s' ∧ ksDeletionTimestamp s = ksDeletionTimestamp s') as ->.
  { destruct (decide (ksGeneration s = ksGeneration s')), (decide (ksDeletionTimestamp s = ksDeletionTimestamp s')); tauto. }
  split.
  - intros [[Hp Hr] _]. by exists s, s'.
  - intros (x & x' & [= <-] & [= <-] & Hr & Hp). done.
Qed.

(** A slice that is selected for a Service gives a request for it. *)
Lemma selected_request k es :
  nnName k ≠ "" → slice_selected (nnNamespace k) {[LabelServiceName := nnName k]} es = true →
  k ∈ endpointSliceToServiceRequests (Some es).
Proof.
  intros Hn. unfold slice_selected, endpointSliceToServiceRequests, label. intros Hs. apply andb_true_iff in Hs as [Hns Hl].
  apply bool_decide_eq_true in Hns, Hl.
  assert (esLabels es !! LabelServiceName = Some (nnName k)) as ->.
  { eapply lookup_weaken; [|exact Hl]. apply lookup_singleton_eq. }
  cbn [default]. rewrite bool_decide_eq_false_2 by done. apply list_elem_of_singleton. rewrite Hns. by destruct k.
Qed.

Definition selected (k : NamespacedName) : list EndpointSlice → list EndpointSlice :=
  List.filter (slice_selected (nnNamespace k) {[LabelServiceName := nnName k]}).

#[local] Instance selected_proper k : Proper (Permutation ==> Permutation) (selected k).
Proof. intros l l' Hp. unfold selected. induction Hp; cbn; repeat case_match; eauto using Permutation, perm_trans. Qed.

Lemma selected_skip k es l : slice_selected (nnNamespace k) {[LabelServiceName := nnName k]} es = false → selected k (es :: l) = selected k l.
Proof. intros Hs. unfold selected. cbn [List.filter]. by rewrite Hs. Qed.

(** A change that gives no request for a Service leaves its slices as they are. *)
Lemma slices_unchanged k ch sl sl' :
  nnName k ≠ "" → slice_changed ch sl sl' → k ∉ slice_requests ch → selected k sl ≡ₚ selected k sl'.
Proof.
  intros Hn Hch Hk.
  assert (∀ es, k ∉ endpointSliceToServiceRequests (Some es) → ∀ l, selected k (es :: l) = selected k l) as Hskip.
  { intros es Hes l. apply selected_skip. destruct (slice_selected _ _ es) eqn:E; [|done].
    by apply selected_request in E. }
  destruct ch as [es|old new|es]; cbn [slice_changed slice_requests] in *.
  - cbn in Hk. rewrite Hch, Hskip; done.
  - destruct Hch as (l & -> & -> & [->|Hv]); [done|]. cbn [endpointSliceReconcilePredicate] in Hk.
    rewrite bool_decide_eq_true_2 in Hk by done. rewrite elem_of_app in Hk.
    rewrite !Hskip by tauto. done.
  - cbn in Hk. rewrite Hch, Hskip; done.
Qed.

(** ** The loop *)
Section queue.
Context `{GoSort, FinalizerUtil} {Wc Ec Wp Ep : Type}.
Context (C : Client Wc Ec) `{!ClientSpec C} (P : Provider Wp Ep) `{!ProviderSpec P}.
Context (cfg : Config) (ios_String : IntOrString → string).
Notation world := (World Wc Wp).
Notation stored := (stored C).
Notation held := (held P).
Notation class := (LoadBalancerClass cfg).
Notation slices w := (cs_slices_of (cluster w)).
Implicit Types (w : world) (s : KService) (k : NamespacedName) (c : Wc).

(** The queue holds the requests that wait, those that wait for a delay included.
    [missed] is no state of the program: the Services with a dropped update since they
    were last reconciled without being put back. *)
Record loop : Type := MkLoop { queue : gset NamespacedName; missed : gset NamespacedName; lworld : world }.

(** A request that failed, or asked to be repeated, is put back. *)
Definition requeued {E} (r : result E Result) : bool :=
  match r with Err _ => true | Ok res => 0 <? resRequeueAfter res end.

(** One turn of the worker: the request is taken out, reconciled and possibly put back;
    the changes that the reconciliation made are reported like all others. *)
Definition work k (l : loop) : loop :=
  let '(w, r) := Reconcile C P cfg ios_String k (lworld l) in
  MkLoop ((if requeued r then queue l else queue l ∖ {[k]}) ∪ service_requests (stored (lworld l)) (stored w))
    (if requeued r then missed l else missed l ∖ {[k]}) w.

Definition same_spec s s' : Prop :=
  ksType s' = ksType s ∧ ksLoadBalancerClass s' = ksLoadBalancerClass s ∧ ksPorts s' = ksPorts s.

(** Users and other controllers change Services in the way [allowed] says. *)
Inductive loop_step (allowed : relation (gmap NamespacedName KService)) : loop → loop → Prop :=
| loop_work k l : k ∈ queue l → loop_step allowed l (work k l)
| loop_services c' l : allowed (stored (lworld l)) (cs_services c') → cs_slices_of c' = slices (lworld l) →
    loop_step allowed l (MkLoop (queue l ∪ service_requests (stored (lworld l)) (cs_services c'))
      (missed l ∪ service_missed (stored (lworld l)) (cs_services c')) (set_cluster (lworld l) c'))
| loop_slices c' ch l : cs_services c' = stored (lworld l) → slice_changed ch (slices (lworld l)) (cs_slices_of c') →
    loop_step allowed l (MkLoop (queue l ∪ list_to_set (slice_requests ch)) (missed l) (set_cluster (lworld l) c')).

(** In any way at all *)
Definition anything (m m' : gmap NamespacedName KService) : Prop := True.

(** At the start every Service is reported as created. *)
Definition started w : loop := MkLoop (dom (stored w)) ∅ w.

(** ** A Service that is as it should be *)
Definition published s (a : Addr) : Prop := ∃ i, ksIngress s = [i] ∧ TrimSpace (ingIP i) = AddrString a.

Definition in_order_live s w : Prop :=
  ∃ a, a ∈ IPPool cfg ∧ held w !! serviceRef s = Some (pv_norm (desired ios_String s a (slices w))) ∧ published s a ∧
    serviceFinalizer ∈ ksFinalizers s.

Definition in_order_other s : Prop :=
  serviceFinalizer ∉ ksFinalizers s ∧
  (ksDeletionTimestamp s = None → HasLoadBalancerIngressIPInPool (Some s) (IPPool cfg) = false).

(** A live managed Service is served with the address it publishes; another one has no
    trace of the controller. *)
Definition in_order k w : Prop :=
  ∀ s, stored w !! k = Some s → (live class s → in_order_live s w) ∧ (¬ live class s → in_order_other s).

(** What [in_order] looks at *)
Lemma live_ext s s' : same_spec s s' → ksDeletionTimestamp s' = ksDeletionTimestamp s → live class s' ↔ live class s.
Proof. intros (Ht & Hc & _) Hd. unfold live, isManagedLoadBalancerService. by rewrite Ht, Hc, Hd. Qed.

Lemma desired_ext s s' a sl sl' :
  same_spec s s' → objectKey s' = objectKey s → selected (objectKey s) sl ≡ₚ selected (objectKey s) sl' →
  desired ios_String s' a sl' = desired ios_String s a sl.
Proof.
  intros (Ht & Hc & Hp) Hk Hsel. injection Hk as Hns Hn. unfold desired. rewrite Hns, Hn. unfold selected in Hsel. cbn in Hsel.
  rewrite (Discover_order_independent (Some s) _ _ Hsel).
  destruct s as [ns n g d f ty cl ps i], s' as [ns' n' g' d' f' ty' cl' ps' i']. cbn in *. subst. done.
Qed.

Lemma in_order_transfer k w w' :
  (∀ s', stored w' !! k = Some s' → ∃ s, stored w !! k = Some s ∧ same_spec s s' ∧
     ksDeletionTimestamp s' = ksDeletionTimestamp s ∧ ksIngress s' = ksIngress s ∧
     (serviceFinalizer ∈ ksFinalizers s' ↔ serviceFinalizer ∈ ksFinalizers s)) →
  (∀ r, nn r = k → held w' !! r = held w !! r) → selected k (slices w) ≡ₚ selected k (slices w') →
  in_order k w → in_order k w'.
Proof.
  intros Hst Hh Hsl Hok s' Hs'. destruct (Hst s' Hs') as (s & Hs & Hsp & Hd & Hi & Hf).
  pose proof (cs_keys _ _ _ Hs) as Hk. pose proof (cs_keys _ _ _ Hs') as Hk'.
  destruct (Hok s Hs) as [Hl Hn]. rewrite (live_ext s s') by done. split.
  - intros (a & Ha & He & (i & Hii & Hip) & Hfin)%Hl. exists a. split_and!; [done| |exists i; by rewrite Hi|by apply Hf].
    rewrite Hh by (rewrite objectKey_ref; done). assert (serviceRef s' = serviceRef s) as ->.
    { apply (inj nn). by rewrite !objectKey_ref, Hk, Hk'. }
    rewrite He, (desired_ext s s' a (slices w) (slices w')); [done|done|congruence|by rewrite Hk].
  - intros [H1 H2]%Hn. split; [by rewrite Hf|]. rewrite Hd. unfold HasLoadBalancerIngressIPInPool. by rewrite Hi.
Qed.

(** *** A reconciliation that need not be repeated leaves its Service in order. *)
Lemma other_in_order s w w' r :
  Forall ipv4_wf (IPPool cfg) → stored w !! objectKey s = Some s → ¬ live class s →
  Reconcile C P cfg ios_String (objectKey s) w = (w', Ok r) →
  ∀ s', stored w' !! objectKey s = Some s' → ksDeletionTimestamp s' = ksDeletionTimestamp s → in_order_other s'.
Proof.
  intros Hpool Hs Hl Hr s' Hs' Hd'. destruct (ksDeletionTimestamp s) as [t|] eqn:Hd.
  - split; [|by rewrite Hd']. destruct (decide (serviceFinalizer ∈ ksFinalizers s)) as [Hf|Hf].
    + pose proof (deleting_outcome C P cfg ios_String _ _ _ _ _ Hs ltac:(by rewrite Hd) Hf Hr) as (_ & _ & Hno). by apply Hno.
    + destruct (request_unmanaged C P cfg ios_String _ _ _ Hs Hl _ _ Hr) as [(e & ? & _)|
        (w1 & w2 & r2 & _ & Hs1 & _ & Hs2 & _ & Hrun & _)]; [done|].
      rewrite Hd, bool_decide_eq_true_2 in Hrun by done. unfold reconcileDeletingService in Hrun.
      destruct (hasServiceFinalizer (Some s)) eqn:E; [by apply hasFinalizer_spec in E|]. injection Hrun as <- _.
      rewrite <- Hs2, Hs1 in Hs'. congruence.
  - assert (isManagedLoadBalancerService (Some s) class = false) as Hm.
    { destruct (isManagedLoadBalancerService (Some s) class) eqn:E; [|done]. by destruct Hl. }
    destruct (unmanaged_outcome C P cfg ios_String _ _ _ _ _ Hs Hd Hm Hr) as [_ Hout].
    destruct (hasServiceFinalizer (Some s) || HasLoadBalancerIngressIPInPool (Some s) (IPPool cfg)) eqn:E.
    + destruct Hout as [_ Hout]. destruct (Hout s' Hs') as [Hf Hi]. split; [done|]. intros _. unfold HasLoadBalancerIngressIPInPool.
      by rewrite Hi.
    + destruct Hout as [Hst _]. rewrite Hst in Hs'. assert (s' = s) as -> by congruence.
      apply orb_false_iff in E as [E1 E2]. split; [|done]. rewrite <- hasFinalizer_spec. by rewrite E1.
Qed.

Lemma live_in_order s w w' r :
  Forall ipv4_wf (IPPool cfg) → 0 < RequeueAfter cfg → stored w !! objectKey s = Some s → live class s →
  Reconcile C P cfg ios_String (objectKey s) w = (w', Ok r) → resRequeueAfter r <= 0 →
  ∀ s', stored w' !! objectKey s = Some s' → in_order_live s' w'.
Proof.
  intros Hpool Hreq Hs Hl Hr Hz s' Hs'.
  pose proof (Reconcile_effect C P cfg ios_String (objectKey s) w Hpool) as Hef. rewrite Hr in Hef. cbn [fst] in Hef.
  destruct (Reconcile_ok C P cfg ios_String _ _ _ _ _ Hpool Hs Hl Hr) as [_ [(-> & _)|(-> & a & Ha & _ & Hrun)]]; [cbn in Hz; lia|].
  destruct Hrun as ((es & b & Hes & He) & (x & i & Hx & Heq & Hip & _ & Hf) & _).
  assert (x = s') as -> by congruence. exists a. split_and!; [done| |exists i; by rewrite Heq|done].
  rewrite (ef_slices _ _ _ _ _ _ Hef). unfold Controller.held. rewrite (pv_ensure_ok _ _ _ _ He), (desired_perm _ _ _ _ _ Hes).
  rewrite Heq. apply lookup_insert_eq.
Qed.

Lemma reconciled_in_order k w w' r :
  Forall ipv4_wf (IPPool cfg) → 0 < RequeueAfter cfg →
  Reconcile C P cfg ios_String k w = (w', r) → requeued r = false → in_order k w'.
Proof.
  intros Hpool Hreq Hr Hq s' Hs'. destruct r as [r|e]; [|done]. cbn in Hq.
  pose proof (Reconcile_effect C P cfg ios_String k w Hpool) as Hef. rewrite Hr in Hef. cbn [fst] in Hef.
  destruct (ef_own _ _ _ _ _ _ Hef s' Hs') as (s & Hs & Heq & _). pose proof (cs_keys _ _ _ Hs) as <-.
  assert (same_spec s s' ∧ ksDeletionTimestamp s' = ksDeletionTimestamp s) as [Hsp Hd] by (rewrite Heq; done).
  rewrite (live_ext s s' Hsp Hd). split; intros Hl.
  - eapply live_in_order; try done. lia.
  - by eapply other_in_order.
Qed.

(** *** The invariant of the loop *)
Definition queue_inv (l : loop) : Prop := ∀ k, k ∉ queue l → k ∉ missed l → nnName k ≠ "" → in_order k (lworld l).

Lemma work_inv k l :
  Forall ipv4_wf (IPPool cfg) → 0 < RequeueAfter cfg → k ∈ queue l → queue_inv l → queue_inv (work k l).
Proof.
  intros Hpool Hreq Hk Hq. unfold work. pose proof (Reconcile_effect C P cfg ios_String k (lworld l) Hpool) as Hef.
  destruct (Reconcile C P cfg ios_String k (lworld l)) as [w' r] eqn:Hr. cbn [fst] in *.
  intros k' Hk' Hm' Hn. cbn [queue missed lworld] in *. destruct (decide (k' = k)) as [->|Hne].
  - destruct (requeued r) eqn:Hrq; [set_solver|by eapply reconciled_in_order].
  - apply (in_order_transfer k' (lworld l)); [| | |apply Hq; [destruct (requeued r); set_solver..|done]].
    + intros s' Hs'. rewrite (ef_others _ _ _ _ _ _ Hef) in Hs' by done. by exists s'.
    + intros r' Hr'. apply (ef_held _ _ _ _ _ _ Hef). congruence.
    + by rewrite (ef_slices _ _ _ _ _ _ Hef).
Qed.

(** A Service without an event, or with one that the filter drops and that does not
    matter, is as it was for [in_order]. *)
Lemma quiet_relevant m m' k s' :
  m' !! k = Some s' → k ∉ service_requests m m' → k ∉ service_missed m m' →
  ∃ s, m !! k = Some s ∧ relevant s = relevant s'.
Proof.
  rewrite service_requests_elem. intros Hs' Hev Hm. destruct (m !! k) as [s|] eqn:Hs; [|destruct Hev; exists EvCreate; by rewrite Hs'].
  exists s. split; [done|]. destruct (decide (relevant s = relevant s')) as [|Hr]; [done|]. exfalso.
  assert (s ≠ s') as Hne by congruence.
  assert (serviceReconcilePredicate (EvUpdate (Some s) (Some s')) ≠ true) as Hp.
  { intros Hp. apply Hev. exists (EvUpdate (Some s) (Some s')). rewrite Hs'. cbn [service_event]. by rewrite decide_False. }
  apply Hm. unfold service_missed. rewrite elem_of_filter, elem_of_dom, Hs, Hs'. split; [|by eexists]. cbn [dropped].
  apply not_true_is_false in Hp. rewrite Hp. cbn. by apply bool_decide_eq_true.
Qed.

Lemma services_inv c' l :
  cs_slices_of c' = slices (lworld l) → queue_inv l →
  queue_inv (MkLoop (queue l ∪ service_requests (stored (lworld l)) (cs_services c'))
    (missed l ∪ service_missed (stored (lworld l)) (cs_services c')) (set_cluster (lworld l) c')).
Proof.
  intros Hsl Hq k. cbn [queue missed lworld]. intros [Hk Hev]%not_elem_of_union [Hm Hdr]%not_elem_of_union Hn.
  apply (in_order_transfer k (lworld l)); [|done|cbn; by rewrite Hsl|by apply Hq].
  intros s' Hs'. change (stored (set_cluster (lworld l) c')) with (cs_services c') in Hs'.
  destruct (quiet_relevant _ _ k s' Hs' Hev Hdr) as (s & Hs & Hrel). exists s. split; [done|].
  unfold relevant in Hrel. injection Hrel as Ht Hc Hp Hd Hi Hf.
  assert (serviceFinalizer ∈ ksFinalizers s' ↔ serviceFinalizer ∈ ksFinalizers s) as Hfin.
  { rewrite <- (bool_decide_eq_true (serviceFinalizer ∈ ksFinalizers s')), <- Hf. apply bool_decide_eq_true. }
  unfold same_spec. by rewrite Ht, Hc, Hp, Hd, Hi.
Qed.

Lemma slices_inv c' ch l :
  cs_services c' = stored (lworld l) → slice_changed ch (slices (lworld l)) (cs_slices_of c') → queue_inv l →
  queue_inv (MkLoop (queue l ∪ list_to_set (slice_requests ch)) (missed l) (set_cluster (lworld l) c')).
Proof.
  intros Hs Hch Hq k. cbn [queue missed lworld]. intros [Hk Hr]%not_elem_of_union Hm Hn. rewrite elem_of_list_to_set in Hr.
  apply (in_order_transfer k (lworld l)); [|done| |by apply Hq].
  - intros s' Hs'. change (stored (set_cluster (lworld l) c')) with (cs_services c') in Hs'. rewrite Hs in Hs'. by exists s'.
  - by eapply slices_unchanged.
Qed.

Lemma loop_inv allowed w l :
  Forall ipv4_wf (IPPool cfg) → 0 < RequeueAfter cfg → rtc (loop_step allowed) (started w) l → queue_inv l.
Proof.
  intros Hpool Hreq Hr.
  assert (queue_inv (started w)) as Hi.
  { intros k Hk _ _ s Hs. destruct Hk. cbn. by apply elem_of_dom_2 in Hs. }
  revert Hi. induction Hr as [|l1 l2 l3 Hs _ IH]; [done|]. intros Hi. apply IH. clear IH.
  destruct Hs as [k l Hk|c' l Hch Hsl|c' ch l Hs Hch]; [by apply work_inv|by apply services_inv|by apply slices_inv].
Qed.

(** Where everybody leaves status and finalizer to the controller, the invariant of the
    controller holds too. *)
Lemma loop_user_inv w l :
  Forall ipv4_wf (IPPool cfg) → inv C P cfg w → rtc (loop_step (user_change cfg)) (started w) l → inv C P cfg (lworld l).
Proof.
  intros Hpool Hinv Hr. assert (inv C P cfg (lworld (started w))) as Hi by done.
  revert Hi. induction Hr as [|l1 l2 l3 Hs _ IH]; [done|]. intros Hi. apply IH. clear IH.
  destruct Hs as [k l Hk|c' l Hch Hsl|c' ch l Hs Hch].
  - unfold work. pose proof (Reconcile_inv C P cfg ios_String k (lworld l) Hpool Hi) as Hi'.
    by destruct (Reconcile C P cfg ios_String k (lworld l)).
  - by apply (user_change_inv C P cfg (lworld l) c').
  - assert (stored (set_cluster (lworld l) c') = stored (lworld l)) as Hst by exact Hs.
    unfold inv. cbn [lworld]. by rewrite Hst.
Qed.

(** Nothing is missed where, besides, every change of a specification brings a new
    generation and nobody else adds the finalizer of the controller. *)
Lemma nothing_missed m m' :
  user_change cfg m m' →
  (∀ k s s', m !! k = Some s → m' !! k = Some s' →
    (ksGeneration s = ksGeneration s' → same_spec s s') ∧ (serviceFinalizer ∈ ksFinalizers s' → serviceFinalizer ∈ ksFinalizers s)) →
  service_missed m m' = ∅.
Proof.
  intros [Huser _] Hapi. apply elem_of_equiv_empty_L. intros k (s & s' & Hs & Hs' & Hrel & Hg & Hd)%service_missed_elem.
  destruct (Hapi k s s' Hs Hs') as [Hsp Hf]. destruct (Hsp Hg) as (Ht & Hc & Hp).
  specialize (Huser k s' Hs'). rewrite Hs in Huser. destruct Huser as (Hi & Hf' & _).
  apply Hrel. unfold relevant. rewrite Ht, Hc, Hp, Hi, Hd. f_equal. by apply bool_decide_ext.
Qed.

(** C3. No change is lost but those that keep the generation.  Users and other controllers
    may do anything to Services and EndpointSlices, and any call may fail.  A Service that
    exists and has no request in the queue is in order (if it is live and managed, the provider has
    its definition with the backends of its current EndpointSlices and the address that
    its status publishes; if not, the controller has left no trace on it), unless since
    its last finished reconciliation the filter dropped an update of it that matters; and
    that is an update which changes its specification, status or finalizer but neither
    its generation nor its deletion timestamp.  (What the provider holds for Services
    that are gone is the subject of [reconcile_guarded].) *)
Theorem no_change_lost w l k :
  Forall ipv4_wf (IPPool cfg) → 0 < RequeueAfter cfg → rtc (loop_step anything) (started w) l →
  (k ∉ queue l → k ∉ missed l → nnName k ≠ "" → in_order k (lworld l)) ∧
  ∀ m m', k ∈ service_missed m m' ↔ ∃ s s', m !! k = Some s ∧ m' !! k = Some s' ∧ relevant s ≠ relevant s' ∧
    ksGeneration s = ksGeneration s' ∧ ksDeletionTimestamp s = ksDeletionTimestamp s'.
Proof.
  intros Hpool Hreq Hr. split; [|intros m m'; apply service_missed_elem].
  intros Hk Hm Hn. by apply (loop_inv anything w l).
Qed.

Lemma published_inj s a b : ipv4_wf a → ipv4_wf b → published s a → published s b → a = b.
Proof.
  intros [? ?] [? ?] (i & Hi & Ea) (j & Hj & Eb). rewrite Hi in Hj. injection Hj as ->. rewrite Ea in Eb.
  by apply AddrString_inj.
Qed.

(** C6. A controller that has nothing to do has done its work.  When everybody else leaves
    the statuses and the finalizer to the controller ([user_change]), the queue is empty
    and no update that matters was dropped by the filter, the provider holds exactly the
    live managed Services, each as it is wanted with the address of the pool that it
    publishes, and no two live managed Services publish the same. *)
Theorem idle_exact w l :
  Forall ipv4_wf (IPPool cfg) → 0 < RequeueAfter cfg → inv C P cfg w → rtc (loop_step (user_change cfg)) (started w) l →
  queue l = ∅ → missed l = ∅ → (∀ k s, stored (lworld l) !! k = Some s → ksName s ≠ "") →
  (∀ r x, held (lworld l) !! r = Some x ↔
     ∃ s a, stored (lworld l) !! nn r = Some s ∧ live class s ∧ a ∈ IPPool cfg ∧ published s a ∧
       x = pv_norm (desired ios_String s a (slices (lworld l)))) ∧
  unique_ips class (IPPool cfg) (stored (lworld l)).
Proof.
  intros Hpool Hreq Hinv Hr Hempty Hmissed Hnames. destruct (loop_user_inv w l Hpool Hinv Hr) as [Hg Hu].
  assert (∀ k s, stored (lworld l) !! k = Some s →
    (live class s → in_order_live s (lworld l)) ∧ (¬ live class s → in_order_other s)) as Hord.
  { intros k s Hs. apply (loop_inv _ w l Hpool Hreq Hr k); [rewrite Hempty; set_solver|rewrite Hmissed; set_solver| |done].
    rewrite <- (cs_keys _ _ _ Hs). by apply (Hnames k). }
  split; [|done]. rewrite Forall_forall in Hpool. intros r x.
  assert (∀ s, stored (lworld l) !! nn r = Some s → serviceRef s = r) as Href.
  { intros s Hs. apply (inj nn). rewrite objectKey_ref. by eapply cs_keys. }
  split.
  - intros Hx. destruct (Hg r x Hx) as (s & Hs & Hf). destruct (Hord _ _ Hs) as [Hl Hn].
    destruct (decide (live class s)) as [L|L]; [|by destruct (Hn L)]. destruct (Hl L) as (a & Ha & He & Hp & _).
    rewrite (Href s Hs) in He. exists s, a. split_and!; [done..|]. congruence.
  - intros (s & a & Hs & L & Ha & Hp & ->). destruct (Hord _ _ Hs) as [Hl _]. destruct (Hl L) as (b & Hb & He & Hpb & _).
    rewrite (Href s Hs) in He. by rewrite (published_inj s a b) by auto.
Qed.
End queue.
