(* ===== verification/HTTPApi.v ===== *)
(** * The dataplane's HTTP API (internal/dataplane/http.go)

    The handler of one request: the routes, the decoding of a path and of a JSON body
    into a Service, and the calls of the engine.  A response carries the headers the
    code sets.  The texts of errors made by other packages are a parameter. *)
From S2P Require Import Prelude GoStrings GoSort NetIP GoURL GoJSON Provider IPAM Store Render ExternalIPs Engine FilePath.
Local Open Scope Z_scope.

Definition MethodGet : string := "GET".
Definition MethodPut : string := "PUT".
Definition MethodDelete : string := "DELETE".

Definition StatusOK : Z := 200.
Definition StatusBadRequest : Z := 400.
Definition StatusNotFound : Z := 404.
Definition StatusMethodNotAllowed : Z := 405.
Definition StatusInternalServerError : Z := 500.
Definition StatusServiceUnavailable : Z := 503.

(** ** Requests and responses *)

(** How the body of a request ends: at its end, at the limit of the reader, or with a
    failed read *)
Inductive stream_end : Type := EndEOF | EndTooLarge | EndFailed.

Record Request : Type := MkRequest {
  rqMethod : string;
  rqURL : URL;
  rqBody : list ascii;
  rqBodyEnd : stream_end;
}.

Record Response : Type := MkResponse {
  rsStatus : Z;
  rsHeader : list (string * string);
  rsBody : list ascii;
}.

Inductive RequestError : Type :=
| ErrPathShape
| ErrDecodeNamespace (segment : string)
| ErrDecodeName (segment : string)
| ErrPathEmpty
| ErrBodyTooLarge (limit : Z)
| ErrDecodeBody (body : list ascii)
| ErrNotOneObject
| ErrNamespaceMismatch
| ErrNameMismatch
| ErrServiceInvalid (e : ValidateError).

(** ** [writeJSON] and its callers *)
Definition nl : ascii := zb 10.

Definition writeJSON (statusCode : Z) (header : list (string * string)) (payload : json) : Response :=
  MkResponse statusCode (header ++ [("Content-Type", "application/json")]) (encode payload ++ [nl]).

(** [changedResponse] and [errorResponse] *)
Definition changedResponse (changed : bool) : json := JObj [(bytes "changed", JBool changed)].
Definition errorResponse (message : string) : json := JObj [(bytes "error", JStr (bytes message))].

Definition writeJSONError (statusCode : Z) (header : list (string * string)) (message : string) : Response :=
  writeJSON statusCode header (errorResponse message).

Definition writeMethodNotAllowed (methods : list string) : Response :=
  writeJSONError StatusMethodNotAllowed [("Allow", String.concat ", " methods)] "method not allowed".

(** ** The path *)
Definition serviceRefFromPath (requestPath : string) : result RequestError ServiceRef :=
  match Split (Trim requestPath slash) slash with
  | [services; seg1; seg2] =>
    if bool_decide (services ≠ "services") then Err ErrPathShape else
    match PathUnescape seg1 with
    | None => Err (ErrDecodeNamespace seg1)
    | Some namespace =>
      match PathUnescape seg2 with
      | None => Err (ErrDecodeName seg2)
      | Some name =>
        if bool_decide (namespace = "") || bool_decide (name = "") then Err ErrPathEmpty
        else Ok (MkRef namespace name)
      end
    end
  | _ => Err ErrPathShape
  end.

(** ** The body *)

(** The structs of [provider.Service] while they are decoded into: their slices keep
    what earlier values of the same key left behind. *)
Record PortState : Type := MkPortState {
  psName : string;
  psProtocol : string;
  psPort : Z;
  psTargetPort : string;
  psBackends : Slice BackendEndpoint;
}.

Record ServiceState : Type := MkServiceState {
  ssNamespace : string;
  ssName : string;
  ssLoadBalancerClass : string;
  ssExternalIP : string;
  ssPorts : Slice PortState;
}.

Definition port_of (p : PortState) : ServicePort :=
  MkPort (psName p) (psProtocol p) (psPort p) (psTargetPort p) (slice_elems (psBackends p)).

Definition service_of (s : ServiceState) : Service :=
  MkService (ssNamespace s) (ssName s) (ssLoadBalancerClass s) (ssExternalIP s) (port_of <$> slice_elems (ssPorts s)).

Definition zeroBackend : BackendEndpoint := MkBackend "" 0.
Definition zeroPort : PortState := MkPortState "" "" 0 "" slice_nil.
Definition zeroService : ServiceState := MkServiceState "" "" "" "" slice_nil.

(** The fields have no JSON names of their own: the names are those of the structs. *)
Definition backend_fields : fields_of BackendEndpoint :=
  [("Address", λ v b, x ← storeString v (beAddress b); Some (MkBackend x (bePort b)));
   ("Port", λ v b, x ← storeInt32 v (bePort b); Some (MkBackend (beAddress b) x))].

Definition storeBackend : json → BackendEndpoint → option BackendEndpoint := storeStruct true backend_fields.

Definition port_fields : fields_of PortState :=
  [("Name", λ v p, x ← storeString v (psName p);
      Some (MkPortState x (psProtocol p) (psPort p) (psTargetPort p) (psBackends p)));
   ("Protocol", λ v p, x ← storeString v (psProtocol p);
      Some (MkPortState (psName p) x (psPort p) (psTargetPort p) (psBackends p)));
   ("Port", λ v p, x ← storeInt32 v (psPort p);
      Some (MkPortState (psName p) (psProtocol p) x (psTargetPort p) (psBackends p)));
   ("TargetPort", λ v p, x ← storeString v (psTargetPort p);
      Some (MkPortState (psName p) (psProtocol p) (psPort p) x (psBackends p)));
   ("Backends", λ v p, x ← storeSlice storeBackend zeroBackend v (psBackends p);
      Some (MkPortState (psName p) (psProtocol p) (psPort p) (psTargetPort p) x))].

Definition storePort : json → PortState → option PortState := storeStruct true port_fields.

Definition service_fields : fields_of ServiceState :=
  [("Namespace", λ v s, x ← storeString v (ssNamespace s);
      Some (MkServiceState x (ssName s) (ssLoadBalancerClass s) (ssExternalIP s) (ssPorts s)));
   ("Name", λ v s, x ← storeString v (ssName s);
      Some (MkServiceState (ssNamespace s) x (ssLoadBalancerClass s) (ssExternalIP s) (ssPorts s)));
   ("LoadBalancerClass", λ v s, x ← storeString v (ssLoadBalancerClass s);
      Some (MkServiceState (ssNamespace s) (ssName s) x (ssExternalIP s) (ssPorts s)));
   ("ExternalIP", λ v s, x ← storeString v (ssExternalIP s);
      Some (MkServiceState (ssNamespace s) (ssName s) (ssLoadBalancerClass s) x (ssPorts s)));
   ("Ports", λ v s, x ← storeSlice storePort zeroPort v (ssPorts s);
      Some (MkServiceState (ssNamespace s) (ssName s) (ssLoadBalancerClass s) (ssExternalIP s) x))].

Definition storeService : json → ServiceState → option ServiceState := storeStruct true service_fields.

(** [http.MaxBytesReader]: what can be read of the body *)
Definition MaxBytesReader (limit : Z) (body : list ascii) (e : stream_end) : list ascii * stream_end :=
  if limit <? Z.of_nat (length body) then (take (Z.to_nat limit) body, EndTooLarge) else (body, e).

(** [Decoder.readValue]: a value that is neither an object nor an array ends with the
    byte after it, or with the end of the text. *)
Inductive read_value : Type :=
| RdValue (v : json) (rest : list ascii)
| RdSyntax
| RdEnd (e : stream_end).

Definition needs_next (v : json) : bool := match v with JArr _ | JObj _ => false | _ => true end.

Definition readValue (text : list ascii) (e : stream_end) : read_value :=
  match scan text with
  | POk v rest =>
    match needs_next v, rest, e with
    | true, [], EndTooLarge | true, [], EndFailed => RdEnd e
    | _, _, _ => RdValue v rest
    end
  | PBad => RdSyntax
  | PShort => RdEnd e
  end.

Definition decodeServiceRequest (body : list ascii) (bodyEnd : stream_end) (maxRequestBodyBytes : Z) :
    result RequestError Service :=
  let '(text, textEnd) := MaxBytesReader maxRequestBodyBytes body bodyEnd in
  match readValue text textEnd with
  | RdEnd EndTooLarge => Err (ErrBodyTooLarge maxRequestBodyBytes)
  | RdEnd _ | RdSyntax => Err (ErrDecodeBody body)
  | RdValue v rest =>
    match storeService v zeroService with
    | None => Err (ErrDecodeBody body)
    | Some service =>
      match readValue rest textEnd with
      | RdEnd EndEOF => if bool_decide (skip_ws rest = []) then Ok (service_of service) else Err ErrNotOneObject
      | _ => Err ErrNotOneObject
      end
    end
  end.

(** ** The handler *)
Definition DefaultMaxRequestBodyBytes : Z := Z.shiftl 1 20.

Record HandlerConfig : Type := MkHandlerConfig { MaxRequestBodyBytes : Z }.

Record Handler (W : Type) : Type := MkHandler {
  hEngine : Engine W;
  hMaxRequestBodyBytes : Z;
  hReady : bool;
}.
Global Arguments MkHandler {W} _ _ _.
Global Arguments hEngine {W} _.
Global Arguments hMaxRequestBodyBytes {W} _.
Global Arguments hReady {W} _.

Definition NewHandler {W} (engine : Engine W) (cfg : HandlerConfig) : Handler W :=
  MkHandler engine
    (if MaxRequestBodyBytes cfg <=? 0 then DefaultMaxRequestBodyBytes else MaxRequestBodyBytes cfg) true.

Definition with_engine {W} (h : Handler W) (e : Engine W) : Handler W :=
  MkHandler e (hMaxRequestBodyBytes h) (hReady h).

Definition plainOK : Response := MkResponse StatusOK [] (bytes "ok").

Definition handleHealthz (r : Request) : Response :=
  if bool_decide (rqMethod r ≠ MethodGet) then writeMethodNotAllowed [MethodGet] else plainOK.

Definition handleReadyz {W} (h : Handler W) (r : Request) : Response :=
  if bool_decide (rqMethod r ≠ MethodGet) then writeMethodNotAllowed [MethodGet] else
  if negb (hReady h) then writeJSONError StatusServiceUnavailable [] "server not ready" else plainOK.

(** The routes of the handler's [ServeMux] *)
Inductive route : Type := RouteHealthz | RouteReadyz | RouteServices.

(** [pathUnescape] of the mux: an invalid escape is left as it is *)
Definition muxUnescape (segment : string) : string := default segment (PathUnescape segment).

(** The pattern that matches an escaped path; [/services/] matches everything below. *)
Definition mux_match (path : string) : option route :=
  match muxUnescape <$> Split (TrimPrefix path "/") slash with
  | [seg] =>
    if bool_decide (seg = "healthz") then Some RouteHealthz else
    if bool_decide (seg = "readyz") then Some RouteReadyz else
    if bool_decide (seg = "services") then Some RouteServices else None
  | seg :: _ => if bool_decide (seg = "services") then Some RouteServices else None
  | [] => None
  end.

(** [cleanPath] *)
Definition cleanPath (p : string) : string :=
  if bool_decide (p = "") then "/" else
  let p := if HasPrefix p "/" then p else "/" +:+ p in
  let np := Clean p in
  if bool_decide (last (bytes p) = Some slash) && bool_decide (np ≠ "/") then np +:+ "/" else np.

Inductive mux_result : Type :=
| MuxBadRequest
| MuxRedirect (location : string)
| MuxNotFound
| MuxRoute (r : route).

(** [ServeMux.ServeHTTP]: the path of a request other than CONNECT is cleaned first.
    None of the patterns calls for the redirect that adds a trailing slash. *)
Definition mux_find (r : Request) : mux_result :=
  let escapedPath := EscapedPath (rqURL r) in
  if bool_decide (urlPath (rqURL r) = "*") then MuxBadRequest else
  let path := if bool_decide (rqMethod r = "CONNECT") then escapedPath else cleanPath escapedPath in
  if bool_decide (path ≠ escapedPath)
  then MuxRedirect (URLString (MkURL "" "" None "" path "" false false (urlRawQuery (rqURL r)) "" ""))
  else match mux_match path with Some rt => MuxRoute rt | None => MuxNotFound end.

Definition notFoundResponse : Response :=
  MkResponse StatusNotFound [("Content-Type", "text/plain; charset=utf-8"); ("X-Content-Type-Options", "nosniff")]
    (bytes "404 page not found" ++ [nl]).

Section handler.
Context `{GoSort, UnicodeCase} {W E : Type}.
Variable applier : ConfigApplier W E.
Variable ipm : ExternalIPManager W E.
(** What [net/url], [encoding/json] and [ValidateService] say of an error *)
Variable detail : RequestError → string.
(** net/http's redirect to a location *)
Variable redirect : Request → string → Response.

(** The text of an error *)
Definition message (e : RequestError) : string :=
  match e with
  | ErrPathShape => "path must match /services/{namespace}/{name}"
  | ErrDecodeNamespace _ => "decode namespace: " +:+ detail e
  | ErrDecodeName _ => "decode name: " +:+ detail e
  | ErrPathEmpty => "path must include namespace and name"
  | ErrBodyTooLarge limit => "request body exceeds " +:+ itoa limit +:+ " bytes"
  | ErrDecodeBody _ => "decode request body: " +:+ detail e
  | ErrNotOneObject => "request body must contain exactly one JSON object"
  | ErrNamespaceMismatch => "request body namespace does not match request path"
  | ErrNameMismatch => "request body name does not match request path"
  | ErrServiceInvalid _ => detail e
  end.

Definition badRequest (e : RequestError) : Response := writeJSONError StatusBadRequest [] (message e).

(** The response to what the engine returned *)
Definition engineResponse (res : result (EngineError E) bool) : Response :=
  match res with
  | Err _ => writeJSONError StatusInternalServerError [] "failed to apply desired state"
  | Ok changed => writeJSON StatusOK [] (changedResponse changed)
  end.

Definition handleEnsureService (r : Request) (ref : ServiceRef) (h : Handler W) : Handler W * Response :=
  match decodeServiceRequest (rqBody r) (rqBodyEnd r) (hMaxRequestBodyBytes h) with
  | Err e => (h, badRequest e)
  | Ok service =>
    if bool_decide (svcNamespace service ≠ "") && bool_decide (svcNamespace service ≠ refNamespace ref)
    then (h, badRequest ErrNamespaceMismatch) else
    if bool_decide (svcName service ≠ "") && bool_decide (svcName service ≠ refName ref)
    then (h, badRequest ErrNameMismatch) else
    let service := MkService (refNamespace ref) (refName ref) (svcLoadBalancerClass service)
                     (svcExternalIP service) (svcPorts service) in
    match ValidateService (normalizeService service) with
    | Err e => (h, badRequest (ErrServiceInvalid e))
    | Ok _ =>
      let '(e, res) := EngineEnsure applier ipm service (hEngine h) in
      (with_engine h e, engineResponse res)
    end
  end.

Definition handleDeleteService (ref : ServiceRef) (h : Handler W) : Handler W * Response :=
  let '(e, res) := EngineDelete applier ipm ref (hEngine h) in
  (with_engine h e, engineResponse res).

Definition handleServices (r : Request) (h : Handler W) : Handler W * Response :=
  match serviceRefFromPath (urlPath (rqURL r)) with
  | Err e => (h, badRequest e)
  | Ok ref =>
    if bool_decide (rqMethod r = MethodPut) then handleEnsureService r ref h else
    if bool_decide (rqMethod r = MethodDelete) then handleDeleteService ref h else
    (h, writeMethodNotAllowed [MethodPut; MethodDelete])
  end.

(** One request to the handler [NewHandler] returns *)
Definition ServeHTTP (r : Request) (h : Handler W) : Handler W * Response :=
  match mux_find r with
  | MuxBadRequest => (h, MkResponse StatusBadRequest [] [])
  | MuxRedirect location => (h, redirect r location)
  | MuxNotFound => (h, notFoundResponse)
  | MuxRoute RouteHealthz => (h, handleHealthz r)
  | MuxRoute RouteReadyz => (h, handleReadyz h r)
  | MuxRoute RouteServices => handleServices r h
  end.
End handler.

(** ** What a decoded Service holds *)
Definition int32 (z : Z) : Prop := - 2 ^ 31 <= z < 2 ^ 31.

(** The integers of the Go structs are 32-bit. *)
Definition backend_int32 (b : BackendEndpoint) : Prop := int32 (bePort b).
Definition port_int32 (p : ServicePort) : Prop := int32 (portPort p) ∧ Forall backend_int32 (portBackends p).
Definition service_int32 (s : Service) : Prop := Forall port_int32 (svcPorts s).

(** ** The body *)
Lemma readValue_end text e e' : readValue text e = RdEnd e' → e' = e.
Proof.
  unfold readValue. destruct (scan text) as [v [|c rest]| |]; [destruct (needs_next v), e| |done|]; try done; try congruence.
  destruct (needs_next v), e; done.
Qed.

Lemma readValue_eof text :
  readValue text EndEOF = match scan text with POk v rest => RdValue v rest | PBad => RdSyntax | PShort => RdEnd EndEOF end.
Proof. unfold readValue. destruct (scan text) as [v [|c rest]| |]; try done; by destruct (needs_next v). Qed.

Lemma scan_space rest : skip_ws rest = [] → scan rest = PShort.
Proof. intros Hr. unfold scan. rewrite Nat.add_1_r. cbn [scan_value]. by rewrite Hr. Qed.

Lemma decode_request_spec body e limit s :
  decodeServiceRequest body e limit = Ok s ↔
  Z.of_nat (length body) <= limit ∧ e = EndEOF ∧
  service_of <$> (v ← check_valid body; storeService v zeroService) = Some s.
Proof.
  unfold decodeServiceRequest, MaxBytesReader, check_valid. split.
  - intros Hd.
    assert (Z.of_nat (length body) <= limit ∧ e = EndEOF) as [Hl ->].
    { destruct (limit <? Z.of_nat (length body)) eqn:El.
      - destruct (readValue (take _ body) EndTooLarge) as [v rest| |[]]; try done.
        destruct (storeService v zeroService); [|done].
        destruct (readValue rest EndTooLarge) as [| |[]] eqn:Er; try done. by apply readValue_end in Er.
      - split; [lia|]. destruct (readValue body e) as [v rest| |[]]; try done.
        destruct (storeService v zeroService); [|done].
        destruct (readValue rest e) as [| |[]] eqn:Er; try done. by apply readValue_end in Er. }
    destruct (limit <? Z.of_nat (length body)) eqn:El; [lia|]. rewrite readValue_eof in Hd.
    destruct (scan body) as [v rest| |]; [|done..]. destruct (storeService v zeroService) as [st|] eqn:Es; [|done].
    destruct (readValue rest EndEOF) as [| |[]]; try done. case_bool_decide as Hr; [|done]. injection Hd as <-.
    rewrite Hr. cbn [mbind option_bind]. by rewrite Es.
  - intros (Hl & -> & Hd). destruct (limit <? Z.of_nat (length body)) eqn:El; [lia|].
    rewrite readValue_eof. destruct (scan body) as [v rest| |]; [|done..].
    destruct (skip_ws rest) as [|c k] eqn:Hr; [|done]. cbn [mbind option_bind] in Hd.
    destruct (storeService v zeroService) as [st|]; [|done]. injection Hd as <-.
    rewrite readValue_eof, scan_space by done. by rewrite bool_decide_eq_true_2.
Qed.

(** C31. Decoding a request body from the limited stream is the same as decoding the
    whole document at once with unknown fields rejected: it succeeds exactly when the
    body is within the limit, was read to its end, and is one JSON value followed by
    space alone that fits the Service. *)
Theorem decodeServiceRequest_correct body e limit s :
  decodeServiceRequest body e limit = Ok s ↔
  Z.of_nat (length body) <= limit ∧ e = EndEOF ∧
  service_of <$> (v ← check_valid body; storeService v zeroService) = Some s.
Proof. apply decode_request_spec. Qed.

(** ** The path *)

(** A segment that needs no decoding *)
Definition plain_segment (s : string) : Prop := s ≠ "" ∧ slash ∉ bytes s ∧ "%"%char ∉ bytes s.

Lemma Trim_slash s l c :
  bytes s = slash :: l → head l ≠ Some slash → last l = Some c → c ≠ slash → Trim s slash = of_bytes l.
Proof.
  intros Hs Hh Hl Hc. unfold Trim. rewrite Hs. cbn [drop_while]. rewrite bool_decide_eq_true_2 by done.
  assert (drop_while (λ c, bool_decide (c = slash)) l = l) as ->.
  { destruct l as [|x l]; [done|]. apply drop_while_head. apply bool_decide_eq_false. intros ->. by apply Hh. }
  f_equal. apply last_Some in Hl as [k ->]. rewrite reverse_snoc, drop_while_head; [|by apply bool_decide_eq_false].
  by rewrite reverse_cons, reverse_involutive.
Qed.

Definition servicePath (ref : ServiceRef) : string := "/services/" +:+ refNamespace ref +:+ "/" +:+ refName ref.

Lemma servicePath_ref ref :
  plain_segment (refNamespace ref) → plain_segment (refName ref) →
  serviceRefFromPath (servicePath ref) = Ok ref.
Proof.
  intros (Hn1 & Hn2 & Hn3) (Hm1 & Hm2 & Hm3). destruct ref as [ns name]. cbn [refNamespace refName] in *.
  unfold serviceRefFromPath, servicePath. cbn [refNamespace refName].
  assert (∃ c, last (bytes name) = Some c ∧ c ≠ slash) as (c & Hc & Hcs).
  { destruct (last (bytes name)) as [c|] eqn:E; [|by apply last_None, bytes_nil in E].
    exists c. split; [done|]. intros ->. apply Hm2. by apply last_Some_elem_of in E. }
  rewrite (Trim_slash _ (bytes ("services/" +:+ ns +:+ "/" +:+ name)) c); [|done|done| |done].
  2:{ rewrite !bytes_app, app_assoc, app_assoc, last_app. by rewrite Hc. }
  rewrite of_bytes_bytes.
  change ("services/" +:+ ns +:+ "/" +:+ name) with ("services" +:+ String slash (ns +:+ String slash name)).
  rewrite Split_sep by (vm_compute; set_solver). rewrite Split_sep by done. rewrite Split_last by done.
  rewrite bool_decide_eq_false_2 by tauto. rewrite !PathUnescape_plain by done.
  by rewrite !bool_decide_eq_false_2.
Qed.

(** The names Kubernetes allows are made of these bytes. *)
Definition name_byte (c : ascii) : bool := is_alnum c || one_of c "-._".
Definition name_ok (s : string) : Prop := s ≠ "" ∧ s ≠ "." ∧ s ≠ ".." ∧ forallb name_byte (bytes s) = true.
Definition ref_ok (ref : ServiceRef) : Prop := name_ok (refNamespace ref) ∧ name_ok (refName ref).

Lemma name_byte_plain c :
  name_byte c = true → c ≠ slash ∧ c ≠ "%"%char ∧ c ≠ "?"%char ∧ shouldEscape c encodePath = false.
Proof. destruct c as [[] [] [] [] [] [] [] []]; first [discriminate|done]. Qed.

Lemma name_ok_plain s : name_ok s → plain_segment s ∧ clean_elem s.
Proof.
  intros (H1 & H2 & H3 & H4). rewrite forallb_spec in H4. unfold plain_segment, clean_elem.
  assert (slash ∉ bytes s) by (intros Hc; apply H4, name_byte_plain in Hc; naive_solver).
  split_and!; try done. intros Hc. apply H4, name_byte_plain in Hc. naive_solver.
Qed.

Lemma servicePath_elems ref :
  servicePath ref = "/" +:+ String.concat "/" ["services"; refNamespace ref; refName ref].
Proof. done. Qed.

Lemma servicePath_clean ref : ref_ok ref → Clean (servicePath ref) = servicePath ref.
Proof.
  intros [Hn Hm]. rewrite servicePath_elems, Clean_elems; [|done|].
  - destruct Hn as [Hn _], Hm as [Hm _]. rewrite !filter_cons_True by done. done.
  - apply name_ok_plain in Hn as [_ Hn], Hm as [_ Hm].
    repeat apply Forall_cons_2; try (done || apply Forall_nil_2). split_and!; [done..|]. vm_compute. set_solver.
Qed.

(** The bytes of a path of names need no escapes. *)
Lemma servicePath_escape ref : ref_ok ref → escape (servicePath ref) encodePath = servicePath ref.
Proof.
  intros [(_ & _ & _ & Hn) (_ & _ & _ & Hm)]. apply (inj bytes). rewrite bytes_escape.
  assert (∀ l, (∀ c, c ∈ l → shouldEscape c encodePath = false) → l ≫= escape_byte encodePath = l) as Hplain.
  { induction l as [|c l IH]; intros Hl; [done|]. cbn [mbind list_bind]. unfold escape_byte at 1.
    rewrite Hl by by left. cbn [app]. f_equal. apply IH. intros d Hd. apply Hl. by right. }
  apply Hplain. intros c Hc. unfold servicePath in Hc. rewrite !bytes_app, !elem_of_app in Hc.
  rewrite forallb_spec in Hn, Hm. destruct Hc as [Hc|[Hc|[Hc|Hc]]].
  - repeat (apply elem_of_cons in Hc as [->|Hc]; [done|]). by apply not_elem_of_nil in Hc.
  - by apply Hn, name_byte_plain in Hc as (_ & _ & _ & ?).
  - apply elem_of_cons in Hc as [->|Hc]; [done|]. by apply not_elem_of_nil in Hc.
  - by apply Hm, name_byte_plain in Hc as (_ & _ & _ & ?).
Qed.

(** The path of a Service is routed to the Services handler. *)
Lemma service_route r ref :
  ref_ok ref → urlPath (rqURL r) = servicePath ref → EscapedPath (rqURL r) = servicePath ref →
  mux_find r = MuxRoute RouteServices.
Proof.
  intros Href Hp He. unfold mux_find. rewrite Hp, He. rewrite bool_decide_eq_false_2 by done.
  assert (cleanPath (servicePath ref) = servicePath ref) as Hclean.
  { unfold cleanPath. rewrite bool_decide_eq_false_2 by done.
    assert (HasPrefix (servicePath ref) "/" = true) as -> by done. rewrite servicePath_clean by done.
    destruct (bool_decide (last (bytes (servicePath ref)) = Some slash)) eqn:E; [|done]. exfalso.
    apply bool_decide_eq_true in E. destruct Href as [_ Hm]. apply name_ok_plain in Hm as [(Hne & Hs & _) _].
    unfold servicePath in E. rewrite !bytes_app, !last_app in E.
    destruct (last (bytes (refName ref))) as [c|] eqn:El; [|by apply last_None, bytes_nil in El].
    injection E as ->. by apply last_Some_elem_of in El. }
  rewrite Hclean. assert ((if bool_decide (rqMethod r = "CONNECT") then servicePath ref else servicePath ref) = servicePath ref)
    as -> by by case_bool_decide.
  rewrite bool_decide_eq_false_2 by tauto.
  destruct Href as [Hn Hm]. apply name_ok_plain in Hn as [(_ & Hn & _) _], Hm as [(_ & Hm & _) _].
  assert (mux_match (servicePath ref) = Some RouteServices) as ->; [|done].
  unfold mux_match. assert (TrimPrefix (servicePath ref) "/" = String.concat "/" ["services"; refNamespace ref; refName ref]) as ->.
  { rewrite servicePath_elems. unfold TrimPrefix. assert (∀ s, HasPrefix ("/" +:+ s) "/" = true) as -> by by intros [].
    rewrite bytes_app. cbn [drop bytes String.length app String.list_ascii_of_string]. by rewrite drop_0, of_bytes_bytes. }
  rewrite Split_concat; [done|done|].
  repeat apply Forall_cons_2; try (done || apply Forall_nil_2). vm_compute. set_solver.
Qed.

(** ** The handler and the engine *)
Inductive ApiCall : Type :=
| CallEnsure (service : Service)
| CallDelete (ref : ServiceRef).

(** The requests that reach the engine, and what they ask of it *)
Inductive accepts (limit : Z) (r : Request) : ApiCall → Prop :=
| accepts_ensure ref body :
    mux_find r = MuxRoute RouteServices → serviceRefFromPath (urlPath (rqURL r)) = Ok ref →
    rqMethod r = MethodPut → decodeServiceRequest (rqBody r) (rqBodyEnd r) limit = Ok body →
    svcNamespace body ∈ [""; refNamespace ref] → svcName body ∈ [""; refName ref] →
    accepts limit r (CallEnsure
      (MkService (refNamespace ref) (refName ref) (svcLoadBalancerClass body) (svcExternalIP body) (svcPorts body)))
| accepts_delete ref :
    mux_find r = MuxRoute RouteServices → serviceRefFromPath (urlPath (rqURL r)) = Ok ref →
    rqMethod r = MethodDelete → accepts limit r (CallDelete ref).

(** The engine reports an invalid Service only when validation fails. *)
Lemma attach_loop_not_invalid {W E} (M : ExternalIPManager W E) na l w e :
  (attach_loop M na l w).2 ≠ Err (ErrInvalid e).
Proof.
  revert na w. induction l as [|a l IH]; intros na w; cbn [attach_loop]; [done|].
  destruct (ipm_EnsurePresent M a w) as [w1 [b|err]]; [apply IH|].
  by destruct (rollbackAttachedExternalIPs M na w1).
Qed.

Lemma detach_loop_not_invalid {W E} (M : ExternalIPManager W E) c l w e :
  (detach_loop M c l w).2 ≠ Err (ErrInvalid e).
Proof.
  revert c w. induction l as [|a l IH]; intros c w; cbn [detach_loop]; [done|].
  destruct (ipm_EnsureAbsent M a w) as [w1 [b|err]]; [apply IH|done].
Qed.

Lemma reconcile_not_invalid `{GoSort, UnicodeCase} {W E} (A : ConfigApplier W E) (M : ExternalIPManager W E) eng st e :
  (reconcileLocked A M eng st).2 ≠ Err (ErrInvalid e).
Proof.
  unfold reconcileLocked. destruct (ipm_List M (host eng)) as [w [cur|err]]; [|done].
  destruct (desiredExternalIPs _) as [des|err]; [|done].
  pose proof (attach_loop_not_invalid M [] (diffExternalIPs des cur) w e) as Ha.
  destruct (attach_loop M [] _ w) as [w1 [na|err]]; [|naive_solver].
  destruct (ca_Apply A _ w1) as [w2 [b|err]]; [|by destruct (rollbackAttachedExternalIPs M na w2)].
  pose proof (detach_loop_not_invalid M (b || (0 <? Z.of_nat (length na))) (diffExternalIPs cur des) w2 e) as Hd.
  by destruct (detach_loop M _ _ w2).
Qed.

Definition valid_call `{GoSort} (c : ApiCall) : bool :=
  match c with
  | CallEnsure service => is_Ok (ValidateService (normalizeService service))
  | CallDelete _ => true
  end.

(** Whether a request reaches the engine is decidable. *)
Definition api_call (limit : Z) (r : Request) : option ApiCall :=
  match mux_find r, serviceRefFromPath (urlPath (rqURL r)) with
  | MuxRoute RouteServices, Ok ref =>
    if bool_decide (rqMethod r = MethodPut) then
      match decodeServiceRequest (rqBody r) (rqBodyEnd r) limit with
      | Ok body =>
        if bool_decide (svcNamespace body ∈ [""; refNamespace ref] ∧ svcName body ∈ [""; refName ref])
        then Some (CallEnsure (MkService (refNamespace ref) (refName ref) (svcLoadBalancerClass body)
                                 (svcExternalIP body) (svcPorts body)))
        else None
      | Err _ => None
      end
    else if bool_decide (rqMethod r = MethodDelete) then Some (CallDelete ref) else None
  | _, _ => None
  end.

Lemma api_call_spec limit r c : api_call limit r = Some c ↔ accepts limit r c.
Proof.
  unfold api_call. split.
  - destruct (mux_find r) as [| | |[]] eqn:Hm; try done. destruct (serviceRefFromPath _) as [ref|] eqn:Hp; [|done].
    case_bool_decide as Hput; [|case_bool_decide; [intros [= <-]; by constructor|done]].
    destruct (decodeServiceRequest _ _ _) as [body|] eqn:Hd; [|done]. case_bool_decide as Hb; [|done].
    intros [= <-]. by econstructor; naive_solver.
  - intros [ref body Hm Hp Hmeth Hd Hns Hname|ref Hm Hp Hmeth]; rewrite Hm, Hp, Hmeth.
    + rewrite bool_decide_eq_true_2 by done. rewrite Hd. by rewrite bool_decide_eq_true_2.
    + by rewrite bool_decide_eq_false_2, bool_decide_eq_true_2.
Qed.

Lemma accepts_dec `{GoSort} limit r :
  (∃ c, accepts limit r c ∧ valid_call c = true) ∨ ∀ c, accepts limit r c → valid_call c = false.
Proof.
  setoid_rewrite <- api_call_spec. destruct (api_call _ r) as [c|]; [|right; naive_solver].
  destruct (valid_call c) eqn:Hv; [left; by exists c|right; naive_solver].
Qed.

Section api_facts.
Context `{GoSort, UnicodeCase} {W E : Type}.
Context (A : ConfigApplier W E) (M : ExternalIPManager W E).
Context (detail : RequestError → string) (redirect : Request → string → Response).
Implicit Types (h : Handler W) (r : Request).

Definition run_call (c : ApiCall) (e : Engine W) : Engine W * result (EngineError E) bool :=
  match c with
  | CallEnsure service => EngineEnsure A M service e
  | CallDelete ref => EngineDelete A M ref e
  end.

Lemma run_call_not_invalid c eng e : valid_call c = true → (run_call c eng).2 ≠ Err (ErrInvalid e).
Proof.
  destruct c as [s|ref]; cbn [valid_call run_call].
  - unfold EngineEnsure. destruct (ValidateService _); [|done]. intros _. apply reconcile_not_invalid.
  - intros _. unfold EngineDelete. destruct (StoreGet ref _); [|done]. apply reconcile_not_invalid.
Qed.

(** A request that reaches the engine, and is valid, is run on it. *)
Lemma ServeHTTP_accepted r h c :
  accepts (hMaxRequestBodyBytes h) r c → valid_call c = true →
  ServeHTTP A M detail redirect r h =
    (with_engine h (run_call c (hEngine h)).1, engineResponse (run_call c (hEngine h)).2).
Proof.
  intros [ref body Hm Hp Hmeth Hd Hns Hname|ref Hm Hp Hmeth] Hv; unfold ServeHTTP; rewrite Hm; unfold handleServices;
    rewrite Hp, Hmeth; cbn [valid_call run_call] in *.
  - rewrite bool_decide_eq_true_2 by done. unfold handleEnsureService. rewrite Hd.
    replace (bool_decide (svcNamespace body ≠ "") && bool_decide (svcNamespace body ≠ refNamespace ref)) with false.
    2:{ symmetry. apply andb_false_iff. rewrite !bool_decide_eq_false. set_solver. }
    replace (bool_decide (svcName body ≠ "") && bool_decide (svcName body ≠ refName ref)) with false.
    2:{ symmetry. apply andb_false_iff. rewrite !bool_decide_eq_false. set_solver. }
    destruct (ValidateService _); [|done]. by destruct (EngineEnsure _ _ _ _).
  - rewrite bool_decide_eq_false_2, bool_decide_eq_true_2 by done. unfold handleDeleteService.
    by destruct (EngineDelete _ _ _ _).
Qed.

(** Any other request leaves the handler alone. *)
Lemma ServeHTTP_refused r h :
  (∀ c, accepts (hMaxRequestBodyBytes h) r c → valid_call c = false) →
  ∃ rs, ServeHTTP A M detail redirect r h = (h, rs) ∧
    match mux_find r with
    | MuxRoute RouteServices => rsStatus rs ∈ [StatusBadRequest; StatusMethodNotAllowed]
    | MuxRoute _ => rsStatus rs = StatusOK → rqMethod r = MethodGet
    | MuxRedirect l => rs = redirect r l
    | MuxBadRequest | MuxNotFound => rsStatus rs ∈ [StatusBadRequest; StatusNotFound]
    end.
Proof.
  intros Hno. unfold ServeHTTP. destruct (mux_find r) as [|l| |[]] eqn:Hm; try (eexists; split; [reflexivity|]).
  - by left.
  - done.
  - by right; left.
  - unfold handleHealthz. by case_bool_decide.
  - unfold handleReadyz. by case_bool_decide.
  - assert (∀ e, ∃ rs, (h, badRequest detail e) = (h, rs) ∧ rsStatus rs ∈ [StatusBadRequest; StatusMethodNotAllowed]) as Hbad.
    { intros e. eexists; split; [reflexivity|by left]. }
    unfold handleServices. destruct (serviceRefFromPath _) as [ref|e] eqn:Hp; [|apply Hbad].
    case_bool_decide as Hput; [|case_bool_decide as Hdel; [|eexists; split; [reflexivity|by right; left]]].
    + unfold handleEnsureService. destruct (decodeServiceRequest _ _ _) as [body|e] eqn:Hd; [|apply Hbad].
      destruct (_ && _) eqn:Hns; [apply Hbad|]. destruct (bool_decide (svcName body ≠ "") && _) eqn:Hname; [apply Hbad|].
      specialize (Hno _ (accepts_ensure _ _ ref body Hm Hp Hput Hd ltac:(
        apply andb_false_iff in Hns; rewrite !bool_decide_eq_false in Hns; destruct Hns as [Hns|Hns]; apply dec_stable in Hns; set_solver)
        ltac:(apply andb_false_iff in Hname; rewrite !bool_decide_eq_false in Hname;
          destruct Hname as [Hname|Hname]; apply dec_stable in Hname; set_solver))).
      cbn [valid_call] in Hno. destruct (ValidateService _); [done|]. apply Hbad.
    + by specialize (Hno _ (accepts_delete _ _ ref Hm Hp Hdel)).
Qed.

(** C18. A request changes the engine only if it is a PUT or DELETE of a Service path,
    and for a PUT only if the body decodes to a valid Service whose names, when given,
    are those of the path.  Then the engine runs exactly that operation on exactly that
    Service, the answer is 200 with the engine's [changed] or 500, and never because
    the Service was invalid.  Every other request leaves the engine alone and is not
    answered with 200, the two probes apart. *)
Theorem ServeHTTP_correct r h h' rs :
  (∀ r l, rsStatus (redirect r l) ≠ StatusOK) → ServeHTTP A M detail redirect r h = (h', rs) →
  (∃ c, accepts (hMaxRequestBodyBytes h) r c ∧ valid_call c = true ∧
     h' = with_engine h (run_call c (hEngine h)).1 ∧ rs = engineResponse (run_call c (hEngine h)).2 ∧
     ∀ e, (run_call c (hEngine h)).2 ≠ Err (ErrInvalid e)) ∨
  (∀ c, accepts (hMaxRequestBodyBytes h) r c → valid_call c = false) ∧ h' = h ∧
    (rsStatus rs = StatusOK → rqMethod r = MethodGet ∧ ∃ rt, mux_find r = MuxRoute rt ∧ rt ≠ RouteServices).
Proof.
  intros Hre Hs. destruct (accepts_dec (hMaxRequestBodyBytes h) r) as [(c & Hc & Hv)|Hno].
  - left. rewrite (ServeHTTP_accepted _ _ _ Hc Hv) in Hs. injection Hs as <- <-. exists c.
    split_and!; [done..|]. intros e. by apply run_call_not_invalid.
  - right. destruct (ServeHTTP_refused r h Hno) as (rs' & E' & Hr). rewrite E' in Hs. injection Hs as <- <-.
    split_and!; [done..|]. intros Hok. destruct (mux_find r) as [|l| |[]].
    2: by subst; apply Hre in Hok.
    3: by split; [apply Hr|exists RouteHealthz].
    3: by split; [apply Hr|exists RouteReadyz].
    all: rewrite Hok in Hr; vm_compute in Hr; set_solver.
Qed.
End api_facts.

(** The path is decoded twice: the request's URL has been decoded already when its
    segments are. *)
Example path_decoded_twice :
  urlPath <$> ParseRequestURI "/services/ns/a%2541" = Some "/services/ns/a%41" ∧
  serviceRefFromPath "/services/ns/a%41" = Ok (MkRef "ns" "aA").
Proof. by vm_compute. Qed.
