(* ===== verification/DataplaneAPI.v ===== *)
(** * The dataplane API provider (internal/provider/dataplaneapi)

    The client side of HTTPApi.v: a [Provider] that sends the desired state to the
    dataplane as JSON over HTTP.  [http.Client.Do] is a parameter; [Transport] states
    what is assumed of it when it reaches the dataplane's own handler, and the
    composition of the two is proved to be the engine, up to lost messages. *)
From S2P Require Import Prelude GoStrings GoSort NetIP GoURL GoJSON Provider IPAM Store Render ExternalIPs Engine FilePath HTTPApi.
Local Open Scope Z_scope.

Record APIConfig : Type := MkAPIConfig { BaseURL : string; Timeout : Z }.

(** [Provider]: the parsed base URL and the client's timeout *)
Record APIProvider : Type := MkAPIProvider { baseURL : URL; clientTimeout : Z }.

Inductive NewProviderError : Type :=
| ErrBaseURLEmpty
| ErrBaseURLParse
| ErrBaseURLNotAbsolute
| ErrBaseURLScheme
| ErrTimeoutNotPositive.

Definition NewProvider (cfg : APIConfig) : result NewProviderError APIProvider :=
  let base := TrimSpace (BaseURL cfg) in
  if bool_decide (base = "") then Err ErrBaseURLEmpty else
  match url_Parse base with
  | None => Err ErrBaseURLParse
  | Some parsedURL =>
    if negb (IsAbs parsedURL) || bool_decide (urlHost parsedURL = "") then Err ErrBaseURLNotAbsolute else
    if bool_decide (urlScheme parsedURL ≠ "http") && bool_decide (urlScheme parsedURL ≠ "https")
    then Err ErrBaseURLScheme else
    if Timeout cfg <=? 0 then Err ErrTimeoutNotPositive else
    Ok (MkAPIProvider parsedURL (Timeout cfg))
  end.

(** ** The payload *)
Record backendEndpointPayload : Type := MkBackendPayload { bpAddress : string; bpPort : Z }.

Record servicePortPayload : Type := MkPortPayload {
  ppName : string;
  ppProtocol : string;
  ppPort : Z;
  ppTargetPort : string;
  ppBackends : list backendEndpointPayload;
}.

Record servicePayload : Type := MkPayload {
  spNamespace : string;
  spName : string;
  spLoadBalancerClass : string;
  spExternalIP : string;
  spPorts : list servicePortPayload;
}.

Definition backendPayload (b : BackendEndpoint) : backendEndpointPayload := MkBackendPayload (beAddress b) (bePort b).

Definition portPayload (p : ServicePort) : servicePortPayload :=
  MkPortPayload (portName p) (portProtocol p) (portPort p) (portTargetPort p) (backendPayload <$> portBackends p).

Definition servicePayloadFromService (s : Service) : servicePayload :=
  MkPayload (svcNamespace s) (svcName s) (svcLoadBalancerClass s) (svcExternalIP s) (portPayload <$> svcPorts s).

(** [json.Marshal] of the payload: the fields under their JSON names, in the order of
    the structs *)
Definition str (s : string) : json := JStr (bytes s).
Definition int (z : Z) : json := JNum (bytes (itoa z)).

Definition marshalBackend (b : backendEndpointPayload) : json :=
  JObj [(bytes "address", str (bpAddress b)); (bytes "port", int (bpPort b))].

Definition marshalPort (p : servicePortPayload) : json :=
  JObj [(bytes "name", str (ppName p)); (bytes "protocol", str (ppProtocol p)); (bytes "port", int (ppPort p));
        (bytes "targetPort", str (ppTargetPort p)); (bytes "backends", JArr (marshalBackend <$> ppBackends p))].

Definition marshalService (s : servicePayload) : json :=
  JObj [(bytes "namespace", str (spNamespace s)); (bytes "name", str (spName s));
        (bytes "loadBalancerClass", str (spLoadBalancerClass s)); (bytes "externalIP", str (spExternalIP s));
        (bytes "ports", JArr (marshalPort <$> spPorts s))].

Definition Marshal (s : servicePayload) : list ascii := encode (marshalService s).

(** ** Requests *)
Record HTTPRequest : Type := MkHTTPRequest {
  reqMethod : string;
  reqURL : URL;
  reqBody : list ascii;
  reqHeader : list (string * string);
}.

(** A response whose body may fail to be read *)
Record HTTPResponse (E : Type) : Type := MkHTTPResponse {
  respStatus : Z;
  respBody : result E (list ascii);
}.
Global Arguments MkHTTPResponse {E} _ _.
Global Arguments respStatus {E} _.
Global Arguments respBody {E} _.

(** The cause of a failed request; the text of the error also names the method, the
    Service and the endpoint. *)
Inductive APIFailure (E : Type) : Type :=
| ErrCreateRequest
| ErrDo (e : E)
| ErrReadBody (e : E)
| ErrUnexpectedStatus (status : Z) (message : string)
| ErrDecodeChanged
| ErrMissingChanged.
Global Arguments ErrCreateRequest {E}.
Global Arguments ErrDo {E} _.
Global Arguments ErrReadBody {E} _.
Global Arguments ErrUnexpectedStatus {E} _ _.
Global Arguments ErrDecodeChanged {E}.
Global Arguments ErrMissingChanged {E}.

Record APIError (E : Type) : Type := MkAPIError {
  aeMethod : string;
  aeRef : ServiceRef;
  aeEndpoint : string;
  aeFailure : APIFailure E;
}.
Global Arguments MkAPIError {E} _ _ _ _.
Global Arguments aeMethod {E} _.
Global Arguments aeRef {E} _.
Global Arguments aeEndpoint {E} _.
Global Arguments aeFailure {E} _.

(** [removeEmptyPort] of net/http *)
Definition removeEmptyPort (host : string) : string :=
  match last_cut ":"%char (bytes host) with
  | (Some before, after) =>
    if bool_decide ("]"%char ∈ after) then host else if bool_decide (after = []) then of_bytes before else host
  | (None, _) => host
  end.

Definition set_host (u : URL) (h : string) : URL :=
  MkURL (urlScheme u) (urlOpaque u) (urlUser u) h (urlPath u) (urlRawPath u) (urlOmitHost u) (urlForceQuery u)
    (urlRawQuery u) (urlFragment u) (urlRawFragment u).

Definition set_path (u : URL) (p : string) : URL :=
  MkURL (urlScheme u) (urlOpaque u) (urlUser u) (urlHost u) p (urlRawPath u) (urlOmitHost u) (urlForceQuery u)
    (urlRawQuery u) (urlFragment u) (urlRawFragment u).

(** [http.NewRequestWithContext] for the methods used here *)
Definition NewRequest (method endpoint : string) (body : list ascii) : option HTTPRequest :=
  u ← url_Parse endpoint; Some (MkHTTPRequest method (set_host u (removeEmptyPort (urlHost u))) body []).

Definition serviceURL (p : APIProvider) (ref : ServiceRef) : string :=
  URLString (set_path (baseURL p)
    (Join ["/"; urlPath (baseURL p); "services"; refNamespace ref; refName ref])).

(** [changedResponse] on this side: an absent field is told from [false]. *)
Definition changed_fields : fields_of (option bool) := [("changed", storeBoolPtr)].

(** [json.Unmarshal] into it *)
Definition unmarshalChanged (body : list ascii) : option (option bool) :=
  v ← check_valid body; storeStruct false changed_fields v None.

Section provider.
Context {W E : Type}.
(** [http.Client.Do] *)
Variable Do : HTTPRequest → W → W * result E (HTTPResponse E).

(** The part of [doRequest] that reads the response *)
Definition readResponse (fail : APIFailure E → APIError E) (response : HTTPResponse E) : result (APIError E) bool :=
  match respBody response with
  | Err e => Err (fail (ErrReadBody e))
  | Ok bodyBytes =>
    if (respStatus response <? 200) || (300 <=? respStatus response)
    then Err (fail (ErrUnexpectedStatus (respStatus response) (TrimSpace (of_bytes bodyBytes)))) else
    match unmarshalChanged bodyBytes with
    | None => Err (fail ErrDecodeChanged)
    | Some None => Err (fail ErrMissingChanged)
    | Some (Some changed) => Ok changed
    end
  end.

Definition doRequest (p : APIProvider) (method : string) (ref : ServiceRef) (body : list ascii) (contentType : string)
    (w : W) : W * result (APIError E) bool :=
  let endpoint := serviceURL p ref in
  let fail := MkAPIError method ref endpoint in
  match NewRequest method endpoint body with
  | None => (w, Err (fail ErrCreateRequest))
  | Some request =>
    let request := if bool_decide (contentType ≠ "")
                   then MkHTTPRequest (reqMethod request) (reqURL request) (reqBody request) [("Content-Type", contentType)]
                   else request in
    match Do request w with
    | (w, Err e) => (w, Err (fail (ErrDo e)))
    | (w, Ok response) => (w, readResponse fail response)
    end
  end.

Definition apiEnsure (p : APIProvider) (service : Service) (w : W) : W * result (APIError E) bool :=
  doRequest p MethodPut (Ref service) (Marshal (servicePayloadFromService service)) "application/json" w.

Definition apiDelete (p : APIProvider) (ref : ServiceRef) (w : W) : W * result (APIError E) bool :=
  doRequest p MethodDelete ref [] "" w.

Definition apiProvider (p : APIProvider) : Provider W (APIError E) := MkProvider (apiEnsure p) (apiDelete p).
End provider.

(** ** The payload is read back *)

(** A string as it arrives: valid UTF-8 *)
Definition clean_string (s : string) : string := of_bytes (utf8_clean (bytes s)).

Definition clean_backend (b : BackendEndpoint) : BackendEndpoint := MkBackend (clean_string (beAddress b)) (bePort b).

Definition clean_port (p : ServicePort) : ServicePort :=
  MkPort (clean_string (portName p)) (clean_string (portProtocol p)) (portPort p) (clean_string (portTargetPort p))
    (clean_backend <$> portBackends p).

Definition clean_service (s : Service) : Service :=
  MkService (clean_string (svcNamespace s)) (clean_string (svcName s)) (clean_string (svcLoadBalancerClass s))
    (clean_string (svcExternalIP s)) (clean_port <$> svcPorts s).

Lemma storeInt32_int z old : int32 z → storeInt32 (int z) old = Some z.
Proof.
  unfold int32, int, storeInt32. intros Hz. rewrite of_bytes_bytes, Atoi_itoa by lia. cbn [mbind option_bind].
  destruct (_ && _) eqn:E; [done|]. lia.
Qed.

Lemma storeInt32_out z old : ¬ int32 z → storeInt32 (int z) old = None.
Proof.
  unfold int32, int, storeInt32. intros Hz. rewrite of_bytes_bytes, Atoi_itoa_range. destruct (_ && _); [|done].
  cbn [mbind option_bind]. destruct (_ && _) eqn:E; [|done]. lia.
Qed.

(** One element that does not fit is enough. *)
Lemma storeSlice_out {A B} (store : json → B → option B) zero (f : A → json) l old x :
  x ∈ l → (∀ o, store (f x) o = None) → storeSlice store zero (JArr (f <$> l)) old = None.
Proof.
  intros Hx Hn. assert (∀ mem, store_elems store zero (f <$> l) mem = None) as Hel.
  { induction l as [|y l IH]; intros mem; [by apply not_elem_of_nil in Hx|]. rewrite fmap_cons. cbn [store_elems].
    apply elem_of_cons in Hx as [<-|Hx]; [by rewrite Hn|].
    destruct (store (f y) _); [|done]. cbn [mbind option_bind]. by rewrite IH. }
  destruct l as [|y l]; [by apply not_elem_of_nil in Hx|]. specialize (Hel (sl_mem old)). rewrite fmap_cons in *.
  cbn [storeSlice]. by rewrite Hel.
Qed.

Section store_map.
Context {A B C : Type} (store : json → B → option B) (zero : B).
Context (f : A → json) (h : B → C) (g : A → C).

Lemma store_elems_map l mem :
  (∀ x o, x ∈ l → ∃ y, store (f x) o = Some y ∧ h y = g x) →
  ∃ ys, store_elems store zero (f <$> l) mem = Some (ys ++ drop (length l) mem) ∧ length ys = length l ∧ h <$> ys = g <$> l.
Proof.
  revert mem. induction l as [|x l IH]; intros mem Hs; [by exists []|].
  destruct (Hs x (default zero (head mem)) ltac:(by left)) as (y & Hy & Hg).
  destruct (IH (tail mem) ltac:(intros; apply Hs; by right)) as (ys & Hys & Hlen & Hgs).
  exists (y :: ys). split_and!; [|cbn; congruence|by rewrite !fmap_cons, Hg, Hgs].
  rewrite fmap_cons. cbn [store_elems]. rewrite Hy. cbn [mbind option_bind]. rewrite Hys. cbn [mbind option_bind].
  destruct mem; cbn [tail length drop app]; by rewrite ?drop_nil.
Qed.

(** Whatever the slice held before, it holds the elements of the array. *)
Lemma storeSlice_map l old :
  (∀ x o, x ∈ l → ∃ y, store (f x) o = Some y ∧ h y = g x) →
  ∃ sl, storeSlice store zero (JArr (f <$> l)) old = Some sl ∧ h <$> slice_elems sl = g <$> l.
Proof.
  intros Hs. destruct l as [|x l]; [by exists slice_nil|].
  destruct (store_elems_map (x :: l) (sl_mem old) Hs) as (ys & Hys & Hlen & Hg).
  exists (MkSlice (ys ++ drop (length (x :: l)) (sl_mem old)) (length (x :: l))). split.
  - rewrite fmap_cons in *. cbn [storeSlice]. rewrite Hys. cbn [mbind option_bind length].
    by rewrite length_fmap.
  - unfold slice_elems. cbn [sl_mem sl_len]. rewrite take_app_le by lia. by rewrite take_ge by lia.
Qed.
End store_map.

(** Struct by struct: an object with the JSON names of the client fills the fields of
    the server, whatever they held before. *)
Ltac resolve_field fs key i :=
  assert (field_of fs (of_bytes (utf8_clean (bytes key))) = snd <$> fs !! i) as -> by reflexivity.

Ltac run_fields :=
  repeat change (json_clean (int ?z)) with (int z); repeat change (json_clean (str ?s)) with (JStr (utf8_clean (bytes s)));
  unfold backend_fields, port_fields, service_fields;
  cbn [lookup list_lookup fmap option_fmap option_map snd fst mbind option_bind storeString
       backendPayload bpAddress bpPort portPayload ppName ppProtocol ppPort ppTargetPort ppBackends
       beAddress bePort psName psProtocol psPort psTargetPort psBackends
       ssNamespace ssName ssLoadBalancerClass ssExternalIP ssPorts].

Lemma storeBackend_payload b old :
  backend_int32 b → storeBackend (json_clean (marshalBackend (backendPayload b))) old = Some (clean_backend b).
Proof.
  intros Hb. unfold storeBackend, storeStruct. cbn [json_clean marshalBackend map fst snd store_members].
  unfold store_member. cbn [fst snd].
  resolve_field backend_fields "address" 0%nat.
  resolve_field backend_fields "port" 1%nat.
  run_fields. rewrite storeInt32_int by done. run_fields. done.
Qed.

Lemma storePort_payload p old :
  port_int32 p → ∃ st, storePort (json_clean (marshalPort (portPayload p))) old = Some st ∧ port_of st = clean_port p.
Proof.
  intros [Hp Hb]. unfold storePort, storeStruct. cbn [json_clean marshalPort portPayload map fst snd store_members ppBackends].
  unfold store_member. cbn [fst snd].
  resolve_field port_fields "name" 0%nat.
  resolve_field port_fields "protocol" 1%nat.
  resolve_field port_fields "port" 2%nat.
  resolve_field port_fields "targetPort" 3%nat.
  resolve_field port_fields "backends" 4%nat.
  run_fields. rewrite storeInt32_int by done. run_fields.
  destruct (storeSlice_map storeBackend zeroBackend (λ b, json_clean (marshalBackend (backendPayload b))) id clean_backend
    (portBackends p) (psBackends old)) as (sl & Hsl & Hel).
  { intros b o Hin. rewrite Forall_forall in Hb. eexists; split; [apply storeBackend_payload; auto|done]. }
  rewrite list_fmap_id in Hel. change (map json_clean ?l) with (json_clean <$> l). rewrite <- !list_fmap_compose.
  unfold compose. rewrite Hsl. run_fields. eexists; split; [done|]. unfold port_of, clean_port. cbn. by rewrite Hel.
Qed.

Lemma storeService_payload s old :
  service_int32 s → ∃ st, storeService (json_clean (marshalService (servicePayloadFromService s))) old = Some st ∧
    service_of st = clean_service s.
Proof.
  intros Hs. unfold storeService, storeStruct.
  cbn [json_clean marshalService servicePayloadFromService map fst snd store_members spNamespace spName spLoadBalancerClass spExternalIP spPorts].
  unfold store_member. cbn [fst snd].
  resolve_field service_fields "namespace" 0%nat.
  resolve_field service_fields "name" 1%nat.
  resolve_field service_fields "loadBalancerClass" 2%nat.
  resolve_field service_fields "externalIP" 3%nat.
  resolve_field service_fields "ports" 4%nat.
  run_fields.
  destruct (storeSlice_map storePort zeroPort (λ p, json_clean (marshalPort (portPayload p))) port_of clean_port
    (svcPorts s) (ssPorts old)) as (sl & Hsl & Hel).
  { intros p o Hin. unfold service_int32 in Hs. rewrite Forall_forall in Hs. apply storePort_payload; auto. }
  change (map json_clean ?l) with (json_clean <$> l). rewrite <- !list_fmap_compose.
  unfold compose. rewrite Hsl. run_fields. eexists; split; [done|]. unfold service_of, clean_service. cbn -[port_of]. by rewrite Hel.
Qed.

(** A number that is too large or too small for its field: nothing is decoded. *)
Lemma storeBackend_out b old :
  ¬ backend_int32 b → storeBackend (json_clean (marshalBackend (backendPayload b))) old = None.
Proof.
  intros Hb. unfold storeBackend, storeStruct. cbn [json_clean marshalBackend map fst snd store_members].
  unfold store_member. cbn [fst snd].
  resolve_field backend_fields "address" 0%nat.
  resolve_field backend_fields "port" 1%nat.
  run_fields. by rewrite storeInt32_out.
Qed.

#[global] Instance int32_dec z : Decision (int32 z).
Proof. unfold int32. apply _. Defined.

Lemma storePort_out p old :
  ¬ port_int32 p → storePort (json_clean (marshalPort (portPayload p))) old = None.
Proof.
  intros Hp. unfold storePort, storeStruct. cbn [json_clean marshalPort portPayload map fst snd store_members ppBackends].
  unfold store_member. cbn [fst snd].
  resolve_field port_fields "name" 0%nat.
  resolve_field port_fields "protocol" 1%nat.
  resolve_field port_fields "port" 2%nat.
  resolve_field port_fields "targetPort" 3%nat.
  resolve_field port_fields "backends" 4%nat.
  run_fields. destruct (decide (int32 (portPort p))) as [Hi|Hi]; [|by rewrite storeInt32_out].
  rewrite storeInt32_int by done. run_fields.
  assert (∃ b, b ∈ portBackends p ∧ ¬ backend_int32 b) as (b & Hin & Hb).
  { apply Exists_exists, (not_Forall_Exists _). intros Hall. by destruct Hp. }
  change (map json_clean ?l) with (json_clean <$> l). rewrite <- !list_fmap_compose. unfold compose.
  by rewrite (storeSlice_out _ _ (λ b, json_clean (marshalBackend (backendPayload b))) _ _ b Hin (λ o, storeBackend_out b o Hb)).
Qed.

Lemma storeService_out s old :
  ¬ service_int32 s → storeService (json_clean (marshalService (servicePayloadFromService s))) old = None.
Proof.
  intros Hs. unfold storeService, storeStruct.
  cbn [json_clean marshalService servicePayloadFromService map fst snd store_members spNamespace spName spLoadBalancerClass spExternalIP spPorts].
  unfold store_member. cbn [fst snd].
  resolve_field service_fields "namespace" 0%nat.
  resolve_field service_fields "name" 1%nat.
  resolve_field service_fields "loadBalancerClass" 2%nat.
  resolve_field service_fields "externalIP" 3%nat.
  resolve_field service_fields "ports" 4%nat.
  run_fields.
  assert (∃ p, p ∈ svcPorts s ∧ ¬ port_int32 p) as (p & Hin & Hp).
  { apply Exists_exists, (not_Forall_Exists _). exact Hs. }
  change (map json_clean ?l) with (json_clean <$> l). rewrite <- !list_fmap_compose. unfold compose.
  by rewrite (storeSlice_out _ _ (λ p, json_clean (marshalPort (portPayload p))) _ _ p Hin (λ o, storePort_out p o Hp)).
Qed.

Lemma marshal_ints s : json_ints (marshalService (servicePayloadFromService s)).
Proof.
  cbn. repeat constructor. cbn. change (map ?f ?l) with (f <$> l). rewrite <- !list_fmap_compose.
  apply Forall_fmap, Forall_true. intros p. cbn. repeat constructor; cbn; [by eexists|].
  change (map ?f ?l) with (f <$> l). rewrite <- !list_fmap_compose.
  apply Forall_fmap, Forall_true. intros b. cbn. repeat constructor. cbn. by eexists.
Qed.

Lemma marshal_within s : json_within maxNestingDepth (marshalService (servicePayloadFromService s)).
Proof.
  cbn. split; [done|]. repeat constructor; [done|]. change (map ?f ?l) with (f <$> l). rewrite <- !list_fmap_compose.
  apply Forall_fmap, Forall_true. intros p. cbn. split; [done|]. repeat constructor; [done|].
  change (map ?f ?l) with (f <$> l). rewrite <- !list_fmap_compose.
  apply Forall_fmap, Forall_true. intros b. cbn. split; [done|]. repeat constructor.
Qed.

(** The payload of a Service, decoded by the dataplane *)
Lemma payload_valid s :
  check_valid (Marshal (servicePayloadFromService s)) = Some (json_clean (marshalService (servicePayloadFromService s))).
Proof.
  unfold Marshal. rewrite <- (app_nil_r (encode _)). apply check_valid_encode; [apply marshal_ints|apply marshal_within|done..].
Qed.

Lemma payload_decoded s limit :
  service_int32 s → Z.of_nat (length (Marshal (servicePayloadFromService s))) <= limit →
  decodeServiceRequest (Marshal (servicePayloadFromService s)) EndEOF limit = Ok (clean_service s).
Proof.
  intros Hs Hl. apply decode_request_spec. split_and!; [done..|]. rewrite payload_valid.
  cbn [mbind option_bind]. destruct (storeService_payload s zeroService Hs) as (st & -> & <-). done.
Qed.

Lemma payload_int32 s limit s' :
  decodeServiceRequest (Marshal (servicePayloadFromService s)) EndEOF limit = Ok s' → service_int32 s ∧ s' = clean_service s.
Proof.
  intros Hd. apply decode_request_spec in Hd as Hs. destruct Hs as (Hl & _ & Hs).
  destruct (decide (service_int32 s)) as [Hi|Hi]; [split; [done|]; rewrite payload_decoded in Hd by done; congruence|].
  rewrite payload_valid in Hs. cbn [mbind option_bind] in Hs. by rewrite storeService_out in Hs.
Qed.

(** ** Which numbers are accepted *)

(** What validation asks of a Service, its port numbers aside *)
Definition texts_valid (s : Service) : Prop :=
  TrimSpace (svcNamespace s) ≠ "" ∧ TrimSpace (svcName s) ≠ "" ∧ ipv4_string (svcExternalIP s) ∧
  ∀ p, p ∈ svcPorts s →
    (TrimSpace (portProtocol p) = "" ∨ EqualFold (TrimSpace (portProtocol p)) "TCP" = true) ∧
    ∀ b, b ∈ portBackends p → ipv4_string (beAddress b).

Definition numbers_valid (s : Service) : Prop :=
  ∀ p, p ∈ svcPorts s → 1 <= portPort p < 2 ^ 31 ∧ ∀ b, b ∈ portBackends p → 1 <= bePort b < 2 ^ 31.

Lemma clean_ports_elem s p : p ∈ svcPorts (clean_service s) ↔ ∃ q, p = clean_port q ∧ q ∈ svcPorts s.
Proof. apply list_elem_of_fmap. Qed.

Lemma clean_backends_elem p b : b ∈ portBackends (clean_port p) ↔ ∃ c, b = clean_backend c ∧ c ∈ portBackends p.
Proof. apply list_elem_of_fmap. Qed.

Lemma valid_split s :
  service_valid (clean_service s) ∧ service_int32 s ↔ texts_valid (clean_service s) ∧ numbers_valid s.
Proof.
  unfold service_valid, texts_valid, port_valid, backend_valid, numbers_valid, service_int32, port_int32, backend_int32, int32.
  rewrite Forall_forall. setoid_rewrite Forall_forall. setoid_rewrite clean_ports_elem. split.
  - intros [(H1 & H2 & H3 & Hp) Hi]. split; [split_and!; [done..|]|].
    + intros ? (q & -> & Hq). destruct (Hp _ ltac:(by exists q)) as (Ht & _ & Hb). split; [done|]. intros b Hin. by apply Hb.
    + intros q Hq. destruct (Hp _ ltac:(by exists q)) as (_ & Hz & Hb), (Hi q Hq) as [Hz' Hb']. cbn in Hz. split; [lia|].
      intros b Hin. specialize (Hb' b Hin). destruct (Hb (clean_backend b)) as [_ Hbz]; [by apply list_elem_of_fmap_2|]. cbn in Hbz. lia.
  - intros [(H1 & H2 & H3 & Ht) Hn]. split; [split_and!; [done..|]|].
    + intros ? (q & -> & Hq). destruct (Ht _ ltac:(by exists q)) as [Hpr Hb], (Hn q Hq) as [Hz Hbz]. cbn [clean_port portPort].
      split_and!; [done|lia|]. intros b Hin. split; [by apply Hb|]. apply clean_backends_elem in Hin as (c & -> & Hc).
      specialize (Hbz c Hc). cbn. lia.
    + intros q Hq. destruct (Hn q Hq) as [Hz Hbz]. split; [lia|]. intros b Hin. specialize (Hbz b Hin). lia.
Qed.

(** C33. The numbers that a request can bring in.  Of a body within the limit that has a
    Service with any integers as port numbers, the dataplane accepts exactly those with
    port numbers from 1 to 2^31 - 1 in all ports and backends (and valid names, addresses
    and protocols): larger ones are refused when the body is decoded, not wrapped around
    to 32 bits, zero and negative ones are refused by the validation, and there is no
    check for 65535.  What is decoded has the numbers of the body. *)
Theorem port_numbers_checked `{GoSort} s limit :
  Z.of_nat (length (Marshal (servicePayloadFromService s))) <= limit →
  ((∃ s', decodeServiceRequest (Marshal (servicePayloadFromService s)) EndEOF limit = Ok s' ∧
      ValidateService (normalizeService s') = Ok ()) ↔ texts_valid (clean_service s) ∧ numbers_valid s) ∧
  ∀ s', decodeServiceRequest (Marshal (servicePayloadFromService s)) EndEOF limit = Ok s' → s' = clean_service s.
Proof.
  intros Hl. split; [|by intros s' [_ ->]%payload_int32]. rewrite <- valid_split. split.
  - intros (s' & [Hi ->]%payload_int32 & Hv). split; [|done]. by apply service_valid_normalize, ValidateService_spec.
  - intros [Hv Hi]. exists (clean_service s). split; [by apply payload_decoded|].
    by apply ValidateService_spec, service_valid_normalize.
Qed.

(** Strings that are valid UTF-8 arrive as they are. *)
Definition utf8_backend (b : BackendEndpoint) : bool := valid_utf8 (beAddress b).
Definition utf8_port (p : ServicePort) : bool :=
  valid_utf8 (portName p) && valid_utf8 (portProtocol p) && valid_utf8 (portTargetPort p) && forallb utf8_backend (portBackends p).
Definition utf8_service (s : Service) : bool :=
  valid_utf8 (svcNamespace s) && valid_utf8 (svcName s) && valid_utf8 (svcLoadBalancerClass s) &&
  valid_utf8 (svcExternalIP s) && forallb utf8_port (svcPorts s).

Lemma clean_string_id s : valid_utf8 s = true → clean_string s = s.
Proof. unfold valid_utf8, clean_string. intros Hs%bool_decide_eq_true. by rewrite Hs, of_bytes_bytes. Qed.

Lemma clean_list_id {A} (f : A → A) (P : A → bool) l :
  (∀ x, P x = true → f x = x) → forallb P l = true → f <$> l = l.
Proof.
  intros Hf. induction l as [|x l IH]; [done|]. cbn [forallb]. intros [Hx Hl]%andb_true_iff.
  by rewrite fmap_cons, Hf, IH.
Qed.

Lemma clean_service_id s : utf8_service s = true → clean_service s = s.
Proof.
  unfold utf8_service, clean_service. intros Hs. bool_props.
  rewrite !clean_string_id by done. rewrite (clean_list_id _ utf8_port); [by destruct s| |done].
  intros p. unfold utf8_port, clean_port. intros Hp. bool_props. rewrite !clean_string_id by done.
  rewrite (clean_list_id _ utf8_backend); [by destruct p| |done].
  intros b Hb. unfold clean_backend. rewrite clean_string_id by done. by destruct b.
Qed.

(** C32. What the client sends is what the dataplane decodes, although the two sides
    name the fields differently: a Service whose strings are valid UTF-8 and whose
    ports are 32-bit integers is decoded from its payload without change, at every
    limit that the payload fits. *)
Theorem payload_roundtrip s limit :
  utf8_service s = true → service_int32 s → Z.of_nat (length (Marshal (servicePayloadFromService s))) <= limit →
  decodeServiceRequest (Marshal (servicePayloadFromService s)) EndEOF limit = Ok s.
Proof. intros Hu Hi Hl. rewrite payload_decoded by done. by rewrite clean_service_id. Qed.

(** ** The URL of a Service *)
Lemma Join_service base ref :
  base ∈ [""; "/"] → ref_ok ref → Join ["/"; base; "services"; refNamespace ref; refName ref] = servicePath ref.
Proof.
  intros Hbase [Hn Hm]. pose proof Hn as [Hn0 _]. pose proof Hm as [Hm0 _].
  apply name_ok_plain in Hn as [_ Hn], Hm as [_ Hm].
  assert (clean_elem "services" ∧ clean_elem "") as [Hs He].
  { split; (split_and!; [done..|]); vm_compute; set_solver. }
  assert (∀ l, l ∈ [[""]; [""; ""; ""]] → Clean ("/" +:+ String.concat "/" (l ++ ["services"; refNamespace ref; refName ref])) = servicePath ref) as Hclean.
  { intros l Hl. rewrite Clean_elems; [|by destruct l|].
    - rewrite servicePath_elems, filter_app. do 2 f_equal.
      assert (filter (λ e : string, e ≠ "") l = []) as -> by (repeat (apply elem_of_cons in Hl as [->|Hl]; [done|]); by apply not_elem_of_nil in Hl).
      by rewrite !filter_cons_True by done.
    - apply Forall_app; split; [|by repeat apply Forall_cons_2].
      repeat (apply elem_of_cons in Hl as [->|Hl]; [by repeat apply Forall_cons_2|]). by apply not_elem_of_nil in Hl. }
  unfold Join. repeat (apply elem_of_cons in Hbase as [->|Hbase]); [| |by apply not_elem_of_nil in Hbase].
  - rewrite filter_cons_True, filter_cons_False, !filter_cons_True by (done || tauto).
    apply (Hclean [""]). set_solver.
  - rewrite !filter_cons_True by done. apply (Hclean [""; ""; ""]). set_solver.
Qed.

(** A provider whose base URL is the root of a dataplane *)
Definition root_provider (p : APIProvider) : Prop := url_ok (baseURL p) ∧ urlPath (baseURL p) ∈ [""; "/"].

Lemma servicePath_prefix ref : HasPrefix (servicePath ref) "/" = true.
Proof. done. Qed.

Lemma set_path_ok p ref : root_provider p → url_ok (set_path (baseURL p) (servicePath ref)).
Proof.
  intros [Hu Hp]. pose proof (ok_raw_root _ Hu Hp) as Hr. destruct Hu. split; cbn; try done.
  by right.
Qed.

Lemma EscapedPath_plain u : urlRawPath u = "" → urlPath u ≠ "*" → EscapedPath u = escape (urlPath u) encodePath.
Proof.
  intros Hr Hp. unfold EscapedPath, escaped_by_hint. rewrite Hr, (bool_decide_eq_false_2 ("" ≠ "")) by tauto.
  cbn [andb]. by rewrite bool_decide_eq_false_2.
Qed.

(** The request that reaches the network *)
Lemma service_request p ref method body :
  root_provider p → ref_ok ref →
  ∃ u, NewRequest method (serviceURL p ref) body = Some (MkHTTPRequest method u body []) ∧
    urlOpaque u = "" ∧ urlPath u = servicePath ref ∧ EscapedPath u = servicePath ref ∧
    existsb is_ctl (bytes (urlRawQuery u)) = false.
Proof.
  intros Hp Href. pose proof Hp as [Hu Hroot]. unfold NewRequest, serviceURL. rewrite Join_service by done.
  destruct (url_roundtrip _ (set_path_ok p ref Hp)) as (u & -> & Hok & _ & _ & _ & Hpath & Hesc & _).
  cbn [mbind option_bind]. eexists; split; [reflexivity|]. cbn [urlOpaque urlPath urlRawQuery set_host].
  split_and!; [apply Hok|done| |apply Hok].
  change (EscapedPath (set_host ?u ?h)) with (EscapedPath u). rewrite Hesc, EscapedPath_plain; [|apply (ok_raw_root _ Hu Hroot)|done].
  cbn [urlPath set_path]. by apply servicePath_escape.
Qed.

(** What the server reads of a request: the target and the body *)
Definition wire (req : HTTPRequest) : option Request :=
  u ← ParseRequestURI (RequestURI (reqURL req)); Some (MkRequest (reqMethod req) u (reqBody req) EndEOF).

Lemma special_servicePath ref c : ref_ok ref → c ∈ bytes (servicePath ref) → ¬ url_special c.
Proof.
  intros Href Hc Hs. rewrite <- (servicePath_escape _ Href), bytes_escape in Hc. revert Hc. apply escape_no_byte.
  1,2: by apply special_escape in Hs as [? ?]. right. by apply special_should_escape in Hs as [? _].
Qed.

Lemma wire_service ref u method body hdr :
  ref_ok ref → urlOpaque u = "" → urlPath u = servicePath ref → EscapedPath u = servicePath ref →
  existsb is_ctl (bytes (urlRawQuery u)) = false →
  ∃ v, wire (MkHTTPRequest method u body hdr) = Some (MkRequest method v body EndEOF) ∧
    urlPath v = servicePath ref ∧ EscapedPath v = servicePath ref.
Proof.
  intros Href Ho Hp He Hq. unfold wire, ParseRequestURI. cbn [reqURL reqMethod reqBody].
  assert (bytes (RequestURI u) = bytes (servicePath ref) ++ query_part u) as ->.
  { unfold RequestURI, query_part. rewrite Ho, He. rewrite bool_decide_eq_true_2 by done.
    rewrite (bool_decide_eq_false_2 (servicePath ref = "")) by done. rewrite bytes_app. by destruct (_ || _). }
  destruct (parse_query_part u (bytes (servicePath ref))) as [force Hquery].
  { intros Hc. apply (special_servicePath _ _ Href Hc). left. set_solver. }
  assert (∃ k, bytes (servicePath ref) = "/"%char :: k) as [k Hk] by by eexists.
  unfold parse.
  assert (existsb is_ctl (bytes (servicePath ref) ++ query_part u) = false) as ->.
  { rewrite existsb_app. apply orb_false_iff. split.
    - apply not_true_iff_false. rewrite existsb_spec. intros (c & Hc & Hs). apply (special_servicePath _ _ Href Hc). by right.
    - unfold query_part. by destruct (_ || _). }
  rewrite Hk in *. cbn [app] in *. rewrite (bool_decide_eq_false_2 (_ = [])), (bool_decide_eq_false_2 (_ = ["*"%char])) by done.
  cbn [andb]. assert (∀ l, getScheme_go true ("/"%char :: l) = Some None) as -> by done. cbn [mbind option_bind].
  rewrite Hquery. assert (∀ l, starts_with ["/"%char] ("/"%char :: l) = true) as -> by done.
  rewrite (bool_decide_eq_false_2 ("" ≠ "")) by tauto. cbn [negb andb orb].
  rewrite <- Hk. assert (unescape_go (bytes (servicePath ref)) = Some (bytes (servicePath ref))) as ->.
  { rewrite <- (servicePath_escape _ Href) at 1. apply unescape_go_escape. }
  cbn [mbind option_bind fst snd]. eexists; split; [reflexivity|]. cbn [urlPath]. rewrite !of_bytes_bytes. split; [done|].
  rewrite EscapedPath_plain; cbn [urlRawPath urlPath]; [by apply servicePath_escape| |done].
  unfold raw_hint. by rewrite servicePath_escape, bool_decide_eq_true_2.
Qed.

(** ** The client and the dataplane together *)

(** A Service as the dataplane receives it *)
Definition received (s : Service) : Service :=
  MkService (svcNamespace s) (svcName s) (clean_string (svcLoadBalancerClass s)) (clean_string (svcExternalIP s))
    (clean_port <$> svcPorts s).

Lemma utf8_clean_ascii l : (∀ c, c ∈ l → bz c < 128) → utf8_clean l = l.
Proof.
  unfold utf8_clean. intros Hl. induction l as [|c l IH]; [done|]. cbn [length]. rewrite utf8_clean_cons.
  unfold decode_rune. pose proof (Hl c ltac:(by left)) as Hc. pose proof (bz_bound c).
  destruct (bz c <? 128) eqn:E; [|lia]. cbn [drop]. rewrite drop_0. unfold encode_rune.
  destruct (bz c <? 0) eqn:E0; [lia|]. rewrite E, zb_bz. cbn [app]. f_equal. apply IH. intros d Hd. apply Hl. by right.
Qed.

Lemma clean_name s : name_ok s → clean_string s = s.
Proof.
  intros (_ & _ & _ & Hs). unfold clean_string. rewrite utf8_clean_ascii; [apply of_bytes_bytes|].
  intros c Hc. rewrite forallb_spec in Hs. specialize (Hs c Hc). revert Hs. clear.
  destruct c as [[] [] [] [] [] [] [] []]; first [discriminate|done].
Qed.

Lemma clean_received s : ref_ok (Ref s) → clean_service s = received s.
Proof. intros [Hn Hm]. unfold clean_service, received. apply clean_name in Hn, Hm. cbn [Ref refNamespace refName] in Hn, Hm. by rewrite Hn, Hm. Qed.

Section compose.
Context `{GoSort, UnicodeCase} {W E EH : Type}.
Context (A : ConfigApplier W E) (M : ExternalIPManager W E).
Context (detail : RequestError → string) (redirect : Request → string → Response).

Notation serve := (ServeHTTP A M detail redirect).

(** What is assumed of the network between the two: a request that is answered without
    a redirect is handled once, before [Do] returns, or not at all; and a response that
    is returned is the handler's, unless reading its body fails. *)
Class Transport (Do : HTTPRequest → Handler W → Handler W * result EH (HTTPResponse EH)) : Prop :=
  transported : ∀ req r h h' res, wire req = Some r → (∀ l, mux_find r ≠ MuxRedirect l) → Do req h = (h', res) →
    (h' = h ∧ is_Ok res = false) ∨
    (h' = (serve r h).1 ∧
     match res with
     | Ok resp => respStatus resp = rsStatus (serve r h).2 ∧ ∀ b, respBody resp = Ok b → b = rsBody (serve r h).2
     | Err _ => True
     end).

Context (Do : HTTPRequest → Handler W → Handler W * result EH (HTTPResponse EH)).

(** What the client makes of the engine's answer *)
Lemma unmarshal_changed b : unmarshalChanged (encode (changedResponse b) ++ [nl]) = Some (Some b).
Proof. by destruct b; vm_compute. Qed.

(** A request for a Service leaves the client and is routed by the server. *)
Lemma doRequest_sent p method ref body contentType h :
  root_provider p → ref_ok ref →
  ∃ req v, wire req = Some (MkRequest method v body EndEOF) ∧ urlPath v = servicePath ref ∧
    mux_find (MkRequest method v body EndEOF) = MuxRoute RouteServices ∧
    doRequest Do p method ref body contentType h =
      let '(h, res) := Do req h in
      (h, match res with
          | Err e => Err (MkAPIError method ref (serviceURL p ref) (ErrDo e))
          | Ok response => readResponse (MkAPIError method ref (serviceURL p ref)) response
          end).
Proof.
  intros Hp Href. unfold doRequest.
  destruct (service_request p ref method body Hp Href) as (u & Hreq & Ho & Hpath & Hesc & Hq). rewrite Hreq.
  match goal with |- context [Do ?x h] => set (req := x) end.
  assert (∃ hdr, req = MkHTTPRequest method u body hdr) as [hdr ->] by (unfold req; case_bool_decide; by eexists).
  destruct (wire_service ref u method body hdr Href Ho Hpath Hesc Hq) as (v & Hw & Hvp & Hve).
  eexists _, v. split_and!; [done|done|by eapply service_route|]. by destruct (Do _ h) as [? []].
Qed.

(** One request of the client: lost, refused, or run by the engine. *)
Lemma doRequest_refines `{!Transport Do} p method ref body contentType h h' res (c : ApiCall) :
  root_provider p → ref_ok ref →
  (∀ v c', urlPath v = servicePath ref → accepts (hMaxRequestBodyBytes h) (MkRequest method v body EndEOF) c' → c' = c) →
  doRequest Do p method ref body contentType h = (h', res) →
  (h' = h ∧ is_Ok res = false) ∨
  (h' = with_engine h (run_call A M c (hEngine h)).1 ∧ ∀ b, res = Ok b → (run_call A M c (hEngine h)).2 = Ok b).
Proof.
  intros Hp Href Hcall. destruct (doRequest_sent p method ref body contentType h Hp Href) as (req & v & Hw & Hvp & Hm & ->).
  destruct (Do req h) as [h1 res1] eqn:Hdo. set (r := MkRequest method v body EndEOF) in *. intros [= <- <-].
  destruct (transported _ _ _ _ _ Hw ltac:(by rewrite Hm) Hdo) as [[-> Hlost]|[-> Hresp]].
  { destruct res1; [done|]. by left. }
  destruct (accepts_dec (hMaxRequestBodyBytes h) r) as [(c' & Hc & Hv)|Hno].
  - pose proof (Hcall v c' Hvp Hc) as ->. rewrite (ServeHTTP_accepted A M detail redirect _ _ _ Hc Hv) in *.
    cbn [fst snd] in *. right. split; [done|]. intros b. destruct res1 as [resp|]; [|done].
    destruct Hresp as [Hst Hbody]. unfold readResponse.
    destruct (respBody resp) as [bb|]; [|done]. rewrite (Hbody bb eq_refl), Hst.
    destruct (run_call A M c (hEngine h)).2 as [b'|]; [|done]. cbn [engineResponse writeJSON rsStatus rsBody].
    rewrite unmarshal_changed. cbn. congruence.
  - destruct (ServeHTTP_refused A M detail redirect r h Hno) as (rs & Es & Hst). rewrite Es, Hm in *. cbn [fst snd] in *.
    left. split; [done|]. destruct res1 as [resp|]; [|done]. destruct Hresp as [Hst' _]. unfold readResponse.
    destruct (respBody resp); [|done]. rewrite Hst'.
    repeat (apply elem_of_cons in Hst as [->|Hst]; [done|]). by apply not_elem_of_nil in Hst.
Qed.

Lemma accepts_put s limit v c' :
  ref_ok (Ref s) → service_int32 s → urlPath v = servicePath (Ref s) →
  accepts limit (MkRequest MethodPut v (Marshal (servicePayloadFromService s)) EndEOF) c' →
  c' = CallEnsure (received s).
Proof.
  intros Href Hi Hvp Hacc. remember (MkRequest _ _ _ _) as r eqn:Er.
  destruct Hacc as [ref body Hm Hp Hmeth Hd Hns Hname|ref Hm Hp Hmeth]; subst r; cbn [rqMethod rqURL rqBody rqBodyEnd] in *; [|done].
  destruct Href as [Hn Hn'].
  rewrite Hvp, servicePath_ref in Hp by (by apply name_ok_plain). injection Hp as <-. f_equal.
  pose proof Hd as (Hl & _ & _)%decode_request_spec. rewrite payload_decoded in Hd by done. by injection Hd as <-.
Qed.

Lemma api_ensure_refines `{!Transport Do} p s h h' res :
  root_provider p → ref_ok (Ref s) → service_int32 s → apiEnsure Do p s h = (h', res) →
  (h' = h ∧ is_Ok res = false) ∨
  (h' = with_engine h (EngineEnsure A M (received s) (hEngine h)).1 ∧
   ∀ b, res = Ok b → (EngineEnsure A M (received s) (hEngine h)).2 = Ok b).
Proof.
  intros Hp Href Hi. apply (doRequest_refines p MethodPut (Ref s) _ _ h h' res (CallEnsure (received s)) Hp Href).
  intros v c' Hvp. by apply accepts_put.
Qed.

Lemma accepts_del ref limit v c' :
  ref_ok ref → urlPath v = servicePath ref → accepts limit (MkRequest MethodDelete v [] EndEOF) c' → c' = CallDelete ref.
Proof.
  intros [Hn Hm] Hvp Hacc. remember (MkRequest _ _ _ _) as r eqn:Er.
  destruct Hacc as [ref' body Hr Hp Hmeth|ref' Hr Hp Hmeth]; subst r; cbn [rqMethod rqURL] in *; [done|].
  rewrite Hvp, servicePath_ref in Hp by (by apply name_ok_plain). by injection Hp as <-.
Qed.

Lemma api_delete_refines `{!Transport Do} p ref h h' res :
  root_provider p → ref_ok ref → apiDelete Do p ref h = (h', res) →
  (h' = h ∧ is_Ok res = false) ∨
  (h' = with_engine h (EngineDelete A M ref (hEngine h)).1 ∧
   ∀ b, res = Ok b → (EngineDelete A M ref (hEngine h)).2 = Ok b).
Proof.
  intros Hp Href. apply (doRequest_refines p MethodDelete ref _ _ h h' res (CallDelete ref) Hp Href).
  intros v c' Hvp. by apply accepts_del.
Qed.

(** C19. Over any such network, the API provider is the engine behind it: either
    nothing happened and an error is reported, or the engine ran the operation on
    exactly the Service that was sent, and a result that is reported is the engine's
    own. *)
Theorem api_provider_refines `{!Transport Do} p h :
  root_provider p →
  (∀ s h' res, ref_ok (Ref s) → service_int32 s → Ensure (apiProvider Do p) s h = (h', res) →
     (h' = h ∧ is_Ok res = false) ∨
     (h' = with_engine h (EngineEnsure A M (received s) (hEngine h)).1 ∧
      ∀ b, res = Ok b → (EngineEnsure A M (received s) (hEngine h)).2 = Ok b)) ∧
  (∀ ref h' res, ref_ok ref → Delete (apiProvider Do p) ref h = (h', res) →
     (h' = h ∧ is_Ok res = false) ∨
     (h' = with_engine h (EngineDelete A M ref (hEngine h)).1 ∧
      ∀ b, res = Ok b → (EngineDelete A M ref (hEngine h)).2 = Ok b)).
Proof.
  intros Hp. split; intros; [by eapply api_ensure_refines|by eapply api_delete_refines].
Qed.

(** A network that loses nothing *)
Definition reliable : Prop := ∀ req r h, wire req = Some r → (∀ l, mux_find r ≠ MuxRedirect l) →
  Do req h = ((serve r h).1, Ok (MkHTTPResponse (rsStatus (serve r h).2) (Ok (rsBody (serve r h).2)))).

Lemma doRequest_reliable p method ref body contentType h (c : ApiCall) :
  reliable → root_provider p → ref_ok ref → valid_call c = true →
  (∀ v, urlPath v = servicePath ref → mux_find (MkRequest method v body EndEOF) = MuxRoute RouteServices →
     accepts (hMaxRequestBodyBytes h) (MkRequest method v body EndEOF) c) →
  (doRequest Do p method ref body contentType h).1 = with_engine h (run_call A M c (hEngine h)).1 ∧
  ∀ b, (doRequest Do p method ref body contentType h).2 = Ok b ↔ (run_call A M c (hEngine h)).2 = Ok b.
Proof.
  intros Hrel Hp Href Hv Hacc.
  destruct (doRequest_sent p method ref body contentType h Hp Href) as (req & v & Hw & Hvp & Hm & ->).
  rewrite (Hrel _ _ h Hw) by by rewrite Hm.
  rewrite (ServeHTTP_accepted A M detail redirect _ h c (Hacc v Hvp Hm) Hv). cbn [fst snd].
  split; [done|]. intros b. unfold readResponse. cbn [respBody respStatus].
  destruct (run_call A M c (hEngine h)).2 as [b'|]; cbn [engineResponse writeJSON rsStatus rsBody]; [|done].
  rewrite unmarshal_changed. cbn. naive_solver.
Qed.

(** Over a network that loses nothing, ensuring a valid Service whose payload fits
    the dataplane's limit, and deleting one, does what the engine does and reports what
    the engine reports. *)
Theorem api_provider_reliable p h :
  reliable → root_provider p →
  (∀ s, ref_ok (Ref s) → service_int32 s → is_Ok (ValidateService (normalizeService (received s))) = true →
     Z.of_nat (length (Marshal (servicePayloadFromService s))) <= hMaxRequestBodyBytes h →
     (Ensure (apiProvider Do p) s h).1 = with_engine h (EngineEnsure A M (received s) (hEngine h)).1 ∧
     ∀ b, (Ensure (apiProvider Do p) s h).2 = Ok b ↔ (EngineEnsure A M (received s) (hEngine h)).2 = Ok b) ∧
  (∀ ref, ref_ok ref →
     (Delete (apiProvider Do p) ref h).1 = with_engine h (EngineDelete A M ref (hEngine h)).1 ∧
     ∀ b, (Delete (apiProvider Do p) ref h).2 = Ok b ↔ (EngineDelete A M ref (hEngine h)).2 = Ok b).
Proof.
  intros Hrel Hp. split.
  - intros s Href Hi Hv Hl. apply (doRequest_reliable p MethodPut (Ref s) _ _ h (CallEnsure (received s))); [done..|].
    intros v Hvp Hm. pose proof Href as [Hn Hn'].
    change (received s) with (MkService (refNamespace (Ref s)) (refName (Ref s)) (svcLoadBalancerClass (clean_service s))
      (svcExternalIP (clean_service s)) (svcPorts (clean_service s))).
    apply accepts_ensure; [done| |done| | |].
    + cbn [rqURL]. rewrite Hvp. apply servicePath_ref; by apply name_ok_plain.
    + by apply payload_decoded.
    + rewrite clean_received by done. right. by left.
    + rewrite clean_received by done. right. by left.
  - intros ref Href. apply (doRequest_reliable p MethodDelete ref _ _ h (CallDelete ref)); [done..|].
    intros v Hvp Hm. pose proof Href as [Hn Hn']. apply accepts_delete; [done| |done].
    cbn [rqURL]. rewrite Hvp. apply servicePath_ref; by apply name_ok_plain.
Qed.

(** ** The contract of a provider *)

(** A provider used for some Services only; the API server of Kubernetes admits no
    object whose name is outside the domain, so the controller never sees the error. *)
Definition on_domain {X EP} (P : Provider X EP) (ds : Service → bool) (dr : ServiceRef → bool) : Provider X (option EP) :=
  MkProvider
    (λ s w, if ds s then let '(w, r) := Ensure P s w in (w, wrapE Some r) else (w, Err None))
    (λ ref w, if dr ref then let '(w, r) := Delete P ref w in (w, wrapE Some r) else (w, Err None)).

Definition name_okb (s : string) : bool :=
  bool_decide (s ≠ "") && bool_decide (s ≠ ".") && bool_decide (s ≠ "..") && forallb name_byte (bytes s).
Definition ref_okb (ref : ServiceRef) : bool := name_okb (refNamespace ref) && name_okb (refName ref).

Definition int32b (z : Z) : bool := (- 2 ^ 31 <=? z) && (z <? 2 ^ 31).
Definition sendable (s : Service) : bool :=
  ref_okb (Ref s) &&
  forallb (λ p, int32b (portPort p) && forallb (λ b, int32b (bePort b)) (portBackends p)) (svcPorts s).

Lemma ref_okb_spec ref : ref_okb ref = true → ref_ok ref.
Proof. unfold ref_okb, name_okb. intros Hr. bool_props. by repeat split. Qed.

Lemma sendable_spec s : sendable s = true → ref_ok (Ref s) ∧ service_int32 s.
Proof.
  unfold sendable. intros [Hr Hs]%andb_true_iff. split; [by apply ref_okb_spec|].
  apply Forall_forall. intros p Hp. rewrite forallb_spec in Hs. specialize (Hs p Hp). apply andb_true_iff in Hs as [H1 H2].
  unfold int32b in *. split; [unfold int32; lia|]. apply Forall_forall. intros b Hb. rewrite forallb_spec in H2.
  specialize (H2 b Hb). cbn in H2. unfold backend_int32, int32. lia.
Qed.

#[export] Instance api_provider_spec `{!Transport Do} p (Hp : root_provider p) :
  ProviderSpec (on_domain (apiProvider Do p) sendable ref_okb).
Proof.
  refine {| pv_state := λ h, engine_view (hEngine h); pv_norm := λ s, normalizeService (received s) |};
    cbn [Ensure Delete on_domain].
  - done.
  - intros s h h' b. destruct (sendable s) eqn:Hs; [|done]. apply sendable_spec in Hs as [Href Hi].
    destruct (Ensure _ s h) as [h1 res] eqn:He. destruct res as [b'|]; [|done]. intros [= <- <-].
    apply api_ensure_refines in He as [[_ ?]|[-> Hb]]; [done| |done..]. specialize (Hb b' eq_refl).
    destruct (EngineEnsure A M (received s) (hEngine h)) as [e' res] eqn:Ee. cbn in Hb. subst res.
    apply (@pv_ensure_ok _ _ _ (engine_provider_spec A M) _ _ _ _ Ee).
  - intros s h h' err. destruct (sendable s) eqn:Hs; [|intros [= <- _]; by left]. apply sendable_spec in Hs as [Href Hi].
    destruct (Ensure _ s h) as [h1 res] eqn:He. intros [= <- _].
    apply api_ensure_refines in He as [[-> _]|[-> _]]; [by left| |done..].
    destruct (EngineEnsure A M (received s) (hEngine h)) as [e' [b|e]] eqn:Ee; cbn.
    + right. apply (@pv_ensure_ok _ _ _ (engine_provider_spec A M) _ _ _ _ Ee).
    + apply (@pv_ensure_err _ _ _ (engine_provider_spec A M) _ _ _ _ Ee).
  - intros r h h' b. destruct (ref_okb r) eqn:Hr; [|done]. apply ref_okb_spec in Hr.
    destruct (Delete _ r h) as [h1 res] eqn:He. destruct res as [b'|]; [|done]. intros [= <- <-].
    apply api_delete_refines in He as [[_ ?]|[-> Hb]]; [done| |done..]. specialize (Hb b' eq_refl).
    destruct (EngineDelete A M r (hEngine h)) as [e' res] eqn:Ee. cbn in Hb. subst res.
    apply (@pv_delete_ok _ _ _ (engine_provider_spec A M) _ _ _ _ Ee).
  - intros r h h' err. destruct (ref_okb r) eqn:Hr; [|intros [= <- _]; by left]. apply ref_okb_spec in Hr.
    destruct (Delete _ r h) as [h1 res] eqn:He. intros [= <- _].
    apply api_delete_refines in He as [[-> _]|[-> _]]; [by left| |done..].
    destruct (EngineDelete A M r (hEngine h)) as [e' [b|e]] eqn:Ee; cbn.
    + right. apply (@pv_delete_ok _ _ _ (engine_provider_spec A M) _ _ _ _ Ee).
    + apply (@pv_delete_err _ _ _ (engine_provider_spec A M) _ _ _ _ Ee).
Defined.
End compose.
