(* ===== verification/HAProxyProvider.v ===== *)
(** * The local HAProxy provider (internal/provider/haproxy)

    Keeps the desired Services in memory and applies the aggregate configuration
    through a [ConfigApplier]; the in-memory state changes only when the
    application succeeded. *)
From S2P Require Import Prelude GoStrings GoSort NetIP Provider IPAM Store Render FilePath ExternalIPs Engine Apply.
Local Open Scope Z_scope.

(** [Config] of the package *)
Record HAProxyConfig : Type := MkHAProxyConfig {
  hpConfigPath : string;
  hpValidateCommand : string;
  hpReloadCommand : string;
}.

(** [Render] of the package *)
Definition haproxyRender `{GoSort, UnicodeCase} (l : list Service) : result RenderError string := Render l.

(** The comparison of [servicesToList] *)
Definition haproxy_less : Service → Service → bool :=
  lex svcNamespace String.ltb (by_key svcName String.ltb).

Definition cloneServices (m : gmap ServiceRef Service) : gmap ServiceRef Service := DeepCopy <$> m.

Definition servicesToList `{GoSort} (m : gmap ServiceRef Service) : list Service :=
  sort_slice haproxy_less (DeepCopy ∘ snd <$> map_to_list m).

Record HAProxy (W : Type) : Type := MkHAProxy {
  hpServices : gmap ServiceRef Service;
  hpHost : W;
}.
Global Arguments MkHAProxy {W} _ _.
Global Arguments hpServices {W} _.
Global Arguments hpHost {W} _.

(** [NewProvider]: the applier's configuration and the empty state *)
Definition NewHAProxyProvider {W} (cfg : HAProxyConfig) (w : W) : result string (ApplyConfig * HAProxy W) :=
  match NewApplier (MkApplyConfig (hpConfigPath cfg) (hpValidateCommand cfg) (hpReloadCommand cfg) "") with
  | Err e => Err e
  | Ok applier => Ok (applier, MkHAProxy ∅ w)
  end.

Section haproxy.
Context `{GoSort} {W E : Type}.
Variable applier : ConfigApplier W E.

Definition hpApply (m : gmap ServiceRef Service) (w : W) : W * result E bool :=
  ca_Apply applier (servicesToList m) w.

Definition hpEnsure (service : Service) (p : HAProxy W) : HAProxy W * result E bool :=
  let nextState := <[Ref service := DeepCopy service]> (cloneServices (hpServices p)) in
  match hpApply nextState (hpHost p) with
  | (w, Err e) => (MkHAProxy (hpServices p) w, Err e)
  | (w, Ok changed) => (MkHAProxy nextState w, Ok changed)
  end.

Definition hpDelete (ref : ServiceRef) (p : HAProxy W) : HAProxy W * result E bool :=
  let nextState := delete ref (cloneServices (hpServices p)) in
  match hpApply nextState (hpHost p) with
  | (w, Err e) => (MkHAProxy (hpServices p) w, Err e)
  | (w, Ok changed) => (MkHAProxy nextState w, Ok changed)
  end.

Definition haproxyProvider : Provider (HAProxy W) E := MkProvider hpEnsure hpDelete.
End haproxy.

(** ** Facts *)
Lemma cloneServices_id m : cloneServices m = m.
Proof.
  unfold cloneServices. rewrite <- (map_fmap_id m) at 2. apply map_fmap_ext.
  intros r s _. apply DeepCopy_id.
Qed.

(** Entries sit under their own reference. *)
Definition keyed (m : gmap ServiceRef Service) : Prop := ∀ r s, m !! r = Some s → Ref s = r.

Section haproxy_facts.
Context `{GoSort, UnicodeCase} {W E : Type} (A : ConfigApplier W E).

#[export] Instance haproxy_spec : ProviderSpec (haproxyProvider A).
Proof.
  refine {| pv_state := hpServices; pv_norm := id |}; cbn [Ensure Delete haproxyProvider];
    unfold hpEnsure, hpDelete; rewrite ?DeepCopy_id.
  - done.
  - intros s p p' b. rewrite cloneServices_id, DeepCopy_id.
    destruct (hpApply A _ _) as [w [c|e]]; [|done]. by intros [= <- _].
  - intros s p p' e. destruct (hpApply A _ _) as [w [c|e']]; [done|]. intros [= <- _]. by left.
  - intros r p p' b. rewrite cloneServices_id.
    destruct (hpApply A _ _) as [w [c|e]]; [|done]. by intros [= <- _].
  - intros r p p' e. destruct (hpApply A _ _) as [w [c|e']]; [done|]. intros [= <- _]. by left.
Defined.

(** The list handed to the applier: the entries, in any order of the map, sorted. *)
Lemma servicesToList_elem m s : keyed m → s ∈ servicesToList m ↔ m !! Ref s = Some s.
Proof.
  intros Hk. unfold servicesToList. rewrite sort_slice_elem, list_elem_of_fmap. split.
  - intros ([r x] & -> & Hx). cbn. rewrite DeepCopy_id. apply elem_of_map_to_list in Hx.
    by rewrite (Hk _ _ Hx).
  - intros Hs. exists (Ref s, s). cbn. rewrite DeepCopy_id. split; [done|]. by apply elem_of_map_to_list.
Qed.

(** C29. The local provider is transactional: on success its state has exactly the
    requested change and the active configuration is the document of that state,
    the reported change being exact; on an error its state is unchanged and the
    active configuration is the old one or the new document. *)
Theorem haproxy_correct `{!ApplierSpec A} p p' res (s : Service) (r : ServiceRef) m :
  (hpEnsure A s p = (p', res) ∧ m = <[Ref s := s]> (hpServices p)) ∨
  (hpDelete A r p = (p', res) ∧ m = delete r (hpServices p)) →
  match res with
  | Ok b => hpServices p' = m ∧
      ∃ doc, Render (servicesToList m) = Ok doc ∧ ap_config (hpHost p') = Some doc ∧
        b = bool_decide (ap_config (hpHost p) ≠ Some doc)
  | Err _ => hpServices p' = hpServices p ∧
      (ap_config (hpHost p') = ap_config (hpHost p) ∨
       ∃ doc, Render (servicesToList m) = Ok doc ∧ ap_config (hpHost p') = Some doc)
  end.
Proof.
  assert (∀ m w' r, hpApply A m (hpHost p) = (w', r) →
    match r with
    | Ok b => ∃ doc, Render (servicesToList m) = Ok doc ∧ ap_config w' = Some doc ∧
        b = bool_decide (ap_config (hpHost p) ≠ Some doc)
    | Err _ => ap_config w' = ap_config (hpHost p) ∨
        ∃ doc, Render (servicesToList m) = Ok doc ∧ ap_config w' = Some doc
    end) as Hap.
  { intros m' w' [b|e] Ha; [by apply ap_apply_ok in Ha|by apply ap_apply_err in Ha]. }
  unfold hpEnsure, hpDelete. rewrite cloneServices_id, DeepCopy_id.
  intros [[Hr ->]|[Hr ->]]; (destruct (hpApply A _ _) as [w [c|e]] eqn:Ha; injection Hr as <- <-;
    apply Hap in Ha; by split).
Qed.
End haproxy_facts.
