(* ===== verification/ControllerMain.v ===== *)
(** * The controller binary (cmd/main.go, internal/controller/setup.go)

    Start-up: the configuration, the logger, the inspection of a local kubeconfig, the
    choice of the provider and the registration of the controller; what is logged of
    the configuration; and the two threads that announce a graceful shutdown.
    client-go's loading rules, the manager and the file system are parameters. *)
From S2P Require Import Prelude GoStrings GoSort NetIP GoURL Kube Provider IPAM Render Engine FilePath Apply GoTime.
From S2P Require Import Config Metrics Controller HAProxyProvider HTTPApi DataplaneAPI.
Local Open Scope Z_scope.

(** ** The logger *)

(** zapcore's levels *)
Definition DebugLevel : Z := -1.
Definition InfoLevel : Z := 0.
Definition WarnLevel : Z := 1.
Definition ErrorLevel : Z := 2.

Definition parseLogLevel (levelName : string) : result string Z :=
  if bool_decide (levelName = LogLevelDebug) then Ok DebugLevel else
  if bool_decide (levelName = LogLevelInfo) then Ok InfoLevel else
  if bool_decide (levelName = LogLevelWarn) then Ok WarnLevel else
  if bool_decide (levelName = LogLevelError) then Ok ErrorLevel else
  Err levelName.

Record LoggerOptions : Type := MkLoggerOptions { Development : bool; Level : Z }.

Definition configureLogger (levelName : string) : result string LoggerOptions :=
  level ← parseLogLevel levelName; Ok (MkLoggerOptions (bool_decide (level = DebugLevel)) level).

(** ** The provider *)
Inductive ServiceProvider : Type :=
| LocalHAProxy (applier : ApplyConfig)
| RemoteDataplane (p : APIProvider).

Inductive ProviderError : Type :=
| ErrHAProxyProvider (e : string)
| ErrAPIProvider (e : NewProviderError)
| ErrUnsupportedMode (mode : string).

Definition buildProvider (cfg : Config) : result ProviderError ServiceProvider :=
  if bool_decide (ProviderMode cfg = ProviderModeLocalHAProxy) then
    match NewHAProxyProvider
      (MkHAProxyConfig (HAProxyConfigPath cfg) (HAProxyValidateCommand cfg) (HAProxyReloadCommand cfg)) () with
    | Err e => Err (ErrHAProxyProvider e)
    | Ok (applier, _) => Ok (LocalHAProxy applier)
    end
  else if bool_decide (ProviderMode cfg = ProviderModeDataplaneAPI) then
    match NewProvider (MkAPIConfig (DataplaneAPIURL cfg) (DataplaneAPITimeout cfg)) with
    | Err e => Err (ErrAPIProvider e)
    | Ok p => Ok (RemoteDataplane p)
    end
  else Err (ErrUnsupportedMode (ProviderMode cfg)).

(** The URL without the user, the query and the fragment *)
Definition redacted (u : URL) : URL :=
  MkURL (urlScheme u) (urlOpaque u) None (urlHost u) (urlPath u) (urlRawPath u) (urlOmitHost u) (urlForceQuery u)
    "" "" (urlRawFragment u).

Definition redactURLForLog (rawURL : string) : string :=
  match url_Parse rawURL with
  | None => rawURL
  | Some parsedURL => URLString (redacted parsedURL)
  end.

(** The values of a log line: texts, lists of them, truth values and durations *)
Inductive LogValue : Type := LogText (s : string) | LogTexts (l : list string) | LogBool (b : bool) | LogDuration (d : Z).

Definition logProviderConfiguration (cfg : Config) : list (string * LogValue) :=
  if bool_decide (ProviderMode cfg = ProviderModeLocalHAProxy) then
    [("providerMode", LogText (ProviderMode cfg)); ("haproxyConfigPath", LogText (HAProxyConfigPath cfg));
     ("haproxyValidateEnabled", LogBool (bool_decide (HAProxyValidateCommand cfg ≠ "")));
     ("haproxyReloadEnabled", LogBool (bool_decide (HAProxyReloadCommand cfg ≠ "")))]
  else if bool_decide (ProviderMode cfg = ProviderModeDataplaneAPI) then
    [("providerMode", LogText (ProviderMode cfg)); ("dataplaneAPIURL", LogText (redactURLForLog (DataplaneAPIURL cfg)));
     ("dataplaneAPITimeout", LogDuration (DataplaneAPITimeout cfg))]
  else [("providerMode", LogText (ProviderMode cfg))].

(** ** The local kubeconfig *)
Definition likelyInClusterEnvironment (env : Env) : bool :=
  bool_decide (env !! "KUBERNETES_SERVICE_HOST" ≠ None) && bool_decide (env !! "KUBERNETES_SERVICE_PORT" ≠ None).

Fixpoint kubeconfigFlagValue (args : list string) : string :=
  match args with
  | [] => ""
  | a :: args =>
    let arg := TrimSpace a in
    if HasPrefix arg "--kubeconfig=" then TrimSpace (TrimPrefix arg "--kubeconfig=") else
    if HasPrefix arg "-kubeconfig=" then TrimSpace (TrimPrefix arg "-kubeconfig=") else
    if bool_decide (arg = "--kubeconfig") || bool_decide (arg = "-kubeconfig")
    then match args with [] => "" | next :: _ => TrimSpace next end
    else kubeconfigFlagValue args
  end.

Inductive kubeconfigDiagnosticKind : Type := MissingCurrentContext | NoKubeconfig.

Record kubeconfigDiagnostic : Type := MkDiagnostic {
  dgKind : kubeconfigDiagnosticKind;
  dgKubeconfigPath : string;
  dgAvailableContexts : list string;
  dgCheckedSources : list string;
  dgSuggestedCommand : string;
}.

(** The part of a kubeconfig that is inspected: the current context and the names of
    the contexts, in the order of an iteration over the map *)
Record RawConfig : Type := MkRawConfig { CurrentContext : string; Contexts : list string }.

Section kubeconfig.
Context `{GoSort} {E : Type}.
(** [os.Stat]: whether the file is a directory; [None] is an error *)
Variable Stat : string → option bool.
(** clientcmd's loading rules, given the explicit path *)
Variable GetLoadingPrecedence : string → list string.
Variable LoadKubeconfig : string → result E RawConfig.

Definition existingKubeconfigPaths (paths : list string) : list string :=
  filter (λ p : string, p ≠ "" ∧ Stat p = Some false) paths.

Definition diagnoseLocalKubeconfig (args : list string) : result E (option kubeconfigDiagnostic) :=
  let explicitPath := kubeconfigFlagValue args in
  let checkedSources := GetLoadingPrecedence explicitPath in
  let existingSources := existingKubeconfigPaths checkedSources in
  match existingSources with
  | [] => Ok (Some (MkDiagnostic NoKubeconfig "" [] checkedSources ""))
  | firstSource :: _ =>
    match LoadKubeconfig explicitPath with
    | Err e => Err e
    | Ok rawConfig =>
      if bool_decide (CurrentContext rawConfig ≠ "") || bool_decide (Contexts rawConfig = []) then Ok None else
      match sort_slice String.ltb (Contexts rawConfig) with
      | [] => Ok None
      | context :: _ as availableContexts =>
        Ok (Some (MkDiagnostic MissingCurrentContext firstSource availableContexts checkedSources
                    ("kubectl config use-context " +:+ context)))
      end
    end
  end.

(** The message and the fields that are logged of it *)
Definition logPreflightKubeconfigDiagnostic (d : kubeconfigDiagnostic) : string * list (string * LogValue) :=
  match dgKind d with
  | MissingCurrentContext =>
    ("kubeconfig found, but current-context is not set",
     [("kubeconfigPath", LogText (dgKubeconfigPath d)); ("availableContexts", LogTexts (dgAvailableContexts d))] ++
     (if bool_decide (dgSuggestedCommand d ≠ "") then [("suggestedCommand", LogText (dgSuggestedCommand d))] else []))
  | NoKubeconfig => ("no kubeconfig found for local run", [("checkedSources", LogTexts (dgCheckedSources d))])
  end.
End kubeconfig.

(** ** Start-up *)

(** [SetupControllers] and [SetupWithManager]: the registration of the reconciler *)
Record Registration (P : Type) : Type := MkRegistration {
  rgName : string;
  rgServicePredicate : WatchEvent KService → bool;
  rgSlicePredicate : WatchEvent EndpointSlice → bool;
  rgSliceRequests : option EndpointSlice → list NamespacedName;
  rgConfig : Config;
  rgProvider : P;
}.
Global Arguments MkRegistration {P} _ _ _ _ _ _.
Global Arguments rgName {P} _.
Global Arguments rgServicePredicate {P} _ _.
Global Arguments rgSlicePredicate {P} _ _.
Global Arguments rgSliceRequests {P} _ _.
Global Arguments rgConfig {P} _.
Global Arguments rgProvider {P} _.

Definition serviceControllerName : string := "service".

Definition SetupWithManager {P} (cfg : Config) (p : P) : Registration P :=
  MkRegistration serviceControllerName serviceReconcilePredicate endpointSliceReconcilePredicate
    endpointSliceToServiceRequests cfg p.

Definition SetupControllers {P} (cfg : Config) (serviceProvider : option P) : result string (Registration P) :=
  match serviceProvider with
  | None => Err "service provider is nil"
  | Some p => Ok (SetupWithManager cfg p)
  end.

(** The options of the manager *)
Record ManagerOptions : Type := MkManagerOptions {
  moMetricsBindAddress : string;
  moHealthProbeBindAddress : string;
  moLeaderElection : bool;
  moLeaderElectionID : string;
  moGracefulShutdownTimeout : Z;
}.

Definition managerOptions (cfg : Config) : ManagerOptions :=
  MkManagerOptions (MetricsAddr cfg) (HealthAddr cfg) (LeaderElect cfg) "lbcontroller.voronkov44.dev"
    (GracefulShutdownTimeout cfg).

Inductive MainError (ED E : Type) : Type :=
| ErrMainDotEnv (e : ED)
| ErrMainConfig (e : ConfigError)
| ErrMainLogger (levelName : string)
| ErrMainKubeconfig (e : E)
| ErrMainPreflight (d : kubeconfigDiagnostic)
| ErrMainClientConfig (e : E)
| ErrMainManager (e : E)
| ErrMainProvider (e : ProviderError)
| ErrMainSetup (e : string)
| ErrMainRegister (e : E)
| ErrMainHealth (e : E).
Global Arguments ErrMainDotEnv {ED E} _.
Global Arguments ErrMainConfig {ED E} _.
Global Arguments ErrMainLogger {ED E} _.
Global Arguments ErrMainKubeconfig {ED E} _.
Global Arguments ErrMainPreflight {ED E} _.
Global Arguments ErrMainClientConfig {ED E} _.
Global Arguments ErrMainManager {ED E} _.
Global Arguments ErrMainProvider {ED E} _.
Global Arguments ErrMainSetup {ED E} _.
Global Arguments ErrMainRegister {ED E} _.
Global Arguments ErrMainHealth {ED E} _.

(** What has been set up when the manager starts *)
Record Started : Type := MkStarted {
  stConfig : Config;
  stLogger : LoggerOptions;
  stManager : ManagerOptions;
  stProvider : ServiceProvider;
  stRegistration : Registration (instrumentedProvider ServiceProvider);
}.

(** The libraries [main] calls: client-go's and controller-runtime's constructors and
    registrations, which may fail *)
Record Libraries (E : Type) : Type := MkLibraries {
  lbStat : string → option bool;
  lbPrecedence : string → list string;
  lbLoad : string → result E RawConfig;
  lbGetConfig : result E ();
  lbNewManager : ManagerOptions → result E ();
  lbRegister : Registration (instrumentedProvider ServiceProvider) → result E ();
  lbAddHealthzCheck : string → result E ();
  lbAddReadyzCheck : string → result E ();
}.
Global Arguments MkLibraries {E} _ _ _ _ _ _ _ _.
Global Arguments lbStat {E} _ _.
Global Arguments lbPrecedence {E} _ _.
Global Arguments lbLoad {E} _ _.
Global Arguments lbGetConfig {E} _.
Global Arguments lbNewManager {E} _ _.
Global Arguments lbRegister {E} _ _.
Global Arguments lbAddHealthzCheck {E} _ _.
Global Arguments lbAddReadyzCheck {E} _ _.

(** The inspection of a local kubeconfig, outside a cluster *)
Definition preflight `{GoSort} {ED E} (lib : Libraries E) (env : Env) (args : list string) : result (MainError ED E) () :=
  if likelyInClusterEnvironment env then Ok () else
  match diagnoseLocalKubeconfig (lbStat lib) (lbPrecedence lib) (lbLoad lib) args with
  | Err e => Err (ErrMainKubeconfig e)
  | Ok (Some d) => Err (ErrMainPreflight d)
  | Ok None => Ok ()
  end.

(** [main] up to the start of the manager *)
Definition startController `{GoSort, UnicodeCase} {ED E} (lib : Libraries E)
    (dotenv : result (() + ED) (list (string * string))) (env : Env) (args : list string) :
    result (MainError (DotEnvError ED) E) Started :=
  match LoadDotEnv dotenv env with
  | (_, Err e) => Err (ErrMainDotEnv e)
  | (env, Ok _) =>
    cfg ← wrapE ErrMainConfig (Load env);
    logger ← wrapE ErrMainLogger (configureLogger (LogLevel cfg));
    _ ← preflight lib env args;
    _ ← wrapE ErrMainClientConfig (lbGetConfig lib);
    _ ← wrapE ErrMainManager (lbNewManager lib (managerOptions cfg));
    serviceProvider ← wrapE ErrMainProvider (buildProvider cfg);
    let instrumentedProvider := WrapProvider NewProviderMetrics serviceProvider in
    registration ← wrapE ErrMainSetup (SetupControllers cfg (Some instrumentedProvider));
    _ ← wrapE ErrMainRegister (lbRegister lib registration);
    _ ← wrapE ErrMainHealth (lbAddHealthzCheck lib "healthz");
    _ ← wrapE ErrMainHealth (lbAddReadyzCheck lib "readyz");
    Ok (MkStarted cfg logger (managerOptions cfg) serviceProvider registration)
  end.

(** ** Graceful shutdown

    Two threads share [gracefulShutdownObserver]: the goroutine of
    [observeGracefulShutdown], which waits for the signal, and [main] after
    [mgr.Start] has returned.  Both call [logStarted]; its compare-and-swap lets one
    of them write the announcement, one line at a time. *)
Module Shutdown.

Definition msgReceived : string := "shutdown signal received".
Definition msgStarted : string := "graceful shutdown started".
Definition msgCompleted : string := "graceful shutdown completed".
Definition msgFailed : string := "graceful shutdown failed".
Definition msgProblem : string := "problem running manager".

(** Where the goroutine is: waiting, about to write the first or the second line *)
Inductive observer_pc : Type := ObWaiting | ObFirst | ObSecond | ObDone.

(** Where [main] is; [failed] is whether [mgr.Start] returned an error *)
Inductive main_pc : Type :=
| MnRunning
| MnReturned (failed : bool)
| MnSignalled (failed : bool)
| MnFirst (failed : bool)
| MnSecond (failed : bool)
| MnFinal (failed : bool)
| MnExited (code : Z).

Record state : Type := MkState {
  signalled : bool;
  started : bool;
  observer : observer_pc;
  main : main_pc;
  log : list string;
}.

Definition initial : state := MkState false false ObWaiting MnRunning [].

Definition alive (s : state) : Prop := match main s with MnExited _ => False | _ => True end.

Inductive step : state → state → Prop :=
| step_signal s : alive s → signalled s = false →
    step s (MkState true (started s) (observer s) (main s) (log s))
| step_observer_win s : alive s → signalled s = true → observer s = ObWaiting → started s = false →
    step s (MkState true true ObFirst (main s) (log s))
| step_observer_lose s : alive s → signalled s = true → observer s = ObWaiting → started s = true →
    step s (MkState true true ObDone (main s) (log s))
| step_observer_first s : alive s → observer s = ObFirst →
    step s (MkState (signalled s) (started s) ObSecond (main s) (log s ++ [msgReceived]))
| step_observer_second s : alive s → observer s = ObSecond →
    step s (MkState (signalled s) (started s) ObDone (main s) (log s ++ [msgStarted]))
| step_return s failed : main s = MnRunning →
    step s (MkState (signalled s) (started s) (observer s) (MnReturned failed) (log s))
| step_check s failed : main s = MnReturned failed → signalled s = true →
    step s (MkState true (started s) (observer s) (MnSignalled failed) (log s))
| step_problem s : main s = MnReturned true → signalled s = false →
    step s (MkState false (started s) (observer s) (MnExited 1) (log s ++ [msgProblem]))
| step_end s : main s = MnReturned false → signalled s = false →
    step s (MkState false (started s) (observer s) (MnExited 0) (log s))
| step_main_win s failed : main s = MnSignalled failed → started s = false →
    step s (MkState (signalled s) true (observer s) (MnFirst failed) (log s))
| step_main_lose s failed : main s = MnSignalled failed → started s = true →
    step s (MkState (signalled s) true (observer s) (MnFinal failed) (log s))
| step_main_first s failed : main s = MnFirst failed →
    step s (MkState (signalled s) (started s) (observer s) (MnSecond failed) (log s ++ [msgReceived]))
| step_main_second s failed : main s = MnSecond failed →
    step s (MkState (signalled s) (started s) (observer s) (MnFinal failed) (log s ++ [msgStarted]))
| step_final_ok s : main s = MnFinal false →
    step s (MkState (signalled s) (started s) (observer s) (MnExited 0) (log s ++ [msgCompleted]))
| step_final_failed s : main s = MnFinal true →
    step s (MkState (signalled s) (started s) (observer s) (MnExited 1) (log s ++ [msgFailed])).

Definition reachable : state → Prop := rtc step initial.

(** The announcement in the log *)
Definition announced (l : list string) : list string := filter (λ m, m = msgReceived ∨ m = msgStarted) l.

(** How much of it has been written, from where the two threads are *)
Definition progress (s : state) : list string :=
  match observer s, main s with
  | ObFirst, _ | _, MnFirst _ => []
  | ObSecond, _ | _, MnSecond _ => [msgReceived]
  | _, _ => if started s then [msgReceived; msgStarted] else []
  end.

Definition observer_writes (s : state) : bool := match observer s with ObFirst | ObSecond => true | _ => false end.
Definition main_writes (s : state) : bool := match main s with MnFirst _ | MnSecond _ => true | _ => false end.

(** At most one thread writes, only after the signal and the swap. *)
Definition inv (s : state) : Prop :=
  announced (log s) = progress s ∧
  (started s = true → signalled s = true) ∧
  (observer s ≠ ObWaiting → started s = true) ∧
  match main s with MnFirst _ | MnSecond _ | MnFinal _ => started s = true | MnSignalled _ => signalled s = true | _ => True end ∧
  observer_writes s && main_writes s = false.

Lemma announced_app l k : announced (l ++ k) = announced l ++ announced k.
Proof. apply filter_app. Qed.

Lemma step_inv s s' : step s s' → inv s → inv s'.
Proof.
  intros Hs (H1 & H2 & H3 & H4 & H5).
  destruct Hs; destruct s as [sg st ob mn lg]; cbn [signalled started observer main log] in *; subst;
    unfold inv; cbn [signalled started observer main log]; rewrite ?announced_app, H1;
    unfold progress, observer_writes, main_writes in *; cbn [signalled started observer main log] in *.
  all: try destruct ob; try destruct st; try (by exfalso; specialize (H3 ltac:(discriminate)); discriminate H3).
  all: try discriminate.
  all: try (split_and!; [reflexivity|auto|auto|auto|reflexivity]; fail).
  all: try (destruct mn; try discriminate; split_and!; first [reflexivity|assumption|discriminate|done]; fail).
Qed.

Lemma reachable_inv s : reachable s → inv s.
Proof.
  unfold reachable. intros Hr. remember initial as i eqn:Ei.
  assert (inv i) as Hi by (subst; by split_and!). clear Ei. induction Hr as [|i j k Hs _ IH]; [done|]. eauto using step_inv.
Qed.
(** However the two threads and the signal interleave, the start of the shutdown is
    announced at most once, its two lines in order, and only after the signal. *)
Theorem shutdown_announced_once s :
  reachable s →
  announced (log s) `prefix_of` [msgReceived; msgStarted] ∧
  (announced (log s) ≠ [] → signalled s = true).
Proof.
  intros (H1 & H2 & H3 & H4 & H5)%reachable_inv. split_and!.
  - rewrite H1. unfold progress. destruct (observer s), (main s), (started s);
      first [by eexists|apply prefix_nil|apply (prefix_app_r [msgReceived]); reflexivity].
  - rewrite H1. unfold progress. destruct (started s) eqn:Es; [auto|].
    destruct (observer s), (main s); try done; by specialize (H3 ltac:(done)).
Qed.

(** Every action of a thread brings the end nearer. *)
Definition main_left (m : main_pc) : nat :=
  match m with
  | MnRunning => 6 | MnReturned _ => 5 | MnSignalled _ => 4 | MnFirst _ => 3 | MnSecond _ => 2 | MnFinal _ => 1
  | MnExited _ => 0
  end.
Definition observer_left (o : observer_pc) : nat :=
  match o with ObWaiting => 3 | ObFirst => 2 | ObSecond => 1 | ObDone => 0 end.
Definition steps_left (s : state) : nat :=
  (if signalled s then 0 else 1) + observer_left (observer s) + main_left (main s).

Lemma step_decreases s s' : step s s' → (steps_left s' < steps_left s)%nat.
Proof.
  unfold steps_left. destruct 1 as [s _ E|s _ E1 E2 _|s _ E1 E2 _|s _ E|s _ E|s f E|s f E1 E2|s E1 E2|s E1 E2|s f E1 _|s f E1 _|s f E|s f E|s E|s E];
    cbn [signalled observer main observer_left main_left]; rewrite ?E, ?E1, ?E2; cbn; try destruct (signalled s); lia.
Qed.

Lemma nsteps_bound n s s' : nsteps step n s s' → (n + steps_left s' <= steps_left s)%nat.
Proof. induction 1 as [|n x y z Hxy _ IH]; [lia|]. apply step_decreases in Hxy. lia. Qed.

(** Once the manager has returned, [main] can always go on by itself. *)
Lemma main_progress s : main_left (main s) ≠ 0%nat → ∃ s', step s s' ∧ (main_left (main s') < main_left (main s))%nat.
Proof.
  intros Hm. destruct (main s) as [|f|f|f|f|f|c] eqn:Em; [| | | | | |done].
  - eexists. split; [by apply (step_return _ false)|]. cbn. lia.
  - destruct (signalled s) eqn:Es; [|destruct f].
    + eexists. split; [by eapply step_check|]. cbn. lia.
    + eexists. split; [by eapply step_problem|]. cbn. lia.
    + eexists. split; [by eapply step_end|]. cbn. lia.
  - destruct (started s) eqn:Es; eexists; (split; [first [by eapply step_main_lose|by eapply step_main_win]|]); cbn; lia.
  - eexists. split; [by eapply step_main_first|]. cbn. lia.
  - eexists. split; [by eapply step_main_second|]. cbn. lia.
  - destruct f; eexists; (split; [first [by eapply step_final_failed|by eapply step_final_ok]|]); cbn; lia.
Qed.

(** The shutdown terminates.  However the threads are scheduled, a run has at most
    ten actions; a run that cannot go on has ended the process; and every state can
    reach the end of the process. *)
Theorem shutdown_terminates :
  (∀ n s, nsteps step n initial s → (n <= 10)%nat) ∧
  (∀ s, (∀ s', ¬ step s s') → ∃ code, main s = MnExited code) ∧
  (∀ s, ∃ s' code, rtc step s s' ∧ main s' = MnExited code).
Proof.
  split_and!.
  - intros n s Hn%nsteps_bound. cbn in Hn. lia.
  - intros s Hstuck. destruct (main s) as [| | | | | |code] eqn:Em; [..|by eexists].
    all: destruct (main_progress s) as (s' & Hs & _); [by rewrite Em|by destruct (Hstuck s')].
  - intros s. remember (main_left (main s)) as n eqn:En. induction (Nat.lt_wf_0 n) as [n _ IH] in s, En |- *. subst n.
    destruct (decide (main_left (main s) = 0%nat)) as [E|E].
    + exists s. destruct (main s) eqn:Em; try discriminate E. eexists. split; [reflexivity|done].
    + destruct (main_progress s E) as (s' & Hs & Hlt).
      destruct (IH _ Hlt s' eq_refl) as (s2 & code & Hr & He). exists s2, code. split; [by eapply rtc_l|done].
Qed.

(** The announcement can be missing: the goroutine wins the swap, and [main] reports the
    completion and exits before the goroutine writes. *)
Example shutdown_announcement_lost :
  ∃ s, reachable s ∧ main s = MnExited 0 ∧ signalled s = true ∧ log s = [msgCompleted].
Proof.
  exists (MkState true true ObFirst (MnExited 0) [msgCompleted]). split; [|done]. unfold reachable.
  eapply rtc_l; [by apply step_signal|]. eapply rtc_l; [by apply step_observer_win|].
  eapply rtc_l; [by apply (step_return _ false)|]. eapply rtc_l; [by eapply step_check|].
  eapply rtc_l; [by eapply step_main_lose|]. eapply rtc_l; [by eapply step_final_ok|]. cbn. apply rtc_refl.
Qed.
End Shutdown.

(** ** Facts *)

(** A URL text without percent signs, spaces and bytes above ASCII *)
Definition plain_text (s : string) : bool := forallb (λ c, solid c && bool_decide (c ≠ "%"%char)) (bytes s).

Lemma plain_solid s : plain_text s = true → forallb solid (bytes s) = true ∧ "%"%char ∉ bytes s.
Proof.
  unfold plain_text. rewrite !forallb_spec. intros Hs. split.
  - intros c Hc. specialize (Hs c Hc). by bool_props.
  - intros Hc. specialize (Hs _ Hc). by bool_props.
Qed.

(** A percent sign of the host is printed as one. *)
Lemma URLString_host_percent u :
  urlScheme u ≠ "" → urlOpaque u = "" → urlHost u ≠ "" → "%"%char ∈ bytes (urlHost u) → "%"%char ∈ bytes (URLString u).
Proof.
  intros Hs Ho Hh Hp.
  assert ("%"%char ∈ bytes (escape (urlHost u) encodeHost)) as He.
  { rewrite bytes_escape. apply list_elem_of_bind. exists "%"%char. split; [by left|done]. }
  assert ("%"%char ∈ bytes (url_prefix u)) as Hpre.
  { unfold url_prefix. rewrite (bool_decide_eq_false_2 (urlScheme u = "")), (bool_decide_eq_false_2 (urlHost u = "")) by done.
    rewrite !andb_false_r. cbn [andb]. rewrite !bytes_app, !elem_of_app. tauto. }
  unfold URLString. rewrite (bool_decide_eq_false_2 (urlOpaque u ≠ "")) by tauto.
  rewrite (bytes_app _ (_ +:+ _)), elem_of_app, bytes_app, elem_of_app. left. left.
  set (pre := if bool_decide (EscapedPath u ≠ "") && _ && _ then _ else _).
  assert ("%"%char ∈ bytes pre) as Hpre'.
  { unfold pre. destruct (_ && _ && _); [|done]. rewrite bytes_app, elem_of_app. by left. }
  destruct (bool_decide (pre = "") && _) eqn:Ep; [|done]. bool_props.
  match goal with H : pre = "" |- _ => rewrite H in Hpre'; by apply not_elem_of_nil in Hpre' end.
Qed.


Lemma loaded_url_ok cfg :
  loaded_url cfg → ProviderMode cfg = ProviderModeDataplaneAPI → plain_text (DataplaneAPIURL cfg) = true →
  ∃ u, DataplaneAPIURL cfg = URLString u ∧ url_ok u.
Proof.
  intros Hl Hm Hp. destruct (Hl Hm) as (value & u & Hparse & Hs & Hh & Hu). exists u. split; [done|].
  apply (url_Parse_ok value); [done..|]. intros Hc. apply plain_solid in Hp as [_ Hp]. apply Hp. rewrite Hu.
  apply URLString_host_percent; [|by eapply url_Parse_opaque|done|done]. intros E. rewrite E in Hs. set_solver.
Qed.

Lemma NewProvider_url u timeout :
  url_ok u → forallb solid (bytes (URLString u)) = true → 0 < timeout →
  ∃ p, NewProvider (MkAPIConfig (URLString u) timeout) = Ok p ∧ url_ok (baseURL p) ∧ clientTimeout p = timeout ∧
    urlScheme (baseURL p) = urlScheme u ∧ urlHost (baseURL p) = urlHost u ∧ urlPath (baseURL p) = urlPath u.
Proof.
  intros Hu Hsolid Ht. unfold NewProvider. cbn [BaseURL Timeout]. rewrite TrimSpace_solid by done.
  rewrite bool_decide_eq_false_2.
  2:{ intros E. pose proof (URLString_bytes u Hu) as Eb. rewrite E in Eb. by destruct (bytes (urlScheme u)). }
  destruct (url_roundtrip u Hu) as (u' & -> & Hok & Hs & _ & Hh & Hpath & _).
  assert (IsAbs u' = true) as ->.
  { apply bool_decide_eq_true. intros E. pose proof (ok_scheme _ Hok) as Hsch. rewrite E in Hsch. set_solver. }
  rewrite (bool_decide_eq_false_2 (urlHost u' = "")) by apply Hok. cbn [negb orb].
  assert (bool_decide (urlScheme u' ≠ "http") && bool_decide (urlScheme u' ≠ "https") = false) as ->.
  { apply andb_false_iff. rewrite !bool_decide_eq_false. pose proof (ok_scheme _ Hok). set_solver. }
  destruct (timeout <=? 0) eqn:E; [lia|]. eexists; split; [reflexivity|]. by split_and!.
Qed.

(** The provider of a loaded configuration *)
Definition provider_of (cfg : Config) (P : ServiceProvider) : Prop :=
  match P with
  | LocalHAProxy a => ProviderMode cfg = ProviderModeLocalHAProxy ∧ ConfigPath a = Clean (TrimSpace (HAProxyConfigPath cfg))
  | RemoteDataplane p =>
    ProviderMode cfg = ProviderModeDataplaneAPI ∧ url_ok (baseURL p) ∧ clientTimeout p = DataplaneAPITimeout cfg
  end.

Lemma buildProvider_spec `{UnicodeCase} env cfg :
  Load env = Ok cfg → (ProviderMode cfg = ProviderModeDataplaneAPI → plain_text (DataplaneAPIURL cfg) = true) →
  ∃ P, buildProvider cfg = Ok P ∧ provider_of cfg P.
Proof.
  intros Hload Hplain. pose proof (Load_spec env) as Hs. rewrite Hload in Hs. destruct Hs as (Hwf & Htrim & Hurl).
  destruct Hwf as (_ & _ & _ & _ & _ & _ & Ht & _ & Hmode & _). unfold buildProvider.
  case_bool_decide as Hl; [|case_bool_decide as Hd].
  - unfold NewHAProxyProvider, NewApplier. cbn [ConfigPath ValidateCommand ReloadCommand PIDFile hpConfigPath].
    rewrite bool_decide_eq_false_2 by done. eexists; split; [reflexivity|]. by split.
  - specialize (Hplain Hd). destruct (loaded_url_ok cfg Hurl Hd Hplain) as (u & Hu & Hok).
    apply plain_solid in Hplain as [Hsolid _]. rewrite Hu in *.
    destruct (NewProvider_url u (DataplaneAPITimeout cfg) Hok Hsolid ltac:(lia)) as (p & -> & Hp & Htime & _).
    eexists; split; [reflexivity|]. by split_and!.
  - exfalso. unfold supportedProviderModes in Hmode. set_solver.
Qed.

Lemma logLevel_loaded level : level ∈ supportedLogLevels → ∃ l, parseLogLevel level = Ok l.
Proof.
  intros Hl. repeat (apply elem_of_cons in Hl as [->|Hl]; [eexists; reflexivity|]). by apply not_elem_of_nil in Hl.
Qed.

Lemma start_controller_spec `{GoSort, UnicodeCase} {ED E} (lib : Libraries E)
    (dotenv : result (() + ED) (list (string * string))) env args :
  match startController lib dotenv env args with
  | Ok st => config_wf (stConfig st) ∧ parseLogLevel (LogLevel (stConfig st)) = Ok (Level (stLogger st)) ∧
      stManager st = managerOptions (stConfig st) ∧ rgConfig (stRegistration st) = stConfig st ∧
      rgProvider (stRegistration st) = WrapProvider NewProviderMetrics (stProvider st) ∧
      buildProvider (stConfig st) = Ok (stProvider st) ∧
      (plain_text (DataplaneAPIURL (stConfig st)) = true → provider_of (stConfig st) (stProvider st))
  | Err (ErrMainLogger _) | Err (ErrMainSetup _) => False
  | Err (ErrMainProvider _) =>
      ∃ env' cfg, Load env' = Ok cfg ∧ ProviderMode cfg = ProviderModeDataplaneAPI ∧ plain_text (DataplaneAPIURL cfg) = false
  | Err _ => True
  end.
Proof.
  unfold startController. destruct (LoadDotEnv dotenv env) as [env' [b|e]]; [|done].
  pose proof (Load_spec env') as Hs. destruct (Load env') as [cfg|e] eqn:Hload; cbn [wrapE mbind result_bind]; [|done].
  destruct Hs as (Hwf & Htrim & Hurl). pose proof Hwf as (_ & _ & _ & _ & _ & _ & _ & Hlevel & Hmode & _).
  destruct (logLevel_loaded _ Hlevel) as [l Hl]. unfold configureLogger. rewrite Hl. cbn [wrapE mbind result_bind].
  destruct (preflight lib env' args) as [u|e] eqn:Hpre; cbn [mbind result_bind].
  2:{ unfold preflight in Hpre. destruct (likelyInClusterEnvironment env'); [done|].
      destruct (diagnoseLocalKubeconfig _ _ _ _) as [[d|]|]; [by injection Hpre as <-|done|by injection Hpre as <-]. }
  destruct (lbGetConfig lib); cbn [wrapE mbind result_bind]; [|done].
  destruct (lbNewManager lib _); cbn [wrapE mbind result_bind]; [|done].
  destruct (buildProvider cfg) as [P|e] eqn:HP; cbn [wrapE mbind result_bind SetupControllers].
  2:{ exists env', cfg. destruct (plain_text (DataplaneAPIURL cfg)) eqn:Hpt.
      - destruct (buildProvider_spec env' cfg Hload) as (P & E' & _); [done|]. by rewrite E' in HP.
      - split_and!; [done| |done]. destruct (decide (ProviderMode cfg = ProviderModeDataplaneAPI)) as [|Hne]; [done|].
        destruct (buildProvider_spec env' cfg Hload) as (P & E' & _); [done|]. by rewrite E' in HP. }
  destruct (lbRegister lib _); cbn [wrapE mbind result_bind]; [|done].
  destruct (lbAddHealthzCheck lib _); cbn [wrapE mbind result_bind]; [|done].
  destruct (lbAddReadyzCheck lib _); cbn [wrapE mbind result_bind]; [|done].
  cbn. split_and!; [done..|]. intros Hpt. destruct (buildProvider_spec env' cfg Hload) as (P' & E' & Hof); [done|].
  rewrite E' in HP. by injection HP as <-.
Qed.

(** C34. What start-up guarantees: when it succeeds, the configuration is well formed,
    the logger has its level, and the provider is the one its mode asks for, with a
    usable base URL; and it never fails because of the log level or the registration,
    nor because of the provider unless the URL of the dataplane API has unusual
    characters: everything else has been checked by loading the configuration. *)
Theorem startController_correct `{GoSort, UnicodeCase} {ED E} (lib : Libraries E)
    (dotenv : result (() + ED) (list (string * string))) env args :
  match startController lib dotenv env args with
  | Ok st => config_wf (stConfig st) ∧ parseLogLevel (LogLevel (stConfig st)) = Ok (Level (stLogger st)) ∧
      stManager st = managerOptions (stConfig st) ∧ rgConfig (stRegistration st) = stConfig st ∧
      rgProvider (stRegistration st) = WrapProvider NewProviderMetrics (stProvider st) ∧
      buildProvider (stConfig st) = Ok (stProvider st) ∧
      (plain_text (DataplaneAPIURL (stConfig st)) = true → provider_of (stConfig st) (stProvider st))
  | Err (ErrMainLogger _) | Err (ErrMainSetup _) => False
  | Err (ErrMainProvider _) =>
      ∃ env' cfg, Load env' = Ok cfg ∧ ProviderMode cfg = ProviderModeDataplaneAPI ∧ plain_text (DataplaneAPIURL cfg) = false
  | Err _ => True
  end.
Proof. apply start_controller_spec. Qed.

(** The URL that is logged has no credentials: of a base URL only the scheme, the
    host and the path are left, whatever user, password, query and fragment it has. *)
Theorem redactURL_correct u :
  url_ok u → ∃ q, q ∈ [""; "?"] ∧
    redactURLForLog (URLString u) =
      urlScheme u +:+ "://" +:+ escape (urlHost u) encodeHost +:+ EscapedPath u +:+ q.
Proof.
  intros Hu. destruct (url_roundtrip u Hu) as (u' & Hp & Hok & Hs & _ & Hh & Hpath & He & _).
  unfold redactURLForLog. rewrite Hp.
  assert (url_ok (redacted u')) as Hred by (destruct Hok; split; try done; split; [done|apply not_elem_of_nil]).
  exists (if urlForceQuery u' then "?" else ""). split; [destruct (urlForceQuery u'); set_solver|].
  apply (inj bytes). rewrite (URLString_bytes _ Hred). unfold user_part, host_part, query_part, fragment_part.
  change (EscapedPath (redacted u')) with (EscapedPath u'). cbn [urlScheme urlUser urlHost urlForceQuery urlRawQuery urlFragment redacted app].
  rewrite Hs, Hh, He, !bytes_app. rewrite !(bool_decide_eq_false_2 ("" ≠ "")) by tauto. rewrite orb_false_r, app_nil_r.
  by destruct (urlForceQuery u').
Qed.

(** The inspection of a kubeconfig does not depend on the order in which Go iterates
    over the map of contexts; it stops the start exactly when no file of the loading
    rules exists, or when a file has contexts and none is current, and it suggests a
    context that exists and is the first in order. *)
Theorem diagnose_correct `{GoSort} {E} Stat GetLoadingPrecedence (Load : string → result E RawConfig) args :
  let path := kubeconfigFlagValue args in
  match diagnoseLocalKubeconfig Stat GetLoadingPrecedence Load args with
  | Err e => Load path = Err e
  | Ok None => ∃ raw, Load path = Ok raw ∧ (CurrentContext raw ≠ "" ∨ Contexts raw = [])
  | Ok (Some d) =>
    match dgKind d with
    | NoKubeconfig => ∀ p, p ∈ GetLoadingPrecedence path → p ≠ "" → Stat p ≠ Some false
    | MissingCurrentContext =>
      ∃ raw c, Load path = Ok raw ∧ CurrentContext raw = "" ∧ c ∈ Contexts raw ∧
        dgSuggestedCommand d = "kubectl config use-context " +:+ c ∧
        (∀ c', c' ∈ Contexts raw → String.ltb c' c = false) ∧ Stat (dgKubeconfigPath d) = Some false ∧
        ∀ raw', CurrentContext raw' = "" → Contexts raw' ≡ₚ Contexts raw →
          diagnoseLocalKubeconfig Stat GetLoadingPrecedence (λ _, Ok raw') args = (Ok (Some d) : result E _)
    end
  end.
Proof.
  pose proof (strict_total_weak String.ltb _) as Hweak. cbn zeta. unfold diagnoseLocalKubeconfig.
  destruct (existingKubeconfigPaths Stat (GetLoadingPrecedence (kubeconfigFlagValue args))) as [|first more] eqn:Ee.
  { cbn. intros p Hp Hne Hst. assert (p ∈ existingKubeconfigPaths Stat (GetLoadingPrecedence (kubeconfigFlagValue args))) as Hin.
    { unfold existingKubeconfigPaths. apply list_elem_of_filter. done. }
    rewrite Ee in Hin. by apply not_elem_of_nil in Hin. }
  assert (Stat first = Some false) as Hfirst.
  { assert (first ∈ existingKubeconfigPaths Stat (GetLoadingPrecedence (kubeconfigFlagValue args))) as Hin by (rewrite Ee; by left).
    unfold existingKubeconfigPaths in Hin. by apply list_elem_of_filter in Hin as [[_ ?] _]. }
  destruct (Load (kubeconfigFlagValue args)) as [raw|e] eqn:El; [|done].
  destruct (bool_decide (CurrentContext raw ≠ "") || _) eqn:Ec.
  { exists raw. split; [done|]. apply orb_true_iff in Ec. rewrite !bool_decide_eq_true in Ec. tauto. }
  bool_props. destruct (sort_slice String.ltb (Contexts raw)) as [|c l] eqn:Es.
  { exists raw. split; [done|]. right. apply Permutation_nil_r. rewrite <- Es. by rewrite sort_slice_perm. }
  cbn. pose proof (sort_slice_perm String.ltb (Contexts raw)) as Hperm. rewrite Es in Hperm.
  exists raw, c. split_and!; [done|by apply dec_stable| |done| |done|].
  - rewrite <- Hperm. by left.
  - intros c' Hc'. rewrite <- Hperm in Hc'. pose proof (sort_slice_ssorted String.ltb (Contexts raw)) as Hsorted.
    rewrite Es in Hsorted. apply StronglySorted_inv in Hsorted as [_ Hall]. apply elem_of_cons in Hc' as [->|Hc'].
    + apply st_irrefl.
    + rewrite Forall_forall in Hall. by apply Hall.
  - intros raw' Hcur Hp. rewrite Hcur.
    assert (sort_slice String.ltb (Contexts raw') = c :: l) as ->.
    { rewrite <- Es. apply (sort_slice_perm_eq String.ltb); [|exact Hp]. intros a b _ _ Ha Hb. by apply (st_tri (lt:=String.ltb)). }
    rewrite (bool_decide_eq_false_2 ("" ≠ "")) by tauto. cbn [orb].
    rewrite bool_decide_eq_false_2; [done|]. intros E'. rewrite E' in Hp. by apply Permutation_nil_l in Hp.
Qed.
