(* ===== verification/DataplaneConfig.v ===== *)
(** * Dataplane configuration (internal/dataplane/config.go)

    The package has its own copies of the environment helpers; they are the
    functions of Config.v, and [intEnv]. *)
From S2P Require Import Prelude GoStrings GoSort GoTime Config NetIP Kube Provider IPAM Store Render.
From S2P Require Import ExternalIPs Engine IPAttach.
Local Open Scope Z_scope.

Notation Env := (gmap string string).

Definition EnvHTTPAddr : string := "K8S_LB_DATAPLANE_HTTP_ADDR".
Definition EnvHAProxyConfigPath : string := "K8S_LB_DATAPLANE_HAPROXY_CONFIG_PATH".
Definition EnvHAProxyValidateCommand : string := "K8S_LB_DATAPLANE_HAPROXY_VALIDATE_COMMAND".
Definition EnvHAProxyReloadCommand : string := "K8S_LB_DATAPLANE_HAPROXY_RELOAD_COMMAND".
Definition EnvHAProxyPIDFile : string := "K8S_LB_DATAPLANE_HAPROXY_PID_FILE".
Definition EnvLogLevel : string := "K8S_LB_DATAPLANE_LOG_LEVEL".
Definition EnvGracefulShutdownTimeout : string := "K8S_LB_DATAPLANE_GRACEFUL_SHUTDOWN_TIMEOUT".
Definition EnvIPAttachEnabled : string := "K8S_LB_DATAPLANE_IP_ATTACH_ENABLED".
Definition EnvIPAttachMode : string := "K8S_LB_DATAPLANE_IP_ATTACH_MODE".
Definition EnvInterface : string := "K8S_LB_DATAPLANE_INTERFACE".
Definition EnvIPCommand : string := "K8S_LB_DATAPLANE_IP_COMMAND".
Definition EnvIPCIDRSuffix : string := "K8S_LB_DATAPLANE_IP_CIDR_SUFFIX".

Definition DefaultHTTPAddr : string := ":8090".
Definition DefaultHAProxyConfigPath : string := "/tmp/k8s-lb-controller-haproxy.cfg".
Definition DefaultLogLevel : string := "info".
Definition DefaultGracefulShutdownTimeout : Z := 15 * Second.
Definition DefaultIPAttachEnabled : bool := false.
Definition supportedLogLevels : list string := ["debug"; "info"; "warn"; "error"].

Definition stringEnv : string → string → Env → string := Config.stringEnv.
Definition durationEnv : string → Z → Env → result Config.ConfigError Z := Config.parsedEnv ParseDuration.
Definition boolEnv : string → bool → Env → result Config.ConfigError bool := Config.parsedEnv ParseBool.
Definition intEnv : string → Z → Env → result Config.ConfigError Z := Config.parsedEnv Atoi.

Record DPConfig : Type := MkDPConfig {
  dpHTTPAddr : string;
  dpHAProxyConfigPath : string;
  dpHAProxyValidateCommand : string;
  dpHAProxyReloadCommand : string;
  dpHAProxyPIDFile : string;
  dpLogLevel : string;
  dpGracefulShutdownTimeout : Z;
  dpIPAttachEnabled : bool;
  dpIPAttachMode : string;
  dpInterface : string;
  dpIPCommand : string;
  dpIPCIDRSuffix : Z;
}.

Inductive DPConfigError : Type :=
| ErrEnv (e : Config.ConfigError)
| ErrSuffixRange.

Section load.
Context `{UnicodeCase}.

Definition normalizeLogLevel (level : string) : string := ToLower (TrimSpace level).

Definition LoadConfig (env : Env) : result DPConfigError DPConfig :=
  let httpAddr := stringEnv EnvHTTPAddr DefaultHTTPAddr env in
  let configPath := stringEnv EnvHAProxyConfigPath DefaultHAProxyConfigPath env in
  let logLevel := normalizeLogLevel (stringEnv EnvLogLevel DefaultLogLevel env) in
  let mode := ModeNormalize (stringEnv EnvIPAttachMode DefaultMode env) in
  let iface := stringEnv EnvInterface "" env in
  let ipCommand := stringEnv EnvIPCommand DefaultCommandPath env in
  gracefulShutdownTimeout ← wrapE ErrEnv (durationEnv EnvGracefulShutdownTimeout DefaultGracefulShutdownTimeout env);
  _ ← wrapE ErrEnv (Config.positive EnvGracefulShutdownTimeout gracefulShutdownTimeout);
  ipAttachEnabled ← wrapE ErrEnv (boolEnv EnvIPAttachEnabled DefaultIPAttachEnabled env);
  ipCIDRSuffix ← wrapE ErrEnv (intEnv EnvIPCIDRSuffix DefaultCIDRSuffix env);
  _ ← guardE (bool_decide (httpAddr ≠ "")) (ErrEnv (Config.ErrMustNotBeEmpty EnvHTTPAddr));
  _ ← guardE (bool_decide (configPath ≠ "")) (ErrEnv (Config.ErrMustNotBeEmpty EnvHAProxyConfigPath));
  _ ← guardE (bool_decide (logLevel ∈ supportedLogLevels)) (ErrEnv (Config.ErrOneOf EnvLogLevel));
  _ ← guardE (ModeValid mode) (ErrEnv (Config.ErrOneOf EnvIPAttachMode));
  _ ← guardE (negb ((ipCIDRSuffix <? 1) || (32 <? ipCIDRSuffix))) ErrSuffixRange;
  _ ← guardE (negb (ipAttachEnabled && bool_decide (iface = "")))
        (ErrEnv (Config.ErrMustNotBeEmpty EnvInterface));
  _ ← guardE (negb (ipAttachEnabled && (bool_decide (mode = ModeExec) && bool_decide (ipCommand = ""))))
        (ErrEnv (Config.ErrMustNotBeEmpty EnvIPCommand));
  Ok (MkDPConfig httpAddr configPath
    (stringEnv EnvHAProxyValidateCommand "" env) (stringEnv EnvHAProxyReloadCommand "" env)
    (stringEnv EnvHAProxyPIDFile "" env) logLevel gracefulShutdownTimeout ipAttachEnabled mode iface
    ipCommand ipCIDRSuffix).

(** The attachment settings the dataplane passes on *)
Definition attach_config (c : DPConfig) : Config :=
  MkConfig (dpIPAttachEnabled c) (dpIPAttachMode c) (dpInterface c) (dpIPCommand c) (dpIPCIDRSuffix c).
End load.

(** ** Facts *)
Section load_facts.
Context `{GoSort, UnicodeCase}.

Lemma stringEnv_no_space key d env : TrimSpace d = d → TrimSpace (stringEnv key d env) = stringEnv key d env.
Proof.
  intros Hd. unfold stringEnv, Config.stringEnv. destruct (env !! key); [|done].
  case_bool_decide; [done|]. apply TrimSpace_idemp.
Qed.

Lemma ModeValid_normalized mode : ModeValid (ModeNormalize mode) = true →
  ModeNormalize (ModeNormalize mode) = ModeExec ∨ ModeNormalize (ModeNormalize mode) = ModeNetlink.
Proof. unfold ModeValid. intros [Hm|Hm]%orb_true_iff; bool_props; auto. Qed.

(** What a configuration that loads provides, for the parts it is passed to *)
Lemma LoadConfig_wf env cfg :
  LoadConfig env = Ok cfg →
  0 < dpGracefulShutdownTimeout cfg < 2 ^ 63 ∧ 1 <= dpIPCIDRSuffix cfg <= 32 ∧
  dpLogLevel cfg ∈ supportedLogLevels ∧ dpHTTPAddr cfg ≠ "" ∧
  (dpHAProxyConfigPath cfg ≠ "" ∧ TrimSpace (dpHAProxyConfigPath cfg) = dpHAProxyConfigPath cfg) ∧
  ∃ c, normalizeConfig (attach_config cfg) = Ok c ∧ Enabled c = dpIPAttachEnabled cfg ∧
    Interface c = dpInterface cfg ∧ CIDRSuffix c = dpIPCIDRSuffix cfg ∧
    (Mode c = ModeExec ∨ Mode c = ModeNetlink).
Proof.
  unfold LoadConfig. cbn [mbind result_bind].
  destruct (durationEnv _ _ env) as [gs|] eqn:E1; cbn; [|done].
  destruct (Config.positive _ gs) as [u|] eqn:P1; cbn; [|done]. apply Config.positive_ok in P1.
  destruct (boolEnv _ _ env) as [en|] eqn:E2; cbn; [|done].
  destruct (intEnv _ _ env) as [sx|] eqn:E3; cbn; [|done]. unfold guardE.
  set (mode := ModeNormalize (stringEnv EnvIPAttachMode DefaultMode env)).
  set (iface := stringEnv EnvInterface "" env).
  dec (stringEnv EnvHTTPAddr DefaultHTTPAddr env ≠ "") as Hh; cbn; [|done].
  dec (stringEnv EnvHAProxyConfigPath DefaultHAProxyConfigPath env ≠ "") as Hp; cbn; [|done].
  dec (normalizeLogLevel (stringEnv EnvLogLevel DefaultLogLevel env) ∈ supportedLogLevels) as Hl; cbn; [|done].
  destruct (ModeValid mode) eqn:Hm; cbn; [|done]. destruct (_ || _) eqn:Hs; cbn; [done|].
  destruct (en && bool_decide (iface = "")) eqn:Hi; cbn; [done|].
  destruct (en && (_ && _)) eqn:Hc; cbn; [done|]. intros [= <-]. cbn.
  apply Config.durationEnv_bound in E1; [|done]. split_and!; try done; try lia.
  { by apply stringEnv_no_space. }
  unfold normalizeConfig, attach_config. cbn.
  assert (TrimSpace iface = iface) as -> by by apply stringEnv_no_space.
  replace (sx =? 0) with false by lia. rewrite Hs, Hi.
  destruct (ModeValid_normalized _ Hm) as [Hmode|Hmode]; fold mode in Hmode; rewrite Hmode; cbn; eauto 10.
Qed.

(** A dataplane configuration that loads is complete: the attachment manager
    accepts its settings, so start-up cannot fail there (netlink support aside),
    and the timeout is positive. *)
Theorem LoadConfig_correct {W E} env cfg (runner : Runner W E) (client : netlinkClient W E) :
  LoadConfig env = Ok cfg →
  0 < dpGracefulShutdownTimeout cfg < 2 ^ 63 ∧ 1 <= dpIPCIDRSuffix cfg <= 32 ∧
  dpLogLevel cfg ∈ supportedLogLevels ∧ dpHTTPAddr cfg ≠ "" ∧ dpHAProxyConfigPath cfg ≠ "" ∧
  is_Ok (NewManager runner (Some client) (attach_config cfg) (MkDependencies None None)) = true.
Proof.
  intros (? & ? & ? & ? & [? _] & c & Hc & _ & _ & _ & Hm)%LoadConfig_wf. split_and!; try done; try lia.
  unfold NewManager. rewrite Hc. destruct (Enabled c); [|done]. by destruct Hm as [-> | ->].
Qed.
End load_facts.
