(* ===== verification/Dataplane.v ===== *)
(** * Putting the dataplane together (cmd/dataplane/main.go, NewEngine)

    The engine of Engine.v with the applier of Apply.v and a manager of IPAttach.v,
    on one host: its file system and its network state [X].  Go's errors are values
    of one interface type; here the two collaborators' errors are summed. *)
From S2P Require Import Prelude GoStrings GoSort NetIP Kube Provider IPAM Store Render.
From S2P Require Import ExternalIPs Engine FilePath Apply IPAttach GoTime Config DataplaneConfig.
Local Open Scope Z_scope.

Inductive HostError (EA EI : Type) : Type :=
| ErrHostConfig (e : EA)
| ErrHostIP (e : EI).
Global Arguments ErrHostConfig {EA EI} _.
Global Arguments ErrHostIP {EA EI} _.

(** The applier, with its errors as host errors *)
Definition host_applier {W EA EI} (A : ConfigApplier W EA) : ConfigApplier W (HostError EA EI) :=
  MkConfigApplier
    (λ l w, let '(w, r) := ca_Apply A l w in (w, wrapE ErrHostConfig r))
    (λ w, let '(w, r) := ca_Bootstrap A w in (w, wrapE ErrHostConfig r)).

(** An operation on the network state, on the host *)
Definition on_network {X EA EI T} (op : X → X * result EI T) (h : Host X) :
    Host X * result (HostError EA EI) T :=
  let '(x, r) := op (rest h) in (MkHost (fs h) x, wrapE ErrHostIP r).

Definition host_manager {X EA EI} (M : ExternalIPManager X EI) :
    ExternalIPManager (Host X) (HostError EA EI) :=
  MkIPManager (on_network (ipm_List M)) (λ a, on_network (ipm_EnsurePresent M a))
    (λ a, on_network (ipm_EnsureAbsent M a)).

(** ** [NewEngine] *)
Record EngineConfig (W E : Type) : Type := MkEngineConfig {
  ecConfigPath : string;
  ecValidateCommand : string;
  ecReloadCommand : string;
  ecPIDFile : string;
  ecApplier : option (ConfigApplier W E);
  ecIPManager : option (ExternalIPManager W E);
}.
Global Arguments MkEngineConfig {W E} _ _ _ _ _ _.
Global Arguments ecConfigPath {W E} _.
Global Arguments ecValidateCommand {W E} _.
Global Arguments ecReloadCommand {W E} _.
Global Arguments ecPIDFile {W E} _.
Global Arguments ecApplier {W E} _.
Global Arguments ecIPManager {W E} _.

(** An engine with the collaborators it was made with. *)
Record Running (W E : Type) : Type := MkRunning {
  rnApplier : ConfigApplier W E;
  rnManager : ExternalIPManager W E;
  rnEngine : Engine W;
}.
Global Arguments MkRunning {W E} _ _ _.
Global Arguments rnApplier {W E} _.
Global Arguments rnManager {W E} _.
Global Arguments rnEngine {W E} _.

(** [new_applier] is the applier made of normalized settings. *)
Definition NewEngine {W E} (new_applier : ApplyConfig → ConfigApplier W E) (cfg : EngineConfig W E) (w : W) :
    result string (Running W E) :=
  applier ← match ecApplier cfg with
            | Some applier => Ok applier
            | None => new_applier <$> NewApplier
                (MkApplyConfig (ecConfigPath cfg) (ecValidateCommand cfg) (ecReloadCommand cfg) (ecPIDFile cfg))
            end;
  let ipManager := default noopExternalIPManager (ecIPManager cfg) in
  Ok (MkRunning applier ipManager (MkEngine NewStore w)).

(** ** Start-up *)

(** [parseLogLevel], with slog's numbers *)
Definition parseLogLevel (levelName : string) : result string Z :=
  if bool_decide (levelName = "debug") then Ok (-4) else
  if bool_decide (levelName = "info") then Ok 0 else
  if bool_decide (levelName = "warn") then Ok 4 else
  if bool_decide (levelName = "error") then Ok 8 else
  Err levelName.

(** [configureLogger]: of the logger, the least level that it writes *)
Definition configureLogger (levelName : string) : result string Z :=
  level ← parseLogLevel levelName; Ok level.

Inductive StartError (ED E : Type) : Type :=
| ErrStartDotEnv (e : ED)
| ErrStartConfig (e : DPConfigError)
| ErrStartLogger (levelName : string)
| ErrStartManager (e : IPAttach.ConfigError)
| ErrStartEngine (e : string)
| ErrStartBootstrap (e : E).
Global Arguments ErrStartDotEnv {ED E} _.
Global Arguments ErrStartConfig {ED E} _.
Global Arguments ErrStartLogger {ED E} _.
Global Arguments ErrStartManager {ED E} _.
Global Arguments ErrStartEngine {ED E} _.
Global Arguments ErrStartBootstrap {ED E} _.

Section start.
Context `{GoSort, UnicodeCase, TempNames} {X EX EI ED : Type}.
(** Commands, the runner of [ip], the platform's netlink client *)
Variable exec : list string → Host X → Host X * (string * option EX).
Variable runner : Runner X EI.
Variable client : option (netlinkClient X EI).

Notation host_error := (HostError (ApplyError EX) (AttachError EI)).

Definition settings (cfg : DPConfig) (M : ExternalIPManager X (AttachError EI)) :
    EngineConfig (Host X) host_error :=
  MkEngineConfig (dpHAProxyConfigPath cfg) (dpHAProxyValidateCommand cfg) (dpHAProxyReloadCommand cfg)
    (dpHAProxyPIDFile cfg) None (Some (host_manager M)).

(** [main] up to the point where the server starts to listen.  The environment and
    the dotenv file are inputs; the host is the one the engine starts on. *)
Definition startDataplane (dotenv : result (() + ED) (list (string * string))) (env : gmap string string)
    (h : Host X) : Host X * result (StartError (DotEnvError ED) host_error) (DPConfig * Running (Host X) host_error) :=
  match LoadDotEnv dotenv env with
  | (_, Err e) => (h, Err (ErrStartDotEnv e))
  | (env, Ok _) =>
    match LoadConfig env with
    | Err e => (h, Err (ErrStartConfig e))
    | Ok cfg =>
      match configureLogger (dpLogLevel cfg) with
      | Err l => (h, Err (ErrStartLogger l))
      | Ok _ =>
        match NewManager runner client (attach_config cfg) (MkDependencies None None) with
        | Err e => (h, Err (ErrStartManager e))
        | Ok M =>
          match NewEngine (λ a, host_applier (applier_of exec a)) (settings cfg M) h with
          | Err e => (h, Err (ErrStartEngine e))
          | Ok run =>
            match EngineBootstrap (rnApplier run) (rnEngine run) with
            | (e, Err err) => (host e, Err (ErrStartBootstrap err))
            | (e, Ok _) => (host e, Ok (cfg, MkRunning (rnApplier run) (rnManager run) e))
            end
          end
        end
      end
    end
  end.
End start.

(** ** Facts *)
Section host_facts.
Context `{GoSort, UnicodeCase}.

#[export] Instance host_applier_spec {W EA EI} (A : ConfigApplier W EA) `{!ApplierSpec A} :
  ApplierSpec (host_applier (EI:=EI) A).
Proof.
  refine {| ap_config := ap_config (A:=A) |}; cbn [ca_Apply ca_Bootstrap host_applier].
  - intros l w w' b. destruct (ca_Apply A l w) as [w1 [c|e]] eqn:E; intros [= <- <-].
    by apply ap_apply_ok in E.
  - intros l w w' e. destruct (ca_Apply A l w) as [w1 [c|e']] eqn:E; intros [= <- <-].
    by apply ap_apply_err in E.
  - intros w w' u. destruct (ca_Bootstrap A w) as [w1 [c|e]] eqn:E; intros [= <- _].
    by apply ap_boot_ok in E.
  - intros w w' e. destruct (ca_Bootstrap A w) as [w1 [c|e']] eqn:E; intros [= <- _].
    by apply ap_boot_err in E.
Defined.

Lemma on_network_inv {X EA EI T} (op : X → X * result EI T) h h' (r : result (HostError EA EI) T) :
  on_network op h = (h', r) →
  ∃ r', op (rest h) = (rest h', r') ∧ fs h' = fs h ∧ r = wrapE ErrHostIP r'.
Proof. unfold on_network. destruct (op (rest h)) as [x r'] eqn:E. intros [= <- <-]. eauto. Qed.

#[export] Instance host_manager_spec {X EA EI} (M : ExternalIPManager X EI) `{!IPManagerSpec M} :
  IPManagerSpec (host_manager (EA:=EA) M).
Proof.
  refine {| ip_active := ip_active (M:=M); ip_attached := λ h, ip_attached (rest h) |};
    cbn [ipm_List ipm_EnsurePresent ipm_EnsureAbsent host_manager].
  - intros h. apply ip_inactive.
  - intros h a. apply ip_attached_wf.
  - intros h h' l ([l'|e] & E & _ & [= <-])%on_network_inv. by apply ip_list_ok in E.
  - intros h h' e ([l'|e'] & E & _ & [= ->])%on_network_inv. by apply ip_list_err in E.
  - intros a h h' b Ha ([b'|e'] & E & _ & [= <-])%on_network_inv. by apply ip_present_ok in E.
  - intros a h h' e Ha ([b'|e'] & E & _ & [= ->])%on_network_inv. by apply ip_present_err in E.
  - intros a h h' b Ha ([b'|e'] & E & _ & [= <-])%on_network_inv. by apply ip_absent_ok in E.
  - intros a h h' e Ha ([b'|e'] & E & _ & [= ->])%on_network_inv. by apply ip_absent_err in E.
Defined.

#[export] Instance host_manager_exact {X EA EI} (M : ExternalIPManager X EI)
  `{!IPManagerSpec M, !IPManagerExact M} : IPManagerExact (host_manager (EA:=EA) M).
Proof.
  split; cbn [ipm_EnsurePresent ipm_EnsureAbsent host_manager ip_attached host_manager_spec].
  - intros a h h' Ha ([b'|e'] & E & _ & [= <-])%on_network_inv. by apply ipx_present_false in E.
  - intros a h h' e Ha ([b'|e'] & E & _ & [= ->])%on_network_inv. by apply ipx_present_err in E.
  - intros a h h' Ha ([b'|e'] & E & _ & [= <-])%on_network_inv. by apply ipx_absent_false in E.
Qed.
End host_facts.

(** The applier and the manager act on different parts of the host. *)
Lemma host_frame `{GoSort, UnicodeCase, TempNames} {X EX EI V : Type}
    (exec : list string → Host X → Host X * (string * option EX)) (a : ApplyConfig) (view : X → V)
    (M : ExternalIPManager X EI) (S : IPManagerSpec M)
    (Hexec : ∀ argv h, touches a view (λ _, False) h (exec argv h).1) :
  (∀ x y, view x = view y → ip_attached x = ip_attached y) →
  @EngineFrame _ _ _ _ (host_applier (applier_of exec a)) (host_manager M)
    (@host_applier_spec _ _ _ _ _ _ (applier_spec exec a view Hexec)) _.
Proof.
  intros Hview. split; cbn [ip_attached ap_config host_manager_spec host_applier_spec applier_spec].
  - intros l h. apply Hview. cbn [ca_Apply host_applier].
    pose proof (applier_frame_apply exec a view Hexec l h) as Hf.
    by destruct (ca_Apply (applier_of exec a) l h).
  - intros h. apply Hview. cbn [ca_Bootstrap host_applier].
    pose proof (applier_frame_boot exec a view Hexec h) as Hf.
    by destruct (ca_Bootstrap (applier_of exec a) h).
  - intros h. cbn. unfold on_network. by destruct (ipm_List M (rest h)).
  - intros ad h. cbn. unfold on_network. by destruct (ipm_EnsurePresent M ad (rest h)).
  - intros ad h. cbn. unfold on_network. by destruct (ipm_EnsureAbsent M ad (rest h)).
Qed.

(** ** The running dataplane *)
Section dataplane_facts.
Context `{GoSort, UnicodeCase, TempNames} {X EX EI ED : Type}.
Variable exec : list string → Host X → Host X * (string * option EX).
Variable runner : Runner X EI.
Variable client : option (netlinkClient X EI).
Notation host_error := (HostError (ApplyError EX) (AttachError EI)).
Notation start := (startDataplane (ED:=ED) exec runner client).

(** The settings the applier works with *)
Definition apply_settings (cfg : DPConfig) : ApplyConfig :=
  MkApplyConfig (Clean (dpHAProxyConfigPath cfg)) (TrimSpace (dpHAProxyValidateCommand cfg))
    (TrimSpace (dpHAProxyReloadCommand cfg)) (TrimSpace (dpHAProxyPIDFile cfg)).

(** What the dataplane relies on: HAProxy's commands leave the configuration file,
    its candidates and the interface alone, and the means of the chosen mode work
    on the interface, whose prefixes are [prefixes].  Deleting an address takes no other
    one with it: the managed prefix length is 32, the default, or the kernel promotes
    secondary addresses. *)
Record host_contract (cfg : DPConfig) (prefixes : X → gset Prefix) : Prop := {
  hc_exec : ∀ argv h, touches (apply_settings cfg) prefixes (λ _, False) h (exec argv h).1;
  hc_runner : ∀ c, normalizeConfig (attach_config cfg) = Ok c → Enabled c = true →
    Mode c = ModeExec → ∃ promote, runner_ok promote runner c prefixes ∧ secondaries_kept promote (CIDRSuffix c);
  hc_netlink : ∀ c cl, normalizeConfig (attach_config cfg) = Ok c → Enabled c = true →
    Mode c = ModeNetlink → client = Some cl →
    ∃ promote, netlink_ok promote cl (Interface c) prefixes ∧ secondaries_kept promote (CIDRSuffix c);
}.

Lemma parseLogLevel_supported l : l ∈ supportedLogLevels → is_Ok (parseLogLevel l) = true.
Proof.
  unfold supportedLogLevels. rewrite !elem_of_cons, elem_of_nil.
  by intros [->|[->|[->|[->|[]]]]].
Qed.

Lemma NewEngine_settings cfg M h :
  dpHAProxyConfigPath cfg ≠ "" → TrimSpace (dpHAProxyConfigPath cfg) = dpHAProxyConfigPath cfg →
  NewEngine (λ a, host_applier (applier_of exec a)) (settings cfg M) h =
  Ok (MkRunning (E:=host_error) (host_applier (applier_of exec (apply_settings cfg))) (host_manager M)
        (MkEngine NewStore h)).
Proof.
  intros Hp Ht. unfold NewEngine, settings, NewApplier. cbn. rewrite Ht.
  by rewrite bool_decide_eq_false_2.
Qed.

(** How start-up ends *)
Lemma start_inv dotenv env h h' r :
  start dotenv env h = (h', r) →
  (h' = h ∧ ((∃ e, r = Err (ErrStartDotEnv e)) ∨ (∃ e, r = Err (ErrStartConfig e)) ∨
             (client = None ∧ r = Err (ErrStartManager ErrNetlinkUnsupported)))) ∨
  ∃ cfg M b, LoadConfig (LoadDotEnv dotenv env).1 = Ok cfg ∧
    NewManager runner client (attach_config cfg) (MkDependencies None None) = Ok M ∧
    ca_Bootstrap (host_applier (applier_of exec (apply_settings cfg))) h = (h', b) ∧
    r = match b with
        | Ok _ => Ok (cfg, MkRunning (host_applier (applier_of exec (apply_settings cfg))) (host_manager M)
                             (MkEngine NewStore h'))
        | Err e => Err (ErrStartBootstrap e)
        end.
Proof.
  unfold startDataplane. destruct (LoadDotEnv dotenv env) as [env' [u|e]] eqn:E0.
  2:{ intros [= <- <-]. left. eauto. }
  cbn [fst]. destruct (LoadConfig env') as [cfg|e] eqn:E1.
  2:{ intros [= <- <-]. left. eauto 10. }
  apply LoadConfig_wf in E1 as W1. destruct W1 as (_ & _ & Hl & _ & [Hp Ht] & c & Hc & _ & _ & _ & Hm).
  apply parseLogLevel_supported in Hl. unfold configureLogger. destruct (parseLogLevel _); [|done]. cbn [mbind result_bind].
  destruct (NewManager _ _ _ _) as [M|e] eqn:E2.
  2:{ intros [= <- <-]. left. split; [done|]. right. right. revert E2. unfold NewManager. rewrite Hc.
      destruct (Enabled c); [|done]. destruct Hm as [-> | ->]; [done|].
      destruct client; [done|]. by intros [= <-]. }
  rewrite NewEngine_settings by done. unfold EngineBootstrap. cbn [rnApplier rnManager rnEngine host store].
  destruct (ca_Bootstrap _ h) as [h1 b] eqn:E3. intros Hr. right. exists cfg, M, b.
  split_and!; [done..| |]; destruct b; by injection Hr as <- <-.
Qed.

(** Starting the dataplane.  It comes up with an empty store and the empty HAProxy
    document in the active file, and with no address changed.  Otherwise it reports
    an unreadable dotenv file or invalid settings before anything is touched, a platform
    without netlink, or a failed bootstrap, which leaves the old file or the
    complete empty document; the log level and the engine's settings are never refused. *)
Theorem startDataplane_correct (prefixes : X → gset Prefix) dotenv env h h' r :
  (∀ cfg, LoadConfig (LoadDotEnv dotenv env).1 = Ok cfg → host_contract cfg prefixes) →
  start dotenv env h = (h', r) →
  prefixes (rest h') = prefixes (rest h) ∧
  match r with
  | Ok (cfg, run) =>
    LoadConfig (LoadDotEnv dotenv env).1 = Ok cfg ∧ store (rnEngine run) = NewStore ∧
    host (rnEngine run) = h' ∧
    files (fs h') !! Clean (dpHAProxyConfigPath cfg) = Some bootstrapConfig
  | Err (ErrStartDotEnv _) | Err (ErrStartConfig _) => h' = h
  | Err (ErrStartManager e) => h' = h ∧ client = None
  | Err (ErrStartBootstrap _) =>
    ∃ cfg, LoadConfig (LoadDotEnv dotenv env).1 = Ok cfg ∧
      let p := Clean (dpHAProxyConfigPath cfg) in
      files (fs h') !! p = files (fs h) !! p ∨ files (fs h') !! p = Some bootstrapConfig
  | Err _ => False
  end.
Proof.
  intros Hcon. intros [[-> Hr]|(cfg & M & b & Hcfg & _ & Hb & ->)]%start_inv.
  { split; [done|]. by destruct Hr as [[e ->]|[[e ->]|[? ->]]]. }
  specialize (Hcon _ Hcfg). cbn [ca_Bootstrap host_applier] in Hb.
  destruct (ca_Bootstrap (applier_of exec _) h) as [h1 b1] eqn:E1. injection Hb as <- <-.
  apply (Bootstrap_post exec _ prefixes (hc_exec _ _ Hcon)) in E1 as (V1 & _ & R1 & R2).
  split; [done|]. unfold active in *. destruct b1 as [u|e]; cbn [wrapE]; [|by eauto].
  split_and!; [done..|by apply R2].
Qed.

(** *** One call of the API *)
Lemma run_store_wf {W E} (A : ConfigApplier W E) (M : ExternalIPManager W E) ops e :
  store_wf (store e) → store_wf (store (foldl (flip (engine_run A M)) e ops)).
Proof.
  revert e. induction ops as [|op ops IH]; intros e Hwf; [done|]. cbn [foldl]. apply IH. unfold flip.
  destruct op as [s|r|]; cbn [engine_run].
  - unfold EngineEnsure. destruct (ValidateService _); [|done]. rewrite next_ensure by done.
    destruct (reconcileLocked _ _ _ _) as [e' res] eqn:E'. cbn [fst].
    apply reconcile_store in E' as [->|[-> _]]; [by auto with lb|done].
  - unfold EngineDelete. destruct (StoreGet _ _); [|done]. rewrite Clone_id by done.
    destruct (reconcileLocked _ _ _ _) as [e' res] eqn:E'. cbn [fst].
    apply reconcile_store in E' as [->|[-> _]]; [by auto with lb|done].
  - unfold EngineBootstrap. by destruct (ca_Bootstrap A (host e)).
Qed.

(** The manager of a configuration keeps the engine's contract on the interface. *)
Lemma manager_spec cfg M (prefixes : X → gset Prefix) :
  host_contract cfg prefixes → 1 <= dpIPCIDRSuffix cfg <= 32 →
  (∃ c, normalizeConfig (attach_config cfg) = Ok c ∧ Enabled c = dpIPAttachEnabled cfg ∧
    Interface c = dpInterface cfg ∧ CIDRSuffix c = dpIPCIDRSuffix cfg ∧
    (Mode c = ModeExec ∨ Mode c = ModeNetlink)) →
  NewManager runner client (attach_config cfg) (MkDependencies None None) = Ok M →
  ∃ S : IPManagerSpec M, ip_active (M:=M) = dpIPAttachEnabled cfg ∧
    ∀ x, ip_attached x = if dpIPAttachEnabled cfg then attached_of (dpIPCIDRSuffix cfg) (prefixes x) else ∅.
Proof.
  intros Hcon Hs (c & Hc & He & _ & Hsx & Hm). unfold NewManager. rewrite Hc, He.
  destruct (dpIPAttachEnabled cfg); cbn [negb]; [|intros [= <-]; by exists noopManager_spec].
  rewrite <- Hsx in Hs |- *. destruct Hm as [Hm|Hm]; rewrite Hm.
  - rewrite bool_decide_eq_true_2 by done. intros [= <-].
    destruct (hc_runner _ _ Hcon c Hc He Hm) as (promote & Hro & Hk).
    by exists (exec_spec promote c runner prefixes Hs Hk Hro).
  - rewrite bool_decide_eq_false_2, bool_decide_eq_true_2 by done.
    destruct client as [cl|] eqn:Ecl; [|done]. intros [= <-].
    destruct (hc_netlink _ _ Hcon c cl Hc He Hm Ecl) as (promote & Hnk & Hk).
    by exists (netlink_spec promote c cl prefixes Hs Hk Hnk).
Qed.

(** The outcome of a successful call: the desired state, the active file and, when
    attachment is enabled, the addresses of the interface agree. *)
Definition serving (cfg : DPConfig) (prefixes : X → gset Prefix) (st : Store) (h : Host X) : Prop :=
  (∃ doc, Render (StoreList st) = Ok doc ∧ files (fs h) !! Clean (dpHAProxyConfigPath cfg) = Some doc) ∧
  (dpIPAttachEnabled cfg = true → ∀ ad, Is4 ad = true →
     MkPrefix ad (dpIPCIDRSuffix cfg) ∈ prefixes (rest h) ↔ wants_ip (StoreList st) ad).

Lemma reconcile_serving cfg M (prefixes : X → gset Prefix) env e next e' b :
  LoadConfig env = Ok cfg → host_contract cfg prefixes →
  NewManager runner client (attach_config cfg) (MkDependencies None None) = Ok M →
  reconcileLocked (host_applier (applier_of exec (apply_settings cfg))) (host_manager M) e next = (e', Ok b) →
  store e' = next ∧ serving cfg prefixes next (host e').
Proof.
  intros (_ & Hs & _ & _ & _ & Hn)%LoadConfig_wf Hcon HM Hr.
  pose (SA := applier_spec exec (apply_settings cfg) prefixes (hc_exec _ _ Hcon)).
  destruct (manager_spec cfg M prefixes) as (S & Hact & HS); [done..|].
  unshelve epose proof (host_frame exec (apply_settings cfg) prefixes M S (hc_exec _ _ Hcon) _) as HF.
  { intros x y Hxy. by rewrite !HS, Hxy. }
  apply (reconcile_correct _ _ (EngineFrame0:=HF)) in Hr as (-> & Hd & Ha). split; [done|].
  split; [exact Hd|]. intros Hen ad H4. specialize (Ha ad). unfold to_attach in Ha.
  cbn [ip_attached ip_active host_manager_spec] in Ha. rewrite Hact, HS, Hen, attached_elem in Ha. tauto.
Qed.

Lemma serves_call (prefixes : X → gset Prefix) dotenv env h h0 cfg run ops e' b
    (s : Service) (ref : ServiceRef) next :
  host_contract cfg prefixes →
  start dotenv env h = (h0, Ok (cfg, run)) →
  let A := rnApplier run in
  let M := rnManager run in
  let e := foldl (flip (engine_run A M)) (rnEngine run) ops in
  (EngineEnsure A M s e = (e', Ok b) ∧ next = Upsert s (store e)) ∨
  (EngineDelete A M ref e = (e', Ok b) ∧ is_Some (services (store e) !! ref) ∧
    next = MkStore (delete ref (services (store e)))) →
  store e' = next ∧ serving cfg prefixes next (host e').
Proof.
  intros Hcon. intros [[_ [[? ?]|[[? ?]|[_ ?]]]]|(cfg0 & M0 & r & Hcfg & HM & _ & Hr)]%start_inv; [done..|].
  destruct r; [|done]. injection Hr as <- ->. cbv zeta. cbn [rnApplier rnManager rnEngine].
  set (e := foldl _ _ _). assert (store_wf (store e)) as Hwf by (apply run_store_wf; auto with lb).
  intros [[Hens ->]|(Hdel & [x Hx] & ->)].
  - revert Hens. unfold EngineEnsure. destruct (ValidateService _); [|done]. rewrite next_ensure by done.
    by eapply reconcile_serving.
  - revert Hdel. unfold EngineDelete, StoreGet. rewrite Hx. cbn [fmap option_fmap option_map].
    rewrite Clone_id by done. rewrite <- StoreDelete_services.
    replace (MkStore _) with (StoreDelete ref (store e)).1 by by destruct (StoreDelete ref (store e)).1.
    by eapply reconcile_serving.
Qed.

(** C7. End to end: from a dataplane that came up, after any calls (successful or not),
    a call of [Ensure], or of [Delete] for a stored Service, that reports success has
    the requested effect on the store, the active HAProxy file is the document of the
    whole store, and with attachment enabled the IPv4 addresses with the managed prefix
    length on the interface are exactly the addresses of the stored Services. *)
Theorem dataplane_serves (prefixes : X → gset Prefix) dotenv env h h0 cfg run ops e' b
    (s : Service) (ref : ServiceRef) next :
  host_contract cfg prefixes →
  start dotenv env h = (h0, Ok (cfg, run)) →
  let A := rnApplier run in
  let M := rnManager run in
  let e := foldl (flip (engine_run A M)) (rnEngine run) ops in
  (EngineEnsure A M s e = (e', Ok b) ∧ next = Upsert s (store e)) ∨
  (EngineDelete A M ref e = (e', Ok b) ∧ is_Some (services (store e) !! ref) ∧
    next = MkStore (delete ref (services (store e)))) →
  store e' = next ∧ serving cfg prefixes next (host e').
Proof. apply serves_call. Qed.
End dataplane_facts.
