(* ===== verification/Server.v ===== *)
(** * The dataplane server (cmd/dataplane/main.go)

    The binary after start-up: the handler it serves, the requests it answers one by
    one (Concurrency.v has them at the same time; DataplaneMain.v has the process).  The
    calls of the controller's API provider are followed through the server: a Service
    that is reported as ensured is served by the HAProxy configuration and the addresses,
    and a restarted dataplane has what was handed over to it since. *)
From S2P Require Import Prelude GoStrings GoSort NetIP GoURL Kube Provider IPAM Store Render.
From S2P Require Import ExternalIPs Engine FilePath Apply IPAttach GoTime Config HTTPApi DataplaneAPI DataplaneConfig Dataplane.
Local Open Scope Z_scope.

(** The handler of the server *)
Definition serverHandler {W E} (run : Running W E) : Handler W := NewHandler (rnEngine run) (MkHandlerConfig 0).

(** ** Requests *)
Section requests.
Context `{GoSort, UnicodeCase} {W E : Type}.
Context (A : ConfigApplier W E) (M : ExternalIPManager W E).
Context (detail : RequestError → string) (redirect : Request → string → Response).

Notation serve := (ServeHTTP A M detail redirect).

Definition serve_all (rs : list Request) (h : Handler W) : Handler W := foldl (λ h r, (serve r h).1) h rs.

(** The engine operation of a call *)
Definition call_op (c : ApiCall) : engine_op := match c with CallEnsure s => OpEnsure s | CallDelete r => OpDelete r end.

(** Whatever is requested, the engine only runs operations of its own. *)
Lemma serve_op r h : ∃ ops, hEngine (serve r h).1 = foldl (flip (engine_run A M)) (hEngine h) ops.
Proof.
  destruct (accepts_dec (hMaxRequestBodyBytes h) r) as [(c & Hc & Hv)|Hno].
  - exists [call_op c]. rewrite (ServeHTTP_accepted A M detail redirect _ _ _ Hc Hv). by destruct c.
  - exists []. destruct (ServeHTTP_refused A M detail redirect r h Hno) as (rs & -> & _). done.
Qed.

Lemma serve_all_ops rs h : ∃ ops, hEngine (serve_all rs h) = foldl (flip (engine_run A M)) (hEngine h) ops.
Proof.
  unfold serve_all. revert h. induction rs as [|r rs IH]; intros h; [by exists []|]. cbn [foldl].
  destruct (serve_op r h) as [ops Hops]. destruct (IH (serve r h).1) as [ops' Hops'].
  exists (ops ++ ops'). by rewrite Hops', Hops, foldl_app.
Qed.
End requests.

Section server_facts.
Context `{GoSort, UnicodeCase, TempNames} {X EX EI ED : Type}.
Context (exec : list string → Host X → Host X * (string * option EX)).
Context (runner : Runner X EI) (client : option (netlinkClient X EI)).
Context (detail : RequestError → string) (redirect : Request → string → Response).

Notation host_error := (HostError (ApplyError EX) (AttachError EI)).

(** The store of a running server is canonical. *)
Lemma served_wf dotenv env h h0 cfg (run : Running (Host X) host_error) requests :
  startDataplane (ED:=ED) exec runner client dotenv env h = (h0, Ok (cfg, run)) →
  store_wf (store (hEngine (serve_all (rnApplier run) (rnManager run) detail redirect requests (serverHandler run)))).
Proof.
  intros [[_ [[? ?]|[[? ?]|[_ ?]]]]|(cfg0 & M0 & r & Hcfg & HM & _ & Hr)]%start_inv; [done..|].
  destruct r; [|done]. injection Hr as <- ->.
  match goal with |- context [serve_all ?A ?M _ _ _ ?hd] =>
    destruct (serve_all_ops A M detail redirect requests hd) as [ops ->] end.
  apply run_store_wf. cbn. auto with lb.
Qed.

(** A handler whose engine has run some operations since start-up *)
Definition running_handler (run : Running (Host X) host_error) (hd : Handler (Host X)) : Prop :=
  ∃ ops, hEngine hd = foldl (flip (engine_run (rnApplier run) (rnManager run))) (rnEngine run) ops.

Lemma serve_all_running run requests :
  running_handler run (serve_all (rnApplier run) (rnManager run) detail redirect requests (serverHandler run)).
Proof. apply serve_all_ops. Qed.

Section remote.
Context {EH : Type} (prefixes : X → gset Prefix).
Context (Do : HTTPRequest → Handler (Host X) → Handler (Host X) * result EH (HTTPResponse EH)).
Context (dotenv : result (() + ED) (list (string * string))) (env : Env) (h h0 : Host X) (cfg : DPConfig).
Context (run : Running (Host X) host_error).
Context (Hcon : host_contract exec runner client cfg prefixes).
Context (Hstart : startDataplane (ED:=ED) exec runner client dotenv env h = (h0, Ok (cfg, run))).
Context `{Htr : !Transport (rnApplier run) (rnManager run) detail redirect Do}.
Context (p : APIProvider) (Hp : root_provider p).

Lemma remote_ensure_step s hd h' b :
  running_handler run hd → ref_ok (Ref s) → service_int32 s →
  Ensure (apiProvider Do p) s hd = (h', Ok b) →
  running_handler run h' ∧ store (hEngine h') = Upsert (received s) (store (hEngine hd)) ∧
  serving cfg prefixes (store (hEngine h')) (host (hEngine h')).
Proof.
  intros [ops Hops] Href Hi Hens.
  apply (api_ensure_refines (rnApplier run) (rnManager run) detail redirect Do) in Hens as [[_ ?]|[-> Hres]]; [done| |done..].
  specialize (Hres b eq_refl). split.
  { exists (ops ++ [OpEnsure (received s)]). cbn [with_engine hEngine]. by rewrite foldl_app, Hops. }
  destruct (EngineEnsure (rnApplier run) (rnManager run) (received s) (hEngine hd)) as [e' res] eqn:He.
  cbn [snd] in Hres. subst res. cbn [fst with_engine hEngine].
  destruct (serves_call exec runner client prefixes dotenv env h h0 cfg run ops e' b (received s) (Ref s)
    (Upsert (received s) (store (hEngine hd))) Hcon Hstart) as [Hst Hserv].
  { left. rewrite Hops in He |- *. done. }
  rewrite Hst. done.
Qed.

(** A caller that hands several Services over and stops at the first error *)
Fixpoint ensure_all (l : list Service) (hd : Handler (Host X)) : option (Handler (Host X)) :=
  match l with
  | [] => Some hd
  | s :: l => match Ensure (apiProvider Do p) s hd with (hd, Ok _) => ensure_all l hd | (_, Err _) => None end
  end.

(** The desired state after Services were sent, a later one replacing an earlier one of
    the same name *)
Definition sent (l : list Service) (m : gmap ServiceRef Service) : gmap ServiceRef Service :=
  foldl (λ m s, <[Ref s := normalizeService (received s)]> m) m l.

Lemma ensure_all_sent l hd h' :
  running_handler run hd → Forall (λ s, ref_ok (Ref s) ∧ service_int32 s) l → ensure_all l hd = Some h' →
  services (store (hEngine h')) = sent l (services (store (hEngine hd))) ∧
  (l ≠ [] → serving cfg prefixes (store (hEngine h')) (host (hEngine h'))).
Proof.
  revert hd. induction l as [|s l IH]; intros hd Hrun Hl; cbn [ensure_all]; [by intros [= ->]|].
  apply Forall_cons in Hl as [[Href Hi] Hl].
  destruct (Ensure (apiProvider Do p) s hd) as [h1 [b|]] eqn:He; [|done].
  destruct (remote_ensure_step _ _ _ _ Hrun Href Hi He) as (Hrun1 & Hst & Hserv). intros Hall.
  destruct (IH h1 Hrun1 Hl Hall) as [Hs Hserv']. split.
  - rewrite Hs, Hst. done.
  - intros _. destruct l; [|by apply Hserv']. by injection Hall as <-.
Qed.

Lemma sent_elem l m r svc :
  NoDup (Ref <$> l) → (∀ s, s ∈ l → m !! Ref s = None) →
  sent l m !! r = Some svc ↔ m !! r = Some svc ∨ ∃ s, s ∈ l ∧ Ref s = r ∧ svc = normalizeService (received s).
Proof.
  revert m. induction l as [|s l IH]; intros m; [set_solver|]. rewrite fmap_cons. intros [Hs Hl]%NoDup_cons Hm.
  cbn [sent foldl]. fold (sent l (<[Ref s := normalizeService (received s)]> m)). rewrite IH; [|done|].
  - rewrite lookup_insert_Some. specialize (Hm s ltac:(set_solver)). split.
    + intros [[[<- <-]|[_ ?]]|(x & Hx & <- & ->)]; [right; exists s; set_solver|by left|right; exists x; set_solver].
    + intros [Hr|(x & [->|Hx]%elem_of_cons & <- & ->)]; [left; right|by left; left|right; by exists x].
      split; [congruence|done].
  - intros x Hx. rewrite lookup_insert_ne; [by apply Hm, elem_of_cons; right|].
    intros Heq. apply Hs. rewrite Heq. by apply list_elem_of_fmap_2.
Qed.

End remote.

(** End to end: the controller's API provider talks over any network to a dataplane
    that came up and has answered any requests; when it reports that a Service was
    ensured, the dataplane's store has the Service as it was sent, the active HAProxy
    file is the document of the whole store, and with attachment enabled the addresses
    on the interface are exactly those of the stored Services. *)
Lemma remote_ensure_serves {EH} (prefixes : X → gset Prefix) dotenv env h h0 cfg (run : Running (Host X) host_error)
    (Do : HTTPRequest → Handler (Host X) → Handler (Host X) * result EH (HTTPResponse EH)) requests p s h' b :
  host_contract exec runner client cfg prefixes →
  startDataplane (ED:=ED) exec runner client dotenv env h = (h0, Ok (cfg, run)) →
  Transport (rnApplier run) (rnManager run) detail redirect Do →
  root_provider p → ref_ok (Ref s) → service_int32 s →
  let hd := serve_all (rnApplier run) (rnManager run) detail redirect requests (serverHandler run) in
  Ensure (apiProvider Do p) s hd = (h', Ok b) →
  store (hEngine h') = Upsert (received s) (store (hEngine hd)) ∧
  serving cfg prefixes (store (hEngine h')) (host (hEngine h')).
Proof.
  intros Hcon Hstart Htr Hp Href Hi hd Hens.
  destruct (remote_ensure_step prefixes Do dotenv env h h0 cfg run Hcon Hstart p Hp s hd h' b) as (_ & ? & ?);
    [apply serve_all_running|done..].
Qed.
End server_facts.
