(* ===== verification/DataplaneMain.v ===== *)
(** * The life of the dataplane process (cmd/dataplane/main.go)

    The second half of [main]: a goroutine that listens and serves and reports its end
    through a channel with room for one value, a signal that may come at any time, and
    [main], which waits for the first of the two and then shuts the server down within
    a time limit.  What net/http, the system and the scheduler decide is
    non-deterministic; the theorem holds for every interleaving. *)
From S2P Require Import Prelude.

Section process.
Context {E : Type}.

(** What [server.ListenAndServe] returns: [http.ErrServerClosed] once [Shutdown] has been
    called, another error before *)
Inductive ListenResult : Type :=
| ListenServerClosed
| ListenFailed (e : E).

(** What the goroutine sends *)
Definition serverError (r : ListenResult) : option E :=
  match r with ListenFailed e => Some e | ListenServerClosed => None end.

Inductive listen_pc : Type :=
| LsStarted
| LsServing
| LsReturned (r : ListenResult)
| LsSent.

Inductive process_pc : Type :=
| PrSelect
| PrShutdown
| PrWaiting
| PrExited (code : Z).

Record process : Type := MkProcess {
  pcSignalled : bool;
  (** [server.Shutdown] has been called *)
  pcClosed : bool;
  pcListen : listen_pc;
  (** the channel [serverErrors] *)
  pcErrors : option (option E);
  pcMain : process_pc;
  (** the messages, each with its attribute "error" if it has one *)
  pcLog : list (string * option E);
}.

Definition launched : process := MkProcess false false LsStarted None PrSelect [].

Definition running (s : process) : Prop := match pcMain s with PrExited _ => False | _ => True end.

Definition msgListening : string := "dataplane HTTP server listening".
Definition msgSignal : string := "shutdown signal received".
Definition msgStopped : string := "dataplane HTTP server stopped unexpectedly".
Definition msgGraceful : string := "graceful shutdown completed".
Definition msgGracefulFailed : string := "graceful shutdown failed".

Inductive action : Type :=
(** the system, and the server *)
| ActSignal
| ActListening
| ActServe
| ActFailed (e : E)
| ActClosed
| ActSend
(** [main] *)
| ActTakeError
| ActTakeNil
| ActTakeSignal
| ActShutdown
| ActCompleted
| ActTimeout (e : E).

Inductive process_step : action → process → process → Prop :=
| ps_signal s : running s →
    process_step ActSignal s (MkProcess true (pcClosed s) (pcListen s) (pcErrors s) (pcMain s) (pcLog s))
(** the goroutine *)
| ps_listen s : running s → pcListen s = LsStarted →
    process_step ActListening s
      (MkProcess (pcSignalled s) (pcClosed s) LsServing (pcErrors s) (pcMain s) (pcLog s ++ [(msgListening, None)]))
| ps_serve s : running s → pcListen s = LsServing → process_step ActServe s s
| ps_failed s e : running s → pcListen s = LsServing → pcClosed s = false →
    process_step (ActFailed e) s
      (MkProcess (pcSignalled s) (pcClosed s) (LsReturned (ListenFailed e)) (pcErrors s) (pcMain s) (pcLog s))
| ps_closed s : running s → pcListen s = LsServing → pcClosed s = true →
    process_step ActClosed s
      (MkProcess (pcSignalled s) (pcClosed s) (LsReturned ListenServerClosed) (pcErrors s) (pcMain s) (pcLog s))
| ps_send s r : running s → pcListen s = LsReturned r → pcErrors s = None →
    process_step ActSend s (MkProcess (pcSignalled s) (pcClosed s) LsSent (Some (serverError r)) (pcMain s) (pcLog s))
(** [main]: the two cases of the select, and the shutdown *)
| ps_server_error s e : pcMain s = PrSelect → pcErrors s = Some (Some e) →
    process_step ActTakeError s
      (MkProcess (pcSignalled s) (pcClosed s) (pcListen s) None (PrExited 1) (pcLog s ++ [(msgStopped, Some e)]))
| ps_server_done s : pcMain s = PrSelect → pcErrors s = Some None →
    process_step ActTakeNil s (MkProcess (pcSignalled s) (pcClosed s) (pcListen s) None PrShutdown (pcLog s))
| ps_done s : pcMain s = PrSelect → pcSignalled s = true →
    process_step ActTakeSignal s
      (MkProcess (pcSignalled s) (pcClosed s) (pcListen s) (pcErrors s) PrShutdown (pcLog s ++ [(msgSignal, None)]))
| ps_shutdown s : pcMain s = PrShutdown →
    process_step ActShutdown s (MkProcess (pcSignalled s) true (pcListen s) (pcErrors s) PrWaiting (pcLog s))
| ps_completed s : pcMain s = PrWaiting →
    process_step ActCompleted s
      (MkProcess (pcSignalled s) (pcClosed s) (pcListen s) (pcErrors s) (PrExited 0) (pcLog s ++ [(msgGraceful, None)]))
| ps_timeout s e : pcMain s = PrWaiting →
    process_step (ActTimeout e) s
      (MkProcess (pcSignalled s) (pcClosed s) (pcListen s) (pcErrors s) (PrExited 1) (pcLog s ++ [(msgGracefulFailed, Some e)])).

(** What has happened, in order, and where that led *)
Inductive process_run : list action → process → Prop :=
| process_run_start : process_run [] launched
| process_run_step tr s a s' : process_run tr s → process_step a s s' → process_run (tr ++ [a]) s'.

Definition main_action (a : action) : bool :=
  match a with ActTakeError | ActTakeNil | ActTakeSignal | ActShutdown | ActCompleted | ActTimeout _ => true | _ => false end.

Definition main_left (m : process_pc) : nat := match m with PrSelect => 3 | PrShutdown => 2 | PrWaiting => 1 | PrExited _ => 0 end.

(** What [main] has written, without the line of the goroutine *)
Definition main_log (s : process) : list (string * option E) := filter (λ m, m.1 ≠ msgListening) (pcLog s).

(** How the process may have ended, from what has happened *)
Inductive ending (tr : list action) : Z → list (string * option E) → Prop :=
| ending_failed e : ActFailed e ∈ tr → ActShutdown ∉ tr → ending tr 1 [(msgStopped, Some e)]
| ending_completed : ActSignal ∈ tr → ActCompleted ∈ tr → ending tr 0 [(msgSignal, None); (msgGraceful, None)]
| ending_timeout e : ActSignal ∈ tr → ActTimeout e ∈ tr → ending tr 1 [(msgSignal, None); (msgGracefulFailed, Some e)].

(** Where [main] is decides what it has written; the channel has room when the goroutine
    sends; what it holds is what [ListenAndServe] returned; a failure is reported before
    the shutdown only, a regular end after it only. *)
Definition main_inv (tr : list action) (s : process) : Prop :=
  match pcMain s with
  | PrSelect => main_log s = [] ∧ pcClosed s = false ∧ ActShutdown ∉ tr
  | PrShutdown => main_log s = [(msgSignal, None)] ∧ ActSignal ∈ tr ∧ pcClosed s = false
  | PrWaiting => main_log s = [(msgSignal, None)] ∧ ActSignal ∈ tr
  | PrExited code => ending tr code (main_log s)
  end.

Record process_inv (tr : list action) (s : process) : Prop := {
  pi_main : main_inv tr s;
  pi_signal : pcSignalled s = true → ActSignal ∈ tr;
  pi_room : pcListen s ≠ LsSent → pcErrors s = None;
  pi_open : pcClosed s = false → pcErrors s ≠ Some None ∧ pcListen s ≠ LsReturned ListenServerClosed;
  pi_error : ∀ e, pcErrors s = Some (Some e) ∨ pcListen s = LsReturned (ListenFailed e) → ActFailed e ∈ tr;
  pi_left : (length (List.filter main_action tr) + main_left (pcMain s) <= 3)%nat;
}.

Lemma filter_snoc l (m : string * option E) :
  filter (λ m, m.1 ≠ msgListening) (l ++ [m]) =
    filter (λ m, m.1 ≠ msgListening) l ++ if decide (m.1 = msgListening) then [] else [m].
Proof. rewrite filter_app, filter_cons, filter_nil. by repeat case_decide. Qed.

Lemma elem_of_snoc {A} (x y : A) l : x ∈ l ++ [y] ↔ x ∈ l ∨ x = y.
Proof. by rewrite elem_of_app, list_elem_of_singleton. Qed.

Lemma ending_snoc tr a code l : a ≠ ActShutdown → ending tr code l → ending (tr ++ [a]) code l.
Proof.
  intros Ha Hend. destruct Hend as [e H1 H2|H1 H2|e H1 H2]; constructor; rewrite elem_of_snoc; try (by left).
  by intros [?|?].
Qed.

(** The steps of the others leave what [main] relies on. *)
Lemma main_inv_others tr a s s' :
  main_action a = false → pcMain s' = pcMain s → main_log s' = main_log s → pcClosed s' = pcClosed s →
  main_inv tr s → main_inv (tr ++ [a]) s'.
Proof.
  intros Ha Hm Hl Hc. unfold main_inv. rewrite Hm, Hl, Hc. destruct (pcMain s); rewrite ?elem_of_snoc.
  - intros (? & ? & ?). split_and!; [done..|]. intros [?|<-]; done.
  - naive_solver.
  - naive_solver.
  - apply ending_snoc. by intros ->.
Qed.

Lemma count_snoc tr a : length (List.filter main_action (tr ++ [a])) = (length (List.filter main_action tr) + if main_action a then 1 else 0)%nat.
Proof. rewrite List.filter_app, length_app. cbn [List.filter]. by destruct (main_action a). Qed.

Lemma others_inv tr a s s' : process_step a s s' → main_action a = false → process_inv tr s → process_inv (tr ++ [a]) s'.
Proof.
  intros Hs Ha [H1 H2 H3 H4 H5 H6].
  assert (pcMain s' = pcMain s ∧ main_log s' = main_log s ∧ pcClosed s' = pcClosed s) as (Hm & Hl & Hc).
  { destruct Hs; try done. split_and!; try done. unfold main_log. cbn [pcLog]. by rewrite filter_snoc, decide_True, app_nil_r. }
  split; [by eapply main_inv_others|..|by rewrite count_snoc, Ha, Hm, Nat.add_0_r].
  all: destruct Hs as [s Hr|s Hr Hg|s Hr Hg|s e Hr Hg Hcl|s Hr Hg Hcl|s r Hr Hg Hcl| | | | | |]; try done;
    cbn [pcSignalled pcClosed pcListen pcErrors] in *; try setoid_rewrite elem_of_snoc; auto.
  1-3: intros _; apply H3; by rewrite Hg.
  - intros Hop. split; [by apply H4|done].
  - intros Hop. split; [by apply H4|done].
  - congruence.
  - intros Hop. destruct (H4 Hop). by destruct r.
  - intros e [He|?]; [left; apply H5; by left|done].
  - intros x [Hx|[= ->]]; [left; apply H5; by left|by right].
  - intros e [He|?]; [left; apply H5; by left|done].
  - intros e [[= He]|?]; [|done]. left. apply H5. right. rewrite Hg. destruct r as [|e']; [done|]. cbn in He. congruence.
Qed.

Lemma main_steps_inv tr a s s' : process_step a s s' → main_action a = true → process_inv tr s → process_inv (tr ++ [a]) s'.
Proof.
  intros Hs Ha [H1 H2 H3 H4 H5 H6]. unfold main_inv in H1.
  destruct Hs as [| | | | | |s e Hm He|s Hm He|s Hm Hsig|s Hm|s Hm|s e Hm]; try done; rewrite Hm in *; cbn [main_left] in H6;
    (split; cbn [pcSignalled pcClosed pcListen pcErrors pcMain main_left] in *; rewrite ?count_snoc; cbn [main_action];
      try lia; try setoid_rewrite elem_of_snoc; try done; auto).
  all: unfold main_inv, main_log in *; cbn [pcMain pcLog pcClosed] in *; rewrite ?filter_snoc, ?decide_False by done.
  - destruct H1 as (-> & _ & Hno). apply (ending_snoc tr ActTakeError); [done|]. constructor; [|done]. apply H5. by left.
  - intros Hop. by split; [|apply H4].
  - intros e' [?|?]; [done|]. left. apply H5. by right.
  - destruct H1 as (_ & Hop & _). by destruct (H4 Hop).
  - intros Hop. by split; [|apply H4].
  - intros e' [?|?]; [done|]. left. apply H5. by right.
  - destruct H1 as (-> & Hop & _). rewrite elem_of_snoc. split_and!; [done|left; auto|done].
  - destruct H1 as (-> & Hsg & _). rewrite elem_of_snoc. split; [done|by left].
  - destruct H1 as [-> Hsg]. constructor; rewrite elem_of_snoc; [by left|by right].
  - destruct H1 as [-> Hsg]. constructor; rewrite elem_of_snoc; [by left|by right].
Qed.

Lemma process_reachable_inv tr s : process_run tr s → process_inv tr s.
Proof.
  induction 1 as [|tr s a s' _ IH Hs].
  - split; try done. cbn. split_and!; [done..|apply not_elem_of_nil]. by intros e [?|?].
  - destruct (main_action a) eqn:Ha; [by eapply main_steps_inv|by eapply others_inv].
Qed.

(** C36. The dataplane process ends as it should, however the goroutine, the signal and
    [main] interleave.  An exit has one of three reasons, and the exit code and all that
    [main] logs tell which: code 1 and the error of the server, when [ListenAndServe] failed
    and no shutdown was begun; code 0, when a signal came and the shutdown that followed
    it completed; code 1 and the error of the shutdown, when a signal came and it did
    not.  (With a signal there, [main] may take it first although the server has failed
    too.)  The server may serve for ever; but once a signal has come, or the goroutine has
    reported, or the wait is over, [main] can go on, and it takes at most three
    steps in all.  The goroutine is never blocked on its channel, and the branch in which
    it reports no error while [main] waits is never taken. *)
Theorem process_exits tr s :
  process_run tr s →
  (∀ code, pcMain s = PrExited code → ending tr code (main_log s)) ∧
  (running s → pcSignalled s = true ∨ pcErrors s ≠ None ∨ pcMain s ≠ PrSelect →
     ∃ a s', main_action a = true ∧ process_step a s s') ∧
  (length (List.filter main_action tr) <= 3)%nat ∧
  (running s → ∀ r, pcListen s = LsReturned r → ∃ s', process_step ActSend s s') ∧
  ActTakeNil ∉ tr.
Proof.
  intros Hr. pose proof (process_reachable_inv tr s Hr) as [H1 H2 H3 H4 H5 H6]. split_and!.
  - intros code Hm. unfold main_inv in H1. by rewrite Hm in H1.
  - intros Hrun Hgo. unfold running in Hrun. destruct (pcMain s) as [| | |code] eqn:Hm; [|..|done].
    + destruct Hgo as [Hsig|[Herr|?]]; [|destruct (pcErrors s) as [[e|]|] eqn:He; [..|done]|done].
      * eexists ActTakeSignal, _. split; [done|by apply ps_done].
      * eexists ActTakeError, _. split; [done|by eapply ps_server_error].
      * eexists ActTakeNil, _. split; [done|by apply ps_server_done].
    + eexists ActShutdown, _. split; [done|by apply ps_shutdown].
    + eexists ActCompleted, _. split; [done|by apply ps_completed].
  - lia.
  - intros Hrun r Hl. eexists. eapply ps_send; [done|done|]. apply H3. by rewrite Hl.
  - clear H1 H2 H3 H4 H5 H6. induction Hr as [|tr s a s' Hr IH Hs]; [apply not_elem_of_nil|].
    rewrite elem_of_snoc. intros [?|<-]; [done|]. apply process_reachable_inv in Hr as [H1 _ _ H4 _ _].
    inversion Hs as [| | | | | | |x Hm He| | | |]; subst. unfold main_inv in H1. rewrite Hm in H1.
    destruct H1 as (_ & Hop & _). by destruct (H4 Hop).
Qed.
End process.
