(* ===== verification/StartupLog.v ===== *)
(** * What the controller says when it starts (cmd/main.go)

    [main] of ControllerMain.v again, now with what it writes: messages on standard error
    until the logger is set up, log lines at or above the configured level from then on.
    A start-up that fails says why, except for one case. *)
From S2P Require Import Prelude GoStrings GoSort NetIP GoURL Kube Provider IPAM Render Engine FilePath Apply GoTime.
From S2P Require Import Config Metrics Controller HAProxyProvider HTTPApi DataplaneAPI ControllerMain.
Local Open Scope Z_scope.

(** ** Output *)
Inductive Output : Type :=
| Stderr (message : string)
| Logged (level : Z) (message : string) (fields : list (string * LogValue)).

(** A computation that writes and may end the process with status 1 *)
Definition Writing (X A : Type) : Type := list Output * result X A.

#[global] Instance writing_ret {X} : MRet (Writing X) := λ A a, ([], Ok a).
#[global] Instance writing_bind {X} : MBind (Writing X) := λ A B f m,
  match m with
  | (o, Ok a) => let '(o', r) := f a in (o ++ o', r)
  | (o, Err e) => (o, Err e)
  end.

Definition write {X} (o : list Output) : Writing X () := (o, Ok ()).

(** [if err != nil { write; os.Exit(1) }] *)
Definition or_exit {X E A} (exit : E → X) (o : list Output) (r : result E A) : Writing X A :=
  match r with Ok a => ([], Ok a) | Err e => (o, Err (exit e)) end.

(** [setupLog.Info] and [setupLog.Error]: the logger drops what is below its level. *)
Definition log_at (logger : LoggerOptions) (level : Z) (message : string) (fields : list (string * LogValue)) : list Output :=
  if Level logger <=? level then [Logged level message fields] else [].
Notation Info logger := (log_at logger InfoLevel).
Notation Error logger := (log_at logger ErrorLevel).

(** ** The lines *)
Definition logDotEnvStatus (logger : LoggerOptions) (dotEnvLoaded : bool) : list Output :=
  if dotEnvLoaded
  then Info logger "loaded environment variables from dotenv file" [("path", LogText DotEnvFileName)]
  else Info logger "dotenv file not found, using environment variables and defaults" [("path", LogText DotEnvFileName)].

Definition managerConfiguration (cfg : Config) : list (string * LogValue) :=
  [("metricsAddr", LogText (MetricsAddr cfg)); ("healthAddr", LogText (HealthAddr cfg));
   ("leaderElection", LogBool (LeaderElect cfg)); ("gracefulShutdownTimeout", LogDuration (GracefulShutdownTimeout cfg));
   ("loadBalancerClass", LogText (LoadBalancerClass cfg)); ("requeueAfter", LogDuration (RequeueAfter cfg));
   ("logLevel", LogText (LogLevel cfg)); ("providerMode", LogText (ProviderMode cfg))].

(** The diagnostic is an informational line. *)
Definition diagnosticLine (logger : LoggerOptions) (d : kubeconfigDiagnostic) : list Output :=
  let '(message, fields) := logPreflightKubeconfigDiagnostic d in
  Info logger message fields.

(** ** [main] up to the start of the manager *)
Section main.
Context `{GoSort, UnicodeCase} {ED E : Type} (lib : Libraries E).
Context (dotenv : result (() + ED) (list (string * string))) (env : Env) (args : list string).
Notation exit := (MainError (DotEnvError ED) E).

Definition preflight_said (logger : LoggerOptions) (env : Env) : Writing exit () :=
  if likelyInClusterEnvironment env then mret () else
  diagnostic ← or_exit ErrMainKubeconfig (Error logger "unable to inspect local kubeconfig" [])
    (diagnoseLocalKubeconfig (lbStat lib) (lbPrecedence lib) (lbLoad lib) args);
  match diagnostic with
  | Some d => (diagnosticLine logger d, Err (ErrMainPreflight d))
  | None => mret ()
  end.

Definition runStartup : Writing exit Started :=
  let '(env, loaded) := LoadDotEnv dotenv env in
  dotEnvLoaded ← or_exit ErrMainDotEnv [Stderr "unable to load .env"] loaded;
  cfg ← or_exit ErrMainConfig [Stderr "unable to load configuration"] (Load env);
  logger ← or_exit ErrMainLogger [Stderr "unable to configure logger"] (configureLogger (LogLevel cfg));
  _ ← write (Info logger "startup beginning" []);
  _ ← write (logDotEnvStatus logger dotEnvLoaded);
  _ ← preflight_said logger env;
  _ ← or_exit ErrMainClientConfig (Error logger "unable to load Kubernetes client configuration" []) (lbGetConfig lib);
  _ ← or_exit ErrMainManager (Error logger "unable to start manager" []) (lbNewManager lib (managerOptions cfg));
  serviceProvider ← or_exit ErrMainProvider
    (Error logger "unable to create service provider" [("providerMode", LogText (ProviderMode cfg))]) (buildProvider cfg);
  _ ← write (Info logger "provider configuration" (logProviderConfiguration cfg));
  let instrumentedProvider := WrapProvider NewProviderMetrics serviceProvider in
  registration ← or_exit ErrMainSetup (Error logger "unable to set up controllers" [])
    (SetupControllers cfg (Some instrumentedProvider));
  _ ← or_exit ErrMainRegister (Error logger "unable to set up controllers" []) (lbRegister lib registration);
  _ ← or_exit ErrMainHealth (Error logger "unable to set up health check" []) (lbAddHealthzCheck lib "healthz");
  _ ← or_exit ErrMainHealth (Error logger "unable to set up ready check" []) (lbAddReadyzCheck lib "readyz");
  _ ← write (Info logger "manager configuration" (managerConfiguration cfg));
  mret (MkStarted cfg logger (managerOptions cfg) serviceProvider registration).

End main.

(** ** Facts *)

Lemma bind_result {X A B} (m : Writing X A) (f : A → Writing X B) : (m ≫= f).2 = (m.2 ≫= λ a, (f a).2).
Proof. destruct m as [o [a|e]]; [|done]. cbn. by destruct (f a). Qed.

Lemma or_exit_result {X E A} (exit : E → X) o (r : result E A) : (or_exit exit o r).2 = wrapE exit r.
Proof. by destruct r. Qed.

Lemma write_bind_result {X B} o (f : () → Writing X B) : (write o ≫= f).2 = (f ()).2.
Proof. by rewrite bind_result. Qed.

Lemma exit_bind_result {X E A B} (exit : E → X) o (r : result E A) (f : A → Writing X B) (g : A → result X B) :
  (∀ a, (f a).2 = g a) → (or_exit exit o r ≫= f).2 = (wrapE exit r ≫= g).
Proof. intros Hfg. rewrite bind_result, or_exit_result. by destruct r as [a|e]; [apply Hfg|]. Qed.

(** *** Who writes what *)
Definition is_error (o : Output) : bool := match o with Stderr _ => true | Logged level _ _ => bool_decide (level = ErrorLevel) end.

(** One error, as the last thing, when the process ends; none when it goes on.  The
    diagnostic of the kubeconfig is the exception. *)
Definition reported {ED E A} (m : Writing (MainError ED E) A) : Prop :=
  match m.2 with
  | Ok _ | Err (ErrMainPreflight _) => Forall (λ o, is_error o = false) m.1
  | Err _ => ∃ o x, m.1 = o ++ [x] ∧ Forall (λ o, is_error o = false) o ∧ is_error x = true
  end.

Section reports.
Context {ED E : Type}.
Notation exit := (MainError ED E).

Lemma reported_bind {A B} (m : Writing exit A) (f : A → Writing exit B) :
  reported m → (∀ a, m.2 = Ok a → reported (f a)) → reported (m ≫= f).
Proof.
  destruct m as [o [a|e]]; [|done]. intros Hm Hf. specialize (Hf a eq_refl). cbn in Hm |- *. unfold reported in *.
  destruct (f a) as [o' r]. cbn [fst snd] in *.
  destruct r as [b|e]; [by apply Forall_app|]. destruct e; try by apply Forall_app.
  all: destruct Hf as (o1 & x & -> & Ho1 & Hx); exists (o ++ o1), x; rewrite <- app_assoc; split_and!; [done|by apply Forall_app|done].
Qed.

Lemma reported_exit {E' A} (wrap : E' → exit) o x (r : result E' A) :
  o = [x] → is_error x = true → (∀ e d, wrap e ≠ ErrMainPreflight d) → reported (or_exit wrap o r).
Proof.
  intros -> Hx Hw. destruct r as [a|e]; [by constructor|]. unfold reported. cbn. specialize (Hw e).
  destruct (wrap e); try (exists [], x; split_and!; [done|constructor|done]). by destruct (Hw d).
Qed.

Lemma Error_line logger message fields : Level logger <= ErrorLevel → Error logger message fields = [Logged ErrorLevel message fields].
Proof. intros Hl. unfold log_at. destruct (Z.leb_spec (Level logger) ErrorLevel); [done|lia]. Qed.

Lemma reported_error {E' A} (wrap : E' → exit) logger message fields (r : result E' A) :
  Level logger <= ErrorLevel → (∀ e d, wrap e ≠ ErrMainPreflight d) → reported (or_exit wrap (Error logger message fields) r).
Proof. intros Hl Hw. eapply reported_exit; [by apply Error_line|by apply bool_decide_eq_true|done]. Qed.

Lemma Info_quiet logger message fields : Forall (λ o, is_error o = false) (Info logger message fields).
Proof. unfold log_at. destruct (_ <=? _); repeat constructor. Qed.

Lemma reported_write o : Forall (λ o, is_error o = false) o → reported (write (X:=exit) o).
Proof. done. Qed.

Lemma configured_level levelName logger : configureLogger levelName = Ok logger → parseLogLevel levelName = Ok (Level logger).
Proof. unfold configureLogger. destruct (parseLogLevel levelName); [|done]. cbn. by intros [= <-]. Qed.

Lemma parsed_level levelName level :
  parseLogLevel levelName = Ok level → level <= ErrorLevel ∧ (InfoLevel < level ↔ levelName ∈ [LogLevelWarn; LogLevelError]).
Proof.
  unfold parseLogLevel. repeat case_bool_decide; intros [= <-]; subst; (split; [done|]); split; intros Hx; try done;
    try (by apply (bool_decide_unpack _)); apply (bool_decide_pack _) in Hx; vm_compute in Hx; done.
Qed.
End reports.

Section startup.
Context `{GoSort, UnicodeCase} {ED E : Type} (lib : Libraries E).
Context (dotenv : result (() + ED) (list (string * string))) (env : Env) (args : list string).

Lemma preflight_result logger env' :
  (preflight_said (ED:=ED) lib args logger env').2 = preflight (ED:=DotEnvError ED) lib env' args.
Proof.
  unfold preflight_said, preflight. destruct (likelyInClusterEnvironment env'); [done|].
  rewrite bind_result, or_exit_result. by destruct (diagnoseLocalKubeconfig _ _ _ _) as [[d|]|e].
Qed.

(** The writing changes nothing: the result is the one of ControllerMain.v. *)
Lemma runStartup_result : (runStartup lib dotenv env args).2 = startController lib dotenv env args.
Proof.
  unfold runStartup, startController. destruct (LoadDotEnv dotenv env) as [env' [b|e]]; [|done].
  rewrite bind_result. cbn [or_exit snd mbind result_bind].
  apply exit_bind_result; intros cfg. apply exit_bind_result; intros logger. rewrite !write_bind_result, bind_result, preflight_result.
  destruct (preflight lib env' args) as [u|e]; [|done]. cbn [mbind result_bind].
  repeat first [apply exit_bind_result; intros ?|rewrite write_bind_result]. done.
Qed.

Lemma preflight_reported logger env' : Level logger <= ErrorLevel → reported (preflight_said (ED:=ED) lib args logger env').
Proof.
  intros Hl. unfold preflight_said. destruct (likelyInClusterEnvironment env'); [by constructor|].
  apply reported_bind; [by apply reported_error|]. intros [d|] _; [|by constructor].
  unfold reported, diagnosticLine. destruct (logPreflightKubeconfigDiagnostic d) as [message fields]. cbn. apply Info_quiet.
Qed.

Lemma runStartup_reported : reported (runStartup lib dotenv env args).
Proof.
  unfold runStartup. destruct (LoadDotEnv dotenv env) as [env' loaded].
  apply reported_bind; [by eapply reported_exit|]. intros b _. apply reported_bind; [by eapply reported_exit|]. intros cfg _.
  apply reported_bind; [by eapply reported_exit|]. intros logger Hlog. rewrite or_exit_result in Hlog.
  assert (Level logger <= ErrorLevel) as Hl.
  { destruct (configureLogger (LogLevel cfg)) as [lg|] eqn:Ec; [|done]. injection Hlog as ->. by eapply parsed_level, configured_level. }
  repeat (apply reported_bind; [|intros ? _]); try (by apply reported_error); try apply reported_write.
  all: try apply Info_quiet.
  - unfold logDotEnvStatus. destruct b; apply Info_quiet.
  - by apply preflight_reported.
  - apply Forall_nil_2.
Qed.

(** *** The exception *)
Lemma bind_error {X A B} (m : Writing X A) (f : A → Writing X B) o e :
  m ≫= f = (o, Err e) → m = (o, Err e) ∨ ∃ o1 a o2, m = (o1, Ok a) ∧ f a = (o2, Err e) ∧ o = o1 ++ o2.
Proof.
  destruct m as [o1 [a|e1]]; cbn; [|intros [= -> ->]; by left]. destruct (f a) as [o2 r] eqn:Hf. intros [= <- ->]. right. exists o1, a, o2. by rewrite Hf.
Qed.

Lemma write_error {X B} o1 (f : () → Writing X B) o e :
  write o1 ≫= f = (o, Err e) → ∃ o2, f () = (o2, Err e) ∧ o = o1 ++ o2.
Proof. intros [?|(o1' & [] & o2 & [= <-] & Hf & Ho)]%bind_error; [done|]. by exists o2. Qed.

Definition never_preflight {ED E A} (m : Writing (MainError ED E) A) : Prop := ∀ d, m.2 ≠ Err (ErrMainPreflight d).

Lemma never_bind {ED' E' A B} (m : Writing (MainError ED' E') A) (f : A → Writing (MainError ED' E') B) :
  never_preflight m → (∀ a, never_preflight (f a)) → never_preflight (m ≫= f).
Proof. intros Hm Hf d. rewrite bind_result. specialize (Hm d). destruct m.2 as [a|e]; [apply Hf|]. cbn. intros [= He]. by apply Hm; rewrite He. Qed.

Lemma never_exit {ED' E' E1 A} (wrap : E1 → MainError ED' E') o (r : result E1 A) :
  (∀ e d, wrap e ≠ ErrMainPreflight d) → never_preflight (or_exit wrap o r).
Proof. intros Hw d. rewrite or_exit_result. destruct r as [a|e]; [done|]. cbn. intros [= He]. by apply (Hw e d). Qed.

Lemma exit_error {X E' A B} (wrap : E' → X) o1 (r : result E' A) (f : A → Writing X B) o e :
  or_exit wrap o1 r ≫= f = (o, Err e) → (∀ e', wrap e' ≠ e) → ∃ a, r = Ok a ∧ f a = (o, Err e).
Proof.
  intros Hb Hw. destruct r as [a|e']; cbn in Hb; [|injection Hb as _ He; by destruct (Hw e')].
  exists a. split; [done|]. destruct (f a). by injection Hb as -> ->.
Qed.

Lemma Info_nil logger message fields : Info logger message fields = [] ↔ InfoLevel < Level logger.
Proof. unfold log_at. destruct (Z.leb_spec (Level logger) InfoLevel); split; intros; done || lia. Qed.

Lemma preflight_silent o d :
  runStartup lib dotenv env args = (o, Err (ErrMainPreflight d)) →
  ∃ cfg, Load (LoadDotEnv dotenv env).1 = Ok cfg ∧ (o = [] ↔ LogLevel cfg ∈ [LogLevelWarn; LogLevelError]).
Proof.
  unfold runStartup. destruct (LoadDotEnv dotenv env) as [env' loaded]. cbn [fst].
  intros (b & _ & Hb)%exit_error; [|done]. apply exit_error in Hb as (cfg & Hload & Hb); [|done].
  apply exit_error in Hb as (logger & Hlog & Hb); [|done]. exists cfg. split; [done|].
  apply configured_level, parsed_level in Hlog as [_ <-]. rewrite <- (Info_nil logger "startup beginning" []).
  apply write_error in Hb as (o1 & Hb & ->). apply write_error in Hb as (o2 & Hb & ->).
  assert (o2 = diagnosticLine logger d) as ->.
  { apply bind_error in Hb as [Hb|(o3 & u & o4 & _ & Hb & _)].
    - revert Hb. unfold preflight_said. destruct (likelyInClusterEnvironment env'); [done|].
      intros (d' & _ & Hd)%exit_error; [|done]. destruct d' as [d'|]; [|done]. by injection Hd as <- ->.
    - exfalso. match type of Hb with ?m = _ => assert (never_preflight m) as Hn end.
      { repeat first [apply never_bind; [|intros ?]|by apply never_exit|done]. }
      specialize (Hn d). by rewrite Hb in Hn. }
  unfold logDotEnvStatus, diagnosticLine. destruct (logPreflightKubeconfigDiagnostic d) as [message fields].
  unfold log_at. by destruct b, (Level logger <=? InfoLevel).
Qed.
End startup.

(** C35. A start-up that fails says why, with one exception.  When [main] ends the process
    before the manager runs, the last thing it has written is an error, the only one; when
    it goes on it has written none.  But when it stops because of the local kubeconfig
    the reason is an informational line: with the log level warn or error, and only
    then, the process ends without a word. *)
Theorem startup_reports `{GoSort, UnicodeCase} {ED E} (lib : Libraries E)
    (dotenv : result (() + ED) (list (string * string))) env args :
  let '(o, r) := runStartup lib dotenv env args in
  r = startController lib dotenv env args ∧
  match r with
  | Ok _ => Forall (λ x, is_error x = false) o
  | Err (ErrMainPreflight _) =>
    Forall (λ x, is_error x = false) o ∧
    ∃ cfg, Load (LoadDotEnv dotenv env).1 = Ok cfg ∧ (o = [] ↔ LogLevel cfg ∈ [LogLevelWarn; LogLevelError])
  | Err _ => ∃ o' x, o = o' ++ [x] ∧ Forall (λ x, is_error x = false) o' ∧ is_error x = true
  end.
Proof.
  pose proof (runStartup_result lib dotenv env args) as Hres. pose proof (runStartup_reported lib dotenv env args) as Hrep.
  pose proof (preflight_silent lib dotenv env args) as Hsil. destruct (runStartup lib dotenv env args) as [o r].
  split; [exact Hres|]. unfold reported in Hrep. cbn [fst snd] in *.
  destruct r as [st|e]; [done|]. destruct e; try done. split; [done|]. by eapply Hsil.
Qed.

(** The exception happens: outside a cluster, without a kubeconfig, at log level error. *)
Example startup_silent `{GoSort, UnicodeCase} :
  let lib := MkLibraries (E:=()) (λ _, None) (λ _, ["/root/.kube/config"]) (λ _, Err ()) (Ok ()) (λ _, Ok ()) (λ _, Ok ())
    (λ _, Ok ()) (λ _, Ok ()) in
  ∀ env cfg, Load env = Ok cfg → LogLevel cfg = LogLevelError → likelyInClusterEnvironment env = false →
  runStartup (ED:=()) lib (Err (inl ())) env [] =
    ([], Err (ErrMainPreflight (MkDiagnostic NoKubeconfig "" [] ["/root/.kube/config"] ""))).
Proof.
  intros lib env cfg Hload Hlevel Hcluster. unfold runStartup. cbn [LoadDotEnv or_exit mbind writing_bind]. rewrite Hload.
  cbn [or_exit mbind writing_bind]. rewrite Hlevel. unfold preflight_said. by rewrite Hcluster.
Qed.
