(* ===== verification/System.v ===== *)
(** * The whole system

    The controller as it was started, with its instrumented API provider, a network,
    and a dataplane that came up and has answered any requests.  A reconciliation that
    succeeds is followed through every component: from the Service in the API server
    to the HAProxy file and the interface of the dataplane's host. *)
From S2P Require Import Prelude GoStrings GoSort NetIP GoURL GoJSON Kube Client Provider IPAM Status Backends Store Render.
From S2P Require Import ExternalIPs Engine FilePath Apply IPAttach GoTime Config Metrics Controller Convergence HTTPApi.
From S2P Require Import DataplaneAPI HAProxyProvider ControllerMain DataplaneConfig Dataplane Server.
Local Open Scope Z_scope.

(** ** What the API server guarantees of its objects: names of the usual form, and
    ports that are 32-bit integers *)
Definition names_ok (s : KService) : Prop := ref_ok (serviceRef s).

Definition ports_ok (s : KService) (slices : list EndpointSlice) : Prop :=
  (∀ sp, sp ∈ ksPorts s → int32 (kpPort sp)) ∧
  (∀ es esp z, es ∈ slices → esp ∈ esPorts es → epPort esp = Some z → int32 z).

Lemma desired_int32 `{GoSort} ios_String s a slices :
  ports_ok s slices → service_int32 (desired ios_String s a slices).
Proof.
  intros [Hs Hes]. unfold service_int32, desired, buildProviderService. cbn [svcPorts Discover].
  rewrite !Forall_fmap. apply Forall_forall. intros sp Hsp. unfold compose, port_int32. cbn [portPort portBackends].
  destruct (discover_port_spec s sp (List.filter (slice_selected (ksNamespace s) {[LabelServiceName := ksName s]}) slices))
    as (_ & -> & _ & _ & _ & _ & Hb).
  split; [auto|]. apply Forall_forall. intros b (es & esp & ep & addr & Hin & _ & Hesp & _ & Hp & _)%Hb.
  apply (Hes es esp); [|done|done]. apply list_elem_of_In in Hin. apply list_elem_of_In.
  by apply filter_In in Hin as [Hin _].
Qed.

Lemma clean_address a : Is4 a = true → clean_string (AddrString a) = AddrString a.
Proof.
  intros H4. unfold clean_string. rewrite utf8_clean_ascii; [apply of_bytes_bytes|].
  intros c [->|(d & -> & Hd)]%AddrString_chars; [done| |done]. unfold digit. rewrite bz_zb; lia.
Qed.

(** The instrumented provider passes the result of the provider behind it on. *)
Lemma instrumented_ok {W E} (P : Provider W E) s ip ip' b :
  Ensure (instrumented P) s ip = (ip', Ok b) → Ensure P s (next ip) = (next ip', Ok b).
Proof.
  cbn [Ensure instrumented]. unfold instrumentedEnsure. destruct (Ensure P s (next ip)) as [w [c|e]]; [|done].
  by intros [= <- <-].
Qed.

Section system.
Context `{GoSort, UnicodeCase, TempNames, FinalizerUtil} {X EX EI ED EC EL EH Wc Ec : Type}.
(** The dataplane's host *)
Context (exec : list string → Host X → Host X * (string * option EX)).
Context (runner : Runner X EI) (client : option (netlinkClient X EI)) (prefixes : X → gset Prefix).
Context (detail : RequestError → string) (redirect : Request → string → Response).
(** The API server and the libraries of the controller *)
Context (C : Client Wc Ec) `{!ClientSpec C} (lib : Libraries EL) (ios_String : IntOrString → string).
(** The network *)
Context (Do : HTTPRequest → Handler (Host X) → Handler (Host X) * result EH (HTTPResponse EH)).

Notation host_error := (HostError (ApplyError EX) (AttachError EI)).
Notation world := (World Wc (instrumentedProvider (Handler (Host X)))).
Implicit Types (w : world).

(** A Service is served with an address: it is in the dataplane's store as the
    controller wants it, the HAProxy file is the document of the store, and the address
    is on the interface when attachment is enabled. *)
Definition served (dcfg : DPConfig) (s : KService) (a : Addr) (slices : list EndpointSlice) (h : Handler (Host X)) : Prop :=
  services (store (hEngine h)) !! serviceRef s = Some (normalizeService (received (desired ios_String s a slices))) ∧
  (∃ doc, Render (StoreList (store (hEngine h))) = Ok doc ∧
     files (fs (host (hEngine h))) !! Clean (dpHAProxyConfigPath dcfg) = Some doc) ∧
  (dpIPAttachEnabled dcfg = true → MkPrefix a (dpIPCIDRSuffix dcfg) ∈ prefixes (rest (host (hEngine h)))).

Lemma serving_served dcfg s a slices st h :
  ipv4_wf a → store_wf st → store (hEngine h) = Upsert (received (desired ios_String s a slices)) st →
  serving dcfg prefixes (store (hEngine h)) (host (hEngine h)) → served dcfg s a slices h.
Proof.
  intros Ha Hwf Hst [Hdoc Hip]. rewrite Hst in *.
  assert (services (Upsert (received (desired ios_String s a slices)) st) !! serviceRef s =
    Some (normalizeService (received (desired ios_String s a slices)))) as Hl
    by (rewrite Upsert_services; apply lookup_insert_eq).
  unfold served. rewrite Hst. split_and!; [done|done|]. intros Hen.
  apply (Hip Hen); [apply Ha|]. split; [done|].
  exists (normalizeService (received (desired ios_String s a slices))). split.
  - apply StoreList_elem; [by apply Upsert_wf|exact Hl].
  - rewrite normalize_ip. cbn [received svcExternalIP]. by apply clean_address, Ha.
Qed.

End system.
