(* ===== verification/Progress.v ===== *)
(** * Progress

    What the controller needs in order to succeed: an API server whose calls work
    ([client_works]), an address that is free, and a provider that accepts the
    definition.  Then a reconciliation of a live managed Service succeeds, and over a
    reliable network to a working dataplane it does so for exactly the Services whose
    ports HAProxy can serve. *)
From S2P Require Import Prelude GoStrings GoSort NetIP GoURL GoJSON Kube Client Provider IPAM Status Backends Store Render.
From S2P Require Import ExternalIPs Engine FilePath Apply IPAttach GoTime Config Metrics Controller Convergence HTTPApi.
From S2P Require Import DataplaneAPI HAProxyProvider ControllerMain DataplaneConfig Dataplane Server System.
Local Open Scope Z_scope.

(** ** The API server's calls work in the states [good], and stay there. *)
Record client_works {W E} (C : Client W E) `{!ClientSpec C} (good : W → Prop) : Prop := {
  cw_get : ∀ k w s, good w → cs_services w !! k = Some s → good (cl_get C k w).1 ∧ (cl_get C k w).2 = Ok s;
  cw_list : ∀ w, good w → good (cl_list_services C w).1 ∧ is_Ok (cl_list_services C w).2 = true;
  cw_slices : ∀ ns ls w, good w → good (cl_list_slices C ns ls w).1 ∧ is_Ok (cl_list_slices C ns ls w).2 = true;
  cw_patch : ∀ orig s w, good w → is_Some (cs_services w !! objectKey s) →
    good (cl_patch C orig s w).1 ∧ is_Ok (cl_patch C orig s w).2 = true;
  cw_status : ∀ s w, good w → is_Some (cs_services w !! objectKey s) →
    good (cl_status_update C s w).1 ∧ is_Ok (cl_status_update C s w).2 = true;
  cw_missing : ∀ k w, good w → cs_services w !! k = None →
    good (cl_get C k w).1 ∧ ∃ e, (cl_get C k w).2 = Err e ∧ cl_not_found C e = true;
  cw_patch_good : ∀ orig s w, good w → good (cl_patch C orig s w).1;
  cw_status_good : ∀ s w, good w → good (cl_status_update C s w).1;
}.

Section progress.
Context `{GoSort, FinalizerUtil} {Wc Ec Wp Ep : Type}.
Context (C : Client Wc Ec) `{!ClientSpec C} (P : Provider Wp Ep).
Context (cfg : Config) (ios_String : IntOrString → string).
Context (good : Wc → Prop) (Hwork : client_works C good).
Notation world := (World Wc Wp).
Implicit Types (w : world) (s : KService) (c : Wc).

(** The provider accepts the Service with every address of the pool. *)
Definition accepted s w : Prop :=
  ∀ a, a ∈ IPPool cfg → is_Ok (Ensure P (desired ios_String s a (cs_slices_of (cluster w))) (prov w)).2 = true.

Lemma provision_works s alloc w :
  good (cluster w) → stored C w !! objectKey s = Some s → allocIP alloc ∈ IPPool cfg → accepted s w →
  (provisionService C P ios_String s alloc w).2 = Ok (MkResult 0).
Proof.
  intros Hg Hs Ha Hacc. unfold provisionService, listEndpointSlicesForService.
  destruct (cw_slices C good Hwork (ksNamespace s) {[LabelServiceName := ksName s]} _ Hg) as [Hg1 Hok].
  destruct (cl_list_slices C _ _ (cluster w)) as [c1 [es|e]] eqn:Hsl; [|done]. cbn [fst snd] in *.
  pose proof (cs_slices_ok _ _ _ _ _ Hsl) as Hes. apply cs_slices in Hsl.
  rewrite (desired_perm _ _ _ _ _ Hes). specialize (Hacc _ Ha). cbn [prov set_cluster].
  destruct (Ensure P _ (prov w)) as [p [b|e]]; [|done]. cbn [cluster set_cluster set_prov].
  unfold UpdateServiceLoadBalancerStatus. destruct (negb _); [done|].
  destruct (cw_status C good Hwork (set_ingress s (DesiredLoadBalancerIngress (AddrString (allocIP alloc)))) c1 Hg1) as [_ Hup].
  { rewrite Hsl. change (objectKey (set_ingress s _)) with (objectKey s). by eexists. }
  by destruct (cl_status_update C _ c1) as [c2 [u|e]].
Qed.

Lemma allocate_works s w :
  good (cluster w) → stored C w !! objectKey s = Some s → (∃ a, a ∈ IPPool cfg ∧ unclaimed C cfg s a w) → accepted s w →
  (allocateService C P cfg ios_String s w).2 = Ok (MkResult 0).
Proof.
  intros Hg Hs (a & Ha & Hun) Hacc. unfold allocateService, listServicesForAllocation.
  destruct (cw_list C good Hwork _ Hg) as [Hg1 Hok]. pose proof (cs_list_slices (cluster w)) as Hsl.
  destruct (cl_list_services C (cluster w)) as [c1 [l|e]] eqn:Hl; [|done]. cbn [fst snd] in *.
  pose proof (cs_list _ _ _ Hl) as Hc1. fold (allocator_of cfg).
  destruct (Allocate (allocator_of cfg) (Some s) l) as [alloc|err] eqn:Hal.
  - apply provision_works.
    + exact Hg1.
    + unfold stored. cbn. by rewrite Hc1.
    + by apply Allocate_free in Hal as [? _].
    + intros x Hx. cbn. rewrite Hsl. by apply Hacc.
  - exfalso. pose proof (Allocate_errors _ _ _ _ Hal) as [[_ Hp]| ->].
    + change (alPool _) with (IPPool cfg) in Hp. rewrite Hp in Ha. by apply not_elem_of_nil in Ha.
    + destruct (alloc_exhausted cfg _ _ _ Hal Ha) as (s' & Hs' & (Hd & Hk & Hm) & Hpub).
      apply (cs_list_ok _ _ _ _ Hl) in Hs'. by apply (Hun (objectKey s') s').
Qed.

Lemma managed_works s w :
  good (cluster w) → stored C w !! objectKey s = Some s → (∃ a, a ∈ IPPool cfg ∧ unclaimed C cfg s a w) → accepted s w →
  (reconcileManagedService C P cfg ios_String (objectKey s) s w).2 = Ok (MkResult 0).
Proof.
  intros Hg Hs (a & Ha & Hun) Hacc. unfold reconcileManagedService.
  destruct (ensureServiceFinalizer C s (cluster w)) as [c res] eqn:He.
  assert (good c ∧ is_Ok res = true) as [Hgc Hok].
  { revert He. unfold ensureServiceFinalizer. destruct (hasServiceFinalizer (Some s)); [by intros [= <- <-]|].
    destruct (cw_patch C good Hwork s (set_finalizers s (AddFinalizer (ksFinalizers s) serviceFinalizer)) _ Hg) as [? Hp];
      [by eexists|]. destruct (cl_patch C _ _ (cluster w)) as [c' [x|e]]; [|done]. by intros [= <- <-]. }
  apply (ensureFinalizer_spec C) in He as [Hw Hr]; [|done]. destruct res as [[b s']|e]; [|done].
  destruct Hr as (Hs' & _ & _ & Heq & Hsl).
  assert (∀ c2, good c2 → cs_services c2 = cs_services c → cs_slices_of c2 = cs_slices_of (cluster w) →
    (allocateService C P cfg ios_String s' (set_cluster w c2)).2 = Ok (MkResult 0)) as Hall.
  { intros c2 Hg2 Hc2 Hsl2. apply allocate_works; [exact Hg2| | |].
    - unfold stored. cbn. rewrite Hc2, Heq. change (objectKey (set_finalizers s _)) with (objectKey s). by rewrite <- Heq.
    - exists a. split; [done|]. intros k x Hx Hk. rewrite Heq in Hk. change (objectKey (set_finalizers s _)) with (objectKey s) in Hk.
      apply (Hun k); [|done]. unfold stored in Hx |- *. cbn in Hx. rewrite Hc2 in Hx.
      destruct Hw as [Hw|(st & _ & Hw)]; rewrite Hw in Hx; [done|]. unfold store_finalizers in Hx.
      case_bool_decide; by rewrite ?lookup_delete_ne, ?lookup_insert_ne in Hx by done.
    - intros x Hx. cbn. rewrite Hsl2, Heq. by apply Hacc. }
  destruct b; cbn [cluster set_cluster].
  - destruct (cw_get C good Hwork _ _ _ Hgc Hs') as [Hg2 Hget]. pose proof (cs_get_slices (objectKey s) c) as Hsl2.
    destruct (cl_get C (objectKey s) c) as [c2 r] eqn:E. cbn [fst snd] in *. subst r.
    apply cs_get_ok in E as [Hc2 _]. apply Hall; [done|done|congruence].
  - by apply Hall.
Qed.

(** *** The controller makes progress.  When the API server's calls work, some address of
    the pool is published by no other live managed Service, and the provider accepts the
    Service, then a reconciliation of a live managed Service succeeds and need not be
    repeated. *)
Lemma Reconcile_works req s w :
  good (cluster w) → stored C w !! req = Some s → live (LoadBalancerClass cfg) s →
  (∃ a, a ∈ IPPool cfg ∧ unclaimed C cfg s a w) → accepted s w →
  ∃ w', Reconcile C P cfg ios_String req w = (w', Ok (MkResult 0)).
Proof.
  intros Hg Hs [Hd Hm] Hfree Hacc. pose proof (cs_keys _ _ _ Hs) as <-. unfold Reconcile, reconcile_request.
  cbn [cluster set_metrics prov rmetrics]. pose proof (cs_get_slices (objectKey s) (cluster w)) as Hsl.
  destruct (cw_get C good Hwork _ _ _ Hg Hs) as [Hg1 Hget].
  destruct (cl_get C (objectKey s) (cluster w)) as [c r] eqn:E. cbn [fst snd] in *. subst r.
  apply cs_get_ok in E as [Hc _]. rewrite Hd, Hm. rewrite bool_decide_eq_false_2 by tauto. cbn [negb].
  match goal with |- context [reconcileManagedService C P cfg ios_String _ s ?w1] =>
    pose proof (managed_works s w1) as Hman; destruct (reconcileManagedService C P cfg ios_String (objectKey s) s w1) as [w2 r2] end.
  cbn [snd] in Hman. rewrite Hman; [by eexists|exact Hg1|unfold stored; cbn; by rewrite Hc| |].
  - destruct Hfree as (a & Ha & Hun). exists a. split; [done|]. intros k x Hx. apply Hun. unfold stored in *. cbn in Hx.
    by rewrite Hc in Hx.
  - intros a Ha. cbn. rewrite Hsl. by apply Hacc.
Qed.
End progress.

(** ** The definitions the controller hands to the dataplane *)

(** The protocols of a port of a Service that the API server admits *)
Definition known_protocols (s : KService) : Prop := ∀ sp, sp ∈ ksPorts s → kpProtocol sp ∈ [""; "TCP"; "UDP"; "SCTP"].

(** Every port is a TCP port. *)
Definition servable (s : KService) : Prop := ∀ sp, sp ∈ ksPorts s → kpProtocol sp ∈ [""; "TCP"] ∧ 0 < kpPort sp.

Section desired.
Context `{GoSort} (ios_String : IntOrString → string).

Lemma known_protocol_valid p :
  p ∈ [""; "TCP"; "UDP"; "SCTP"] →
  (TrimSpace (clean_string (normalizeServiceProtocol p)) = "" ∨
   EqualFold (TrimSpace (clean_string (normalizeServiceProtocol p))) "TCP" = true) ↔ p ∈ [""; "TCP"].
Proof.
  intros Hp. repeat (apply elem_of_cons in Hp as [->|Hp]; [|]); [..|by apply not_elem_of_nil in Hp].
  1,2: split; [intros _; by apply (bool_decide_unpack _)|intros _; right; vm_compute; reflexivity].
  all: split; [intros [Hx|Hx]; vm_compute in Hx; discriminate Hx|intros Hx%(bool_decide_pack _); vm_compute in Hx; done].
Qed.

Lemma name_trimmed s : name_ok s → TrimSpace s ≠ "".
Proof.
  intros (Hne & _ & _ & Hs). rewrite TrimSpace_solid; [done|]. rewrite forallb_spec in Hs |- *. intros c Hc.
  specialize (Hs c Hc). revert Hs. clear. destruct c as [[] [] [] [] [] [] [] []]; first [discriminate|done].
Qed.

(** The ports of a definition are those of the Service, with valid backends. *)
Lemma desired_ports s a slices p :
  p ∈ svcPorts (desired ios_String s a slices) →
  ∃ sp, sp ∈ ksPorts s ∧ portProtocol p = normalizeServiceProtocol (kpProtocol sp) ∧ portPort p = kpPort sp ∧
    ∀ b, b ∈ portBackends p → backend_valid (clean_backend b).
Proof.
  unfold desired, buildProviderService. cbn [svcPorts Discover].
  intros (spb & -> & (sp & -> & Hsp)%list_elem_of_fmap)%list_elem_of_fmap. exists sp.
  destruct (discover_port_spec s sp (List.filter (slice_selected (ksNamespace s) {[LabelServiceName := ksName s]}) slices))
    as (_ & Hport & _ & Hproto & _ & _ & Hw). split_and!; [done|done|done|]. cbn [portBackends].
  intros b [(x & Hx & Hbx) Hpos]%Hw%wanted_ipv4. split; [|done].
  cbn [beAddress clean_backend]. rewrite Hbx, clean_address by apply Hx. by exists x.
Qed.

Lemma desired_ports_all s a slices sp :
  sp ∈ ksPorts s → ∃ p, p ∈ svcPorts (desired ios_String s a slices) ∧
    portProtocol p = normalizeServiceProtocol (kpProtocol sp) ∧ portPort p = kpPort sp.
Proof.
  intros Hsp. unfold desired, buildProviderService. cbn [svcPorts Discover].
  pose proof (discover_port_spec s sp (List.filter (slice_selected (ksNamespace s) {[LabelServiceName := ksName s]}) slices))
    as (_ & Hport & _ & Hproto & _). eexists. split; [|split].
  - apply list_elem_of_fmap. eexists (discover_port s _ sp). split; [reflexivity|]. by apply list_elem_of_fmap; eexists.
  - exact Hproto.
  - exact Hport.
Qed.

Lemma desired_service_valid s a slices :
  names_ok s → known_protocols s → ipv4_wf a →
  service_valid (received (desired ios_String s a slices)) ↔ servable s.
Proof.
  intros [Hns Hn] Hknown Ha. unfold service_valid.
  cbn [received svcNamespace svcName svcExternalIP svcPorts].
  change (svcExternalIP (desired ios_String s a slices)) with (AddrString a). rewrite clean_address by apply Ha. split.
  - intros (_ & _ & _ & Hports) sp Hsp.
    destruct (desired_ports_all s a slices sp Hsp) as (p & Hp & Hproto & Hport).
    destruct (Hports (clean_port p)) as (Hv & Hpos & _); [by apply list_elem_of_fmap_2|].
    cbn [clean_port portProtocol portPort] in Hv, Hpos. rewrite Hproto in Hv. rewrite Hport in Hpos.
    split; [|done]. by apply known_protocol_valid; [apply Hknown|].
  - intros Hserv. split_and!; [by apply name_trimmed|by apply name_trimmed|by exists a|].
    intros q (p & -> & Hp)%list_elem_of_fmap.
    destruct (desired_ports s a slices p Hp) as (sp & Hsp & Hproto & Hport & Hb). specialize (Hserv sp Hsp) as [Hv Hpos].
    unfold port_valid. cbn [clean_port portProtocol portPort portBackends]. rewrite Hproto, Hport. split_and!.
    + by apply known_protocol_valid; [apply Hknown|].
    + done.
    + intros b (b' & -> & Hb')%list_elem_of_fmap. by apply Hb.
Qed.

(** C22. What the controller hands to the dataplane is well formed, and accepted exactly
    when it can be served: for a Service of the API server with an address of the pool,
    the definition that arrives at the dataplane passes its validation if and only if
    all ports of the Service are TCP ports with positive numbers.  The address, the
    names and the discovered backends never make it invalid. *)
Theorem desired_valid s a slices :
  names_ok s → known_protocols s → ipv4_wf a →
  ValidateService (normalizeService (received (desired ios_String s a slices))) = Ok () ↔ servable s.
Proof. intros. rewrite ValidateService_spec, service_valid_normalize. by apply desired_service_valid. Qed.
End desired.

(** ** The system makes progress *)

(** The operations of the dataplane's host work: addresses can be listed, added and
    removed, and every document that renders can be applied. *)
Record host_works `{GoSort, UnicodeCase} {W E} (A : ConfigApplier W E) (M : ExternalIPManager W E)
    `{!IPManagerSpec M} (h : W) : Prop := {
  hw_list : ∀ w, is_Ok (ipm_List M w).2 = true;
  hw_present : ∀ a w, ipv4_wf a → is_Ok (ipm_EnsurePresent M a w).2 = true;
  hw_absent : ∀ a w, a ∈ ip_attached h → is_Ok (ipm_EnsureAbsent M a w).2 = true;
  hw_apply : ∀ l w, is_Ok (Render l) = true → is_Ok (ca_Apply A l w).2 = true;
}.

Section system_progress.
Context `{GoSort, UnicodeCase, FinalizerUtil} {W E EH Wc Ec : Type}.
Context (A : ConfigApplier W E) (M : ExternalIPManager W E) `{!ApplierSpec A, !IPManagerSpec M, !EngineFrame A M}.
Context (detail : RequestError → string) (redirect : Request → string → Response).
Context (Do : HTTPRequest → Handler W → Handler W * result EH (HTTPResponse EH)).
Context (C : Client Wc Ec) `{!ClientSpec C} (cfg : Config) (ios_String : IntOrString → string) (p : APIProvider).
Notation world := (World Wc (instrumentedProvider (Handler W))).
Implicit Types (w : world).

Lemma reliable_transport : reliable A M detail redirect Do → Transport A M detail redirect Do.
Proof.
  intros Hrel req r h h' res Hw Hm. rewrite (Hrel _ _ _ Hw Hm). intros [= <- <-]. right. split; [done|].
  split; [done|]. by intros b [= <-].
Qed.

(** What is sent for a Service fits into one request of the dataplane, whichever address
    it gets. *)
Definition fits (s : KService) w : Prop :=
  ∀ a, a ∈ IPPool cfg →
    Z.of_nat (length (Marshal (servicePayloadFromService (desired ios_String s a (cs_slices_of (cluster w)))))) <=
      hMaxRequestBodyBytes (next (prov w)).

(** The remote dataplane accepts exactly the Services that it can serve. *)
Lemma remote_ensure_accepts s a slices ip :
  reliable A M detail redirect Do → root_provider p → names_ok s → ports_ok s slices → known_protocols s → ipv4_wf a →
  engine_inv M (hEngine (next ip)) → host_works A M (host (hEngine (next ip))) →
  Z.of_nat (length (Marshal (servicePayloadFromService (desired ios_String s a slices)))) <= hMaxRequestBodyBytes (next ip) →
  is_Ok (Ensure (instrumented (apiProvider Do p)) (desired ios_String s a slices) ip).2 = true ↔ servable s.
Proof.
  intros Hrel Hp Hn Hports Hk Ha Hinv [Hli Hpr Hab Hap] Hlen.
  rewrite <- (desired_service_valid ios_String s a slices Hn Hk Ha).
  pose proof (desired_int32 ios_String s a slices Hports) as Hi. cbn [Ensure instrumented]. unfold instrumentedEnsure.
  destruct (Ensure (apiProvider Do p) (desired ios_String s a slices) (next ip)) as [h' res] eqn:He. split.
  - intros Hok. destruct res as [b|]; [|done]. pose proof (reliable_transport Hrel) as Htr.
    destruct (api_ensure_refines A M detail redirect Do p (desired ios_String s a slices) _ _ _ Hp Hn Hi He) as [[_ ?]|[_ Hb]]; [done|].
    specialize (Hb b eq_refl). unfold EngineEnsure in Hb.
    destruct (ValidateService _) as [[]|] eqn:Hv; [|done]. by apply service_valid_normalize, ValidateService_spec.
  - intros Hv. pose proof (EngineEnsure_succeeds A M _ _ Hinv Hv Hli Hpr Hab Hap) as Hok.
    destruct (api_provider_reliable A M detail redirect Do p (next ip) Hrel Hp) as [Hen _].
    destruct (Hen (desired ios_String s a slices) Hn Hi) as [_ Hb]; [|done|].
    { by rewrite (proj2 (ValidateService_spec _)) by by apply service_valid_normalize. }
    rewrite He in Hb. cbn [snd] in Hb. destruct (EngineEnsure A M _ _).2 as [b|]; [|done]. by rewrite (proj2 (Hb b) eq_refl).
Qed.

(** C5. The system makes progress, for exactly the Services that can be served.  The API
    server's calls work, the network loses nothing, the dataplane is in a state it can
    reach and its host's operations work, and some address of the pool is published by
    no other live managed Service.  Then reconciling a live managed Service whose
    payload fits one request succeeds and need not be repeated if all its ports are TCP
    ports with positive numbers; and if one is not, it never succeeds. *)
Theorem system_progress (good : Wc → Prop) req s w :
  client_works C good → good (cluster w) →
  reliable A M detail redirect Do → root_provider p →
  engine_inv M (hEngine (next (prov w))) → host_works A M (host (hEngine (next (prov w)))) →
  Forall ipv4_wf (IPPool cfg) → stored C w !! req = Some s → live (LoadBalancerClass cfg) s →
  (∃ a, a ∈ IPPool cfg ∧ unclaimed C cfg s a w) →
  names_ok s → ports_ok s (cs_slices_of (cluster w)) → known_protocols s → fits s w →
  (∃ w', Reconcile C (instrumented (apiProvider Do p)) cfg ios_String req w = (w', Ok (MkResult 0))) ↔ servable s.
Proof.
  intros Hwork Hg Hrel Hp Hinv Hhost Hpool Hs Hl Hfree Hn Hports Hk Hfit.
  assert (∀ a, a ∈ IPPool cfg →
    is_Ok (Ensure (instrumented (apiProvider Do p)) (desired ios_String s a (cs_slices_of (cluster w))) (prov w)).2 = true
      ↔ servable s) as Hacc.
  { intros a Ha. rewrite Forall_forall in Hpool. apply remote_ensure_accepts; auto. }
  split.
  - intros [w' Hr]. destruct (Reconcile_ok C _ _ _ _ _ _ _ _ Hpool Hs Hl Hr) as [-> [(_ & Hex & _)|(_ & a & Ha & _ & Hrun)]].
    { destruct Hfree as (a & Ha & Hun). destruct (Hex a Ha) as (k & s' & Hne & Hs' & Hl' & Hpub). by destruct (Hun k s'). }
    destruct Hrun as ((es & b & Hes & He) & _). rewrite (desired_perm _ _ _ _ _ Hes) in He.
    apply (Hacc a Ha). by rewrite He.
  - intros Hserv. eapply Reconcile_works; [done..|]. intros a Ha. by apply Hacc.
Qed.
End system_progress.
