(* ===== verification/Settling.v ===== *)
(** * The controller settles

    When the calls to the API server and the provider work, no request is lost or
    repeated for ever: one turn of the worker per request empties the queue, and with
    enough addresses in the pool everything is then in order. *)
From S2P Require Import Prelude GoStrings GoSort NetIP GoURL GoJSON Kube Client Provider IPAM Status Backends Store Render.
From S2P Require Import ExternalIPs Engine FilePath Apply IPAttach GoTime Config Metrics Controller Convergence Effects WorkQueue HTTPApi.
From S2P Require Import DataplaneAPI HAProxyProvider ControllerMain DataplaneConfig Dataplane Server System Progress.
Local Open Scope Z_scope.

(** ** A provider whose operations work on the definitions it accepts *)
Record provider_works {W E} (P : Provider W E) (good : W → Prop) (accept : Service → Prop) : Prop := {
  pw_ensure : ∀ x p, good p → accept x → is_Ok (Ensure P x p).2 = true;
  pw_ensure_good : ∀ x p, good p → good (Ensure P x p).1;
  pw_delete : ∀ r p, good p → is_Ok (Delete P r p).2 = true;
  pw_delete_good : ∀ r p, good p → good (Delete P r p).1;
}.

Section settling.
Context `{GoSort, FinalizerUtil} {Wc Ec Wp Ep : Type}.
Context (C : Client Wc Ec) `{!ClientSpec C} (P : Provider Wp Ep) `{!ProviderSpec P}.
Context (cfg : Config) (ios_String : IntOrString → string).
Context (good : Wc → Prop) (Hwork : client_works C good).
Context (pgood : Wp → Prop) (accept : Service → Prop) (Hprov : provider_works P pgood accept).
Notation world := (World Wc Wp).
Notation stored := (stored C).
Notation held := (held P).
Notation class := (LoadBalancerClass cfg).
Notation slices w := (cs_slices_of (cluster w)).
Implicit Types (w : world) (s : KService) (k : NamespacedName) (c : Wc).

(** ** The working states are kept *)
Definition working w : Prop := good (cluster w) ∧ pgood (prov w).

Lemma get_good k c : good c → good (cl_get C k c).1.
Proof.
  intros Hg. destruct (cs_services c !! k) as [s|] eqn:E; [by apply (cw_get _ _ Hwork k c s)|by apply (cw_missing _ _ Hwork)].
Qed.

Lemma status_good s ing c : good c → good (UpdateServiceLoadBalancerStatus C (Some s) ing c).1.1.
Proof.
  intros Hg. unfold UpdateServiceLoadBalancerStatus. destruct (negb _); [done|].
  pose proof (cw_status_good _ _ Hwork (set_ingress s ing) c Hg) as Hs. by destruct (cl_status_update C _ c) as [c' [u|e]].
Qed.

Lemma remove_good s c : good c → good (removeServiceFinalizer C s c).1.
Proof.
  intros Hg. unfold removeServiceFinalizer. destruct (negb _); [done|].
  match goal with |- context [cl_patch C s ?x c] => pose proof (cw_patch_good _ _ Hwork s x c Hg) as Hs end.
  by destruct (cl_patch C _ _ c) as [c' [u|e]].
Qed.

Lemma deleting_working s w : working w → working (reconcileDeletingService C P s w).1.
Proof.
  intros [Hg Hp]. unfold reconcileDeletingService. destruct (negb _); [done|].
  pose proof (pw_delete_good _ _ _ Hprov (serviceRef s) (prov w) Hp) as Hp'.
  destruct (Delete P (serviceRef s) (prov w)) as [p [b|e]]; [|done]. cbn [cluster set_prov].
  pose proof (remove_good s (cluster w) Hg) as Hr. by destruct (removeServiceFinalizer C s (cluster w)) as [c [u|e]].
Qed.

Lemma unmanaged_working s w : working w → working (reconcileUnmanagedService C P cfg (Some s) w).1.
Proof.
  intros [Hg Hp]. unfold reconcileUnmanagedService. destruct (_ && _); [done|].
  pose proof (pw_delete_good _ _ _ Hprov (serviceRef s) (prov w) Hp) as Hp'.
  destruct (Delete P (serviceRef s) (prov w)) as [p [b|e]]; [|done]. cbn [cluster set_prov].
  pose proof (status_good s [] (cluster w) Hg) as Hst.
  destruct (if _ || _ then _ else _) as [[c out] cl] eqn:Hif.
  assert (good c) as Hc.
  { destruct (_ || _); [by rewrite Hif in Hst|]. by injection Hif as <- _ _. }
  destruct cl as [b'|e]; [|done]. destruct out as [s1|]; [|done]. destruct (negb _); [done|].
  destruct b'; cbn [cluster set_cluster set_prov].
  - pose proof (get_good (objectKey s1) c Hc) as Hg2. destruct (cl_get C (objectKey s1) c) as [c2 [s2|e]]; [|done].
    pose proof (remove_good s2 c2 Hg2) as Hr. cbn [cluster set_cluster set_prov].
    by destruct (removeServiceFinalizer C s2 c2) as [c3 [u|e]].
  - pose proof (remove_good s1 c Hc) as Hr. by destruct (removeServiceFinalizer C s1 c) as [c3 [u|e]].
Qed.

Lemma allocate_working s w : working w → working (allocateService C P cfg ios_String s w).1.
Proof.
  intros [Hg Hp]. unfold allocateService, listServicesForAllocation. destruct (cw_list _ _ Hwork _ Hg) as [Hg1 _].
  destruct (cl_list_services C (cluster w)) as [c1 [l|e]]; [|done]. destruct (Allocate _ _ l) as [alloc|[]]; [|done..].
  unfold provisionService, listEndpointSlicesForService. cbn [cluster set_cluster set_metrics prov].
  destruct (cw_slices _ _ Hwork (ksNamespace s) {[LabelServiceName := ksName s]} c1 Hg1) as [Hg2 _].
  destruct (cl_list_slices C _ _ c1) as [c2 [es|e]]; [|done]. cbn [cluster set_cluster set_metrics prov].
  match goal with |- context [Ensure P ?x _] => pose proof (pw_ensure_good _ _ _ Hprov x (prov w) Hp) as Hp' end.
  destruct (Ensure P _ (prov w)) as [p [b|e]]; [|done]. cbn [cluster set_cluster set_prov].
  match goal with |- context [UpdateServiceLoadBalancerStatus C _ ?i c2] => pose proof (status_good s i c2 Hg2) as Hst end.
  by destruct (UpdateServiceLoadBalancerStatus C _ _ c2) as [[c3 out] [b3|e]].
Qed.

Lemma managed_working k s w : working w → working (reconcileManagedService C P cfg ios_String k s w).1.
Proof.
  intros [Hg Hp]. unfold reconcileManagedService, ensureServiceFinalizer.
  destruct (hasServiceFinalizer (Some s)); [by apply allocate_working|].
  match goal with |- context [cl_patch C s ?x _] => pose proof (cw_patch_good _ _ Hwork s x _ Hg) as Hpg end.
  destruct (cl_patch C _ _ (cluster w)) as [c [x|e]]; [|done]. cbn [cluster set_cluster].
  pose proof (get_good k c Hpg) as Hg2. destruct (cl_get C k c) as [c2 [s2|e]]; [|done]. by apply allocate_working.
Qed.

Lemma Reconcile_working k w : working w → working (Reconcile C P cfg ios_String k w).1.
Proof.
  intros [Hg Hp]. unfold Reconcile, reconcile_request. cbn [cluster set_metrics]. pose proof (get_good k _ Hg) as Hg1.
  destruct (cl_get C k (cluster w)) as [c [s|e]]; [|done]. set (w1 := set_cluster _ c).
  assert (working w1) as H1 by done. case_bool_decide; [|destruct (negb _)].
  - pose proof (deleting_working s w1 H1) as Hd. by destruct (reconcileDeletingService C P s w1).
  - pose proof (unmanaged_working s w1 H1) as Hd. by destruct (reconcileUnmanagedService C P cfg (Some s) w1).
  - pose proof (managed_working k s w1 H1) as Hd. by destruct (reconcileManagedService C P cfg ios_String k s w1).
Qed.

(** ** Every reconciliation succeeds *)
Lemma remove_works s c :
  good c → is_Some (cs_services c !! objectKey s) → is_Ok (removeServiceFinalizer C s c).2 = true.
Proof.
  intros Hg Hs. unfold removeServiceFinalizer. destruct (negb _); [done|].
  match goal with |- context [cl_patch C s ?x c] => destruct (cw_patch _ _ Hwork s x c Hg Hs) as [_ Hp] end.
  by destruct (cl_patch C _ _ c) as [c' [u|e]].
Qed.

Lemma deleting_works s w :
  working w → stored w !! objectKey s = Some s → is_Ok (reconcileDeletingService C P s w).2 = true.
Proof.
  intros [Hg Hp] Hs. unfold reconcileDeletingService. destruct (negb _); [done|].
  pose proof (pw_delete _ _ _ Hprov (serviceRef s) (prov w) Hp) as Hd.
  destruct (Delete P (serviceRef s) (prov w)) as [p [b|e]]; [|done]. cbn [cluster set_prov].
  pose proof (remove_works s (cluster w) Hg ltac:(by eexists)) as Hr.
  by destruct (removeServiceFinalizer C s (cluster w)) as [c [u|e]].
Qed.

Lemma unmanaged_works s w :
  working w → stored w !! objectKey s = Some s → is_Ok (reconcileUnmanagedService C P cfg (Some s) w).2 = true.
Proof.
  intros [Hg Hp] Hs. unfold reconcileUnmanagedService. rewrite <- negb_orb. destruct (_ || _); [|done]. cbn [negb].
  pose proof (pw_delete _ _ _ Hprov (serviceRef s) (prov w) Hp) as Hd.
  destruct (Delete P (serviceRef s) (prov w)) as [p [b|e]]; [|done]. cbn [cluster set_prov].
  pose proof (status_good s [] (cluster w) Hg) as Hc.
  destruct (UpdateServiceLoadBalancerStatus C (Some s) [] (cluster w)) as [[c out] cl] eqn:Hup. cbn [fst] in Hc.
  destruct cl as [b'|e].
  2:{ exfalso. revert Hup. unfold UpdateServiceLoadBalancerStatus. destruct (negb _); [done|].
      destruct (cw_status _ _ Hwork (set_ingress s []) (cluster w) Hg ltac:(by eexists)) as [_ Hok].
      by destruct (cl_status_update C _ _) as [c1 [u|e1]]. }
  destruct (clear_ok C s _ _ _ _ Hs Hup) as (s1 & -> & Hs1 & Hst). destruct (negb _); [done|].
  assert (objectKey s1 = objectKey s) as Hk by by rewrite Hs1. destruct b'; cbn [cluster set_cluster set_prov].
  - rewrite Hk. destruct (cw_get _ _ Hwork _ _ _ Hc Hst) as [Hg2 Hget].
    destruct (cl_get C (objectKey s) c) as [c2 r] eqn:E. cbn [fst snd] in *. subst r. apply cs_get_ok in E as [Hc2 _].
    cbn [cluster set_cluster set_prov].
    pose proof (remove_works s1 c2 Hg2 ltac:(rewrite Hc2, Hk; by eexists)) as Hr.
    by destruct (removeServiceFinalizer C s1 c2) as [c3 [u|e]].
  - pose proof (remove_works s1 c Hc ltac:(rewrite Hk; by eexists)) as Hr.
    by destruct (removeServiceFinalizer C s1 c) as [c3 [u|e]].
Qed.

(** What the Services need: a definition that the provider accepts, and an address *)
Definition acceptable w : Prop :=
  ∀ k s a, stored w !! k = Some s → live class s → a ∈ IPPool cfg → accept (desired ios_String s a (slices w)).

Lemma Reconcile_succeeds k w :
  working w → acceptable w →
  (∀ s, stored w !! k = Some s → live class s → ∃ a, a ∈ IPPool cfg ∧ unclaimed C cfg s a w) →
  ∃ w', Reconcile C P cfg ios_String k w = (w', Ok (MkResult 0)).
Proof.
  intros [Hg Hp] Hacc Hfree. destruct (stored w !! k) as [s|] eqn:Hs.
  2:{ unfold Reconcile, reconcile_request. cbn [cluster set_metrics].
      destruct (cw_missing _ _ Hwork k (cluster w) Hg Hs) as (_ & e & He & Hnf).
      destruct (cl_get C k (cluster w)) as [c r]. cbn in He. subst r. rewrite Hnf. by eexists. }
  destruct (decide (live class s)) as [Hl|Hl].
  { apply (Reconcile_works C P cfg ios_String good Hwork k s w Hg Hs Hl); [by apply Hfree|].
    intros a Ha. apply (pw_ensure _ _ _ Hprov); [done|]. by apply (Hacc k). }
  pose proof (cs_keys _ _ _ Hs) as <-. unfold Reconcile, reconcile_request. cbn [cluster set_metrics].
  destruct (cw_get _ _ Hwork _ _ _ Hg Hs) as [Hg1 Hget].
  destruct (cl_get C (objectKey s) (cluster w)) as [c r] eqn:E. cbn [fst snd] in *. subst r. apply cs_get_ok in E as [Hc _].
  set (w1 := set_cluster _ c). assert (working w1) as H1 by done.
  assert (stored w1 !! objectKey s = Some s) as Hs1 by (unfold Controller.stored, w1; cbn; by rewrite Hc).
  case_bool_decide as Hd; [|destruct (isManagedLoadBalancerService (Some s) class) eqn:Hm; cbn [negb]].
  - pose proof (deleting_works s w1 H1 Hs1) as Hr. destruct (reconcileDeletingService C P s w1) as [w2 [u|e]]; [by eexists|done].
  - destruct Hl. split; [|done]. destruct (ksDeletionTimestamp s); [|done]. by destruct Hd.
  - pose proof (unmanaged_works s w1 H1 Hs1) as Hr.
    destruct (reconcileUnmanagedService C P cfg (Some s) w1) as [w2 [u|e]]; [by eexists|done].
Qed.

(** ** There are enough addresses *)
Definition live_services w : gmap NamespacedName KService := filter (λ ks, live class ks.2) (stored w).

Lemma live_services_elem w k s : live_services w !! k = Some s ↔ stored w !! k = Some s ∧ live class s.
Proof. apply map_lookup_filter_Some. Qed.

(** No live managed Service publishes two addresses of the pool, and the pool has an
    address for each of them. *)
Definition room w : Prop :=
  (∀ k s a b, live_services w !! k = Some s → a ∈ IPPool cfg → b ∈ IPPool cfg → publishes s a → publishes s b → a = b) ∧
  (size (live_services w) <= size (list_to_set (IPPool cfg) : gset Addr))%nat.

Lemma omap_length_le {A B} (f : A → option B) l : (length (omap f l) <= length l)%nat.
Proof. induction l as [|x l IH]; [done|]. cbn. destruct (f x); cbn; lia. Qed.

(** The address of the pool that a Service publishes *)
Definition addr_of s : option Addr := head (filter (.∈ IPPool cfg) (omap ingressIPv4 (ksIngress s))).

Lemma addr_of_published w k s a :
  room w → live_services w !! k = Some s → a ∈ IPPool cfg → publishes s a → addr_of s = Some a.
Proof.
  intros [Hone _] Hs Ha Hp. unfold addr_of.
  assert (a ∈ filter (.∈ IPPool cfg) (omap ingressIPv4 (ksIngress s))) as Hin.
  { apply list_elem_of_filter. split; [done|]. by apply list_elem_of_omap. }
  destruct (filter _ _) as [|b l] eqn:E; [by apply not_elem_of_nil in Hin|]. cbn. f_equal.
  assert (b ∈ filter (.∈ IPPool cfg) (omap ingressIPv4 (ksIngress s))) as Hb by (rewrite E; apply elem_of_cons; by left).
  apply list_elem_of_filter in Hb as [Hbp Hb]. apply list_elem_of_omap in Hb. by apply (Hone k s).
Qed.

Lemma room_free w k s :
  room w → stored w !! k = Some s → live class s → ∃ a, a ∈ IPPool cfg ∧ unclaimed C cfg s a w.
Proof.
  intros Hroom Hs Hl. pose proof (cs_keys _ _ _ Hs) as <-.
  set (claimed := omap addr_of (map_to_list (delete (objectKey s) (live_services w))).*2).
  assert (length claimed < size (list_to_set (IPPool cfg) : gset Addr))%nat as Hlen.
  { unfold claimed. eapply Nat.le_lt_trans; [apply omap_length_le|]. rewrite length_fmap, length_map_to_list, map_size_delete_Some.
    - destruct Hroom as [_ Hsize]. assert (size (live_services w) ≠ 0%nat); [|lia].
      eapply map_size_ne_0_lookup_2. exists s. by apply live_services_elem.
    - exists s. by apply live_services_elem. }
  destruct (decide (Exists (.∉ claimed) (IPPool cfg))) as [Hex|Hno].
  - apply Exists_exists in Hex as (a & Ha & Hcl). exists a. split; [done|]. intros k' s' Hs' Hne Hl' Hp. apply Hcl.
    apply list_elem_of_omap. exists s'. assert (live_services w !! k' = Some s') as Hls by by apply live_services_elem.
    split; [|by eapply addr_of_published]. apply list_elem_of_fmap. exists (k', s'). split; [done|].
    apply elem_of_map_to_list. by rewrite lookup_delete_ne.
  - exfalso. assert (elements (list_to_set (IPPool cfg) : gset Addr) ⊆+ claimed) as Hsub%submseteq_length.
    { apply NoDup_submseteq; [apply NoDup_elements|]. intros a. rewrite elem_of_elements, elem_of_list_to_set. intros Ha.
      destruct (decide (a ∈ claimed)); [done|]. destruct Hno. apply Exists_exists. by exists a. }
    unfold size, set_size in Hlen. cbn in *. lia.
Qed.

(** ** What a reconciliation leaves as it is *)

(** The specification of a Service stays, and so does what follows from it. *)
Lemma effect_spec k w w' k' s' :
  effect C P cfg k w w' → stored w' !! k' = Some s' → ∃ s, stored w !! k' = Some s ∧ same_spec s s' ∧
    objectKey s' = objectKey s ∧ ksGeneration s' = ksGeneration s ∧
    ksDeletionTimestamp s' = ksDeletionTimestamp s ∧
    (ksIngress s' = ksIngress s ∨ (length (ksIngress s') <= 1)%nat).
Proof.
  intros Hef Hs'. destruct (decide (k' = k)) as [->|Hne].
  - destruct (ef_own _ _ _ _ _ _ Hef s' Hs') as (s & Hs & Heq & Hi). exists s.
    split_and!; [done|rewrite Heq; done..|done].
  - rewrite (ef_others _ _ _ _ _ _ Hef) in Hs' by done. exists s'. split_and!; try done. by left.
Qed.

Lemma acceptable_effect k w w' : effect C P cfg k w w' → acceptable w → acceptable w'.
Proof.
  intros Hef Hacc k' s' a Hs' Hl Ha. destruct (effect_spec _ _ _ _ _ Hef Hs') as (s & Hs & Hsp & Hk & _ & Hd & _).
  rewrite (ef_slices _ _ _ _ _ _ Hef), (desired_ext ios_String s s' a (slices w) (slices w)) by done.
  apply (Hacc k'); [done| |done]. by apply (live_ext cfg s s').
Qed.

Lemma room_effect k w w' : effect C P cfg k w w' → room w → room w'.
Proof.
  intros Hef [Hone Hsize]. split.
  - intros k' s' a b [Hs' Hl]%live_services_elem Ha Hb Hpa Hpb.
    destruct (effect_spec _ _ _ _ _ Hef Hs') as (s & Hs & Hsp & _ & _ & Hd & [Hi|Hi]).
    + unfold publishes in Hpa, Hpb. rewrite Hi in Hpa, Hpb. apply (Hone k' s); [|done..].
      apply live_services_elem. split; [done|]. by apply (live_ext cfg s s').
    + destruct Hpa as (i & Hin & Ei), Hpb as (j & Hjn & Ej).
      destruct (ksIngress s') as [|x [|y l]]; [by apply not_elem_of_nil in Hin| |cbn in Hi; lia].
      apply list_elem_of_singleton in Hin as ->, Hjn as ->. congruence.
  - etrans; [|exact Hsize]. rewrite <- !size_dom. apply subseteq_size. intros k' [s' Hs']%elem_of_dom.
    apply live_services_elem in Hs' as [Hs' Hl].
    destruct (effect_spec _ _ _ _ _ Hef Hs') as (s & Hs & Hsp & _ & _ & Hd & _).
    apply elem_of_dom. exists s. apply live_services_elem. split; [done|]. by apply (live_ext cfg s s').
Qed.

(** The controller does not wake itself up: what it writes passes no filter. *)
Lemma effect_quiet k w w' : effect C P cfg k w w' → service_requests (stored w) (stored w') = ∅.
Proof.
  intros Hef. apply set_eq. intros k'. rewrite service_requests_elem. split; [|set_solver]. intros (e & He & Hp). exfalso.
  revert He. unfold service_event. destruct (stored w' !! k') as [s'|] eqn:Hs'.
  - destruct (effect_spec _ _ _ _ _ Hef Hs') as (s & -> & _ & _ & Hg & Hd & _). case_decide; [done|]. intros [= <-].
    apply service_predicate_correct in Hp. by destruct Hp.
  - destruct (stored w !! k'); [|done]. by intros [= <-].
Qed.

(** ** The queue is emptied *)
Record settling (l : loop) : Prop := {
  st_working : working (lworld l);
  st_acceptable : acceptable (lworld l);
  st_room : room (lworld l);
}.

Lemma work_settles k (l : loop) :
  Forall ipv4_wf (IPPool cfg) → settling l →
  settling (work C P cfg ios_String k l) ∧ queue (work C P cfg ios_String k l) = queue l ∖ {[k]} ∧
  missed (work C P cfg ios_String k l) = missed l ∖ {[k]}.
Proof.
  intros Hpool [Hw Ha Hr]. unfold work. pose proof (Reconcile_effect C P cfg ios_String k (lworld l) Hpool) as Hef.
  pose proof (Reconcile_working k _ Hw) as Hw'.
  destruct (Reconcile_succeeds k (lworld l) Hw Ha) as [w' Heq]; [intros s Hs Hl; by apply (room_free _ k)|].
  rewrite Heq in *. cbn [fst] in *. cbn [queue missed lworld requeued resRequeueAfter].
  change (0 <? 0) with false. cbn iota. rewrite (effect_quiet k (lworld l) w' Hef), (right_id_L ∅ (∪)).
  split_and!; [split; [done|by eapply acceptable_effect|by eapply room_effect]|done|done].
Qed.

(** One turn for each of the requests, in some order *)
Definition turns (ks : list NamespacedName) (l : loop) : loop := foldl (λ l k, work C P cfg ios_String k l) l ks.

Lemma turns_settle ks (l : loop) :
  Forall ipv4_wf (IPPool cfg) → settling l →
  queue (turns ks l) = queue l ∖ list_to_set ks ∧ missed (turns ks l) = missed l ∖ list_to_set ks.
Proof.
  intros Hpool. revert l. induction ks as [|k ks IH]; intros l Hl; cbn [turns foldl list_to_set]; [set_solver|].
  destruct (work_settles k l Hpool Hl) as (Hl1 & Hq1 & Hm1). unfold turns in IH.
  destruct (IH _ Hl1) as [-> ->]. rewrite Hq1, Hm1. set_solver.
Qed.

Lemma turns_inv ks (l : loop) :
  Forall ipv4_wf (IPPool cfg) → 0 < RequeueAfter cfg → settling l → NoDup ks → (∀ k, k ∈ ks → k ∈ queue l) →
  queue_inv C P cfg ios_String l → queue_inv C P cfg ios_String (turns ks l).
Proof.
  intros Hpool Hreq. revert l. induction ks as [|k ks IH]; intros l Hl Hnd Hsub Hinv; cbn [turns foldl]; [done|].
  apply NoDup_cons in Hnd as [Hk Hnd]. destruct (work_settles k l Hpool Hl) as (Hl1 & Hq1 & _).
  apply IH; [done|done| |].
  - intros k' Hk'. rewrite Hq1, elem_of_difference, elem_of_singleton. split; [apply Hsub; by right|]. by intros ->.
  - apply work_inv; [done|done| |done]. apply Hsub. by left.
Qed.

(** C4. The controller settles.  From any state it can be in, whatever others changed and
    whatever failed before: once the calls to the API server and the provider work, and
    as long as the provider accepts the definition of every live managed Service
    ([acceptable]; a Service that it refuses would be repeated for ever), each of these
    Services publishes at most one address of the pool and the pool has as many addresses
    as there are such Services ([room]), one turn of the worker for each waiting request,
    in any order, empties the queue.  The writes of the controller wake it up no more,
    nothing is put back, and every Service is then in order that had a request or had
    no update dropped by the filter. *)
Theorem controller_settles w (l : loop) ks :
  Forall ipv4_wf (IPPool cfg) → 0 < RequeueAfter cfg → rtc (loop_step C P cfg ios_String anything) (started C w) l →
  working (lworld l) → acceptable (lworld l) → room (lworld l) → ks ≡ₚ elements (queue l) →
  queue (turns ks l) = ∅ ∧
  ∀ k s, stored (lworld (turns ks l)) !! k = Some s → ksName s ≠ "" → k ∈ queue l ∨ k ∉ missed l →
    in_order C P cfg ios_String k (lworld (turns ks l)).
Proof.
  intros Hpool Hreq Hr Hw Ha Hroom Hks. assert (settling l) as Hl by done.
  destruct (turns_settle ks l Hpool Hl) as [Hq Hm].
  assert (list_to_set ks = queue l) as Hset by (rewrite Hks; apply list_to_set_elements_L).
  rewrite Hset in Hq, Hm. assert (queue (turns ks l) = ∅) as He by (rewrite Hq; set_solver).
  split; [done|]. intros k s Hs Hn Hk. pose proof (cs_keys _ _ _ Hs) as <-.
  pose proof (loop_inv C P cfg ios_String _ w l Hpool Hreq Hr) as Hi.
  apply (turns_inv ks) in Hi; [|done|done|done|by rewrite Hks; apply NoDup_elements|].
  - apply Hi; [rewrite He; set_solver|rewrite Hm; set_solver|done].
  - intros k. rewrite Hks. by rewrite elem_of_elements.
Qed.
End settling.
