(* ===== verification/Concurrency.v ===== *)
(** * Concurrent requests

    The engine's operations as threads that share the engine: every use of the store,
    the applier and the address manager is a step of its own, with the calls of
    [e.mu] where engine.go has them, and the HTTP handler runs one such thread per
    request.  The programs are shown to be disciplined and to compute the functions of
    Engine.v and HTTPApi.v, so that what is proved of one request after the other holds
    for requests that arrive at the same time. *)
From S2P Require Import Prelude Locks GoStrings GoSort NetIP GoURL GoJSON Provider IPAM Store Render ExternalIPs Engine.
From S2P Require Import FilePath HTTPApi Apply IPAttach GoTime Config Metrics DataplaneAPI DataplaneConfig Dataplane Server.
Local Open Scope Z_scope.

Section programs.
Context `{GoSort, UnicodeCase} {W E R : Type}.
Variable applier : ConfigApplier W E.
Variable ipm : ExternalIPManager W E.

Notation prog := (Prog (Engine W) R).

(** One call of a collaborator *)
Definition on_host {A} (f : W → W * A) (e : Engine W) : Engine W * A :=
  ((MkEngine (store e) (f (host e)).1), (f (host e)).2).

Definition read_store (e : Engine W) : Engine W * Store := (e, store e).
Definition write_store (st : Store) (e : Engine W) : Engine W * () := (MkEngine st (host e), ()).

(** ** engine.go *)
Fixpoint rollbackP (l : list Addr) (k : list (Addr * E) → prog) : prog :=
  match l with
  | [] => k []
  | addr :: l =>
    Act (on_host (ipm_EnsureAbsent ipm addr)) (λ res,
      rollbackP l (λ errs, k (match res with Err e => (addr, e) :: errs | Ok _ => errs end)))
  end.

Fixpoint attachP (newlyAttached newIPs : list Addr) (k : result (EngineError E) (list Addr) → prog) : prog :=
  match newIPs with
  | [] => k (Ok newlyAttached)
  | addr :: newIPs =>
    Act (on_host (ipm_EnsurePresent ipm addr)) (λ res,
      match res with
      | Err e => rollbackP (reverse newlyAttached) (λ rollback, k (Err (ErrAttach addr e rollback)))
      | Ok changed => attachP (if (changed : bool) then newlyAttached ++ [addr] else newlyAttached) newIPs k
      end)
  end.

Fixpoint detachP (changed : bool) (staleIPs : list Addr) (k : result (EngineError E) bool → prog) : prog :=
  match staleIPs with
  | [] => k (Ok changed)
  | addr :: staleIPs =>
    Act (on_host (ipm_EnsureAbsent ipm addr)) (λ res,
      match res with
      | Err e => k (Err (ErrDetach addr e))
      | Ok detached => detachP (changed || detached) staleIPs k
      end)
  end.

Definition reconcileP (nextStore : Store) (k : result (EngineError E) bool → prog) : prog :=
  let nextServices := StoreList nextStore in
  Act (on_host (ipm_List ipm)) (λ res,
    match res with
    | Err err => k (Err (ErrListIPs err))
    | Ok currentIPs =>
      match desiredExternalIPs nextServices with
      | Err err => k (Err (ErrDesiredIPs err))
      | Ok desiredIPs =>
        let newIPs := diffExternalIPs desiredIPs currentIPs in
        let staleIPs := diffExternalIPs currentIPs desiredIPs in
        attachP [] newIPs (λ res,
          match res with
          | Err err => k (Err err)
          | Ok newlyAttached =>
            Act (on_host (ca_Apply applier nextServices)) (λ res,
              match res with
              | Err err => rollbackP (reverse newlyAttached) (λ rollback, k (Err (ErrApply err rollback)))
              | Ok configChanged =>
                Act (write_store nextStore) (λ _,
                  detachP (configChanged || (0 <? Z.of_nat (length newlyAttached))) staleIPs k)
              end)
          end)
      end
    end).

(** The deferred [Unlock] runs after the result is known. *)
Definition ensureP (service : Service) (k : result (EngineError E) bool → prog) : prog :=
  let normalized := normalizeService service in
  match ValidateService normalized with
  | Err err => k (Err (ErrInvalid err))
  | Ok _ =>
    Lock (Act read_store (λ st, reconcileP (Upsert normalized (Clone st)) (λ res, Unlock (k res))))
  end.

Definition deleteP (ref : ServiceRef) (k : result (EngineError E) bool → prog) : prog :=
  Lock (Act read_store (λ st,
    match StoreGet ref st with
    | None => Unlock (k (Ok false))
    | Some _ => Act read_store (λ st, reconcileP (StoreDelete ref (Clone st)).1 (λ res, Unlock (k res)))
    end)).

Definition bootstrapP (k : result E () → prog) : prog :=
  Lock (Act (on_host (ca_Bootstrap applier)) (λ res, Unlock (k res))).

Definition snapshotP (k : gmap ServiceRef Service → prog) : prog :=
  RLock (Act read_store (λ st, RUnlock (k (StoreSnapshot st)))).

Definition serviceCountP (k : nat → prog) : prog :=
  RLock (Act read_store (λ st, RUnlock (k (StoreLen st)))).

(** ** The programs compute the operations *)
Lemma exec_rollback l k e :
  exec (rollbackP l k) e =
  let '(w, errs) := rollback_loop ipm l (host e) in exec (k errs) (MkEngine (store e) w).
Proof.
  revert k e. induction l as [|a l IH]; intros k e; cbn [rollbackP rollback_loop exec]; [by destruct e|].
  rewrite IH. unfold on_host. cbn [fst snd host store]. destruct (ipm_EnsureAbsent ipm a (host e)) as [w res]. cbn.
  by destruct (rollback_loop ipm l w).
Qed.

Lemma exec_attach att new k e :
  exec (attachP att new k) e =
  let '(w, res) := attach_loop ipm att new (host e) in exec (k res) (MkEngine (store e) w).
Proof.
  revert att k e. induction new as [|a new IH]; intros att k e; cbn [attachP attach_loop exec]; [by destruct e|].
  unfold on_host. cbn [fst snd host store]. destruct (ipm_EnsurePresent ipm a (host e)) as [w [b|err]]; cbn [fst snd].
  - by rewrite IH.
  - rewrite exec_rollback. unfold rollbackAttachedExternalIPs. cbn. by destruct (rollback_loop ipm _ w).
Qed.

Lemma exec_detach changed stale k e :
  exec (detachP changed stale k) e =
  let '(w, res) := detach_loop ipm changed stale (host e) in exec (k res) (MkEngine (store e) w).
Proof.
  revert changed k e. induction stale as [|a stale IH]; intros changed k e; cbn [detachP detach_loop exec]; [by destruct e|].
  unfold on_host. cbn [fst snd host store]. destruct (ipm_EnsureAbsent ipm a (host e)) as [w [b|err]]; cbn [fst snd]; [|done].
  by rewrite IH.
Qed.

Lemma exec_reconcile next k e :
  exec (reconcileP next k) e = let '(e', res) := reconcileLocked applier ipm e next in exec (k res) e'.
Proof.
  unfold reconcileP, reconcileLocked, on_host. cbn [exec fst snd].
  destruct (ipm_List ipm (host e)) as [w [cur|err]]; cbn [fst snd]; [|done].
  destruct (desiredExternalIPs _) as [des|err]; [|done]. rewrite exec_attach. cbn [host store].
  destruct (attach_loop ipm [] _ w) as [w1 [att|err]]; [|done]. cbn [exec host store fst snd].
  destruct (ca_Apply applier _ w1) as [w2 [b|err]]; cbn [fst snd].
  - cbn [exec write_store fst snd host]. rewrite exec_detach. cbn [host store]. by destruct (detach_loop ipm _ _ w2).
  - rewrite exec_rollback. unfold rollbackAttachedExternalIPs. cbn [host store]. by destruct (rollback_loop ipm _ w2).
Qed.

Lemma exec_ensure s k e :
  exec (ensureP s k) e = let '(e', res) := EngineEnsure applier ipm s e in exec (k res) e'.
Proof.
  unfold ensureP, EngineEnsure. destruct (ValidateService _); [|done]. cbn [exec read_store fst snd].
  rewrite exec_reconcile. by destruct (reconcileLocked _ _ _ _).
Qed.

Lemma exec_delete ref k e :
  exec (deleteP ref k) e = let '(e', res) := EngineDelete applier ipm ref e in exec (k res) e'.
Proof.
  unfold deleteP, EngineDelete. cbn [exec read_store fst snd]. destruct (StoreGet ref (store e)); [|done].
  cbn [exec read_store fst snd]. rewrite exec_reconcile. by destruct (reconcileLocked _ _ _ _).
Qed.

(** ** The programs are disciplined *)
Lemma d_rollback l k : (∀ errs, disciplined Writing (k errs)) → disciplined Writing (rollbackP l k).
Proof. revert k. induction l as [|a l IH]; intros k Hk; cbn; [done|]. intros res. apply IH. by intros errs. Qed.

Lemma d_attach att new k : (∀ res, disciplined Writing (k res)) → disciplined Writing (attachP att new k).
Proof.
  revert att. induction new as [|a new IH]; intros att Hk; cbn; [done|]. intros [b|err]; [by apply IH|].
  apply d_rollback. by intros errs.
Qed.

Lemma d_detach changed stale k : (∀ res, disciplined Writing (k res)) → disciplined Writing (detachP changed stale k).
Proof. revert changed. induction stale as [|a stale IH]; intros changed Hk; cbn; [done|]. intros [b|err]; [by apply IH|done]. Qed.

Lemma d_reconcile next k : (∀ res, disciplined Writing (k res)) → disciplined Writing (reconcileP next k).
Proof.
  intros Hk. unfold reconcileP. cbn. intros [cur|err]; [|done]. destruct (desiredExternalIPs _); [|done].
  apply d_attach. intros [att|err]; [|done]. cbn. intros [b|err].
  - intros _. by apply d_detach.
  - by apply d_rollback.
Qed.

(** A continuation that returns *)
Lemma d_ensure s k : (∀ res, returned (k res)) → disciplined Outside (ensureP s k).
Proof.
  intros Hk. unfold ensureP. destruct (ValidateService _); [|pose proof (Hk (Err (ErrInvalid e))); by destruct (k _)].
  cbn. intros st. by apply d_reconcile.
Qed.

Lemma d_delete ref k : (∀ res, returned (k res)) → disciplined Outside (deleteP ref k).
Proof.
  intros Hk. unfold deleteP. cbn. intros st. destruct (StoreGet ref st); [|by cbn]. cbn. intros st'. by apply d_reconcile.
Qed.

Lemma d_bootstrap k : (∀ res, returned (k res)) → disciplined Outside (bootstrapP k).
Proof. intros Hk. cbn. by intros res. Qed.

Lemma d_snapshot k : (∀ m, returned (k m)) → disciplined Outside (snapshotP k).
Proof. intros Hk. cbn. split; [done|]. by intros st. Qed.

Lemma d_count k : (∀ n, returned (k n)) → disciplined Outside (serviceCountP k).
Proof. intros Hk. cbn. split; [done|]. by intros st. Qed.
End programs.

(** ** http.go: one thread per request *)
Section requests.
Context `{GoSort, UnicodeCase} {W E : Type}.
Context (A : ConfigApplier W E) (M : ExternalIPManager W E).
Context (detail : RequestError → string) (redirect : Request → string → Response).

Notation prog := (Prog (Engine W) Response).
Notation serve := (ServeHTTP A M detail redirect).
Notation bad := (badRequest detail).

(** The fields of the handler other than the engine are not written after
    [NewHandler]. *)
Definition ensureServiceP (h : Handler W) (r : Request) (ref : ServiceRef) : prog :=
  match decodeServiceRequest (rqBody r) (rqBodyEnd r) (hMaxRequestBodyBytes h) with
  | Err e => Ret (bad e)
  | Ok service =>
    if bool_decide (svcNamespace service ≠ "") && bool_decide (svcNamespace service ≠ refNamespace ref)
    then Ret (bad ErrNamespaceMismatch) else
    if bool_decide (svcName service ≠ "") && bool_decide (svcName service ≠ refName ref)
    then Ret (bad ErrNameMismatch) else
    let service := MkService (refNamespace ref) (refName ref) (svcLoadBalancerClass service)
                     (svcExternalIP service) (svcPorts service) in
    match ValidateService (normalizeService service) with
    | Err e => Ret (bad (ErrServiceInvalid e))
    | Ok _ => ensureP A M service (λ res, Ret (engineResponse res))
    end
  end.

Definition servicesP (h : Handler W) (r : Request) : prog :=
  match serviceRefFromPath (urlPath (rqURL r)) with
  | Err e => Ret (bad e)
  | Ok ref =>
    if bool_decide (rqMethod r = MethodPut) then ensureServiceP h r ref else
    if bool_decide (rqMethod r = MethodDelete) then deleteP A M ref (λ res, Ret (engineResponse res)) else
    Ret (writeMethodNotAllowed [MethodPut; MethodDelete])
  end.

Definition requestP (h : Handler W) (r : Request) : prog :=
  match mux_find r with
  | MuxBadRequest => Ret (MkResponse StatusBadRequest [] [])
  | MuxRedirect location => Ret (redirect r location)
  | MuxNotFound => Ret notFoundResponse
  | MuxRoute RouteHealthz => Ret (handleHealthz r)
  | MuxRoute RouteReadyz => Ret (handleReadyz h r)
  | MuxRoute RouteServices => servicesP h r
  end.

Lemma exec_request h r e :
  with_engine h (exec (requestP h r) e).1 = (serve r (with_engine h e)).1 ∧
  (exec (requestP h r) e).2 = (serve r (with_engine h e)).2.
Proof.
  unfold requestP, ServeHTTP. destruct (mux_find r) as [| |l|[]]; try done.
  unfold servicesP, handleServices. destruct (serviceRefFromPath _) as [ref|]; [|done].
  case_bool_decide; [|case_bool_decide; [|done]].
  - unfold ensureServiceP, handleEnsureService. cbn [with_engine hMaxRequestBodyBytes].
    destruct (decodeServiceRequest _ _ _) as [s|]; [|done].
    destruct (_ && _); [done|]. destruct (_ && _); [done|]. destruct (ValidateService _); [|done].
    rewrite exec_ensure. cbn [hEngine with_engine]. by destruct (EngineEnsure _ _ _ _).
  - unfold handleDeleteService. rewrite exec_delete. cbn [hEngine with_engine]. by destruct (EngineDelete _ _ _ _).
Qed.

Lemma d_request h r : disciplined Outside (requestP h r).
Proof.
  unfold requestP. destruct (mux_find r) as [| |l|[]]; try done.
  unfold servicesP. destruct (serviceRefFromPath _) as [ref|]; [|done].
  case_bool_decide; [|case_bool_decide; [by apply d_delete|done]].
  unfold ensureServiceP. destruct (decodeServiceRequest _ _ _); [|done].
  destruct (_ && _); [done|]. destruct (_ && _); [done|]. destruct (ValidateService _); [by apply d_ensure|done].
Qed.

(** The requests [order] names, answered one after the other *)
Definition in_order (rs : list Request) (order : list nat) : list Request := omap (rs !!.) order.

Lemma exec_all_requests h rs order e :
  with_engine h (exec_all (requestP h <$> rs) order e) =
  Server.serve_all A M detail redirect (in_order rs order) (with_engine h e).
Proof.
  unfold exec_all, Server.serve_all, in_order. revert e. induction order as [|i order IH]; intros e; [done|]. cbn.
  rewrite IH, list_lookup_fmap. destruct (rs !! i) as [r|]; cbn; [|done].
  by rewrite (proj1 (exec_request h r e)).
Qed.

(** C8. Requests that are served at the same time are served as if one after the other.
    Each request is a thread; the steps of the threads interleave in any way that the
    engine's lock allows.  When all have been answered, there is an order of the
    requests such that the handler is what it is after serving them in that order, and
    every answer is the one the request gets at its place. *)
Theorem server_linearizable h rs c :
  rtc step (start (hEngine h) (requestP h <$> rs)) c → Forall returned (threads c) →
  ∃ order, order ≡ₚ seq 0 (length rs) ∧
    with_engine h (shared c) = Server.serve_all A M detail redirect (in_order rs order) h ∧
    ∀ n i r, order !! n = Some i → rs !! i = Some r →
      threads c !! i =
        Some (Ret (serve r (Server.serve_all A M detail redirect (in_order rs (take n order)) h)).2).
Proof.
  intros Hr Hall. assert (with_engine h (hEngine h) = h) as Hh by by destruct h.
  assert (Forall (disciplined Outside) (requestP h <$> rs)) as Hd
    by (apply Forall_fmap, Forall_true; intros r; apply d_request).
  destruct (linearizable _ _ c Hd Hr Hall) as (order & Hp & Hsh & Hres). rewrite length_fmap in Hp.
  exists order. split_and!; [done|by rewrite Hsh, exec_all_requests, Hh|].
  intros n i r Hn Hi. rewrite (Hres n i (requestP h r) Hn) by (by rewrite list_lookup_fmap, Hi).
  by rewrite (proj2 (exec_request h r _)), exec_all_requests, Hh.
Qed.

(** C23. Every request is answered: however the threads are scheduled, a run ends, and a run
    that cannot go on has answered all requests; the lock never blocks them for good. *)
Theorem server_answers h rs c :
  rtc step (start (hEngine h) (requestP h <$> rs)) c →
  Acc (flip step) c ∧ ((∀ c', ¬ step c c') → Forall returned (threads c)).
Proof.
  intros Hr. split; [apply terminates|]. eapply progress; [|exact Hr].
  apply Forall_fmap, Forall_true. intros r. apply d_request.
Qed.
End requests.

(** ** metrics.go: the instrumented provider

    [trackEnsure] and [trackDelete] lock the set of Services and set the gauge after they
    have unlocked it. *)
Section gauge.
Context {W : Type}.
Notation prog := (Prog (instrumentedProvider W) ()).
Implicit Types (p : instrumentedProvider W).

Definition trackP (update : gset ServiceRef → gset ServiceRef) : prog :=
  Lock (Act (λ p, (MkInstrumented (pmetrics p) (update (refs p)) (next p), ())) (λ _,
    Act (λ p, (p, Z.of_nat (size (refs p)))) (λ count,
    Unlock (Act (λ p, (MkInstrumented (set_gauge count (pmetrics p)) (refs p) (next p), ())) (λ _, Ret ()))))).

Definition trackEnsureP (ref : ServiceRef) : prog := trackP (λ refs, {[ref]} ∪ refs).
Definition trackDeleteP (ref : ServiceRef) : prog := trackP (λ refs, refs ∖ {[ref]}).

(** Alone, they compute the functions of Metrics.v. *)
Lemma exec_track ref p :
  exec (trackEnsureP ref) p = (trackEnsure ref p, ()) ∧ exec (trackDeleteP ref) p = (trackDelete ref p, ()).
Proof. done. Qed.

(** Two of them at the same time leave the set right, but may leave the gauge behind it:
    the first one to count may be the last one to set. *)
Lemma track_race update update' p :
  let p' := MkInstrumented (pmetrics p) (update' (update (refs p))) (next p) in
  rtc step (start p [trackP update; trackP update'])
    (MkConf (MkInstrumented (set_gauge (Z.of_nat (size (update (refs p))))
               (set_gauge (Z.of_nat (size (refs p'))) (pmetrics p))) (refs p') (next p)) None ∅ [Ret (); Ret ()]).
Proof.
  intros p'. eapply rtc_l; [eapply (step_lock _ 0); reflexivity|]. cbn.
  do 2 (eapply rtc_l; [eapply (step_act _ 0); reflexivity|]; cbn).
  eapply rtc_l; [eapply (step_unlock _ 0); reflexivity|]. cbn. eapply rtc_l; [eapply (step_lock _ 1); reflexivity|]. cbn.
  do 2 (eapply rtc_l; [eapply (step_act _ 1); reflexivity|]; cbn).
  eapply rtc_l; [eapply (step_unlock _ 1); reflexivity|]. cbn. eapply rtc_l; [eapply (step_act _ 1); reflexivity|]. cbn.
  eapply rtc_l; [eapply (step_act _ 0); reflexivity|]. apply rtc_refl.
Qed.
End gauge.

Example gauge_behind :
  ∃ c, rtc step (start (WrapProvider NewProviderMetrics ())
         [trackEnsureP (MkRef "default" "a"); trackEnsureP (MkRef "default" "b")]) c ∧
    Forall returned (threads c) ∧ size (refs (shared c)) = 2%nat ∧ providerManagedServices (pmetrics (shared c)) = 1.
Proof. eexists. split; [apply track_race|]. split; [by repeat constructor|]. by split. Qed.
