(* ===== verification/TestUtils.v ===== *)
(** * Helpers of the end-to-end tests (test/utils/utils.go)

    Commands run in the project's directory with their output on the test report,
    the installation of cert-manager, and [UncommentCode], which edits a file.  The
    operating system is a parameter: the working directory, the environment, files
    and the commands that are run. *)
From S2P Require Import Prelude GoStrings.
Local Open Scope Z_scope.

(** ** Standard library *)

(** [strings.Index]: the place of the first occurrence, [None] for [-1] *)
Fixpoint index_go (sub l : list ascii) : option nat :=
  if bool_decide (take (length sub) l = sub) then Some O
  else match l with [] => None | _ :: l => S <$> index_go sub l end.

Definition Index (s sub : string) : option nat := index_go (bytes sub) (bytes s).

(** [strings.Contains] *)
Definition StrContains (s sub : string) : bool := bool_decide (is_Some (Index s sub)).

Definition newline : ascii := "010"%char.
Definition carriage_return : ascii := "013"%char.

(** [bufio.Scanner] with [ScanLines] over a string in memory: a token is a line without
    its line break, which may be CR LF; there is no token after a final line break; and
    the scanner gives up at a line that does not fit its buffer. *)
Definition MaxScanTokenSize : Z := 65536.

Fixpoint break_line (l : list ascii) : list ascii * list ascii :=
  match l with
  | [] => ([], [])
  | c :: l => if bool_decide (c = newline) then ([], l) else let '(line, rest) := break_line l in (c :: line, rest)
  end.

Definition dropCR (l : list ascii) : list ascii :=
  if bool_decide (last l = Some carriage_return) then take (length l - 1) l else l.

Definition Scan (rest : list ascii) : option (string * list ascii) :=
  match rest with
  | [] => None
  | _ => let '(line, rest) := break_line rest in
         if MaxScanTokenSize <=? Z.of_nat (length line) then None else Some (of_bytes (dropCR line), rest)
  end.

(** ** The operating system *)
Record Cmd : Type := MkCmd { cmdArgs : list string; cmdDir : string; cmdEnv : list string }.

(** [exec.Command] *)
Definition Command (name : string) (args : list string) : Cmd := MkCmd (name :: args) "" [].

Record Sys (W E : Type) : Type := MkSys {
  sys_Getwd : W → string * option E;
  sys_Chdir : string → W → W * option E;
  sys_Environ : W → list string;
  sys_LookupEnv : string → W → option string;
  sys_CombinedOutput : Cmd → W → W * (string * option E);
  sys_ReadFile : string → W → result E string;
  sys_WriteFile : string → string → Z → W → W * option E;
}.
Global Arguments MkSys {W E} _ _ _ _ _ _ _.
Global Arguments sys_Getwd {W E} _ _.
Global Arguments sys_Chdir {W E} _ _ _.
Global Arguments sys_Environ {W E} _ _.
Global Arguments sys_LookupEnv {W E} _ _ _.
Global Arguments sys_CombinedOutput {W E} _ _ _.
Global Arguments sys_ReadFile {W E} _ _ _.
Global Arguments sys_WriteFile {W E} _ _ _ _ _.

Inductive UtilsError (E : Type) : Type :=
| ErrUtilsGetwd (e : E)
| ErrUtilsCommand (command output : string) (e : E)
| ErrUtilsRead (filename : string) (e : E)
| ErrUtilsNotFound (target : string)
| ErrUtilsWrite (filename : string) (e : E).
Global Arguments ErrUtilsGetwd {E} _.
Global Arguments ErrUtilsCommand {E} _ _ _.
Global Arguments ErrUtilsRead {E} _ _.
Global Arguments ErrUtilsNotFound {E} _.
Global Arguments ErrUtilsWrite {E} _ _.

(** The lines on the test report *)
Inductive Report (E : Type) : Type :=
| RepWarning (e : UtilsError E)
| RepChdir (e : E)
| RepRunning (command : string).
Global Arguments RepWarning {E} _.
Global Arguments RepChdir {E} _.
Global Arguments RepRunning {E} _.

Record TState (W E : Type) : Type := MkT { sysState : W; ginkgo : list (Report E) }.
Global Arguments MkT {W E} _ _.
Global Arguments sysState {W E} _.
Global Arguments ginkgo {W E} _.

Definition certmanagerVersion : string := "v1.19.2".
(** [certmanagerURLTmpl], with its verb filled in *)
Definition certmanagerURL (version : string) : string :=
  "https://github.com/cert-manager/cert-manager/releases/download/" +:+ version +:+ "/cert-manager.yaml".
Definition defaultKindBinary : string := "kind".
Definition defaultKindCluster : string := "kind".

Definition kubeSystemLeases : list string := ["cert-manager-cainjector-leader-election"; "cert-manager-controller"].

Definition certManagerCRDs : list string :=
  ["certificates.cert-manager.io"; "issuers.cert-manager.io"; "clusterissuers.cert-manager.io";
   "certificaterequests.cert-manager.io"; "orders.acme.cert-manager.io"; "challenges.acme.cert-manager.io"].

(** Empty elements are ignored. *)
Definition GetNonEmptyLines (output : string) : list string :=
  filter (λ element, element ≠ "") (Split output newline).

Section utils.
Context {W E : Type} (sys : Sys W E).
Notation state := (TState W E).
Implicit Types (t : state).

Definition report (r : Report E) t : state := MkT (sysState t) (ginkgo t ++ [r]).

Definition warnError (e : UtilsError E) t : state := report (RepWarning e) t.

(** The directory comes with an error too. *)
Definition GetProjectDir t : string * option (UtilsError E) :=
  match sys_Getwd sys (sysState t) with
  | (wd, Some e) => (wd, Some (ErrUtilsGetwd e))
  | (wd, None) => (ReplaceAll wd "/test/e2e" "", None)
  end.

(** *** [Run]: a command that fails still has its output. *)
Definition Run (cmd : Cmd) t : state * (string * option (UtilsError E)) :=
  let '(dir, _) := GetProjectDir t in
  let '(w, err) := sys_Chdir sys dir (sysState t) in
  let t := MkT w (ginkgo t) in
  let t := match err with Some e => report (RepChdir e) t | None => t end in
  let cmd := MkCmd (cmdArgs cmd) dir (sys_Environ sys (sysState t) ++ ["GO111MODULE=on"]) in
  let command := String.concat " " (cmdArgs cmd) in
  let t := report (RepRunning command) t in
  let '(w, (output, err)) := sys_CombinedOutput sys cmd (sysState t) in
  (MkT w (ginkgo t), (output, ErrUtilsCommand command output <$> err)).

(** A command whose failure is only reported *)
Definition run_warn (cmd : Cmd) t : state :=
  match Run cmd t with
  | (t, (_, Some e)) => warnError e t
  | (t, (_, None)) => t
  end.

Definition deleteManifest : Cmd := Command "kubectl" ["delete"; "-f"; certmanagerURL certmanagerVersion].
Definition deleteLease (lease : string) : Cmd :=
  Command "kubectl" ["delete"; "lease"; lease; "-n"; "kube-system"; "--ignore-not-found"; "--force"; "--grace-period=0"].

Definition UninstallCertManager t : state :=
  foldl (λ t lease, run_warn (deleteLease lease) t) (run_warn deleteManifest t) kubeSystemLeases.

Definition applyManifest : Cmd := Command "kubectl" ["apply"; "-f"; certmanagerURL certmanagerVersion].
Definition waitWebhook : Cmd :=
  Command "kubectl" ["wait"; "deployment.apps/cert-manager-webhook"; "--for"; "condition=Available";
                     "--namespace"; "cert-manager"; "--timeout"; "5m"].

Definition InstallCertManager t : state * option (UtilsError E) :=
  match Run applyManifest t with
  | (t, (_, Some e)) => (t, Some e)
  | (t, (_, None)) => let '(t, (_, err)) := Run waitWebhook t in (t, err)
  end.

Definition IsCertManagerCRDsInstalled t : state * bool :=
  match Run (Command "kubectl" ["get"; "crds"]) t with
  | (t, (_, Some _)) => (t, false)
  | (t, (output, None)) =>
    let crdList := GetNonEmptyLines output in
    (t, existsb (λ crd, existsb (λ line, StrContains line crd) crdList) certManagerCRDs)
  end.

Definition LoadImageToKindClusterWithName (name : string) t : state * option (UtilsError E) :=
  let cluster := default defaultKindCluster (sys_LookupEnv sys "KIND_CLUSTER" (sysState t)) in
  let kindBinary := default defaultKindBinary (sys_LookupEnv sys "KIND" (sysState t)) in
  let '(t, (_, err)) := Run (Command kindBinary ["load"; "docker-image"; name; "--name"; cluster]) t in (t, err).

(** *** [UncommentCode] *)

(** The loop over the lines: [text] is the current token, [rest] what the scanner has left.
    Every token takes a byte of [rest], so its length is enough fuel. *)
Fixpoint uncomment_go (fuel : nat) (prefix text : string) (rest : list ascii) (out : string) : string :=
  let out := out +:+ TrimPrefix text prefix in
  match fuel, Scan rest with
  | S fuel, Some (text, rest) => uncomment_go fuel prefix text rest (out +:+ String newline "")
  | _, _ => out
  end.

Definition UncommentCode (filename target prefix : string) t : state * option (UtilsError E) :=
  match sys_ReadFile sys filename (sysState t) with
  | Err e => (t, Some (ErrUtilsRead filename e))
  | Ok content =>
    match Index content target with
    | None => (t, Some (ErrUtilsNotFound target))
    | Some idx =>
      let out := of_bytes (take idx (bytes content)) in
      match Scan (bytes target) with
      | None => (t, None)
      | Some (text, rest) =>
        let out := uncomment_go (length rest) prefix text rest out in
        let out := out +:+ of_bytes (drop (idx + String.length target) (bytes content)) in
        let '(w, err) := sys_WriteFile sys filename out 420 (sysState t) in
        (MkT w (ginkgo t), ErrUtilsWrite filename <$> err)
      end
    end
  end.
End utils.

(** ** Searching *)
Lemma take_prefix {A} (sub l : list A) : take (length sub) l = sub ↔ ∃ q, l = sub ++ q.
Proof.
  split; [|intros [q ->]; apply take_app_length].
  intros Ht. exists (drop (length sub) l). rewrite <- Ht at 1. by rewrite take_drop.
Qed.

Lemma index_go_some sub l : is_Some (index_go sub l) ↔ ∃ p q, l = p ++ sub ++ q.
Proof.
  induction l as [|c l IH]; cbn [index_go]; case_bool_decide as Ht; rewrite take_prefix in Ht.
  1,3: split; [intros _; destruct Ht as [q ->]; by exists [], q|by eexists].
  - split; [by intros [? ?]|]. intros ([|] & q & Hp); [|done]. destruct Ht. by exists q.
  - rewrite fmap_is_Some, IH. split.
    + intros (p & q & ->). by exists (c :: p), q.
    + intros ([|d p] & q & Hp); [destruct Ht; by exists q|]. injection Hp as _ ->. by exists p, q.
Qed.

(** The first occurrence is found. *)
Definition first_occurrence (sub pre post : list ascii) : Prop :=
  ∀ p q, pre ++ sub ++ post = p ++ sub ++ q → (length pre <= length p)%nat.

Lemma index_go_first sub pre post :
  first_occurrence sub pre post → index_go sub (pre ++ sub ++ post) = Some (length pre).
Proof.
  induction pre as [|c pre IH]; intros Hf.
  - destruct sub as [|s sub]; cbn [app]; [by destruct post|]. cbn [index_go]. rewrite bool_decide_eq_true_2; [done|].
    apply (take_app_length (s :: sub) post).
  - cbn [app index_go]. rewrite bool_decide_eq_false_2.
    + rewrite IH; [done|]. intros p q Hpq. specialize (Hf (c :: p) q). cbn in Hf. rewrite Hpq in Hf. specialize (Hf eq_refl). lia.
    + rewrite take_prefix. intros [q Hq]. specialize (Hf [] q Hq). cbn in Hf. lia.
Qed.

(** What contains no separator is found in one of the pieces. *)
Lemma app_sep (sep : ascii) sub p q l1 l2 :
  sep ∉ sub → sub ≠ [] → p ++ sub ++ q = l1 ++ sep :: l2 →
  (∃ q', l1 = p ++ sub ++ q') ∨ (∃ p', l2 = p' ++ sub ++ q).
Proof.
  intros Hsep Hne Heq. apply app_eq_app in Heq as (k & [[-> Hk]|[-> Hk]]).
  - destruct k as [|c k]; [|right; injection Hk as _ ->; by exists k]. cbn in Hk. destruct sub as [|s sub]; [done|].
    injection Hk as -> _. set_solver.
  - left. apply app_eq_app in Hk as (k2 & [[-> Hk2]|[-> Hk2]]); [|by exists k2].
    destruct k2 as [|c k2]; [exists []; by rewrite !app_nil_r|]. injection Hk2 as -> _. set_solver.
Qed.

Lemma split_contains sep sub l :
  sep ∉ sub → sub ≠ [] →
  (∃ p q, l = p ++ sub ++ q) ↔ ∃ e, e ∈ split_go sep [] l ∧ ∃ p q, e = p ++ sub ++ q.
Proof.
  intros Hsep Hne. remember (length l) as n eqn:Hn. revert l Hn. induction n as [n IH] using lt_wf_ind. intros l ->.
  destruct (decide (sep ∈ l)) as [Hin|Hin].
  - apply list_elem_of_split_l in Hin as (l1 & l2 & -> & Hl1). rewrite split_go_sep by done. cbn [reverse app].
    specialize (IH (length l2) ltac:(rewrite length_app; cbn; lia) l2 eq_refl). split.
    + intros (p & q & Heq). apply eq_sym, app_sep in Heq as [[q' ->]|[p' ->]]; [| |done|done].
      * eexists. split; [by left|]. by exists p, q'.
      * destruct IH as [IH _]. destruct IH as (e & He & Hpq); [by exists p', q|]. exists e. split; [by right|done].
    + intros (e & [->|He]%elem_of_cons & Hpq).
      * destruct Hpq as (p & q & Hpq). cbn in Hpq. subst l1. exists p, (q ++ sep :: l2). by rewrite <- !app_assoc.
      * destruct IH as [_ IH]. destruct IH as (p & q & ->); [by exists e|]. exists (l1 ++ sep :: p), q. by rewrite <- app_assoc.
  - rewrite split_go_last by done. cbn [reverse app]. setoid_rewrite list_elem_of_singleton. naive_solver.
Qed.

Lemma StrContains_spec s sub : StrContains s sub = true ↔ ∃ p q, bytes s = p ++ bytes sub ++ q.
Proof. unfold StrContains, Index. by rewrite bool_decide_eq_true, index_go_some. Qed.

Lemma GetNonEmptyLines_contains output sub :
  newline ∉ bytes sub → sub ≠ "" →
  existsb (λ line, StrContains line sub) (GetNonEmptyLines output) = StrContains output sub.
Proof.
  intros Hnl Hne. apply eq_true_iff_eq. rewrite existsb_exists, StrContains_spec.
  rewrite (split_contains newline) by (done || by rewrite bytes_nil). unfold GetNonEmptyLines, Split. split.
  - intros (x & Hx & Hc). apply StrContains_spec in Hc. apply list_elem_of_In, list_elem_of_filter in Hx as [_ Hx].
    apply list_elem_of_fmap in Hx as (e & -> & He). exists e. by rewrite bytes_of_bytes in Hc.
  - intros (e & He & Hpq). exists (of_bytes e). rewrite StrContains_spec, bytes_of_bytes. split; [|done].
    apply list_elem_of_In, list_elem_of_filter. split; [|by apply list_elem_of_fmap_2].
    destruct Hpq as (p & q & ->). rewrite <- bytes_nil, bytes_of_bytes. rewrite <- bytes_nil in Hne.
    by intros [_ [? _]%app_eq_nil]%app_eq_nil.
Qed.

(** ** Commands *)
Section commands.
Context {W E : Type} (sys : Sys W E).
Implicit Types (t : TState W E).

(** The commands on the report *)
Definition ran (r : Report E) : option string := match r with RepRunning c => Some c | _ => None end.

Definition command_line (c : Cmd) : string := String.concat " " (cmdArgs c).

Lemma Run_ran cmd t : omap ran (ginkgo (Run sys cmd t).1) = omap ran (ginkgo t) ++ [command_line cmd].
Proof.
  unfold Run. destruct (GetProjectDir sys t) as [dir err], (sys_Chdir sys dir _) as [w [e|]]; cbn [report sysState ginkgo cmdArgs];
    destruct (sys_CombinedOutput sys _ _) as [w' [out oe]]; cbn [fst ginkgo]; by rewrite !omap_app, ?app_nil_r.
Qed.

Lemma run_warn_ran cmd t : omap ran (ginkgo (run_warn sys cmd t)) = omap ran (ginkgo t) ++ [command_line cmd].
Proof.
  rewrite <- Run_ran. unfold run_warn. destruct (Run sys cmd t) as [t' [out [e|]]]; [|done].
  cbn [warnError report ginkgo fst]. by rewrite omap_app, app_nil_r.
Qed.

(** *** The uninstallation runs all its commands, in order, whichever of them fail. *)
Lemma Uninstall_complete t :
  omap ran (ginkgo (UninstallCertManager sys t)) =
    omap ran (ginkgo t) ++ command_line deleteManifest :: (command_line ∘ deleteLease <$> kubeSystemLeases).
Proof. unfold UninstallCertManager. cbn [foldl kubeSystemLeases]. by rewrite !run_warn_ran, <- !app_assoc. Qed.

(** *** The installation waits for the webhook exactly when the manifest was applied. *)
Lemma Install_waits t :
  omap ran (ginkgo (InstallCertManager sys t).1) = omap ran (ginkgo t) ++ command_line applyManifest ::
    (if decide ((Run sys applyManifest t).2.2 = None) then [command_line waitWebhook] else []).
Proof.
  unfold InstallCertManager. pose proof (Run_ran applyManifest t) as Hr.
  destruct (Run sys applyManifest t) as [t1 [out [e|]]]; cbn [fst snd] in *; [by rewrite Hr|].
  pose proof (Run_ran waitWebhook t1) as Hw. destruct (Run sys waitWebhook t1) as [t2 [out2 e2]]. cbn [fst] in *.
  rewrite Hw, Hr, <- app_assoc. done.
Qed.

(** *** The lines play no part in the search for the CRDs. *)
Lemma CRDs_installed t :
  (IsCertManagerCRDsInstalled sys t).2 = true ↔
    ∃ output, (Run sys (Command "kubectl" ["get"; "crds"]) t).2 = (output, None) ∧
      ∃ crd, crd ∈ certManagerCRDs ∧ StrContains output crd = true.
Proof.
  unfold IsCertManagerCRDsInstalled. destruct (Run sys _ t) as [t1 [out [e|]]]; cbn [snd]; [naive_solver|].
  assert (Forall (λ crd, newline ∉ bytes crd ∧ crd ≠ "") certManagerCRDs) as Hcrds by by apply (bool_decide_unpack _).
  rewrite existsb_exists. rewrite Forall_forall in Hcrds. split.
  - intros (crd & Hin%list_elem_of_In & Hc). exists out. split; [done|]. exists crd. split; [done|].
    destruct (Hcrds crd Hin). by rewrite GetNonEmptyLines_contains in Hc.
  - intros (output & [= <-] & crd & Hin & Hc). exists crd. split; [by apply list_elem_of_In|].
    destruct (Hcrds crd Hin). by rewrite GetNonEmptyLines_contains.
Qed.
End commands.

(** ** Lines *)
Lemma break_line_sep line rest : newline ∉ line → break_line (line ++ newline :: rest) = (line, rest).
Proof.
  induction line as [|c line IH]; intros Hn; cbn [app break_line]; [by rewrite bool_decide_eq_true_2|].
  rewrite bool_decide_eq_false_2 by set_solver. by rewrite IH by set_solver.
Qed.

Lemma break_line_last line : newline ∉ line → break_line line = (line, []).
Proof.
  induction line as [|c line IH]; intros Hn; cbn [break_line]; [done|].
  rewrite bool_decide_eq_false_2 by set_solver. by rewrite IH by set_solver.
Qed.

Lemma break_line_shorter c l : (length (break_line (c :: l)).2 <= length l)%nat.
Proof.
  revert c. induction l as [|d l IH]; intros c; cbn [break_line]; case_bool_decide; try done.
  specialize (IH d). cbn [break_line] in IH. destruct (if bool_decide (d = newline) then _ else _) as [line rest]. cbn in *. lia.
Qed.

Lemma Scan_shorter rest text rest' : Scan rest = Some (text, rest') → (length rest' < length rest)%nat.
Proof.
  unfold Scan. destruct rest as [|c l]; [done|]. pose proof (break_line_shorter c l) as Hl.
  destruct (break_line (c :: l)) as [line r]. destruct (_ <=? _); [done|]. intros [= _ <-]. cbn in *. lia.
Qed.

Lemma uncomment_fuel n m prefix text rest out :
  (length rest <= n)%nat → (length rest <= m)%nat → uncomment_go n prefix text rest out = uncomment_go m prefix text rest out.
Proof.
  revert m text rest out. induction n as [|n IH]; intros [|m] text rest out Hn Hm; cbn [uncomment_go]; try done.
  1,2: destruct rest; [done|cbn in *; lia].
  destruct (Scan rest) as [[text' rest']|] eqn:Hs; [|done]. apply Scan_shorter in Hs. apply IH; lia.
Qed.

(** *** A commented block *)

(** A line that the scanner hands out as it is *)
Definition scans (line : list ascii) : Prop :=
  newline ∉ line ∧ last line ≠ Some carriage_return ∧ Z.of_nat (length line) < MaxScanTokenSize.

Lemma Scan_sep line rest : scans line → Scan (line ++ newline :: rest) = Some (of_bytes line, rest).
Proof.
  intros (Hn & Hcr & Hlen). unfold Scan. destruct (line ++ newline :: rest) eqn:E; [by destruct line|]. rewrite <- E.
  rewrite break_line_sep by done. unfold dropCR. rewrite bool_decide_eq_false_2 by done.
  destruct (Z.leb_spec MaxScanTokenSize (Z.of_nat (length line))); [lia|done].
Qed.

Lemma Scan_last line : scans line → line ≠ [] → Scan line = Some (of_bytes line, []).
Proof.
  intros (Hn & Hcr & Hlen) Hne. unfold Scan. destruct line as [|c line]; [done|].
  rewrite break_line_last by done. unfold dropCR. rewrite bool_decide_eq_false_2 by done.
  destruct (Z.leb_spec MaxScanTokenSize (Z.of_nat (length (c :: line)))); [lia|done].
Qed.

Lemma length_bytes s : String.length s = length (bytes s).
Proof. induction s as [|c s IH]; [done|]. cbn. by f_equal. Qed.

Definition joined (ls : list string) : string := String.concat (String newline "") ls.

Lemma joined_cons l ls : ls ≠ [] → joined (l :: ls) = l +:+ String newline (joined ls).
Proof. by destruct ls. Qed.

(** The lines [ls] behind [prefix], with [final] behind the last one *)
Definition commented (prefix : string) (ls : list string) (final : string) : string :=
  joined (String.append prefix <$> ls) +:+ final.

(** What the scanner gives up on: nothing, or a line that does not fit its buffer *)
Definition given_up (l : list ascii) : Prop := l = [] ∨ MaxScanTokenSize <= Z.of_nat (length (break_line l).1).

Lemma Scan_None l : Scan l = None ↔ given_up l.
Proof.
  unfold given_up, Scan. destruct l as [|c l]; [by split; [left|]|]. destruct (break_line (c :: l)) as [line rest]. cbn [fst].
  destruct (Z.leb_spec MaxScanTokenSize (Z.of_nat (length line))); naive_solver lia.
Qed.

Lemma TrimPrefix_app p s : TrimPrefix (p +:+ s) p = s.
Proof.
  unfold TrimPrefix. assert (HasPrefix (p +:+ s) p = true) as ->.
  { unfold HasPrefix. induction p as [|c p IH]; [by destruct s|]. change (String c p +:+ s) with (String c (p +:+ s)). cbn [String.prefix]. destruct (ascii_dec c c); [exact IH|done]. }
  by rewrite bytes_app, length_bytes, drop_app_length, of_bytes_bytes.
Qed.

Section block.
Context (prefix final : string) (lost : list ascii).
Context (Hprefix : prefix ≠ "") (Hfinal : bytes final = [] ∧ lost = [] ∨ bytes final = newline :: lost) (Hlost : given_up lost).

Lemma bytes_app_ne l : bytes (prefix +:+ l) ≠ [].
Proof. rewrite bytes_app. intros [Hp _]%app_eq_nil. by apply bytes_nil in Hp. Qed.

Lemma commented_cons l ls :
  ls ≠ [] → bytes (commented prefix (l :: ls) final) = bytes (prefix +:+ l) ++ newline :: bytes (commented prefix ls final).
Proof.
  intros Hls. unfold commented. rewrite fmap_cons, joined_cons by by destruct ls.
  rewrite !bytes_app.
  match goal with |- context [bytes (String newline ?x)] => change (bytes (String newline x)) with (newline :: bytes x) end.
  by rewrite <- !app_assoc.
Qed.

(** What the scanner has left when the lines [ls] are still to come *)
Definition left_over (ls : list string) : list ascii :=
  match ls with [] => lost | _ => bytes (commented prefix ls final) end.

Lemma commented_scan l ls :
  scans (bytes (prefix +:+ l)) → Scan (bytes (commented prefix (l :: ls) final)) = Some (prefix +:+ l, left_over ls).
Proof.
  intros Hl. destruct ls as [|l' ls].
  - unfold commented, joined. cbn [fmap list_fmap String.concat left_over]. rewrite bytes_app.
    destruct Hfinal as [[-> ->]| ->].
    + rewrite app_nil_r, Scan_last by (done || apply bytes_app_ne). by rewrite of_bytes_bytes.
    + rewrite Scan_sep by done. by rewrite of_bytes_bytes.
  - rewrite commented_cons, Scan_sep by done. by rewrite of_bytes_bytes.
Qed.

Lemma uncomment_block ls : ∀ l out fuel,
  Forall (λ l, scans (bytes (prefix +:+ l))) ls → (length (left_over ls) <= fuel)%nat →
  uncomment_go fuel prefix (prefix +:+ l) (left_over ls) out = out +:+ joined (l :: ls).
Proof.
  induction ls as [|l' ls IH]; intros l out fuel Hls Hf.
  - pose proof (proj2 (Scan_None _) Hlost) as Hs. destruct fuel; cbn [uncomment_go left_over]; by rewrite ?Hs, TrimPrefix_app.
  - apply Forall_cons in Hls as [Hl' Hls]. pose proof (commented_scan l' ls Hl') as Hs. pose proof (Scan_shorter _ _ _ Hs) as Hlen.
    cbn [left_over] in Hf |- *. destruct fuel as [|fuel]; [lia|].
    cbn [uncomment_go]. rewrite Hs, TrimPrefix_app, IH by (done || lia). rewrite (joined_cons l) by done.
    by rewrite <- !string_app_assoc.
Qed.
End block.

(** C37. [UncommentCode] undoes a comment.  When the file can be read and holds the block of
    commented lines, its first occurrence is replaced by the lines without the prefix, and
    everything around it is written back as it was.  But a line break at the end of the
    target is lost, so that the last line runs into what follows it; and so is, without
    an error, everything from a line of 64 KiB or more on. *)
Theorem UncommentCode_correct {W E} (sys : Sys W E) filename prefix ls final lost pre post t :
  prefix ≠ "" → bytes final = [] ∧ lost = [] ∨ bytes final = newline :: lost → given_up lost →
  ls ≠ [] → Forall (λ l, scans (bytes (prefix +:+ l))) ls →
  sys_ReadFile sys filename (sysState t) = Ok (pre +:+ commented prefix ls final +:+ post) →
  first_occurrence (bytes (commented prefix ls final)) (bytes pre) (bytes post) →
  UncommentCode sys filename (commented prefix ls final) prefix t =
    let '(w, err) := sys_WriteFile sys filename (pre +:+ joined ls +:+ post) 420 (sysState t) in
    (MkT w (ginkgo t), ErrUtilsWrite filename <$> err).
Proof.
  intros Hprefix Hfinal Hlost Hne Hls Hread Hfirst. unfold UncommentCode. rewrite Hread. unfold Index. rewrite !bytes_app.
  rewrite index_go_first by done. destruct ls as [|l ls]; [done|]. apply Forall_cons in Hls as [Hl Hls].
  rewrite (commented_scan prefix final lost) by done. rewrite take_app_length, of_bytes_bytes.
  rewrite uncomment_block by done. rewrite <- drop_drop, drop_app_length, length_bytes.
  by rewrite drop_app_length, of_bytes_bytes, <- string_app_assoc.
Qed.

(** A target that the file does not contain is an error, and the file is left alone. *)
Lemma Uncomment_missing {W E} (sys : Sys W E) filename target prefix content t :
  sys_ReadFile sys filename (sysState t) = Ok content →
  ¬ (∃ p q, bytes content = p ++ bytes target ++ q) ↔
    UncommentCode sys filename target prefix t = (t, Some (ErrUtilsNotFound target)).
Proof.
  intros Hread. unfold UncommentCode, Index. rewrite Hread, <- index_go_some.
  destruct (index_go (bytes target) (bytes content)) as [n|]; [|split; [done|by intros _ [? ?]]].
  split; [intros Hn; destruct Hn; by eexists|]. destruct (Scan _) as [[text rest]|]; [|done].
  destruct (sys_WriteFile sys filename _ _ _) as [w [e|]]; done.
Qed.
