(* ===== verification/LoopWitnesses.v ===== *)
(** * Concrete runs of the work queue, of start-up and of the test helpers

    The theorems of Effects.v, WorkQueue.v, Settling.v and TestUtils.v at concrete inputs:
    two Services are created, the API server fails once, and the worker goes on until
    nothing is left to do; a commented block of a file is uncommented.  Two runs show
    what the code does not do: a status that somebody clears is not written again, and
    with a prefix length below 32 the kernel may take away the address of another
    Service. *)
From S2P Require Import Prelude GoStrings GoSort NetIP Kube Client Provider IPAM Status Backends Store Render ExternalIPs Engine.
From S2P Require Import FilePath Apply IPAttach Config Metrics Controller Convergence Effects WorkQueue DataplaneConfig Dataplane.
From S2P Require Import DataplaneMain Progress Settling TestUtils Witnesses.
Local Open Scope Z_scope.
#[local] Existing Instance insertion_gosort.
#[local] Existing Instance list_finalizers.
#[local] Existing Instance Fake.fake_spec.
#[local] Existing Instance Mock.mock_spec.
#[local] Existing Instance zero_names.
#[local] Existing Instance ascii_case.
#[local] Existing Instance prefix_ok_dec.

Notation test_loop := (loop (Wc:=Fake.Cluster) (Wp:=gmap ServiceRef Service)).
Notation turn k := (work Fake.client Mock.provider test_config show_port (key k)).
Notation test_step := (loop_step Fake.client Mock.provider test_config show_port).
Notation user_step := (test_step (user_change test_config)).

(** ** A run *)
Definition changed_loop (c : Fake.Cluster) (l : test_loop) : test_loop :=
  MkLoop (queue l ∪ service_requests (stored Fake.client (lworld l)) (cs_services c))
    (missed l ∪ service_missed (stored Fake.client (lworld l)) (cs_services c)) (set_cluster (lworld l) c).

Definition created_loop (c : Fake.Cluster) : test_loop := changed_loop c (started Fake.client start_world).

Lemma created_step c :
  map_Forall (λ _ s, ksIngress s = []) (Fake.view c) → cs_slices_of c = cs_slices_of (cluster start_world) →
  user_step (started Fake.client start_world) (created_loop c).
Proof.
  intros Hfresh Hsl. apply (loop_services _ _ _ _ _ c (started Fake.client start_world)); [|exact Hsl].
  cbn [lworld started]. rewrite start_empty. split.
  - intros k s' Hk. rewrite lookup_empty. exact (Hfresh k s' Hk).
  - intros k s Hs. rewrite lookup_empty in Hs. discriminate Hs.
Qed.

Lemma turn_step allowed k (l : test_loop) : bool_decide (key k ∈ queue l) = true → test_step allowed l (turn k l).
Proof. intros Hk. apply loop_work. by apply bool_decide_eq_true in Hk. Qed.

(** What users are allowed is something. *)
Lemma user_anything (l l' : test_loop) : rtc user_step l l' → rtc (test_step anything) l l'.
Proof.
  apply rtc_subrel. intros l1 l2 [k l0 Hk|c' l0 _ Hsl|c' ch l0 Hs Hch];
    [by apply loop_work|by apply loop_services|by apply loop_slices].
Qed.

(** The first turn fails in the middle; the request is repeated. *)
Definition failed_loop : test_loop := turn "web" (created_loop created).
Definition web_loop : test_loop := turn "web" failed_loop.
Definition idle_loop : test_loop := turn "api" web_loop.

Example failed_kept : bool_decide (key "web" ∈ queue failed_loop) = true.
Proof. vm_compute. reflexivity. Qed.

Lemma web_loop_run : rtc user_step (started Fake.client start_world) web_loop.
Proof.
  eapply rtc_l; [apply (created_step created created_fresh); vm_compute; reflexivity|].
  eapply rtc_l; [apply (turn_step _ "web"); vm_compute; reflexivity|].
  eapply rtc_l; [apply (turn_step _ "web"); exact failed_kept|]. apply rtc_refl.
Qed.

Lemma idle_loop_run : rtc user_step (started Fake.client start_world) idle_loop.
Proof. eapply rtc_r; [exact web_loop_run|]. apply (turn_step _ "api"). vm_compute. reflexivity. Qed.

Lemma no_change_lost_witness : in_order Fake.client Mock.provider test_config show_port (key "web") (lworld web_loop).
Proof.
  assert (key "web" ∉ queue web_loop) as Hk by (apply (bool_decide_unpack _); vm_compute; exact I).
  assert (key "web" ∉ missed web_loop) as Hm by (apply (bool_decide_unpack _); vm_compute; exact I).
  exact (proj1 (no_change_lost Fake.client Mock.provider test_config show_port start_world web_loop (key "web")
    test_pool_ok eq_refl (user_anything _ _ web_loop_run)) Hk Hm ltac:(discriminate)).
Defined.

Lemma idle_queue : queue idle_loop = ∅ ∧ missed idle_loop = ∅.
Proof. split; apply (bool_decide_unpack _); vm_compute; exact I. Qed.

Lemma idle_exact_witness :
  size (held Mock.provider (lworld idle_loop)) = 2%nat ∧
  unique_ips (LoadBalancerClass test_config) (IPPool test_config) (stored Fake.client (lworld idle_loop)).
Proof.
  split; [vm_compute; reflexivity|].
  assert (map_Forall (λ _ s, ksName s ≠ "") (Fake.view (cluster (lworld idle_loop)))) as Hn
    by (apply (bool_decide_unpack _); vm_compute; exact I).
  exact (proj2 (idle_exact Fake.client Mock.provider test_config show_port start_world idle_loop
    test_pool_ok eq_refl start_inv_ok idle_loop_run (proj1 idle_queue) (proj2 idle_queue) Hn)).
Defined.

(** ** A status that somebody else clears is not written again. *)
Definition cleared : Fake.Cluster :=
  Fake.cluster_of [set_finalizers web [serviceFinalizer]; managed_service "api" []] [web_slice ["10.1.0.2"]] [].
Definition cleared_loop : test_loop := changed_loop cleared idle_loop.

Lemma cleared_run : rtc (test_step anything) (started Fake.client start_world) cleared_loop.
Proof.
  eapply rtc_r; [apply user_anything, idle_loop_run|].
  apply (loop_services _ _ _ _ _ cleared idle_loop); [exact I|vm_compute; reflexivity].
Qed.

(** The update of the status passes no filter: the queue stays empty, and the Service
    stays without its address. *)
Lemma cleared_status_stays :
  rtc (test_step anything) (started Fake.client start_world) cleared_loop ∧
  queue cleared_loop = ∅ ∧ key "web" ∈ missed cleared_loop ∧
  ¬ in_order Fake.client Mock.provider test_config show_port (key "web") (lworld cleared_loop).
Proof.
  split; [exact cleared_run|]. split; [apply (bool_decide_unpack _); vm_compute; exact I|].
  split; [apply (bool_decide_unpack _); vm_compute; exact I|]. intros Ho.
  assert (stored Fake.client (lworld cleared_loop) !! key "web" = Some (set_finalizers web [serviceFinalizer])) as Hs
    by (vm_compute; reflexivity).
  destruct (Ho _ Hs) as [Hl _]. destruct Hl as (a & _ & _ & (i & Hi & _) & _); [split; vm_compute; reflexivity|]. discriminate Hi.
Qed.

(** ** Two Services are given one address by hand. *)
Definition doubled : Fake.Cluster := Fake.cluster_of [managed_service "web" [MkIngress "10.0.0.1" ""]; api] [] [].
Definition doubled_world : TestWorld := set_cluster start_world doubled.
Definition separated : TestWorld := (reconcile (key "api") (reconcile (key "web") doubled_world).1).1.

Lemma doubled_keys : map_Forall (λ k _, k = key "web" ∨ k = key "api") (Fake.view doubled).
Proof. apply (bool_decide_unpack _). vm_compute. exact I. Qed.

Lemma reconcile_no_duplicates_witness :
  (ksIngress <$> stored Fake.client doubled_world !! key "web") = (ksIngress <$> stored Fake.client doubled_world !! key "api") ∧
  unique_ips (LoadBalancerClass test_config) (IPPool test_config) (stored Fake.client separated).
Proof.
  split; [vm_compute; reflexivity|].
  assert ((reconcile (key "web") doubled_world).2 = Ok (MkResult 0)) as H1 by (vm_compute; reflexivity).
  assert ((reconcile (key "api") (reconcile (key "web") doubled_world).1).2 = Ok (MkResult 0)) as H2 by (vm_compute; reflexivity).
  pose proof (run_start Fake.client Mock.provider test_config show_port (λ _, False) start_world) as R.
  apply (run_change _ _ _ _ _ _ _ _ doubled) in R.
  apply (λ R, run_reconcile _ _ _ _ _ _ _ _ _ _ _ R (run_result _ _ H1)) in R.
  apply (λ R, run_reconcile _ _ _ _ _ _ _ _ _ _ _ R (run_result _ _ H2)) in R.
  refine (proj2 (reconcile_no_duplicates Fake.client Mock.provider test_config show_port _ start_world _ separated
    test_pool_ok eq_refl _ R) _).
  - intros k1 k2 a _ _ (s & Hs & _). rewrite start_empty in Hs. rewrite lookup_empty in Hs. discriminate Hs.
  - intros k [[[[]|(a & _ & (s & Hs & _) & _)] Hw] Ha].
    destruct (doubled_keys k s Hs) as [->| ->]; [apply Hw|apply Ha]; split; reflexivity.
Defined.

(** ** The controller settles. *)
Lemma mock_works : provider_works Mock.provider (λ _, True) (λ _, True).
Proof.
  split; try done.
  - intros x p _ _. cbn. by rewrite Mock.ensure_result.
  - intros r p _. cbn. unfold Mock.delete_ref. by destruct (p !! r).
Qed.

Definition busy : Fake.Cluster := Fake.cluster_of [web; managed_service "api" []] [web_slice ["10.1.0.2"]] [].

Lemma busy_fresh : map_Forall (λ _ s, ksIngress s = []) (Fake.view busy).
Proof. apply (bool_decide_unpack _). vm_compute. exact I. Qed.

Lemma busy_run : rtc user_step (started Fake.client start_world) (created_loop busy).
Proof. apply rtc_once, created_step; [exact busy_fresh|vm_compute; reflexivity]. Qed.

Lemma busy_room : room Fake.client test_config (lworld (created_loop busy)).
Proof.
  split.
  - intros k s a b [Hs _]%live_services_elem _ _ (i & Hi & _). rewrite (busy_fresh k s Hs) in Hi. destruct (not_elem_of_nil _ Hi).
  - apply (bool_decide_unpack _). vm_compute. exact I.
Qed.

Lemma controller_settles_witness :
  let settled := turns Fake.client Mock.provider test_config show_port [key "web"; key "api"] (created_loop busy) in
  queue settled = ∅ ∧ in_order Fake.client Mock.provider test_config show_port (key "web") (lworld settled).
Proof.
  assert ([key "web"; key "api"] ≡ₚ elements (queue (created_loop busy))) as Hks
    by (apply (bool_decide_unpack _); vm_compute; exact I).
  destruct (controller_settles Fake.client Mock.provider test_config show_port (λ c, Fake.faults c = []) fake_works
    (λ _, True) (λ _, True) mock_works start_world (created_loop busy) [key "web"; key "api"]
    test_pool_ok eq_refl (user_anything _ _ busy_run) (conj eq_refl I) (λ _ _ _ _ _ _, I) busy_room Hks) as [Hq Ho].
  split; [exact Hq|]. intros s Hs. refine (Ho (key "web") s Hs _ (or_introl _) s Hs); [|apply (bool_decide_unpack _); vm_compute; exact I].
  pose proof (cs_keys _ _ _ Hs) as Hk. injection Hk as _ Hn. rewrite Hn. discriminate.
Defined.

(** ** A primary address is deleted.

    A kernel that does not promote secondary addresses: it keeps the addresses in the
    order in which they were added, the first of a subnet is the primary one, and with it
    the whole subnet goes. *)
Definition subnet (p : Prefix) : Z * option Z :=
  (PrefixBits p, match PrefixAddr p with Addr4 x => Some (x / 2 ^ (32 - PrefixBits p)) | _ => None end).

Definition plain_prefixes (w : list Prefix) : gset Prefix := filter prefix_ok (list_to_set w).

Definition plain_add (p : Prefix) (w : list Prefix) : list Prefix := w ++ [p].
Definition plain_del (p : Prefix) (w : list Prefix) : list Prefix :=
  if decide (head (filter (λ q, subnet q = subnet p) w) = Some p) then filter (λ q, subnet q ≠ subnet p) w
  else filter (λ q, q ≠ p) w.

Definition plain_change (f : Prefix → list Prefix → list Prefix) (net : IPNet) (w : list Prefix) :
    list Prefix * result string () :=
  match prefixFromIPNet net with
  | Ok p => (f p w, Ok ())
  | Err _ => (w, Err "invalid")
  end.

Definition plain_netlink : Netlink (list Prefix) () string :=
  MkNetlink _ _ _ (λ _ w, (w, Ok ())) (λ _ w, (w, Ok (Some ∘ prefixToIPNet <$> elements (plain_prefixes w))))
    (λ _, plain_change plain_add) (λ _, plain_change plain_del).

Lemma same_subnet_of p q : prefix_ok p → prefix_ok q → subnet q = subnet p → same_subnet p q.
Proof.
  intros [[Hp _] _] [[Hq _] _]. unfold subnet, same_subnet. destruct (PrefixAddr p), (PrefixAddr q); try done.
  intros [= E1 E2]. split; [done|]. by eexists _, _.
Qed.

Lemma plain_kernel_ok iface : kernel_ok false plain_netlink iface (λ _, True) plain_prefixes.
Proof.
  unfold plain_prefixes. split; cbn [LinkByName AddrList AddrAdd AddrDel plain_netlink].
  - intros w p. by rewrite elem_of_filter; intros [? _].
  - by intros w w' r [= <- <-].
  - intros link w w' r _ [= <- <-]. split; [done|]. intros l [= <-]. exists (elements (plain_prefixes w)). split.
    + induction (elements (plain_prefixes w)) as [|p l IH]; [done|]. cbn. by f_equal.
    + apply set_eq. intros p. by rewrite elem_of_list_to_set, elem_of_elements.
  - intros link p w w' r _ Hp. unfold plain_change. rewrite from_to_IPNet by done. intros [= <- <-]. cbn.
    apply set_eq. intros x. unfold plain_add. rewrite elem_of_union, !elem_of_filter, list_to_set_app. set_solver.
  - intros link p w w' r _ Hp. unfold plain_change. rewrite from_to_IPNet by done. intros [= <- <-]. cbn.
    unfold plain_del. case_decide as Hd.
    + split; [rewrite elem_of_filter, elem_of_list_to_set, list_elem_of_filter; tauto|split].
      * intros x. rewrite !elem_of_filter, !elem_of_list_to_set, list_elem_of_filter. tauto.
      * intros x [Hx Hin]%elem_of_filter Hne. rewrite elem_of_list_to_set in Hin.
        destruct (decide (subnet x = subnet p)) as [E|E]; [right; split; [done|by apply same_subnet_of]|left].
        by rewrite elem_of_filter, elem_of_list_to_set, list_elem_of_filter.
    + split; [rewrite elem_of_filter, elem_of_list_to_set, list_elem_of_filter; tauto|split].
      * intros x. rewrite !elem_of_filter, !elem_of_list_to_set, list_elem_of_filter. tauto.
      * intros x [Hx Hin]%elem_of_filter Hne. rewrite elem_of_list_to_set in Hin. left.
        by rewrite elem_of_filter, elem_of_list_to_set, list_elem_of_filter.
Qed.

Definition plain_applier := host_applier (EI:=AttachError (LinuxError string))
  (applier_of (X:=list Prefix) (scripted "bad") (apply_settings test_dp)).
Definition plain_manager := host_manager (EA:=ApplyError string)
  (netlinkManager (IPAttach.MkConfig true "netlink" "eth0" "ip" 24) (linuxNetlinkClient plain_netlink)).

Definition both_served : Engine (Host (list Prefix)) :=
  foldl (flip (engine_run plain_applier plain_manager)) (MkEngine NewStore (MkHost empty_fs [])) [OpEnsure svc_a; OpEnsure svc_b].
Definition one_deleted : Engine (Host (list Prefix)) * _ := EngineDelete plain_applier plain_manager (Ref svc_a) both_served.

(** With a prefix length of 24 the Delete of the Service with the first address succeeds,
    and the address of the other Service is gone from the interface. *)
Lemma secondary_address_lost :
  kernel_ok false plain_netlink "eth0" (λ _, True) plain_prefixes ∧
  plain_prefixes (rest (host both_served)) = {[MkPrefix (ip 1) 24; MkPrefix (ip 2) 24]} ∧
  one_deleted.2 = Ok true ∧ StoreList (store one_deleted.1) = [normalizeService svc_b] ∧
  plain_prefixes (rest (host one_deleted.1)) = ∅.
Proof.
  split; [apply plain_kernel_ok|].
  split; [apply (bool_decide_unpack _); vm_compute; exact I|].
  split; [vm_compute; reflexivity|]. split; [vm_compute; reflexivity|].
  apply (bool_decide_unpack _); vm_compute; exact I.
Qed.

(** ** The server fails when a signal has come: [main] takes the signal, and the failure is
    not reported. *)
Definition race : list (action (E:=string)) :=
  [ActListening; ActServe; ActSignal; ActFailed "bind"; ActSend; ActTakeSignal; ActShutdown; ActCompleted].

Definition raced : process (E:=string) :=
  MkProcess true true LsSent (Some (Some "bind")) (PrExited 0)
    [(msgListening, None); (msgSignal, None); (msgGraceful, None)].

Lemma raced_run : process_run race raced.
Proof.
  pose proof (process_run_start (E:=string)) as R.
  eapply process_run_step in R; [|by apply ps_listen]. eapply process_run_step in R; [|by apply ps_serve].
  eapply process_run_step in R; [|by apply ps_signal]. eapply process_run_step in R; [|by apply (ps_failed _ "bind")].
  eapply process_run_step in R; [|by eapply ps_send]. eapply process_run_step in R; [|by apply ps_done].
  eapply process_run_step in R; [|by apply ps_shutdown]. eapply process_run_step in R; [|by apply ps_completed].
  exact R.
Qed.

Lemma process_exits_witness : ending race 0 (main_log raced) ∧ main_log raced = [(msgSignal, None); (msgGraceful, None)].
Proof. split; [exact (proj1 (process_exits race raced raced_run) 0 eq_refl)|vm_compute; reflexivity]. Defined.

(** ** A file is edited. *)
Definition file_sys : Sys (gmap string string) string :=
  MkSys (λ _, ("/src/test/e2e", None)) (λ _ w, (w, None)) (λ _, ["HOME=/root"]) (λ _ _, None) (λ _ w, (w, ("", None)))
    (λ name w, match w !! name with Some s => Ok s | None => Err "no such file" end)
    (λ name s _ w, (<[name := s]> w, None)).

Definition nl : string := String newline "".

Definition edited (content : string) : TState (gmap string string) string := MkT {["f" := content]} [].

Lemma UncommentCode_correct_witness :
  UncommentCode file_sys "f" ("#a" +:+ nl +:+ "#b" +:+ nl) "#" (edited ("x" +:+ nl +:+ "#a" +:+ nl +:+ "#b" +:+ nl +:+ "c")) =
    (edited ("x" +:+ nl +:+ "a" +:+ nl +:+ "bc"), None).
Proof.
  assert (Forall (λ l, scans (bytes ("#" +:+ l))) ["a"; "b"]) as Hls.
  { repeat constructor; try (vm_compute; discriminate); apply (bool_decide_unpack _); vm_compute; exact I. }
  assert (first_occurrence (bytes (commented "#" ["a"; "b"] nl)) (bytes ("x" +:+ nl)) (bytes "c")) as Hf.
  { intros [|p1 [|p2 p]] q Hpq; cbn in Hpq |- *; [discriminate Hpq|discriminate Hpq|]. apply le_n_S, le_n_S, Nat.le_0_l. }
  exact (UncommentCode_correct file_sys "f" "#" ["a"; "b"] nl [] ("x" +:+ nl) "c"
    (edited ("x" +:+ nl +:+ "#a" +:+ nl +:+ "#b" +:+ nl +:+ "c"))
    ltac:(discriminate) (or_intror eq_refl) (or_introl eq_refl) ltac:(discriminate) Hls eq_refl Hf).
Defined.

Example installed_crds :
  (IsCertManagerCRDsInstalled
    (MkSys (λ _, ("/src/test/e2e", None)) (λ _ w, (w, None)) (λ _, []) (λ _ _, None)
      (λ c w, (w, ("NAME" +:+ nl +:+ "issuers.cert-manager.io  2026" +:+ nl, None))) (λ _ _, Err "") (λ _ _ _ w, (w, None)))
    (MkT () [] : TState () string)).2 = true.
Proof. vm_compute. reflexivity. Qed.
